(* ===== verification/_CoqProject ===== *)
-Q . S2P
Prelude.v
Checksum.v
EthParser.v
ArpParser.v
IpParser.v
Ipv6Parser.v
TcpUdpParser.v
IcmpParser.v
Bpf.v
Text.v
Literals.v
FilterCore.v
Lexing.v
BoolParser.v
FrontEnd.v
CapLexer.v
CapParser.v
CapCodegen.v
CapFilter.v
CapPrint.v
DispLexer.v
DispParser.v
DispCopies.v
DispFilter.v
PacketQueue.v
Pipeline.v
RawSocket.v
RawDevice.v
CaptureBackend.v
Interrupt.v
Backend.v
Console.v
Stats.v
Packet.v
HexDump.v
PacketPrinter.v
Stack.v
FiltersAgree.v
Main.v
Session.v
Traffic.v
TestSuite.v
Fuzz.v
