(* ===== verification/Prelude.v ===== *)
(** * my_wireshark: a verified model of the packet analyzer

    The program captures Ethernet frames from a Linux raw socket, writes them to a .pcap
    file, decodes them layer by layer and prints them.  Two filter languages select
    frames: capture filters ([-f]) are compiled to BPF and run in the kernel, display
    filters ([-Y]) are evaluated on the parsed fields.  Two threads share a bounded queue:
    the capture thread runs the backend and pushes frames, the main thread pops and prints
    them.

    ** Files

    Paths are under src/src/.  A definition has the name of the C or C++ function, type or
    macro it models.

    - Prelude.v (this file): the outcome monad ([Ret], [UB], [Timeout]), fixed-width
      arithmetic, checked buffer reads, resource handles, the interface [SafeParser] of
      the layer parsers, tactics and hints.
    - Checksum.v (c/checksum.c), EthParser.v, ArpParser.v, IpParser.v, Ipv6Parser.v,
      TcpUdpParser.v, IcmpParser.v (c/*_parser.c): one parser each, with its wire format
      as an encoder.
    - Bpf.v (tests/bpf_interp.c): the BPF machine the compiled filters are run on.
    - Text.v, Literals.v: characters, numerals, and the readers and printers of addresses
      (c/dispfilter.c, c/capfilter.c and the *_to_str functions).
    - FilterCore.v, Lexing.v, BoolParser.v, FrontEnd.v: what capfilter.c and dispfilter.c
      share, once: the error context, the node arena, token streams; lexers against a
      longest-match specification; the and/or/not/parenthesis grammar and the parser
      interface [BoolParser], from which soundness and completeness follow for both.
    - CapLexer.v, CapParser.v, CapCodegen.v, CapFilter.v, CapPrint.v (c/capfilter.c): lexer,
      parser, jump-patching code generator, [capfilter_compile], and the listing of
      [capfilter_print] with a reader for it.
    - DispLexer.v, DispParser.v, DispFilter.v (c/dispfilter.c): lexer, parser, evaluator,
      and [dispfilter_compile] with its two heap blocks.  DispCopies.v: the helpers
      dispfilter.c duplicates, over its fixed arrays, refining those of FilterCore.v.
    - PacketQueue.v (cpp/packet_queue.cpp): push, pop and close as steps of critical
      sections, sleeping, waking and notification.  Pipeline.v (main.cpp): the capture
      thread and the main thread at the queue, each doing what its code does next.
    - RawSocket.v, RawDevice.v (c/raw_socket.c): the receive loop over the ring shared
      with the kernel; opening and closing the socket as system calls on descriptors,
      mappings, heap blocks and interface flags.
    - CaptureBackend.v (c/capture_backend_linux.c): [run_impl] with every failure path,
      the .pcap writer, the SIGINT handler and the statistics.  Interrupt.v: the same
      capture as a machine of single steps, interleaved with the kernel and with the handler,
      which runs on the capture thread or, at the same time as the capture, on the main
      thread, and reads [g_active_ctx] in one step and writes into the context in another.
    - Backend.v (c/capture_backend.h, tests/fake_capture_backend.c): the table of backend
      functions, the class [CaptureBackend] of what the program relies on, and its two
      instances, Linux and the replaying backend of the tests.
    - Console.v (main.cpp): the command line and the prompts, with [std::cin] and its bits.
    - Stats.v (main.cpp): the statistics line, in IEEE 754 double precision.
    - Packet.v, HexDump.v, PacketPrinter.v (cpp/packet.cpp and its subclasses,
      cpp/packet_printer.cpp): the packet objects and their texts, the hex dump, and the
      descent through the layers.
    - Stack.v: whole frames as a sender builds them, checksums included.
    - FiltersAgree.v: the two filter languages compared on the same frame.
    - Main.v (main.cpp): [main], which puts all parts together: a [program] is the capture of
      Interrupt.v, the queue and the printer, and a schedule says whose turn it is, the
      capture thread's, the main thread's, the kernel's or SIGINT's.  Session.v: an invariant
      of every schedule, and how a session ends.  Traffic.v: the program together with the
      kernel's filtering of the traffic.
    - TestSuite.v (tests/): the test harness, and the unit tests' fixtures and assertions,
      evaluated on the model.
    - Fuzz.v (fuzz/): the fuzz targets, the replay driver, the seed corpus and its generator.

    ** What is proved

    - Parsers: on every buffer they return without reading outside it; they reject exactly
      the truncated or malformed headers, and otherwise the decoded header re-encodes to
      the bytes it came from.  Encoded Ethernet, ARP and IPv4 headers parse back.
    - Checksums: [checksum_verify] is the RFC 1071 test up to 128 KiB; senders that follow
      the RFCs verify; the corruption of any one byte is detected.
    - Filters: each lexer accepts exactly the longest-match token sequences, each parser
      exactly the sentences of the documented grammar whose tree fits the arena, and each
      compiler is sound (a BPF program that computes the tree on every frame; a tree that
      is evaluated as documented on every packet), complete, and has no other outcome than
      those listed, with its memory accounted for.  The exceptions are an expression of
      exactly 256 tokens, whose end marker both lexers write past the token array, and
      [!=] on a field of a layer the packet does not have, which dispfilter.h says is false
      and the code makes true ([absent_field_ne]); the theorems leave both out and say so.
      Display filter trees are well typed.
    - Queue: first in first out within its bound, no lost wakeup, orderly shutdown, in
      every interleaving.  The two threads: no schedule is longer than a bound in the number
      of frames and of spurious wakeups, none is stuck before both threads are done, and all
      end with the frames printed in order.
    - Ring: in every interleaving with the kernel's documented TPACKET_V3 behaviour, the
      frames handed out are an initial part of those that arrived.
    - Backend: whatever fails, everything acquired is given back; the file decodes to the
      frames received; the attached program computes the filter expression, and a rejected
      one is reported with the compiler's message.  Ctrl+C: a capture it interrupts does what
      the uninterrupted code does with the same frames, and returns within ten steps of its
      own once the handler has run.  The handler on the main thread can come too late and
      write into the freed context; every theorem has that race as an outcome,
      [second_sigint_use_after_free] shows it, and it does not happen when the handler runs on
      the capture thread.  A SIGINT that comes before the handler is installed or after it
      is restored ends the process.
    - Console: whatever is typed, a configuration or a complaint, never a device outside
      the list; the answers to the prompts are read back as they were typed.
    - Printer: no frame makes it read out of bounds; what it shows and what the display
      filter is evaluated on are the addresses and ports at their places in the bytes, in a
      line for the innermost whole header; its checksum verdicts, the IPv4 header's included,
      are those of the one's-complement sums; the dump can be read back.  What a sender put
      on the wire, in any stack of the layers known, is what it shows.
    - Session: the composition of console, ring, backend, Ctrl+C, threads, filter and
      printer, end to end, under every schedule: what a session that has ended has printed and
      written, and that after Ctrl+C it does end, with a bound on the rounds it takes.  Both
      filters: what is printed of the traffic is what the capture filter and the display
      filter ask for, the frames that reached the ring before the capture filter was attached
      apart.
    - Statistics: each number printed is the exact one rounded to one decimal, up to the last
      bits of double precision.
    - Fuzz targets: no input makes one trap, not only those a fuzzer tries.

    ** Conventions and bounds

    Unsigned integers are [Z] with their wrap-around written out ([u8], [u16], [u32]);
    buffers are lists of bytes with the length the code is given.  [UB] stands for what C
    leaves undefined: accesses outside an array, NULL dereferences, freeing what is not
    allocated.  [Timeout] is a loop that outlives the fuel of its model, and theorems say
    that it does not happen: the lexers get the length of the text plus one, the parsers
    [parse_fuel] = 800 (nesting is bounded by the 256 tokens, three calls each), the BPF
    machine the step limit of the source, the carry loop three turns, the hex dump one
    turn per line and one to leave.  A schedule that is over before the threads are makes
    [main] a [Timeout] too; 16425 rounds in which both threads have a turn are enough once
    Ctrl+C has been taken ([most_work]: at most 4096 frames in the queue with four steps each,
    and a few dozen besides).  The theorems on printing assume frames of at most
    64 KiB, the size of the buffer frames are received into.

    What the operating system and the C library answer (system calls, allocation, file
    writes, the clock, the order of the threads) is a parameter.  The kernel's side of the ring is a
    step relation; allocators are assumed to return blocks that are not in use.

    ** Not modelled

    The texts of perror (system messages) and the memory model below the granularity of
    critical sections and of single accesses to [g_active_ctx] and the stop flag.  Signals
    before the socket is open and after the threads have ended, and the second call of
    [run_impl] in one process while another runs.  .pcap files are written in host byte order; the model's host is
    little-endian, and so is the reader it is checked against. *)
From Stdlib Require Export ZArith Lia Ascii.
From stdpp Require Export base list numbers decidable option strings.
From stdpp Require Import options.

Local Open Scope Z_scope.

(** ** Outcomes of C code *)

(** The result of running a piece of C code.  [Ret a] is a normal return;
    [UB] is undefined behaviour (an access outside a buffer, a NULL
    dereference); [Timeout] is a loop or recursion that exceeded the fuel
    given to its model. *)
Inductive outcome (A : Type) : Type :=
| Ret (a : A)
| UB
| Timeout.
Arguments Ret {A} a.
Arguments UB {A}.
Arguments Timeout {A}.

#[export] Instance outcome_ret : MRet outcome := fun A a => Ret a.
#[export] Instance outcome_bind : MBind outcome := fun A B f m =>
  match m with Ret a => f a | UB => UB | Timeout => Timeout end.
#[export] Instance outcome_fmap : FMap outcome := fun A B f m =>
  match m with Ret a => Ret (f a) | UB => UB | Timeout => Timeout end.

Lemma outcome_bind_Ret {A B} (a : A) (f : A -> outcome B) :
  (Ret a ≫= f) = f a.
Proof. reflexivity. Qed.

Lemma outcome_bind_inv {A B} (m : outcome A) (f : A -> outcome B) b :
  m ≫= f = Ret b -> exists a, m = Ret a /\ f a = Ret b.
Proof. destruct m; simpl; intros; simplify_eq; eauto. Qed.

(** ** Machine-width unsigned integers *)

Definition u8 (x : Z) : Z := x mod 2 ^ 8.
Definition u16 (x : Z) : Z := x mod 2 ^ 16.
Definition u32 (x : Z) : Z := x mod 2 ^ 32.

(** Range of a [uint8_t] and of a whole buffer of them. *)
Definition is_byte (b : Z) : Prop := 0 <= b < 256.
Definition is_bytes (l : list Z) : Prop := Forall is_byte l.

#[export] Instance is_byte_dec b : Decision (is_byte b).
Proof. unfold is_byte. apply _. Defined.
#[export] Instance is_bytes_dec l : Decision (is_bytes l).
Proof. unfold is_bytes. apply _. Defined.

(** Length of a buffer as the C code counts it. *)
Definition zlen {A} (l : list A) : Z := Z.of_nat (length l).

(** ** Buffer reads *)

(** [data[i]]: reading outside the allocation is undefined behaviour. *)
Definition rd (data : list Z) (i : Z) : outcome Z :=
  if i <? 0 then UB
  else match data !! Z.to_nat i with Some b => Ret b | None => UB end.

(** [memcpy(dst, data + off, n)]: the bytes copied. *)
Definition rd_bytes (data : list Z) (off n : Z) : outcome (list Z) :=
  if bool_decide (0 <= off /\ 0 <= n /\ off + n <= zlen data)
  then Ret (take (Z.to_nat n) (drop (Z.to_nat off) data))
  else UB.

(** Pointer arithmetic [data + n]: the rest of the buffer. *)
Definition advance (data : list Z) (n : Z) : list Z := drop (Z.to_nat n) data.

(** The byte at [i] of a buffer, for statements about reads in range. *)
Definition byte_at (data : list Z) (i : Z) : Z := nth (Z.to_nat i) data 0.

(** [(uint16_t)((hi << 8) | lo)] and the four-byte analogue. *)
Definition be16 (hi lo : Z) : Z := u16 (Z.lor (Z.shiftl hi 8) lo).
Definition be32 (b0 b1 b2 b3 : Z) : Z :=
  Z.lor (Z.lor (Z.lor (u32 (Z.shiftl b0 24)) (u32 (Z.shiftl b1 16)))
               (u32 (Z.shiftl b2 8))) b3.

Declare Scope wire_scope.
Delimit Scope wire_scope with wire.
Notation "data .[ i ]" := (rd data i) (at level 1, i at level 200) : wire_scope.

(** ** Arithmetic lemmas *)

Create HintDb bytes.
Create Rewrite HintDb zlen.

Lemma u8_range x : is_byte (u8 x).
Proof. unfold is_byte, u8. change 256 with (2 ^ 8). apply Z.mod_pos_bound. lia. Qed.
Lemma u8_small x : is_byte x -> u8 x = x.
Proof. intros H. unfold u8. apply Z.mod_small, H. Qed.
Lemma u16_range x : 0 <= u16 x < 2 ^ 16.
Proof. apply Z.mod_pos_bound. lia. Qed.
Lemma u16_small x : 0 <= x < 2 ^ 16 -> u16 x = x.
Proof. apply Z.mod_small. Qed.
Lemma u32_range x : 0 <= u32 x < 2 ^ 32.
Proof. apply Z.mod_pos_bound. lia. Qed.
Lemma u32_small x : 0 <= x < 2 ^ 32 -> u32 x = x.
Proof. apply Z.mod_small. Qed.

(** A value shifted past [n] bits and or-ed with an [n]-bit value is a sum. *)
Lemma lor_shiftl_add a b n :
  0 <= n -> 0 <= b < 2 ^ n -> Z.lor (Z.shiftl a n) b = a * 2 ^ n + b.
Proof.
  intros Hn Hb.
  assert (Z.land (Z.shiftl a n) b = 0) as Hd.
  { apply Z.bits_inj'. intros m Hm. rewrite Z.land_spec, Z.bits_0.
    destruct (Z.lt_ge_cases m n).
    - by rewrite Z.shiftl_spec_low by lia.
    - destruct (Z.eq_dec b 0) as [->|]; [by rewrite Z.bits_0, andb_false_r|].
      rewrite (Z.bits_above_log2 b m), andb_false_r; [done|lia|].
      apply Z.log2_lt_pow2; [lia|]. eapply Z.lt_le_trans; [apply Hb|].
      apply Z.pow_le_mono_r; lia. }
  rewrite <- Z.shiftl_mul_pow2 by lia.
  rewrite Z.add_nocarry_lxor by done. symmetry. by apply Z.lxor_lor.
Qed.

Lemma land_ones_mod x n : 0 <= n -> Z.land x (2 ^ n - 1) = x mod 2 ^ n.
Proof. intros Hn. rewrite <- Z.land_ones by lia. by rewrite Z.ones_equiv, Z.sub_1_r. Qed.

Lemma land_255 x : Z.land x 255 = x mod 256.
Proof. exact (land_ones_mod x 8 ltac:(lia)). Qed.
Lemma shiftr_8 x : Z.shiftr x 8 = x / 256.
Proof. exact (Z.shiftr_div_pow2 x 8 ltac:(lia)). Qed.

Lemma be16_val hi lo : is_byte hi -> is_byte lo -> be16 hi lo = hi * 256 + lo.
Proof.
  unfold is_byte, be16. intros. rewrite lor_shiftl_add by lia.
  change (2 ^ 8) with 256. apply u16_small. lia.
Qed.

Lemma be16_range hi lo : 0 <= be16 hi lo < 2 ^ 16.
Proof. apply u16_range. Qed.

Lemma be32_val b0 b1 b2 b3 :
  is_byte b0 -> is_byte b1 -> is_byte b2 -> is_byte b3 ->
  be32 b0 b1 b2 b3 = ((b0 * 256 + b1) * 256 + b2) * 256 + b3.
Proof.
  unfold is_byte, be32. intros.
  rewrite !u32_small by (rewrite Z.shiftl_mul_pow2 by lia; lia).
  rewrite <- !Z.lor_assoc.
  rewrite (lor_shiftl_add b2 b3 8), (lor_shiftl_add b1 _ 16), (lor_shiftl_add b0 _ 24); lia.
Qed.

(** ** Reads in range *)

Lemma zlen_app {A} (l k : list A) : zlen (l ++ k) = zlen l + zlen k.
Proof. unfold zlen. rewrite length_app. lia. Qed.
Lemma zlen_cons {A} (x : A) l : zlen (x :: l) = 1 + zlen l.
Proof. unfold zlen. simpl. lia. Qed.
Lemma zlen_nil {A} : zlen (@nil A) = 0.
Proof. reflexivity. Qed.
Lemma zlen_nonneg {A} (l : list A) : 0 <= zlen l.
Proof. unfold zlen. lia. Qed.
Lemma zlen_take {A} (l : list A) n : 0 <= n <= zlen l -> zlen (take (Z.to_nat n) l) = n.
Proof. unfold zlen. rewrite length_take. lia. Qed.
Lemma zlen_advance data n : 0 <= n <= zlen data -> zlen (advance data n) = zlen data - n.
Proof. unfold zlen, advance. rewrite length_drop. lia. Qed.

Lemma rd_in data i : 0 <= i < zlen data -> rd data i = Ret (byte_at data i).
Proof.
  unfold rd, zlen, byte_at. intros Hi. destruct (Z.ltb_spec i 0); [lia|].
  destruct (lookup_lt_is_Some_2 data (Z.to_nat i)) as [b Hb]; [lia|].
  rewrite Hb. f_equal. symmetry. by apply nth_lookup_Some.
Qed.

Lemma rd_out data i : ~ 0 <= i < zlen data -> rd data i = UB.
Proof.
  unfold rd, zlen. intros Hi. destruct (Z.ltb_spec i 0); [done|].
  by rewrite lookup_ge_None_2 by lia.
Qed.

(** Reading just past a prefix reads the next element. *)
Lemma rd_app_head pre x k : rd (pre ++ x :: k) (zlen pre) = Ret x.
Proof.
  unfold rd, zlen. destruct (Z.ltb_spec (Z.of_nat (length pre)) 0); [lia|].
  by rewrite Nat2Z.id, list_lookup_middle.
Qed.

Lemma rd_bytes_in data off n :
  0 <= off -> 0 <= n -> off + n <= zlen data ->
  rd_bytes data off n = Ret (take (Z.to_nat n) (drop (Z.to_nat off) data)).
Proof. intros. unfold rd_bytes. by rewrite bool_decide_eq_true_2. Qed.

Lemma byte_at_is_byte data i : is_bytes data -> is_byte (byte_at data i).
Proof.
  intros Hd. unfold byte_at.
  destruct (decide (Z.to_nat i < length data)%nat) as [Hi|Hi].
  - destruct (lookup_lt_is_Some_2 data _ Hi) as [b Hb].
    rewrite (nth_lookup_Some _ _ _ _ Hb).
    by eapply (Forall_lookup_1 is_byte) in Hb.
  - rewrite nth_overflow by lia. unfold is_byte. lia.
Qed.

Lemma is_bytes_advance data n : is_bytes data -> is_bytes (advance data n).
Proof. apply Forall_drop. Qed.

Lemma byte_at_advance data n i :
  0 <= n -> 0 <= i -> byte_at (advance data n) i = byte_at data (n + i).
Proof.
  intros. unfold byte_at, advance. rewrite !nth_lookup, lookup_drop.
  do 2 f_equal. lia.
Qed.

#[export] Hint Resolve u8_range u16_range u32_range be16_range byte_at_is_byte
  is_bytes_advance zlen_nonneg : bytes.
#[export] Hint Rewrite @zlen_app @zlen_cons @zlen_nil : zlen.

(** Runs the binds of returned values, leaving arithmetic alone. *)
Ltac obind := repeat (rewrite outcome_bind_Ret; cbv beta).
Tactic Notation "obind" "in" hyp(H) :=
  repeat (rewrite outcome_bind_Ret in H; cbv beta in H).

(** Discharges the bounds of every read in the goal and runs the reads. *)
Ltac run_reads :=
  repeat match goal with
  | |- context [mbind ?f (rd ?d ?i)] => rewrite (rd_in d i) by lia; obind
  | |- context [mbind ?f (rd_bytes ?d ?i ?n)] => rewrite (rd_bytes_in d i n) by lia; obind
  end.

(** Computes the bytes, slices and suffixes of a buffer with an explicit prefix. *)
Ltac eval_buffer :=
  repeat match goal with
  | |- context [byte_at ?l ?i] =>
      let v := eval cbv [byte_at nth Z.to_nat Pos.to_nat Pos.iter_op Nat.add] in (byte_at l i) in
      change (byte_at l i) with v
  | |- context [take ?n (drop ?m ?l)] =>
      let v := eval cbv [take drop Z.to_nat Pos.to_nat Pos.iter_op Nat.add] in (take n (drop m l)) in
      change (take n (drop m l)) with v
  | |- context [advance ?l ?i] =>
      let v := eval cbv [advance drop Z.to_nat Pos.to_nat Pos.iter_op Nat.add Z.add Pos.add Pos.succ] in (advance l i) in
      change (advance l i) with v
  end.

(** Splits an equation between concatenations whose heads have equal length. *)
Ltac peel_app E :=
  let E1 := fresh "E" in apply (app_inj_1 _ _) in E as [E1 E]; [|done].

(** Every element of a literal buffer is a byte. *)
Ltac solve_byte :=
  first [ solve [auto with bytes]
        | unfold is_byte; Z.div_mod_to_equations; lia ].
Ltac solve_bytes :=
  unfold is_bytes;
  repeat first [ assumption
               | apply Forall_nil_2
               | apply Forall_app; split; [first [assumption | solve [auto with bytes]]|]
               | apply Forall_cons_2; [solve_byte|] ].

(** Case analysis on the next [match] or [if] of the goal or a hypothesis. *)
Ltac split_goal :=
  match goal with
  | |- context [match ?x with _ => _ end] => destruct x eqn:?
  end.
Ltac split_hyp H :=
  match type of H with
  | context [match ?x with _ => _ end] => destruct x eqn:?
  end.

(** Case analysis on the integer comparisons of the goal. *)
Ltac zcase :=
  match goal with
  | |- context [Z.ltb ?a ?b] => destruct (Z.ltb_spec a b); try lia
  | |- context [Z.leb ?a ?b] => destruct (Z.leb_spec a b); try lia
  | |- context [Z.eqb ?a ?b] => destruct (Z.eqb_spec a b); try lia
  end.

(** ** Text *)

(** C strings are lists of characters without the terminating NUL. *)
Abbreviation text := (list ascii).
Definition lit (s : string) : text := String.list_ascii_of_string s.
Definition code_of (c : ascii) : Z := Z.of_N (N_of_ascii c).

(** ** Layer parsers *)

(** An output argument of a C function: a destination or NULL.  Values written
    through it are part of the model's result. *)
Inductive out_arg := Dest | Null.

(** The [(pointer, length)] pair every parser takes: [len] readable bytes. *)
Definition valid_view (data : list Z) (len : Z) : Prop :=
  is_bytes data /\ 0 <= len <= zlen data /\ len < 2 ^ 32.

#[export] Instance valid_view_dec data len : Decision (valid_view data len).
Proof. unfold valid_view. apply _. Defined.

(** What one layer promises to the next: on every view it returns (never
    [UB] or [Timeout]), and what it accepts satisfies [post]. *)
Class SafeParser {R} (parse : list Z -> Z -> outcome (option R)) (post : R -> Prop) :=
  safe_parser : forall data len, valid_view data len ->
    exists r, parse data len = Ret r /\ forall x, r = Some x -> post x.

Lemma valid_view_advance data len n :
  valid_view data len -> 0 <= n <= len -> valid_view (advance data n) (len - n).
Proof.
  intros (Hb & Hl & H32) Hn. split; [auto with bytes|]. rewrite zlen_advance; lia.
Qed.

Lemma valid_view_shrink data len n :
  valid_view data len -> 0 <= n <= len -> valid_view data n.
Proof. intros (Hb & Hl & H32) Hn. split; [done|lia]. Qed.

Lemma is_bytes_sub data n m : is_bytes data -> is_bytes (take n (drop m data)).
Proof. intros. apply Forall_take, Forall_drop, H. Qed.

Lemma length_sub {A} (data : list A) off n :
  0 <= off -> 0 <= n -> off + n <= zlen data ->
  length (take (Z.to_nat n) (drop (Z.to_nat off) data)) = Z.to_nat n.
Proof. unfold zlen. intros. rewrite length_take, length_drop. lia. Qed.

#[export] Hint Resolve is_bytes_sub valid_view_advance : bytes.

(** ** Wire encoding of integers *)

Definition enc16 (x : Z) : list Z := [x / 256; x mod 256].
Definition enc32 (x : Z) : list Z :=
  [x / 2 ^ 24; x / 2 ^ 16 mod 256; x / 256 mod 256; x mod 256].

Lemma be16_enc16 x : 0 <= x < 65536 -> be16 (x / 256) (x mod 256) = x.
Proof. intros. rewrite be16_val by solve_byte. Z.div_mod_to_equations. lia. Qed.

Lemma enc16_be16 a b : is_byte a -> is_byte b -> enc16 (be16 a b) = [a; b].
Proof.
  intros Ha Hb. rewrite be16_val by done. unfold enc16, is_byte in *.
  repeat f_equal; Z.div_mod_to_equations; lia.
Qed.

Lemma be32_enc32 x :
  0 <= x < 2 ^ 32 ->
  be32 (x / 2 ^ 24) (x / 2 ^ 16 mod 256) (x / 256 mod 256) (x mod 256) = x.
Proof. intros. rewrite be32_val by solve_byte. Z.div_mod_to_equations. lia. Qed.

Lemma enc16_inj x y : 0 <= x < 65536 -> 0 <= y < 65536 -> enc16 x = enc16 y -> x = y.
Proof. unfold enc16. intros. simplify_eq. Z.div_mod_to_equations. lia. Qed.
Lemma enc32_inj x y : 0 <= x < 2 ^ 32 -> 0 <= y < 2 ^ 32 -> enc32 x = enc32 y -> x = y.
Proof.
  unfold enc32. intros Hx Hy E. injection E as E0 E1 E2 E3.
  rewrite <- (be32_enc32 x), <- (be32_enc32 y) by lia. congruence.
Qed.
Lemma length_enc16 x : length (enc16 x) = 2%nat.
Proof. reflexivity. Qed.

Lemma enc16_bytes x : 0 <= x < 65536 -> is_bytes (enc16 x).
Proof. intros. unfold enc16. solve_bytes. Qed.
Lemma enc32_bytes x : 0 <= x < 2 ^ 32 -> is_bytes (enc32 x).
Proof. intros. unfold enc32. solve_bytes. Qed.
#[export] Hint Resolve enc16_bytes enc32_bytes : bytes.

(** ** Cutting a buffer at the offsets a parser reads *)

Lemma advance_0 data : advance data 0 = data.
Proof. reflexivity. Qed.

Lemma advance_cons data i :
  0 <= i < zlen data -> byte_at data i :: advance data (i + 1) = advance data i.
Proof.
  unfold zlen, byte_at, advance. intros Hi.
  destruct (lookup_lt_is_Some_2 data (Z.to_nat i)) as [b Hb]; [lia|].
  rewrite (nth_lookup_Some _ _ _ _ Hb), (drop_S _ _ _ Hb).
  do 2 f_equal. lia.
Qed.

Lemma advance_sub data m n :
  0 <= m -> 0 <= n ->
  take (Z.to_nat n) (drop (Z.to_nat m) data) ++ advance data (m + n) = advance data m.
Proof.
  intros. unfold advance. rewrite Z2Nat.inj_add by lia. rewrite <- drop_drop.
  apply take_drop.
Qed.

(** Reads and copies at the front of a concatenation. *)
Lemma rd_bytes_app pre l post off n :
  off = zlen pre -> n = zlen l -> rd_bytes (pre ++ l ++ post) off n = Ret l.
Proof.
  intros -> ->. pose proof (zlen_nonneg pre). pose proof (zlen_nonneg l).
  pose proof (zlen_nonneg post). rewrite rd_bytes_in; try (autorewrite with zlen; lia).
  unfold zlen. rewrite !Nat2Z.id, drop_app_length, take_app_length. done.
Qed.

Lemma advance_app pre post n : n = zlen pre -> advance (pre ++ post) n = post.
Proof. intros ->. unfold advance, zlen. by rewrite Nat2Z.id, drop_app_length. Qed.

Lemma byte_at_app pre x post i : i = zlen pre -> byte_at (pre ++ x :: post) i = x.
Proof.
  intros ->. unfold byte_at, zlen. rewrite Nat2Z.id. by rewrite nth_middle.
Qed.

(** ** Resources *)

(** The live resources of one kind (heap blocks, descriptors, mappings) by their handles;
    giving back what is not live is undefined behaviour. *)
Abbreviation handles := (list Z).
Definition release (a : Z) (h : handles) : outcome handles :=
  if bool_decide (a ∈ h) then Ret (List.filter (fun b => negb (b =? a)) h) else UB.

Lemma release_fresh a h : a ∉ h -> release a (a :: h) = Ret h.
Proof.
  intros Ha. unfold release. rewrite bool_decide_eq_true_2 by (apply elem_of_cons; by left).
  cbn [List.filter]. rewrite Z.eqb_refl. cbn [negb]. f_equal.
  induction h as [|b h IH]; [done|]. apply not_elem_of_cons in Ha as [Hne Ha]. cbn [List.filter].
  destruct (Z.eqb_spec b a); [congruence|]. cbn [negb]. by rewrite IH.
Qed.
