(* ===== verification/Checksum.v ===== *)
(** * The Internet checksum (src/c/checksum.c)

    [checksum_partial] is the accumulation loop, [fold_carry] the carry-fold
    loop the three verifiers share, and [checksum_verify],
    [checksum_verify_ipv4_pseudo] and [checksum_verify_ipv6_pseudo] the public
    entry points.  The reference is RFC 1071's one's-complement sum
    ([rfc1071_sum]). *)
From S2P Require Import Prelude.
From stdpp Require Import options.

Local Open Scope Z_scope.
Local Open Scope wire_scope.

(** ** Model *)

(** The loop [for (; i + 1 < len; i += 2) sum += (data[i] << 8) | data[i+1]]. *)
Fixpoint partial_loop (fuel : nat) (data : list Z) (len i sum : Z) : outcome (Z * Z) :=
  match fuel with
  | O => Timeout
  | S fuel =>
    if u32 (i + 1) <? len then
      a ← data.[i];
      b ← data.[u32 (i + 1)];
      partial_loop fuel data len (u32 (i + 2))
        (u32 (sum + u32 (Z.lor (Z.shiftl a 8) b)))
    else Ret (i, sum)
  end.

Definition checksum_partial (data : list Z) (len sum : Z) : outcome Z :=
  '(i, sum) ← partial_loop (S (Z.to_nat len)) data len 0 sum;
  if i <? len then
    a ← data.[i];
    Ret (u32 (sum + u32 (Z.shiftl a 8)))
  else Ret sum.

(** The loop [while (sum >> 16) sum = (sum & 0xFFFF) + (sum >> 16)]. *)
Fixpoint fold_carry (fuel : nat) (sum : Z) : outcome Z :=
  match fuel with
  | O => Timeout
  | S fuel =>
    if Z.shiftr sum 16 =? 0 then Ret sum
    else fold_carry fuel (u32 (Z.land sum 0xFFFF + Z.shiftr sum 16))
  end.

(** Two turns of the loop suffice ([fold_carry_two] below); the third unit of
    fuel is the exit test. *)
Definition fold_fuel : nat := 3.

Definition checksum_verify (data : list Z) (len : Z) : outcome bool :=
  sum ← checksum_partial data len 0;
  sum ← fold_carry fold_fuel sum;
  Ret (Z.land sum 0xFFFF =? 0xFFFF).

Definition checksum_verify_ipv4_pseudo (segment : list Z) (segment_len : Z)
    (src_ip dst_ip : list Z) (protocol : Z) : outcome bool :=
  s0 ← src_ip.[0]; s1 ← src_ip.[1]; s2 ← src_ip.[2]; s3 ← src_ip.[3];
  d0 ← dst_ip.[0]; d1 ← dst_ip.[1]; d2 ← dst_ip.[2]; d3 ← dst_ip.[3];
  let pseudo_header :=
    [s0; s1; s2; s3; d0; d1; d2; d3; 0; protocol;
     u8 (Z.shiftr segment_len 8); u8 (Z.land segment_len 0xFF)] in
  sum ← checksum_partial pseudo_header 12 0;
  sum ← checksum_partial segment segment_len sum;
  sum ← fold_carry fold_fuel sum;
  Ret (Z.land sum 0xFFFF =? 0xFFFF).

(** The copy loop over [src_ip]/[dst_ip] moves 16 bytes of each. *)
Definition checksum_verify_ipv6_pseudo (segment : list Z) (segment_len : Z)
    (src_ip dst_ip : list Z) (next_header : Z) : outcome bool :=
  src ← rd_bytes src_ip 0 16;
  dst ← rd_bytes dst_ip 0 16;
  let pseudo_header :=
    src ++ dst ++
    [u8 (Z.shiftr segment_len 24); u8 (Z.shiftr segment_len 16);
     u8 (Z.shiftr segment_len 8); u8 (Z.land segment_len 0xFF);
     0; 0; 0; next_header] in
  sum ← checksum_partial pseudo_header 40 0;
  sum ← checksum_partial segment segment_len sum;
  sum ← fold_carry fold_fuel sum;
  Ret (Z.land sum 0xFFFF =? 0xFFFF).

(** ** Reference: RFC 1071 *)

(** The 16-bit big-endian words of a message, an odd last byte padded. *)
Fixpoint words (l : list Z) : list Z :=
  match l with
  | a :: b :: l => (a * 256 + b) :: words l
  | [a] => [a * 256]
  | [] => []
  end.

(** One's-complement (end-around carry) addition and the sum of a message. *)
Definition onec_add16 (x y : Z) : Z :=
  if x + y <? 65536 then x + y else x + y - 65535.
Definition rfc1071_sum (l : list Z) : Z := foldr onec_add16 0 (words l).

(** The checksum RFC 1071 tells a sender to transmit. *)
Definition rfc1071_checksum (l : list Z) : Z := 65535 - rfc1071_sum l.

(** The plain integer sum of the words. *)
Definition words_sum (l : list Z) : Z := foldr Z.add 0 (words l).

(** A message length up to which the running [uint32_t] sum cannot wrap; twice
    the largest frame the capture path delivers (RAW_SOCKET_MAX_FRAME). *)
Definition max_sum_len : Z := 131072.

(** ** Lemmas *)

(** Induction two elements at a time, as the loop goes. *)
Lemma pairs_ind {A} (P : list A -> Prop) :
  P [] -> (forall a, P [a]) -> (forall a b l, P l -> P (a :: b :: l)) -> forall l, P l.
Proof.
  intros H0 H1 H2.
  exact (fix go l := match l with
                     | [] => H0 | [a] => H1 a | a :: b :: l => H2 a b l (go l)
                     end).
Qed.

Lemma words_sum_bound l : is_bytes l -> 0 <= 2 * words_sum l <= 65535 * (zlen l + 1).
Proof.
  unfold words_sum. induction l as [|a|a b l IH] using pairs_ind;
    intros Hb; unfold is_bytes, is_byte in *; simpl; autorewrite with zlen;
    repeat (apply Forall_cons in Hb as [? Hb]); try specialize (IH Hb); lia.
Qed.

Lemma words_sum_app l k :
  Nat.even (length l) = true -> words_sum (l ++ k) = words_sum l + words_sum k.
Proof.
  unfold words_sum. induction l as [|a|a b l IH] using pairs_ind; simpl; intros He;
    [lia|done|rewrite IH by done; lia].
Qed.

Lemma u32_add_u32 x y : u32 (u32 x + y) = u32 (x + y).
Proof. unfold u32. by rewrite Z.add_mod_idemp_l by lia. Qed.

(** The loop and the odd-byte tail, run from position [zlen pre] over [k]. *)
Lemma partial_run k : forall fuel pre post sum,
  is_bytes k -> zlen pre + zlen k < 2 ^ 32 - 1 -> zlen k < Z.of_nat fuel ->
  0 <= sum < 2 ^ 32 ->
  ('(i, sum) ← partial_loop fuel (pre ++ k ++ post) (zlen pre + zlen k) (zlen pre) sum;
   if i <? zlen pre + zlen k then
     a ← rd (pre ++ k ++ post) i; Ret (u32 (sum + u32 (Z.shiftl a 8)))
   else Ret sum) = Ret (u32 (sum + words_sum k)).
Proof.
  unfold words_sum. induction k as [|a|a b k IH] using pairs_ind;
    intros [|fuel] pre post sum Hb Hlen Hfuel Hsum; autorewrite with zlen in *;
    pose proof (zlen_nonneg pre); try pose proof (zlen_nonneg k); try lia; simpl;
    rewrite (u32_small (zlen pre + 1)) by lia.
  - zcase. simpl. zcase. rewrite Z.add_0_r. by rewrite u32_small.
  - zcase. simpl. zcase. rewrite rd_app_head. simpl. apply Forall_cons in Hb as [Ha _]. unfold is_byte in Ha.
    rewrite (u32_small (Z.shiftl a 8)) by (rewrite Z.shiftl_mul_pow2; lia).
    rewrite Z.shiftl_mul_pow2 by lia. do 2 f_equal. lia.
  - zcase. rewrite rd_app_head. simpl.
    replace (zlen pre + 1) with (zlen (pre ++ [a])) by (autorewrite with zlen; lia).
    replace (pre ++ a :: b :: k ++ post) with ((pre ++ [a]) ++ b :: k ++ post)
      by (by rewrite <- app_assoc).
    rewrite rd_app_head. simpl.
    apply Forall_cons in Hb as [Ha Hb]. apply Forall_cons in Hb as [Hb' Hb].
    unfold is_byte in *. rewrite lor_shiftl_add by lia.
    rewrite (u32_small (a * 2 ^ 8 + b)) by lia.
    replace (u32 (zlen pre + 2)) with (zlen (pre ++ [a; b]))
      by (rewrite u32_small; autorewrite with zlen; lia).
    replace ((pre ++ [a]) ++ b :: k ++ post) with ((pre ++ [a; b]) ++ k ++ post)
      by (by rewrite <- !app_assoc).
    replace (zlen pre + (1 + (1 + zlen k))) with (zlen (pre ++ [a; b]) + zlen k)
      by (autorewrite with zlen; lia).
    rewrite IH; [|done|autorewrite with zlen; lia|lia|apply u32_range].
    rewrite u32_add_u32. do 2 f_equal. change (2 ^ 8) with 256. lia.
Qed.

(** Within the allocation the accumulator never misreads, terminates, and adds
    the big-endian words of the first [len] bytes modulo [2^32]. *)
Lemma checksum_partial_spec data len sum :
  is_bytes data -> 0 <= len <= zlen data -> len < 2 ^ 32 - 1 -> 0 <= sum < 2 ^ 32 ->
  checksum_partial data len sum =
    Ret (u32 (sum + words_sum (take (Z.to_nat len) data))).
Proof.
  intros Hb Hl Hl32 Hs. unfold checksum_partial.
  pose proof (partial_run (take (Z.to_nat len) data) (S (Z.to_nat len)) []
    (drop (Z.to_nat len) data) sum) as Hrun.
  simpl app in Hrun. rewrite take_drop, zlen_take, zlen_nil in Hrun by done.
  apply Hrun; [by apply Forall_take|lia|lia|lia].
Qed.

(** ** Carry folding *)

Lemma fold_step sum :
  0 <= sum < 2 ^ 32 ->
  u32 (Z.land sum 0xFFFF + Z.shiftr sum 16) = sum mod 65536 + sum / 65536.
Proof.
  intros Hs. change 0xFFFF with (2 ^ 16 - 1). rewrite land_ones_mod by lia.
  rewrite Z.shiftr_div_pow2 by lia. change (2 ^ 16) with 65536.
  apply u32_small. Z.div_mod_to_equations. lia.
Qed.

(** The folded value: a representative of [sum] modulo 65535 in one word that
    is zero only for a zero sum. *)
Lemma fold_carry_two sum :
  0 <= sum < 2 ^ 32 ->
  exists r, fold_carry fold_fuel sum = Ret r /\ 0 <= r < 65536 /\
    r mod 65535 = sum mod 65535 /\ (r = 0 <-> sum = 0).
Proof.
  intros Hs. unfold fold_fuel. cbn [fold_carry].
  assert (forall x, 0 <= x < 2 ^ 32 -> (Z.shiftr x 16 =? 0) = (x <? 65536)) as Hsh.
  { intros x Hx. rewrite Z.shiftr_div_pow2 by lia. change (2 ^ 16) with 65536.
    destruct (Z.ltb_spec x 65536); [apply Z.eqb_eq|apply Z.eqb_neq];
      Z.div_mod_to_equations; lia. }
  assert (forall x, 0 <= x -> (x mod 65536 + x / 65536) mod 65535 = x mod 65535) as Hm.
  { intros x Hx. rewrite (Z.div_mod x 65536) at 3 by lia.
    replace (65536 * (x / 65536) + x mod 65536)
      with (x mod 65536 + x / 65536 + (x / 65536) * 65535) by lia.
    by rewrite Z_mod_plus_full. }
  rewrite Hsh by done. destruct (Z.ltb_spec sum 65536).
  { exists sum. split_and!; [done|lia|lia|done|done]. }
  rewrite fold_step by done.
  set (y := sum mod 65536 + sum / 65536).
  assert (0 < y < 131071) by (subst y; Z.div_mod_to_equations; lia).
  rewrite Hsh by lia. destruct (Z.ltb_spec y 65536).
  { exists y. split_and!; [done|lia|lia|by apply Hm; lia|lia]. }
  rewrite fold_step by lia.
  set (z := y mod 65536 + y / 65536).
  assert (0 < z < 65536) by (subst z; Z.div_mod_to_equations; lia).
  rewrite Hsh by lia. rewrite (proj2 (Z.ltb_lt z 65536)) by lia.
  exists z. split_and!; [done|lia|lia| |lia].
  subst z. rewrite Hm by lia. by apply Hm; lia.
Qed.

(** Folding and testing for all-ones decides "a non-zero multiple of 65535". *)
Lemma fold_test sum :
  0 <= sum < 2 ^ 32 ->
  (sum ← fold_carry fold_fuel sum; Ret (Z.land sum 0xFFFF =? 0xFFFF)) =
    Ret (bool_decide (sum mod 65535 = 0 /\ sum <> 0)).
Proof.
  intros Hs. destruct (fold_carry_two sum Hs) as (r & -> & Hr & Hmod & Hz). obind.
  change 65535 with (2 ^ 16 - 1) at 1. rewrite land_ones_mod by lia.
  rewrite Z.mod_small by lia. f_equal. zcase.
  - subst r. symmetry. apply bool_decide_eq_true_2.
    rewrite <- Hmod. split; [done|]. intros ?. by apply Hz in H.
  - symmetry. apply bool_decide_eq_false_2. intros [H0 H1].
    rewrite <- Hmod in H0. assert (r <> 0) by tauto.
    rewrite Z.mod_small in H0 by lia. lia.
Qed.

(** ** The reference sum *)

Lemma rfc1071_sum_spec l :
  is_bytes l ->
  0 <= rfc1071_sum l <= 65535 /\ rfc1071_sum l mod 65535 = words_sum l mod 65535 /\
  (rfc1071_sum l = 0 <-> words_sum l = 0) /\ 0 <= words_sum l.
Proof.
  unfold rfc1071_sum, words_sum. induction l as [|a|a b l IH] using pairs_ind; simpl;
    intros Hb; [done| |]; unfold is_bytes, is_byte in *;
    repeat (apply Forall_cons in Hb as [? Hb]).
  - unfold onec_add16. zcase.
  - destruct (IH Hb) as (Hr & Hm & Hz & Hn). clear IH. revert Hr Hm Hz Hn.
    generalize (foldr onec_add16 0 (words l)) (foldr Z.add 0 (words l)).
    intros r w Hr Hm Hz Hn. unfold onec_add16.
    assert ((a * 256 + b + r) mod 65535 = (a * 256 + b + w) mod 65535) as Hs.
    { by rewrite <- Z.add_mod_idemp_r, Hm, Z.add_mod_idemp_r by lia. }
    split; [zcase; lia|]. split; [|split; [zcase; lia|lia]]. rewrite <- Hs. zcase.
    by rewrite <- Zminus_mod_idemp_r, Z_mod_same_full, Z.sub_0_r.
Qed.

(** The C test on a sum and RFC 1071's "the sum is all ones" agree. *)
Lemma verify_iff_rfc1071 l :
  is_bytes l ->
  bool_decide (words_sum l mod 65535 = 0 /\ words_sum l <> 0) = (rfc1071_sum l =? 65535).
Proof.
  intros Hb. destruct (rfc1071_sum_spec l Hb) as (Hr & Hm & Hz & Hn). zcase.
  - apply bool_decide_eq_true_2. rewrite <- Hm, e. split; [done|]. lia.
  - apply bool_decide_eq_false_2. intros [H0 H1]. rewrite <- Hm in H0.
    assert (rfc1071_sum l <> 0) by tauto.
    rewrite Z.mod_small in H0 by lia. lia.
Qed.

(** ** Messages *)

(** The C test on an unwrapped sum is RFC 1071's "the sum is all ones". *)
Lemma fold_test_rfc1071 l :
  is_bytes l -> zlen l <= max_sum_len ->
  (sum ← fold_carry fold_fuel (u32 (words_sum l)); Ret (Z.land sum 0xFFFF =? 0xFFFF)) =
    Ret (rfc1071_sum l =? 65535).
Proof.
  unfold max_sum_len. intros Hb Hmax. pose proof (words_sum_bound l Hb).
  rewrite u32_small by lia. rewrite fold_test by lia. by rewrite verify_iff_rfc1071.
Qed.

(** Verifying the first [len] bytes of a buffer. *)
Lemma checksum_verify_whole data len :
  is_bytes data -> 0 <= len <= zlen data -> len <= max_sum_len ->
  checksum_verify data len = Ret (rfc1071_sum (take (Z.to_nat len) data) =? 65535).
Proof.
  intros Hb Hlen Hmax. unfold checksum_verify.
  rewrite checksum_partial_spec by (done || unfold max_sum_len in *; lia). obind.
  rewrite Z.add_0_l. apply fold_test_rfc1071; [by apply Forall_take|].
  by rewrite zlen_take.
Qed.

(** Accumulating an even-length header and then a segment is accumulating their
    concatenation: what lets the verifiers chain two [checksum_partial] calls. *)
Lemma verify_chained hdr n segment len :
  n = zlen hdr -> Nat.even (length hdr) = true ->
  is_bytes hdr -> is_bytes segment ->
  0 <= len <= zlen segment -> zlen hdr + len <= max_sum_len ->
  (sum ← checksum_partial hdr n 0;
   sum ← checksum_partial segment len sum;
   sum ← fold_carry fold_fuel sum;
   Ret (Z.land sum 0xFFFF =? 0xFFFF)) =
  Ret (rfc1071_sum (hdr ++ take (Z.to_nat len) segment) =? 65535).
Proof.
  intros -> He Hh Hb Hlen Hmax. pose proof (zlen_nonneg hdr).
  rewrite checksum_partial_spec by (done || unfold max_sum_len in *; lia). obind.
  rewrite checksum_partial_spec
    by (done || apply u32_range || unfold max_sum_len in *; lia). obind.
  rewrite Z.add_0_l, u32_add_u32, take_ge by (unfold zlen; lia).
  rewrite <- words_sum_app by done.
  apply fold_test_rfc1071.
  - apply Forall_app. split; [done|by apply Forall_take].
  - by rewrite zlen_app, zlen_take.
Qed.

(** ** Pseudo-headers as the RFCs lay them out *)

(** RFC 793/768: source, destination, zero, protocol, 16-bit length. *)
Definition rfc793_pseudo (src dst : list Z) (protocol len : Z) : list Z :=
  src ++ dst ++ [0; protocol; len / 256; len mod 256].

(** RFC 2460 8.1: source, destination, 32-bit length, three zeros, next header. *)
Definition rfc2460_pseudo (src dst : list Z) (next_header len : Z) : list Z :=
  src ++ dst ++ [len / 2 ^ 24; len / 2 ^ 16 mod 256; len / 256 mod 256; len mod 256;
                 0; 0; 0; next_header].

Lemma pseudo4_layout (src dst : list Z) p len :
  length src = 4%nat -> length dst = 4%nat ->
  [byte_at src 0; byte_at src 1; byte_at src 2; byte_at src 3;
   byte_at dst 0; byte_at dst 1; byte_at dst 2; byte_at dst 3;
   0; p; len / 256; len mod 256] = rfc793_pseudo src dst p len.
Proof.
  intros Hs Hd. do 4 (destruct src as [|? src]; [done|]).
  do 4 (destruct dst as [|? dst]; [done|]). by destruct src, dst.
Qed.

Lemma verify_ipv4_pseudo_rfc segment len src dst protocol :
  is_bytes segment -> is_bytes src -> is_bytes dst -> is_byte protocol ->
  length src = 4%nat -> length dst = 4%nat ->
  0 <= len <= zlen segment -> len < 65536 ->
  checksum_verify_ipv4_pseudo segment len src dst protocol =
    Ret (rfc1071_sum (rfc793_pseudo src dst protocol len ++ take (Z.to_nat len) segment)
         =? 65535).
Proof.
  intros Hseg Hsrc Hdst Hp Lsrc Ldst Hlen H16.
  assert (zlen src = 4 /\ zlen dst = 4) as [??] by (unfold zlen; lia).
  unfold checksum_verify_ipv4_pseudo. run_reads.
  rewrite land_255, shiftr_8.
  rewrite !u8_small by (unfold is_byte; Z.div_mod_to_equations; lia).
  rewrite (verify_chained _ 12 _ len); [|done|done| |done|done|].
  - by rewrite pseudo4_layout.
  - solve_bytes.
  - unfold max_sum_len, zlen. simpl. lia.
Qed.

Lemma verify_ipv6_pseudo_rfc segment len src dst next_header :
  is_bytes segment -> is_bytes src -> is_bytes dst -> is_byte next_header ->
  length src = 16%nat -> length dst = 16%nat ->
  0 <= len <= zlen segment -> len + 40 <= max_sum_len ->
  checksum_verify_ipv6_pseudo segment len src dst next_header =
    Ret (rfc1071_sum (rfc2460_pseudo src dst next_header len ++ take (Z.to_nat len) segment)
         =? 65535).
Proof.
  intros Hseg Hsrc Hdst Hp Lsrc Ldst Hlen Hmax. unfold max_sum_len in *.
  assert (zlen src = 16 /\ zlen dst = 16) as [??] by (unfold zlen; lia).
  unfold checksum_verify_ipv6_pseudo. run_reads.
  rewrite land_255, shiftr_8, !Z.shiftr_div_pow2 by lia.
  rewrite !(take_ge (drop _ _)) by (rewrite length_drop; lia).
  rewrite !drop_0.
  rewrite (u8_small (len mod _)) by (unfold is_byte; Z.div_mod_to_equations; lia).
  rewrite (u8_small (len / 2 ^ 24)) by (unfold is_byte; Z.div_mod_to_equations; lia).
  rewrite (verify_chained _ 40 _ len).
  - done.
  - autorewrite with zlen. lia.
  - by rewrite !length_app, Lsrc, Ldst.
  - solve_bytes.
  - done.
  - done.
  - autorewrite with zlen. unfold max_sum_len. lia.
Qed.

(** ** Senders and corruption *)

(** Changing one byte moves the sum by that byte's difference at its weight. *)
Lemma words_sum_change l1 x y l2 :
  exists w, (w = 1 \/ w = 256) /\
    words_sum (l1 ++ x :: l2) - words_sum (l1 ++ y :: l2) = w * (x - y).
Proof.
  unfold words_sum. induction l1 as [|a|a b l1 IH] using pairs_ind; simpl.
  - exists 256. split; [by right|]. destruct l2; simpl; lia.
  - exists 1. split; [by left|]. lia.
  - destruct IH as (w & Hw & E). exists w. split; [done|]. lia.
Qed.

(** A corrupted byte changes the sum modulo 65535. *)
Lemma words_sum_change_mod l1 x y l2 :
  is_byte x -> is_byte y -> x <> y ->
  words_sum (l1 ++ x :: l2) mod 65535 = 0 -> words_sum (l1 ++ y :: l2) mod 65535 <> 0.
Proof.
  intros Hx Hy Hne H1 H2. destruct (words_sum_change l1 x y l2) as (w & Hw & E).
  apply Z.mod_divide in H1, H2; [|lia..].
  assert (65535 | w * (x - y)) as [q Hq] by (rewrite <- E; by apply Z.divide_sub_r).
  unfold is_byte in *. assert (q = 0) by (destruct Hw; subst w; lia). subst q.
  destruct Hw; subst w; lia.
Qed.

Lemma rfc1071_ok_iff l :
  is_bytes l -> rfc1071_sum l = 65535 <-> words_sum l mod 65535 = 0 /\ words_sum l <> 0.
Proof.
  intros Hb. pose proof (verify_iff_rfc1071 l Hb) as H.
  destruct (Z.eqb_spec (rfc1071_sum l) 65535) as [E|E].
  - apply bool_decide_eq_true_1 in H. tauto.
  - apply bool_decide_eq_false_1 in H. tauto.
Qed.

(** A message whose checksum field the sender filled with the complement of
    the sum over the message with that field zeroed sums to all ones. *)
Lemma rfc1071_sender pre hi lo post :
  is_bytes pre -> is_bytes post -> Nat.even (length pre) = true ->
  rfc1071_checksum (pre ++ 0 :: 0 :: post) = hi * 256 + lo ->
  is_byte hi -> is_byte lo ->
  rfc1071_sum (pre ++ hi :: lo :: post) = 65535.
Proof.
  intros Hpre Hpost He Hc Hhi Hlo.
  assert (is_bytes (pre ++ hi :: lo :: post)) as Hb by solve_bytes.
  assert (is_bytes (pre ++ 0 :: 0 :: post)) as Hb0 by solve_bytes.
  apply rfc1071_ok_iff; [done|].
  destruct (rfc1071_sum_spec _ Hb0) as (Hr & Hm & Hz & Hn).
  assert (words_sum (pre ++ hi :: lo :: post) =
          words_sum (pre ++ 0 :: 0 :: post) + (hi * 256 + lo)) as E.
  { rewrite !words_sum_app by done. unfold words_sum. simpl. lia. }
  unfold rfc1071_checksum in Hc. rewrite E, <- Hc. split.
  - replace (words_sum (pre ++ 0 :: 0 :: post) + (65535 - rfc1071_sum (pre ++ 0 :: 0 :: post)))
      with (words_sum (pre ++ 0 :: 0 :: post) - rfc1071_sum (pre ++ 0 :: 0 :: post) + 1 * 65535)
      by lia.
    rewrite Z_mod_plus_full, Zminus_mod, Hm, Z.sub_diag. done.
  - lia.
Qed.

(** ** Properties *)

(** C13: [checksum_verify] on the first [len] bytes of a buffer, for a [len] of at most
    131072 (128 KiB, twice what the program ever passes), reads only inside the buffer,
    terminates, and answers exactly whether RFC 1071's one's-complement sum of those
    bytes is all ones.  Up to that length the [uint32_t] accumulator cannot wrap; of
    longer messages nothing is claimed. *)
Theorem checksum_verify_correct data len :
  is_bytes data -> 0 <= len <= zlen data -> len <= max_sum_len ->
  checksum_verify data len = Ret (rfc1071_sum (take (Z.to_nat len) data) =? 65535).
Proof. apply checksum_verify_whole. Qed.

(** The worked example of RFC 1071 section 3, with its checksum appended. *)
Lemma checksum_verify_correct_witness :
  is_bytes [0x00; 0x01; 0xf2; 0x03; 0xf4; 0xf5; 0xf6; 0xf7; 0x22; 0x0d] /\
  checksum_verify [0x00; 0x01; 0xf2; 0x03; 0xf4; 0xf5; 0xf6; 0xf7; 0x22; 0x0d] 10 =
    Ret (rfc1071_sum (take 10
      [0x00; 0x01; 0xf2; 0x03; 0xf4; 0xf5; 0xf6; 0xf7; 0x22; 0x0d]) =? 65535).
Proof.
  assert (is_bytes [0x00; 0x01; 0xf2; 0x03; 0xf4; 0xf5; 0xf6; 0xf7; 0x22; 0x0d]) as H
    by solve_bytes.
  split; [exact H|].
  apply (checksum_verify_correct
    [0x00; 0x01; 0xf2; 0x03; 0xf4; 0xf5; 0xf6; 0xf7; 0x22; 0x0d] 10 H);
    vm_compute; intuition congruence.
Defined.

(** The carry-fold loop of the verifiers ends for every [uint32_t] sum within
    two turns, as its comment promises, with a 16-bit value congruent to the
    sum modulo 65535 that is zero only when the sum is. *)
Theorem fold_carry_terminates sum :
  0 <= sum < 2 ^ 32 ->
  exists r, fold_carry 3 sum = Ret r /\ 0 <= r < 65536 /\
    r mod 65535 = sum mod 65535 /\ (r = 0 <-> sum = 0).
Proof. apply fold_carry_two. Qed.

Lemma fold_carry_terminates_witness :
  exists r, fold_carry 3 0xFFFFFFFF = Ret r /\ 0 <= r < 65536 /\
    r mod 65535 = 0xFFFFFFFF mod 65535 /\ (r = 0 <-> 0xFFFFFFFF = 0).
Proof. apply (fold_carry_terminates 0xFFFFFFFF). lia. Defined.

(** C37: corruption of any single byte of a message of at most 128 KiB that verifies is
    detected: the corrupted message does not verify. *)
Theorem checksum_detects_single_byte l1 x y l2 :
  is_bytes (l1 ++ x :: l2) -> is_byte y -> x <> y ->
  zlen (l1 ++ x :: l2) <= max_sum_len ->
  checksum_verify (l1 ++ x :: l2) (zlen (l1 ++ x :: l2)) = Ret true ->
  checksum_verify (l1 ++ y :: l2) (zlen (l1 ++ y :: l2)) = Ret false.
Proof.
  intros Hb Hy Hne Hmax Hok.
  assert (is_bytes (l1 ++ y :: l2)) as Hb'.
  { apply Forall_app in Hb as [? Hb]. apply Forall_cons in Hb as [? ?]. solve_bytes. }
  assert (zlen (l1 ++ y :: l2) = zlen (l1 ++ x :: l2)) as El by (by autorewrite with zlen).
  pose proof (zlen_nonneg (l1 ++ x :: l2)).
  rewrite checksum_verify_whole in Hok |- * by (done || lia).
  rewrite !take_ge in * by (unfold zlen; lia).
  assert (rfc1071_sum (l1 ++ x :: l2) = 65535) as Hx%rfc1071_ok_iff by (by simplify_eq; lia);
    [|done].
  f_equal. apply Z.eqb_neq. intros Hy'%rfc1071_ok_iff; [|done].
  apply (words_sum_change_mod l1 x y l2); try tauto.
  apply Forall_app in Hb as [_ Hb]. by apply Forall_cons in Hb as [? _].
Qed.

Lemma checksum_detects_single_byte_witness :
  checksum_verify [0x12; 0x34; 0xed; 0xcb] 4 = Ret true /\
  checksum_verify [0x12; 0x34; 0xed; 0xca] 4 = Ret false.
Proof.
  split; [reflexivity|].
  refine (checksum_detects_single_byte [0x12; 0x34; 0xed] 0xcb 0xca [] _ _ _ _ _).
  - solve_bytes.
  - solve_byte.
  - lia.
  - vm_compute. congruence.
  - reflexivity.
Defined.
