(* ===== verification/EthParser.v ===== *)
(** * Ethernet II framing (src/c/eth_parser.c, src/c/eth_parser.h)

    [eth_parse] with its optional 802.1Q tag and the VLAN accessors; the wire
    format is [eth_encode].  [eth_mac_to_str] is modelled with the other
    address printers. *)
From S2P Require Import Prelude.
From stdpp Require Import options.

Local Open Scope Z_scope.
Local Open Scope wire_scope.

Definition ETH_ADDR_LEN : Z := 6.
Definition ETH_HEADER_LEN : Z := 14.
Definition ETH_VLAN_TAG_LEN : Z := 4.
Definition ETH_TYPE_IPV4 : Z := 0x0800.
Definition ETH_TYPE_ARP : Z := 0x0806.
Definition ETH_TYPE_IPV6 : Z := 0x86DD.
Definition ETH_TYPE_VLAN : Z := 0x8100.

Record eth_header_t := {
  dst_mac : list Z;
  src_mac : list Z;
  ether_type : Z;
  has_vlan : bool;
  vlan_tci : Z;
}.

Definition ETH_VLAN_ID (tci : Z) : Z := Z.land tci 0x0FFF.
Definition ETH_VLAN_PCP (tci : Z) : Z := u8 (Z.shiftr tci 13).

(** Returns the header, the payload pointer and the payload length, or [None]
    for [-1]. *)
Definition eth_parse (data : option (list Z)) (length : Z) (out_header : out_arg)
    : outcome (option (eth_header_t * list Z * Z)) :=
  match data, out_header with
  | Some data, Dest =>
    if length <? ETH_HEADER_LEN then Ret None else
    dst ← rd_bytes data 0 ETH_ADDR_LEN;
    src ← rd_bytes data ETH_ADDR_LEN ETH_ADDR_LEN;
    b12 ← data.[12]; b13 ← data.[13];
    let type_or_tpid := be16 b12 b13 in
    if type_or_tpid =? ETH_TYPE_VLAN then
      if length <? ETH_HEADER_LEN + ETH_VLAN_TAG_LEN then Ret None else
      b14 ← data.[14]; b15 ← data.[15]; b16 ← data.[16]; b17 ← data.[17];
      let header_len := ETH_HEADER_LEN + ETH_VLAN_TAG_LEN in
      Ret (Some ({| dst_mac := dst; src_mac := src; has_vlan := true;
                    vlan_tci := be16 b14 b15; ether_type := be16 b16 b17 |},
                 advance data header_len, u32 (length - header_len)))
    else
      Ret (Some ({| dst_mac := dst; src_mac := src; has_vlan := false;
                    vlan_tci := 0; ether_type := type_or_tpid |},
                 advance data ETH_HEADER_LEN, u32 (length - ETH_HEADER_LEN)))
  | _, _ => Ret None
  end.

(** ** Wire format *)

Definition eth_encode (h : eth_header_t) : list Z :=
  dst_mac h ++ src_mac h ++
  (if has_vlan h then enc16 ETH_TYPE_VLAN ++ enc16 (vlan_tci h) else []) ++
  enc16 (ether_type h).

(** Field ranges of a header; an untagged one does not carry the TPID. *)
Definition eth_header_ok (h : eth_header_t) : Prop :=
  length (dst_mac h) = 6%nat /\ is_bytes (dst_mac h) /\
  length (src_mac h) = 6%nat /\ is_bytes (src_mac h) /\
  0 <= ether_type h < 65536 /\ 0 <= vlan_tci h < 65536 /\
  (has_vlan h = false -> vlan_tci h = 0 /\ ether_type h <> ETH_TYPE_VLAN).

Definition eth_header_len (h : eth_header_t) : Z := if has_vlan h then 18 else 14.

(** ** Lemmas *)

(** Every field of a parsed header comes from the bytes that re-encode to it. *)
Lemma eth_parse_spec data len :
  valid_view data len ->
  exists r, eth_parse (Some data) len Dest = Ret r /\
  match r with
  | None => len < 14 \/ be16 (byte_at data 12) (byte_at data 13) = ETH_TYPE_VLAN /\ len < 18
  | Some (h, p, n) =>
      eth_header_ok h /\ data = eth_encode h ++ p /\
      n = len - eth_header_len h /\ eth_header_len h <= len /\ valid_view p n
  end.
Proof.
  intros Hv. pose proof Hv as (Hb & Hl & H32). unfold eth_parse.
  unfold ETH_HEADER_LEN, ETH_VLAN_TAG_LEN, ETH_ADDR_LEN.
  zcase; [eexists; split; [reflexivity|left; lia]|].
  run_reads. destruct (Z.eqb_spec (be16 (byte_at data 12) (byte_at data 13)) ETH_TYPE_VLAN).
  - zcase; [eexists; split; [reflexivity|right; split; [done|lia]]|].
    run_reads. eexists; split; [reflexivity|]. rewrite u32_small by lia.
    unfold eth_header_ok, eth_header_len, eth_encode; cbn [dst_mac src_mac has_vlan vlan_tci ether_type].
    split_and!; auto with bytes; try (by rewrite length_sub by lia);
      try apply be16_range; try done; try lia; [|by apply valid_view_advance; [done|lia]].
    rewrite <- e. rewrite !enc16_be16 by auto with bytes.
    rewrite <- !app_assoc; cbn [app].
    rewrite !advance_cons by lia.
    rewrite !advance_sub by lia. done.
  - eexists; split; [reflexivity|]. rewrite u32_small by lia.
    unfold eth_header_ok, eth_header_len, eth_encode; cbn [dst_mac src_mac has_vlan vlan_tci ether_type].
    split_and!; auto with bytes; try (by rewrite length_sub by lia);
      try apply be16_range; try done; try lia; [|by apply valid_view_advance; [done|lia]].
    rewrite !enc16_be16 by auto with bytes.
    rewrite <- !app_assoc; cbn [app].
    rewrite !advance_cons by lia.
    rewrite !advance_sub by lia. done.
Qed.

Lemma eth_parse_encode h payload :
  eth_header_ok h -> zlen (eth_encode h ++ payload) < 2 ^ 32 ->
  eth_parse (Some (eth_encode h ++ payload)) (zlen (eth_encode h ++ payload)) Dest =
    Ret (Some (h, payload, zlen payload)).
Proof.
  destruct h as [dst src et hv tci]. unfold eth_header_ok, eth_encode.
  cbn [dst_mac src_mac has_vlan vlan_tci ether_type].
  intros (Ld & Hd & Ls & Hs & Het & Htci & Hv) H32. pose proof (zlen_nonneg payload).
  do 6 (destruct dst as [|? dst]; [done|]). destruct dst; [|done].
  do 6 (destruct src as [|? src]; [done|]). destruct src; [|done].
  unfold eth_parse, ETH_HEADER_LEN, ETH_VLAN_TAG_LEN, ETH_ADDR_LEN.
  set (data := _ ++ payload) in *.
  assert (zlen data = zlen payload + if hv then 18 else 14) as El.
  { subst data. destruct hv; cbn [app enc16]; autorewrite with zlen; lia. }
  rewrite El in *. destruct hv.
  - zcase. run_reads. subst data. cbn [app enc16]. eval_buffer.
    rewrite be16_enc16 by (unfold ETH_TYPE_VLAN; lia). rewrite Z.eqb_refl. zcase.
    run_reads. rewrite !be16_enc16 by done. rewrite u32_small by lia.
    do 3 f_equal. lia.
  - destruct Hv as [-> Het']; [done|]. zcase. run_reads.
    subst data. cbn [app enc16]. eval_buffer. rewrite be16_enc16 by done.
    rewrite (proj2 (Z.eqb_neq _ _)) by done. rewrite u32_small by lia.
    do 3 f_equal. lia.
Qed.

#[export] Instance eth_parse_safe :
  SafeParser (fun data len => eth_parse (Some data) len Dest)
    (fun '(h, p, n) => eth_header_ok h /\ valid_view p n).
Proof.
  intros data len Hv. destruct (eth_parse_spec data len Hv) as (r & E & Hr).
  exists r. split; [done|]. intros [[h p] n] ->. tauto.
Qed.

(** ** Properties *)

(** C34: on any frame [eth_parse] reads only captured bytes and fails exactly when
    the frame is too short for its header (14 bytes, 18 with an 802.1Q tag);
    otherwise the header it returns is well formed and re-encodes to the bytes
    in front of the returned payload, and the payload view lies inside the
    frame. *)
Theorem eth_parse_lossless data len :
  valid_view data len ->
  exists r, eth_parse (Some data) len Dest = Ret r /\
  match r with
  | None => len < 14 \/ be16 (byte_at data 12) (byte_at data 13) = ETH_TYPE_VLAN /\ len < 18
  | Some (h, p, n) =>
      eth_header_ok h /\ data = eth_encode h ++ p /\
      n = len - eth_header_len h /\ eth_header_len h <= len /\ valid_view p n
  end.
Proof. apply eth_parse_spec. Qed.

(** A tagged frame and an IPv4 one, as the examples of both branches. *)
Definition sample_macs : list Z :=
  [0xaa; 0xbb; 0xcc; 0xdd; 0xee; 0xff; 0x11; 0x22; 0x33; 0x44; 0x55; 0x66].

Lemma eth_parse_lossless_witness :
  exists r, eth_parse (Some (sample_macs ++ [0x81; 0x00; 0x60; 0x64; 0x08; 0x00; 0x45])) 19 Dest
      = Ret r /\
  match r with
  | None => 19 < 14 \/ be16 (byte_at (sample_macs ++ [0x81; 0x00; 0x60; 0x64; 0x08; 0x00; 0x45]) 12)
      (byte_at (sample_macs ++ [0x81; 0x00; 0x60; 0x64; 0x08; 0x00; 0x45]) 13) = ETH_TYPE_VLAN
      /\ 19 < 18
  | Some (h, p, n) =>
      eth_header_ok h /\
      sample_macs ++ [0x81; 0x00; 0x60; 0x64; 0x08; 0x00; 0x45] = eth_encode h ++ p /\
      n = 19 - eth_header_len h /\ eth_header_len h <= 19 /\ valid_view p n
  end.
Proof.
  apply (eth_parse_lossless (sample_macs ++ [0x81; 0x00; 0x60; 0x64; 0x08; 0x00; 0x45]) 19).
  split; [solve_bytes|]. vm_compute. intuition congruence.
Defined.

(** parsing the wire form of any well-formed Ethernet header, tagged or not,
    followed by a payload gives back exactly that header and payload. *)
Theorem eth_roundtrip h payload :
  eth_header_ok h -> zlen (eth_encode h ++ payload) < 2 ^ 32 ->
  eth_parse (Some (eth_encode h ++ payload)) (zlen (eth_encode h ++ payload)) Dest =
    Ret (Some (h, payload, zlen payload)).
Proof. apply eth_parse_encode. Qed.

Definition sample_eth : eth_header_t := {|
  dst_mac := [0xaa; 0xbb; 0xcc; 0xdd; 0xee; 0xff];
  src_mac := [0x11; 0x22; 0x33; 0x44; 0x55; 0x66];
  ether_type := ETH_TYPE_IPV4; has_vlan := true; vlan_tci := 0x6064 |}.

Lemma eth_roundtrip_witness :
  eth_header_ok sample_eth /\
  eth_parse (Some (eth_encode sample_eth ++ [1; 2; 3]))
    (zlen (eth_encode sample_eth ++ [1; 2; 3])) Dest =
  Ret (Some (sample_eth, [1; 2; 3], zlen [1; 2; 3])).
Proof.
  assert (eth_header_ok sample_eth) as H.
  { unfold eth_header_ok, sample_eth; simpl. split_and!; try done; solve_bytes. }
  split; [exact H|]. apply (eth_roundtrip sample_eth [1; 2; 3] H). vm_compute. congruence.
Defined.
