(* ===== verification/ArpParser.v ===== *)
(** * ARP (src/c/arp_parser.c, src/c/arp_parser.h)

    [arp_parse] for the Ethernet/IPv4 case; the wire format is [arp_encode]. *)
From S2P Require Import Prelude.
From stdpp Require Import options.

Local Open Scope Z_scope.
Local Open Scope wire_scope.

Definition ARP_HEADER_LEN : Z := 28.
Definition ARP_HTYPE_ETHERNET : Z := 1.
Definition ARP_PTYPE_IPV4 : Z := 0x0800.
Definition ARP_OP_REQUEST : Z := 1.
Definition ARP_OP_REPLY : Z := 2.

Record arp_header_t := {
  hardware_type : Z;
  protocol_type : Z;
  hardware_addr_len : Z;
  protocol_addr_len : Z;
  opcode : Z;
  sender_mac : list Z;
  sender_ip : list Z;
  target_mac : list Z;
  target_ip : list Z;
}.

Definition arp_parse (data : option (list Z)) (length : Z) (out_header : out_arg)
    : outcome (option arp_header_t) :=
  match data, out_header with
  | Some data, Dest =>
    if length <? ARP_HEADER_LEN then Ret None else
    b0 ← data.[0]; b1 ← data.[1];
    b2 ← data.[2]; b3 ← data.[3];
    hlen ← data.[4];
    plen ← data.[5];
    let htype := be16 b0 b1 in
    let ptype := be16 b2 b3 in
    if negb (htype =? ARP_HTYPE_ETHERNET) || negb (ptype =? ARP_PTYPE_IPV4)
       || negb (hlen =? 6) || negb (plen =? 4) then Ret None else
    b6 ← data.[6]; b7 ← data.[7];
    smac ← rd_bytes data 8 6;
    sip ← rd_bytes data 14 4;
    tmac ← rd_bytes data 18 6;
    tip ← rd_bytes data 24 4;
    Ret (Some {| hardware_type := htype; protocol_type := ptype;
                 hardware_addr_len := hlen; protocol_addr_len := plen;
                 opcode := be16 b6 b7; sender_mac := smac; sender_ip := sip;
                 target_mac := tmac; target_ip := tip |})
  | _, _ => Ret None
  end.

(** ** Wire format *)

Definition arp_encode (h : arp_header_t) : list Z :=
  enc16 (hardware_type h) ++ enc16 (protocol_type h) ++
  [hardware_addr_len h; protocol_addr_len h] ++ enc16 (opcode h) ++
  sender_mac h ++ sender_ip h ++ target_mac h ++ target_ip h.

Definition arp_header_ok (h : arp_header_t) : Prop :=
  hardware_type h = ARP_HTYPE_ETHERNET /\ protocol_type h = ARP_PTYPE_IPV4 /\
  hardware_addr_len h = 6 /\ protocol_addr_len h = 4 /\ 0 <= opcode h < 65536 /\
  length (sender_mac h) = 6%nat /\ is_bytes (sender_mac h) /\
  length (sender_ip h) = 4%nat /\ is_bytes (sender_ip h) /\
  length (target_mac h) = 6%nat /\ is_bytes (target_mac h) /\
  length (target_ip h) = 4%nat /\ is_bytes (target_ip h).

(** The fixed first six bytes of an Ethernet/IPv4 ARP packet. *)
Definition arp_fixed (data : list Z) : Prop :=
  be16 (byte_at data 0) (byte_at data 1) = ARP_HTYPE_ETHERNET /\
  be16 (byte_at data 2) (byte_at data 3) = ARP_PTYPE_IPV4 /\
  byte_at data 4 = 6 /\ byte_at data 5 = 4.

(** ** Lemmas *)

Lemma arp_parse_spec data len :
  valid_view data len ->
  exists r, arp_parse (Some data) len Dest = Ret r /\
  match r with
  | None => len < 28 \/ ~ arp_fixed data
  | Some h => arp_header_ok h /\ 28 <= len /\ data = arp_encode h ++ advance data 28
  end.
Proof.
  intros Hv. pose proof Hv as (Hb & Hl & H32). unfold arp_parse, ARP_HEADER_LEN, arp_fixed.
  zcase; [eexists; split; [reflexivity|left; lia]|]. run_reads.
  destruct (_ || _ || _ || _) eqn:Hc.
  { eexists; split; [reflexivity|]. right. intros (E1 & E2 & E3 & E4).
    by rewrite E1, E2, E3, E4 in Hc. }
  rewrite !orb_false_iff, !negb_false_iff, !Z.eqb_eq in Hc. destruct Hc as [[[E1 E2] E3] E4].
  run_reads. eexists; split; [reflexivity|]. split; [|split; [done|]].
  - unfold arp_header_ok; cbn.
    split_and!; auto with bytes; try (by rewrite length_sub by lia); apply be16_range.
  - unfold arp_encode; cbn [hardware_type protocol_type hardware_addr_len protocol_addr_len
      opcode sender_mac sender_ip target_mac target_ip].
    rewrite !enc16_be16 by auto with bytes. rewrite <- !app_assoc; cbn [app].
    rewrite !advance_sub by lia. rewrite !advance_cons by lia. done.
Qed.

Lemma arp_parse_encode h rest :
  arp_header_ok h -> zlen (arp_encode h ++ rest) < 2 ^ 32 ->
  arp_parse (Some (arp_encode h ++ rest)) (zlen (arp_encode h ++ rest)) Dest = Ret (Some h).
Proof.
  destruct h as [ht pt hl pl op sm si tm ti]. unfold arp_header_ok, arp_encode.
  cbn [hardware_type protocol_type hardware_addr_len protocol_addr_len
      opcode sender_mac sender_ip target_mac target_ip].
  intros (-> & -> & -> & -> & Hop & Lsm & _ & Lsi & _ & Ltm & _ & Lti & _) H32.
  pose proof (zlen_nonneg rest).
  do 6 (destruct sm as [|? sm]; [done|]). destruct sm; [|done].
  do 4 (destruct si as [|? si]; [done|]). destruct si; [|done].
  do 6 (destruct tm as [|? tm]; [done|]). destruct tm; [|done].
  do 4 (destruct ti as [|? ti]; [done|]). destruct ti; [|done].
  unfold arp_parse, ARP_HEADER_LEN. set (data := _ ++ rest) in *.
  assert (zlen data = zlen rest + 28) as El.
  { subst data. cbn [app enc16]. autorewrite with zlen. lia. }
  rewrite El. zcase. run_reads. subst data. cbn [app enc16] in *. eval_buffer.
  rewrite !be16_enc16 by (unfold ARP_HTYPE_ETHERNET, ARP_PTYPE_IPV4; lia).
  cbn [orb negb Z.eqb Pos.eqb ARP_HTYPE_ETHERNET ARP_PTYPE_IPV4]. run_reads. eval_buffer.
  done.
Qed.

#[export] Instance arp_parse_safe :
  SafeParser (fun data len => arp_parse (Some data) len Dest) arp_header_ok.
Proof.
  intros data len Hv. destruct (arp_parse_spec data len Hv) as (r & E & Hr).
  exists r. split; [done|]. intros h ->. tauto.
Qed.

(** ** Properties *)

(** On any view [arp_parse] reads only inside it and fails exactly when it is
    shorter than 28 bytes or does not announce Ethernet/IPv4 with address
    lengths 6 and 4; an accepted header re-encodes to the first 28 bytes, and
    every well-formed header parses back from its wire form. *)
Theorem arp_parse_correct data len :
  valid_view data len ->
  (exists r, arp_parse (Some data) len Dest = Ret r /\
   match r with
   | None => len < 28 \/ ~ arp_fixed data
   | Some h => arp_header_ok h /\ 28 <= len /\ data = arp_encode h ++ advance data 28
   end) /\
  (forall h rest, arp_header_ok h -> zlen (arp_encode h ++ rest) < 2 ^ 32 ->
   arp_parse (Some (arp_encode h ++ rest)) (zlen (arp_encode h ++ rest)) Dest = Ret (Some h)).
Proof. intros Hv. split; [by apply arp_parse_spec|apply arp_parse_encode]. Qed.

(** The ARP request of the seed corpus: 10.0.0.1 asks for 10.0.0.2. *)
Definition sample_arp : arp_header_t := {|
  hardware_type := 1; protocol_type := 0x0800; hardware_addr_len := 6;
  protocol_addr_len := 4; opcode := ARP_OP_REQUEST;
  sender_mac := [0xaa; 0xbb; 0xcc; 0xdd; 0xee; 0xff]; sender_ip := [10; 0; 0; 1];
  target_mac := [0; 0; 0; 0; 0; 0]; target_ip := [10; 0; 0; 2] |}.

Lemma arp_parse_correct_witness :
  (exists r, arp_parse (Some (arp_encode sample_arp)) 28 Dest = Ret r /\
   match r with
   | None => 28 < 28 \/ ~ arp_fixed (arp_encode sample_arp)
   | Some h => arp_header_ok h /\ 28 <= 28 /\
       arp_encode sample_arp = arp_encode h ++ advance (arp_encode sample_arp) 28
   end) /\
  (forall h rest, arp_header_ok h -> zlen (arp_encode h ++ rest) < 2 ^ 32 ->
   arp_parse (Some (arp_encode h ++ rest)) (zlen (arp_encode h ++ rest)) Dest = Ret (Some h)).
Proof.
  apply (arp_parse_correct (arp_encode sample_arp) 28).
  apply (bool_decide_unpack _). vm_compute. exact I.
Defined.
