(* ===== verification/IpParser.v ===== *)
(** * IPv4 (src/c/ip_parser.c, src/c/ip_parser.h)

    [ip_parse]: header validation, field extraction, header checksum, and the
    payload length clamped by both the capture and [total_length]. *)
From S2P Require Import Prelude Checksum.
From stdpp Require Import options.

Local Open Scope Z_scope.
Local Open Scope wire_scope.

Definition IP_ADDR_LEN : Z := 4.
Definition IP_HEADER_MIN_LEN : Z := 20.
Definition IP_PROTO_ICMP : Z := 1.
Definition IP_PROTO_TCP : Z := 6.
Definition IP_PROTO_UDP : Z := 17.

Record ip_header_t := {
  version : Z;
  ihl : Z;
  tos : Z;
  total_length : Z;
  identification : Z;
  flags : Z;
  fragment_offset : Z;
  ttl : Z;
  protocol : Z;
  checksum : Z;
  src_addr : list Z;
  dst_addr : list Z;
  checksum_valid : bool;
}.

Definition ip_parse (data : option (list Z)) (length : Z) (out_header : out_arg)
    : outcome (option (ip_header_t * list Z * Z)) :=
  match data, out_header with
  | Some data, Dest =>
    if length <? IP_HEADER_MIN_LEN then Ret None else
    b0 ← data.[0];
    let version := Z.shiftr b0 4 in
    let ihl := Z.land b0 0x0F in
    let header_len := u32 (ihl * 4) in
    if negb (version =? 4) || (ihl <? 5) || (length <? header_len) then Ret None else
    checksum_valid ← checksum_verify data header_len;
    tos ← data.[1];
    b2 ← data.[2]; b3 ← data.[3];
    let total_length := be16 b2 b3 in
    b4 ← data.[4]; b5 ← data.[5];
    b6 ← data.[6]; b7 ← data.[7];
    let flags_frag := be16 b6 b7 in
    ttl ← data.[8];
    protocol ← data.[9];
    b10 ← data.[10]; b11 ← data.[11];
    s0 ← data.[12]; s1 ← data.[13]; s2 ← data.[14]; s3 ← data.[15];
    d0 ← data.[16]; d1 ← data.[17]; d2 ← data.[18]; d3 ← data.[19];
    let available_payload_len := u32 (length - header_len) in
    let available_payload_len :=
      if header_len <=? total_length then
        let declared_payload_len := u32 (total_length - header_len) in
        if declared_payload_len <? available_payload_len
        then declared_payload_len else available_payload_len
      else available_payload_len in
    Ret (Some
      ({| version := version; ihl := ihl; tos := tos; total_length := total_length;
          identification := be16 b4 b5; flags := u8 (Z.shiftr flags_frag 13);
          fragment_offset := Z.land flags_frag 0x1FFF; ttl := ttl;
          protocol := protocol; checksum := be16 b10 b11;
          src_addr := [s0; s1; s2; s3]; dst_addr := [d0; d1; d2; d3];
          checksum_valid := checksum_valid |},
       advance data header_len, available_payload_len))
  | _, _ => Ret None
  end.

(** ** Wire format *)

(** The first 20 bytes of an IPv4 header (RFC 791). *)
Definition ip_encode (h : ip_header_t) : list Z :=
  [version h * 16 + ihl h; tos h] ++ enc16 (total_length h) ++ enc16 (identification h) ++
  enc16 (flags h * 2 ^ 13 + fragment_offset h) ++ [ttl h; protocol h] ++
  enc16 (checksum h) ++ src_addr h ++ dst_addr h.

Definition ip_header_ok (h : ip_header_t) : Prop :=
  version h = 4 /\ 5 <= ihl h <= 15 /\ is_byte (tos h) /\
  0 <= total_length h < 65536 /\ 0 <= identification h < 65536 /\
  0 <= flags h < 8 /\ 0 <= fragment_offset h < 2 ^ 13 /\
  is_byte (ttl h) /\ is_byte (protocol h) /\ 0 <= checksum h < 65536 /\
  length (src_addr h) = 4%nat /\ is_bytes (src_addr h) /\
  length (dst_addr h) = 4%nat /\ is_bytes (dst_addr h).

(** The payload bytes both the capture and the datagram vouch for. *)
Definition ip_payload_len (h : ip_header_t) (len : Z) : Z :=
  if ihl h * 4 <=? total_length h
  then Z.min (total_length h) len - ihl h * 4 else len - ihl h * 4.

(** Why a view is not an IPv4 header. *)
Definition ip_malformed (data : list Z) (len : Z) : Prop :=
  len < 20 \/ byte_at data 0 / 16 <> 4 \/ byte_at data 0 mod 16 < 5 \/
  len < byte_at data 0 mod 16 * 4.

(** ** Lemmas *)

Lemma nibbles b : Z.shiftr b 4 = b / 16 /\ Z.land b 0x0F = b mod 16.
Proof.
  split; [exact (Z.shiftr_div_pow2 b 4 ltac:(lia))|exact (land_ones_mod b 4 ltac:(lia))].
Qed.

Lemma flags_frag_split x :
  u8 (Z.shiftr x 13) = x / 2 ^ 13 mod 256 /\ Z.land x 0x1FFF = x mod 2 ^ 13.
Proof.
  split; [|exact (land_ones_mod x 13 ltac:(lia))].
  unfold u8. by rewrite Z.shiftr_div_pow2 by lia.
Qed.

(** The clamp of the code is [ip_payload_len]. *)
Lemma payload_clamp hl total len :
  0 <= hl <= len -> 0 <= total < 65536 -> len < 2 ^ 32 ->
  (if hl <=? total then
     if u32 (total - hl) <? u32 (len - hl) then u32 (total - hl) else u32 (len - hl)
   else u32 (len - hl)) =
  (if hl <=? total then Z.min total len - hl else len - hl).
Proof.
  intros. rewrite (u32_small (len - hl)) by lia.
  destruct (Z.leb_spec hl total); [|done]. rewrite u32_small by lia. zcase.
Qed.

(** Splitting and rejoining the flags/fragment word. *)
Lemma flags_frag_join x :
  0 <= x < 2 ^ 16 -> (x / 2 ^ 13 mod 256) * 2 ^ 13 + x mod 2 ^ 13 = x /\
  0 <= x / 2 ^ 13 mod 256 < 8 /\ 0 <= x mod 2 ^ 13 < 2 ^ 13.
Proof. intros. Z.div_mod_to_equations. lia. Qed.

Lemma ip_parse_spec data len :
  valid_view data len ->
  exists r, ip_parse (Some data) len Dest = Ret r /\
  match r with
  | None => ip_malformed data len
  | Some (h, p, n) =>
      ip_header_ok h /\ data = ip_encode h ++ advance data 20 /\
      ihl h * 4 <= len /\ p = advance data (ihl h * 4) /\ n = ip_payload_len h len /\
      valid_view p n /\
      checksum_valid h = (rfc1071_sum (take (Z.to_nat (ihl h * 4)) data) =? 65535)
  end.
Proof.
  intros Hv. pose proof Hv as (Hb & Hl & H32).
  unfold ip_parse, IP_HEADER_MIN_LEN, ip_malformed.
  zcase; [eexists; split; [reflexivity|left; lia]|]. run_reads.
  destruct (nibbles (byte_at data 0)) as [-> ->].
  assert (is_byte (byte_at data 0)) as Hb0 by auto with bytes. unfold is_byte in Hb0.
  rewrite (u32_small (_ * 4)) by (Z.div_mod_to_equations; lia).
  destruct (_ || _ || _) eqn:Hc.
  { eexists; split; [reflexivity|]. rewrite !orb_true_iff, negb_true_iff in Hc. lia. }
  rewrite !orb_false_iff, negb_false_iff in Hc. destruct Hc as [[E1 E2] E3].
  assert (5 <= byte_at data 0 mod 16 <= 15) by (Z.div_mod_to_equations; lia).
  set (hl := byte_at data 0 mod 16) in *.
  rewrite checksum_verify_whole by (done || unfold max_sum_len; lia). obind. run_reads.
  destruct (flags_frag_split (be16 (byte_at data 6) (byte_at data 7))) as [-> ->].
  pose proof (be16_range (byte_at data 2) (byte_at data 3)) as Ht.
  pose proof (be16_range (byte_at data 6) (byte_at data 7)) as Hf.
  rewrite payload_clamp by lia.
  destruct (flags_frag_join _ Hf) as (Ef & Hfl & Hfr).
  eexists; split; [reflexivity|].
  unfold ip_header_ok, ip_payload_len; cbn [version ihl tos total_length identification flags
    fragment_offset ttl protocol checksum src_addr dst_addr checksum_valid].
  split; [|split]; [| |split_and!; try done; [lia|]].
  - split_and!; try done; try lia; auto with bytes; try apply be16_range; solve_bytes.
  - unfold ip_encode; cbn [version ihl tos total_length identification flags
      fragment_offset ttl protocol checksum src_addr dst_addr checksum_valid].
    rewrite Ef. replace (byte_at data 0 / 16 * 16 + hl) with (byte_at data 0)
      by (subst hl; Z.div_mod_to_equations; lia).
    rewrite !enc16_be16 by auto with bytes. rewrite <- !app_assoc; cbn [app].
    rewrite !advance_cons by lia. done.
  - apply (valid_view_shrink _ (len - hl * 4)); [by apply valid_view_advance; [|lia]|].
    zcase; lia.
Qed.

Lemma length_ip_encode h : ip_header_ok h -> length (ip_encode h) = 20%nat.
Proof.
  intros (?&?&?&?&?&?&?&?&?&?&Ls&?&Ld&?). unfold ip_encode. rewrite !length_app, Ls, Ld. done.
Qed.

Definition set_checksum_valid (v : bool) (h : ip_header_t) : ip_header_t :=
  {| version := version h; ihl := ihl h; tos := tos h; total_length := total_length h;
     identification := identification h; flags := flags h;
     fragment_offset := fragment_offset h; ttl := ttl h; protocol := protocol h;
     checksum := checksum h; src_addr := src_addr h; dst_addr := dst_addr h;
     checksum_valid := v |}.

(** The wire form determines every field but the verification result. *)
Lemma ip_encode_inj h h' :
  ip_header_ok h -> ip_header_ok h' -> ip_encode h = ip_encode h' ->
  h' = set_checksum_valid (checksum_valid h') h.
Proof.
  destruct h as [v i t tl id fl fo tt pr ck sa da cv], h' as [v' i' t' tl' id' fl' fo' tt' pr' ck' sa' da' cv'].
  unfold ip_header_ok, ip_encode, set_checksum_valid; cbn [version ihl tos total_length identification
    flags fragment_offset ttl protocol checksum src_addr dst_addr checksum_valid].
  intros (?&?&?&?&?&?&?&?&?&?&Ls&?&Ld&?) (?&?&?&?&?&?&?&?&?&?&Ls'&?&Ld'&?) E.
  apply (app_inj_1 _ _) in E as [E0 E]; [|done]. apply (app_inj_1 _ _) in E as [E1 E]; [|done].
  apply (app_inj_1 _ _) in E as [E2 E]; [|done]. apply (app_inj_1 _ _) in E as [E3 E]; [|done].
  apply (app_inj_1 _ _) in E as [E4 E]; [|done]. apply (app_inj_1 _ _) in E as [E5 E]; [|done].
  apply (app_inj_1 _ _) in E as [E6 E7]; [|congruence].
  apply enc16_inj in E1, E2, E3, E5; [|lia..].
  injection E0 as E8 E9. injection E4 as E10 E11.
  f_equal; lia || congruence.
Qed.

(** Feeding the wire form back. *)
Lemma ip_parse_encode h options payload :
  ip_header_ok h -> is_bytes options -> is_bytes payload ->
  zlen options = ihl h * 4 - 20 -> zlen (ip_encode h ++ options ++ payload) < 2 ^ 32 ->
  ip_parse (Some (ip_encode h ++ options ++ payload))
      (zlen (ip_encode h ++ options ++ payload)) Dest =
    Ret (Some
      (set_checksum_valid (rfc1071_sum (ip_encode h ++ options) =? 65535) h,
       payload, ip_payload_len h (zlen (ip_encode h ++ options ++ payload)))).
Proof.
  intros Hok Ho Hp Lo H32. pose proof (length_ip_encode h Hok) as L20.
  set (data := ip_encode h ++ options ++ payload) in *.
  pose proof Hok as (Hver & Hihl & Htos & ?).
  assert (zlen data = ihl h * 4 + zlen payload) as El.
  { subst data. autorewrite with zlen. unfold zlen at 1. lia. }
  pose proof (zlen_nonneg payload).
  assert (is_bytes (ip_encode h)) as He.
  { unfold ip_encode. destruct Hok as (?&?&?&?&?&?&?&?&?&?&Ls&?&Ld&?). solve_bytes. }
  assert (valid_view data (zlen data)) as Hv.
  { split; [|lia]. subst data. apply Forall_app; split; [done|]. by apply Forall_app. }
  assert (byte_at data 0 = version h * 16 + ihl h) as E0 by reflexivity.
  destruct (ip_parse_spec data (zlen data) Hv) as (r & -> & Hr). f_equal.
  destruct r as [[[h' p] n]|].
  - destruct Hr as (Hok' & Hd & _ & -> & -> & _ & Hcv).
    subst data. pose proof (length_ip_encode h' Hok').
    apply app_inj_1 in Hd as [Hd1 Hd2]; [|congruence].
    pose proof (ip_encode_inj h h' Hok Hok' Hd1) as E'.
    rewrite E'. rewrite Hcv. clear Hcv.
    assert (ihl h' = ihl h) as Ei by (rewrite E'; done).
    assert (total_length h' = total_length h) as Et by (rewrite E'; done).
    unfold ip_payload_len, set_checksum_valid; cbn [ihl total_length].
    assert (length (ip_encode h ++ options) = Z.to_nat (ihl h * 4)) as Lh
      by (rewrite length_app; unfold zlen in Lo; lia).
    rewrite Ei, app_assoc, take_app_le, take_ge by lia.
    by rewrite advance_app by (unfold zlen; lia).
  - unfold ip_malformed in Hr. rewrite E0, Hver in Hr.
    exfalso. Z.div_mod_to_equations. lia.
Qed.

#[export] Instance ip_parse_safe :
  SafeParser (fun data len => ip_parse (Some data) len Dest)
    (fun '(h, p, n) => ip_header_ok h /\ valid_view p n).
Proof.
  intros data len Hv. destruct (ip_parse_spec data len Hv) as (r & E & Hr).
  exists r. split; [done|]. intros [[h p] n] ->. tauto.
Qed.

(** ** Properties *)

(** C14: on any view [ip_parse] reads only inside it and fails exactly on a short
    view, a version other than 4, an IHL below 5, or options running past the
    view; otherwise the header's fields re-encode to its first 20 bytes, its
    checksum verdict is RFC 1071's over all [ihl * 4] header bytes, and the
    payload starts right after the options and has
    [min(total_length, captured) - header] bytes, so later layers see neither
    bytes past the capture nor Ethernet padding. *)
Theorem ip_parse_correct data len :
  valid_view data len ->
  exists r, ip_parse (Some data) len Dest = Ret r /\
  match r with
  | None => ip_malformed data len
  | Some (h, p, n) =>
      ip_header_ok h /\ data = ip_encode h ++ advance data 20 /\
      ihl h * 4 <= len /\ p = advance data (ihl h * 4) /\ n = ip_payload_len h len /\
      valid_view p n /\
      checksum_valid h = (rfc1071_sum (take (Z.to_nat (ihl h * 4)) data) =? 65535)
  end.
Proof. apply ip_parse_spec. Qed.

(** A 20-byte header with total_length 21, followed by one payload byte and two
    bytes of padding. *)
Definition sample_ip_bytes : list Z :=
  [0x45; 0; 0; 21; 0; 1; 0x40; 0; 64; 6; 0x66; 0xe0; 10; 0; 0; 1; 10; 0; 0; 2; 0xaa; 0; 0].

Lemma ip_parse_correct_witness :
  exists r, ip_parse (Some sample_ip_bytes) 23 Dest = Ret r /\
  match r with
  | None => ip_malformed sample_ip_bytes 23
  | Some (h, p, n) =>
      ip_header_ok h /\ sample_ip_bytes = ip_encode h ++ advance sample_ip_bytes 20 /\
      ihl h * 4 <= 23 /\ p = advance sample_ip_bytes (ihl h * 4) /\ n = ip_payload_len h 23 /\
      valid_view p n /\
      checksum_valid h = (rfc1071_sum (take (Z.to_nat (ihl h * 4)) sample_ip_bytes) =? 65535)
  end.
Proof.
  apply (ip_parse_correct sample_ip_bytes 23).
  apply (bool_decide_unpack _). vm_compute. exact I.
Defined.

(** The wire form of any well-formed IPv4 header with its options, followed
    by a payload, parses back to that header (its checksum verdict filled in)
    and payload. *)
Theorem ip_roundtrip h options payload :
  ip_header_ok h -> is_bytes options -> is_bytes payload ->
  zlen options = ihl h * 4 - 20 -> zlen (ip_encode h ++ options ++ payload) < 2 ^ 32 ->
  ip_parse (Some (ip_encode h ++ options ++ payload))
      (zlen (ip_encode h ++ options ++ payload)) Dest =
    Ret (Some
      (set_checksum_valid (rfc1071_sum (ip_encode h ++ options) =? 65535) h,
       payload, ip_payload_len h (zlen (ip_encode h ++ options ++ payload)))).
Proof. apply ip_parse_encode. Qed.

Definition sample_ip : ip_header_t := {|
  version := 4; ihl := 6; tos := 0; total_length := 26; identification := 7; flags := 2;
  fragment_offset := 0; ttl := 64; protocol := IP_PROTO_UDP; checksum := 0;
  src_addr := [10; 0; 0; 1]; dst_addr := [10; 0; 0; 2]; checksum_valid := false |}.

Lemma ip_roundtrip_witness :
  ip_header_ok sample_ip /\
  ip_parse (Some (ip_encode sample_ip ++ [1; 1; 1; 0] ++ [5; 6]))
      (zlen (ip_encode sample_ip ++ [1; 1; 1; 0] ++ [5; 6])) Dest =
    Ret (Some
      (set_checksum_valid (rfc1071_sum (ip_encode sample_ip ++ [1; 1; 1; 0]) =? 65535) sample_ip,
       [5; 6], ip_payload_len sample_ip (zlen (ip_encode sample_ip ++ [1; 1; 1; 0] ++ [5; 6])))).
Proof.
  assert (ip_header_ok sample_ip) as H.
  { unfold ip_header_ok, sample_ip; simpl. unfold IP_PROTO_UDP.
    split_and!; try done; try lia; try solve_byte; solve_bytes. }
  split; [exact H|].
  apply (ip_roundtrip sample_ip [1; 1; 1; 0] [5; 6] H); [solve_bytes|solve_bytes|done|].
  vm_compute. congruence.
Defined.
