(* ===== verification/Ipv6Parser.v ===== *)
(** * IPv6 (src/c/ipv6_parser.c, src/c/ipv6_parser.h)

    [ipv6_parse] decodes the fixed 40-byte header; extension headers are left
    in the payload, and the payload is everything captured after the header. *)
From S2P Require Import Prelude.
From stdpp Require Import options.

Local Open Scope Z_scope.
Local Open Scope wire_scope.

Definition IPV6_ADDR_LEN : Z := 16.
Definition IPV6_HEADER_LEN : Z := 40.

Record ipv6_header_t := {
  version : Z;
  traffic_class : Z;
  flow_label : Z;
  payload_length : Z;
  next_header : Z;
  hop_limit : Z;
  src_addr : list Z;
  dst_addr : list Z;
}.

(** The copy loop moves bytes 8..23 and 24..39. *)
Definition ipv6_parse (data : option (list Z)) (length : Z) (out_header : out_arg)
    : outcome (option (ipv6_header_t * list Z * Z)) :=
  match data, out_header with
  | Some data, Dest =>
    if length <? IPV6_HEADER_LEN then Ret None else
    b0 ← data.[0];
    let version := Z.shiftr b0 4 in
    if negb (version =? 6) then Ret None else
    b1 ← data.[1]; b2 ← data.[2]; b3 ← data.[3];
    b4 ← data.[4]; b5 ← data.[5];
    next_header ← data.[6];
    hop_limit ← data.[7];
    src ← rd_bytes data 8 IPV6_ADDR_LEN;
    dst ← rd_bytes data 24 IPV6_ADDR_LEN;
    Ret (Some
      ({| version := version;
          traffic_class := u8 (Z.lor (Z.shiftl (Z.land b0 0x0F) 4) (Z.shiftr b1 4));
          flow_label := Z.lor (Z.lor (u32 (Z.shiftl (Z.land b1 0x0F) 16))
                                     (u32 (Z.shiftl b2 8))) b3;
          payload_length := be16 b4 b5; next_header := next_header;
          hop_limit := hop_limit; src_addr := src; dst_addr := dst |},
       advance data IPV6_HEADER_LEN, u32 (length - IPV6_HEADER_LEN)))
  | _, _ => Ret None
  end.

(** ** Wire format *)

(** RFC 2460 section 3. *)
Definition ipv6_encode (h : ipv6_header_t) : list Z :=
  [version h * 16 + traffic_class h / 16;
   traffic_class h mod 16 * 16 + flow_label h / 2 ^ 16;
   flow_label h / 256 mod 256; flow_label h mod 256] ++
  enc16 (payload_length h) ++ [next_header h; hop_limit h] ++ src_addr h ++ dst_addr h.

Definition ipv6_header_ok (h : ipv6_header_t) : Prop :=
  version h = 6 /\ is_byte (traffic_class h) /\ 0 <= flow_label h < 2 ^ 20 /\
  0 <= payload_length h < 65536 /\ is_byte (next_header h) /\ is_byte (hop_limit h) /\
  length (src_addr h) = 16%nat /\ is_bytes (src_addr h) /\
  length (dst_addr h) = 16%nat /\ is_bytes (dst_addr h).

(** ** Lemmas *)

(** The two fields that straddle bytes. *)
Lemma traffic_class_val b0 b1 :
  is_byte b0 -> is_byte b1 ->
  u8 (Z.lor (Z.shiftl (Z.land b0 0x0F) 4) (Z.shiftr b1 4)) = b0 mod 16 * 16 + b1 / 16.
Proof.
  unfold is_byte. intros H0 H1.
  rewrite (land_ones_mod b0 4 ltac:(lia) : Z.land b0 0x0F = _).
  rewrite Z.shiftr_div_pow2 by lia. change (2 ^ 4) with 16.
  rewrite lor_shiftl_add by (Z.div_mod_to_equations; lia).
  change (2 ^ 4) with 16. apply u8_small. unfold is_byte. Z.div_mod_to_equations. lia.
Qed.

Lemma flow_label_val b1 b2 b3 :
  is_byte b1 -> is_byte b2 -> is_byte b3 ->
  Z.lor (Z.lor (u32 (Z.shiftl (Z.land b1 0x0F) 16)) (u32 (Z.shiftl b2 8))) b3 =
  (b1 mod 16 * 256 + b2) * 256 + b3.
Proof.
  unfold is_byte. intros H1 H2 H3.
  rewrite (land_ones_mod b1 4 ltac:(lia) : Z.land b1 0x0F = _). change (2 ^ 4) with 16.
  assert (0 <= b1 mod 16 < 16) by (Z.div_mod_to_equations; lia).
  rewrite !u32_small by (rewrite Z.shiftl_mul_pow2 by lia; lia).
  rewrite <- Z.lor_assoc, (lor_shiftl_add b2 b3 8), (lor_shiftl_add _ _ 16) by lia. lia.
Qed.

Lemma ipv6_parse_spec data len :
  valid_view data len ->
  exists r, ipv6_parse (Some data) len Dest = Ret r /\
  match r with
  | None => len < 40 \/ byte_at data 0 / 16 <> 6
  | Some (h, p, n) =>
      ipv6_header_ok h /\ data = ipv6_encode h ++ p /\ n = len - 40 /\ valid_view p n
  end.
Proof.
  intros Hv. pose proof Hv as (Hb & Hl & H32).
  unfold ipv6_parse, IPV6_HEADER_LEN, IPV6_ADDR_LEN.
  zcase; [eexists; split; [reflexivity|left; lia]|]. run_reads.
  rewrite (Z.shiftr_div_pow2 (byte_at data 0) 4) by lia. change (2 ^ 4) with 16.
  destruct (Z.eqb_spec (byte_at data 0 / 16) 6) as [Ev|Ev]; cbn [negb];
    [|eexists; split; [reflexivity|by right]].
  run_reads. rewrite traffic_class_val, flow_label_val, u32_small by (auto with bytes || lia).
  assert (is_byte (byte_at data 0) /\ is_byte (byte_at data 1) /\
    is_byte (byte_at data 2) /\ is_byte (byte_at data 3)) as (B0 & B1 & B2 & B3)
    by auto 10 with bytes.
  unfold is_byte in B0, B1, B2, B3.
  eexists; split; [reflexivity|]. split; [|split; [|split; [done|by apply valid_view_advance; [|lia]]]].
  - unfold ipv6_header_ok; cbn [version traffic_class flow_label payload_length next_header
      hop_limit src_addr dst_addr].
    split_and!; auto with bytes; try (by rewrite length_sub by lia); try apply be16_range;
      try unfold is_byte; Z.div_mod_to_equations; lia.
  - unfold ipv6_encode; cbn [version traffic_class flow_label payload_length next_header
      hop_limit src_addr dst_addr].
    rewrite enc16_be16 by auto with bytes.
    replace (_ * 16 + _) with (byte_at data 0) by (Z.div_mod_to_equations; lia).
    replace (_ mod 16 * 16 + _) with (byte_at data 1) by (Z.div_mod_to_equations; lia).
    replace (_ / 256 mod 256) with (byte_at data 2) by (Z.div_mod_to_equations; lia).
    replace (_ mod 256) with (byte_at data 3) by (Z.div_mod_to_equations; lia).
    rewrite <- !app_assoc; cbn [app].
    rewrite !advance_sub by lia. rewrite !advance_cons by lia. done.
Qed.

Lemma length_ipv6_encode h : ipv6_header_ok h -> length (ipv6_encode h) = 40%nat.
Proof.
  intros (?&?&?&?&?&?&Ls&?&Ld&?). unfold ipv6_encode. rewrite !length_app, Ls, Ld. done.
Qed.

Lemma ipv6_encode_inj h h' :
  ipv6_header_ok h -> ipv6_header_ok h' -> ipv6_encode h = ipv6_encode h' -> h = h'.
Proof.
  destruct h as [v tc fl pl nh hl sa da], h' as [v' tc' fl' pl' nh' hl' sa' da'].
  unfold ipv6_header_ok, ipv6_encode; cbn [version traffic_class flow_label payload_length
    next_header hop_limit src_addr dst_addr]. unfold is_byte.
  intros (?&?&?&?&?&?&Ls&?&Ld&?) (?&?&?&?&?&?&Ls'&?&Ld'&?) E.
  apply (app_inj_1 _ _) in E as [E0 E]; [|done]. apply (app_inj_1 _ _) in E as [E1 E]; [|done].
  apply (app_inj_1 _ _) in E as [E2 E]; [|done].
  apply (app_inj_1 _ _) in E as [E3 E4]; [|congruence].
  apply enc16_inj in E1; [|lia..]. injection E0 as E5 E6 E7 E8. injection E2 as E9 E10.
  f_equal; try congruence; Z.div_mod_to_equations; lia.
Qed.

#[export] Instance ipv6_parse_safe :
  SafeParser (fun data len => ipv6_parse (Some data) len Dest)
    (fun '(h, p, n) => ipv6_header_ok h /\ valid_view p n).
Proof.
  intros data len Hv. destruct (ipv6_parse_spec data len Hv) as (r & E & Hr).
  exists r. split; [done|]. intros [[h p] n] ->. tauto.
Qed.

(** ** Properties *)

(** C39: on any view [ipv6_parse] reads only inside it, fails exactly below 40
    bytes or on another version, and otherwise splits the view losslessly into
    a header (traffic class and flow label reassembled across bytes) and all
    captured bytes after it. *)
Theorem ipv6_parse_correct data len :
  valid_view data len ->
  exists r, ipv6_parse (Some data) len Dest = Ret r /\
  match r with
  | None => len < 40 \/ byte_at data 0 / 16 <> 6
  | Some (h, p, n) =>
      ipv6_header_ok h /\ data = ipv6_encode h ++ p /\ n = len - 40 /\ valid_view p n /\
      (forall h', ipv6_header_ok h' -> ipv6_encode h' = ipv6_encode h -> h' = h)
  end.
Proof.
  intros Hv. destruct (ipv6_parse_spec data len Hv) as (r & E & Hr).
  exists r. split; [done|]. destruct r as [[[h p] n]|]; [|done].
  destruct Hr as (Hok & ?). split_and!; try tauto.
  intros h' Hok' ?. by apply ipv6_encode_inj.
Qed.

(** An IPv6 header with traffic class 0xa5 and flow label 0x12345. *)
Definition sample_ipv6_bytes : list Z :=
  [0x6a; 0x51; 0x23; 0x45; 0; 2; 58; 64] ++
  [0x20; 1; 0x0d; 0xb8; 0; 0; 0; 0; 0; 0; 0; 0; 0; 0; 0; 1] ++
  [0x20; 1; 0x0d; 0xb8; 0; 0; 0; 0; 0; 0; 0; 0; 0; 0; 0; 2] ++ [128; 0].

Lemma ipv6_parse_correct_witness :
  exists r, ipv6_parse (Some sample_ipv6_bytes) 42 Dest = Ret r /\
  match r with
  | None => 42 < 40 \/ byte_at sample_ipv6_bytes 0 / 16 <> 6
  | Some (h, p, n) =>
      ipv6_header_ok h /\ sample_ipv6_bytes = ipv6_encode h ++ p /\ n = 42 - 40 /\
      valid_view p n /\ (forall h', ipv6_header_ok h' -> ipv6_encode h' = ipv6_encode h -> h' = h)
  end.
Proof.
  apply (ipv6_parse_correct sample_ipv6_bytes 42).
  apply (bool_decide_unpack _). vm_compute. exact I.
Defined.
