(* ===== verification/TcpUdpParser.v ===== *)
(** * TCP and UDP (src/c/tcp_udp_parser.c, src/c/tcp_udp_parser.h)

    The two header parsers and the four checksum verifiers over the IPv4 and
    IPv6 pseudo-headers. *)
From S2P Require Import Prelude Checksum.
From stdpp Require Import options.

Local Open Scope Z_scope.
Local Open Scope wire_scope.

Definition TCP_HEADER_MIN_LEN : Z := 20.
Definition UDP_HEADER_LEN : Z := 8.
Definition IPV4_PROTO_TCP : Z := 6.
Definition IPV4_PROTO_UDP : Z := 17.

Definition TCP_FLAG_FIN : Z := 0x01.
Definition TCP_FLAG_SYN : Z := 0x02.
Definition TCP_FLAG_RST : Z := 0x04.
Definition TCP_FLAG_PSH : Z := 0x08.
Definition TCP_FLAG_ACK : Z := 0x10.
Definition TCP_FLAG_URG : Z := 0x20.

Module tcp.
Record tcp_header_t := {
  src_port : Z;
  dst_port : Z;
  seq_num : Z;
  ack_num : Z;
  data_offset : Z;
  flags : Z;
  window_size : Z;
  checksum : Z;
  urgent_pointer : Z;
  checksum_valid : bool;
}.
End tcp.

Module udp.
Record udp_header_t := {
  src_port : Z;
  dst_port : Z;
  length : Z;
  checksum : Z;
  checksum_present : bool;
  checksum_valid : bool;
}.
End udp.

Definition tcp_parse (data : option (list Z)) (length : Z) (out_header : out_arg)
    : outcome (option (tcp.tcp_header_t * list Z * Z)) :=
  match data, out_header with
  | Some data, Dest =>
    if length <? TCP_HEADER_MIN_LEN then Ret None else
    b12 ← data.[12];
    let data_offset := Z.shiftr b12 4 in
    let header_len := u32 (data_offset * 4) in
    if (data_offset <? 5) || (length <? header_len) then Ret None else
    b0 ← data.[0]; b1 ← data.[1]; b2 ← data.[2]; b3 ← data.[3];
    b4 ← data.[4]; b5 ← data.[5]; b6 ← data.[6]; b7 ← data.[7];
    b8 ← data.[8]; b9 ← data.[9]; b10 ← data.[10]; b11 ← data.[11];
    b13 ← data.[13];
    b14 ← data.[14]; b15 ← data.[15]; b16 ← data.[16]; b17 ← data.[17];
    b18 ← data.[18]; b19 ← data.[19];
    Ret (Some
      ({| tcp.src_port := be16 b0 b1; tcp.dst_port := be16 b2 b3;
          tcp.seq_num := be32 b4 b5 b6 b7; tcp.ack_num := be32 b8 b9 b10 b11;
          tcp.data_offset := data_offset; tcp.flags := Z.land b13 0x3F;
          tcp.window_size := be16 b14 b15; tcp.checksum := be16 b16 b17;
          tcp.urgent_pointer := be16 b18 b19; tcp.checksum_valid := false |},
       advance data header_len, u32 (length - header_len)))
  | _, _ => Ret None
  end.

Definition udp_parse (data : option (list Z)) (length : Z) (out_header : out_arg)
    : outcome (option (udp.udp_header_t * list Z * Z)) :=
  match data, out_header with
  | Some data, Dest =>
    if length <? UDP_HEADER_LEN then Ret None else
    b0 ← data.[0]; b1 ← data.[1]; b2 ← data.[2]; b3 ← data.[3];
    b4 ← data.[4]; b5 ← data.[5]; b6 ← data.[6]; b7 ← data.[7];
    let checksum := be16 b6 b7 in
    Ret (Some
      ({| udp.src_port := be16 b0 b1; udp.dst_port := be16 b2 b3;
          udp.length := be16 b4 b5; udp.checksum := checksum;
          udp.checksum_present := negb (checksum =? 0); udp.checksum_valid := false |},
       advance data UDP_HEADER_LEN, u32 (length - UDP_HEADER_LEN)))
  | _, _ => Ret None
  end.

Definition tcp_verify_checksum (segment : option (list Z)) (segment_len : Z)
    (src_ip dst_ip : option (list Z)) : outcome bool :=
  match segment, src_ip, dst_ip with
  | Some segment, Some src_ip, Some dst_ip =>
    if segment_len <? TCP_HEADER_MIN_LEN then Ret false else
    checksum_verify_ipv4_pseudo segment segment_len src_ip dst_ip IPV4_PROTO_TCP
  | _, _, _ => Ret false
  end.

Definition udp_verify_checksum (segment : option (list Z)) (segment_len : Z)
    (src_ip dst_ip : option (list Z)) : outcome bool :=
  match segment, src_ip, dst_ip with
  | Some segment, Some src_ip, Some dst_ip =>
    if segment_len <? UDP_HEADER_LEN then Ret false else
    b6 ← segment.[6]; b7 ← segment.[7];
    let checksum_field := be16 b6 b7 in
    if checksum_field =? 0 then Ret true else
    checksum_verify_ipv4_pseudo segment segment_len src_ip dst_ip IPV4_PROTO_UDP
  | _, _, _ => Ret false
  end.

Definition tcp_verify_checksum_ipv6 (segment : option (list Z)) (segment_len : Z)
    (src_ip dst_ip : option (list Z)) : outcome bool :=
  match segment, src_ip, dst_ip with
  | Some segment, Some src_ip, Some dst_ip =>
    if segment_len <? TCP_HEADER_MIN_LEN then Ret false else
    checksum_verify_ipv6_pseudo segment segment_len src_ip dst_ip IPV4_PROTO_TCP
  | _, _, _ => Ret false
  end.

Definition udp_verify_checksum_ipv6 (segment : option (list Z)) (segment_len : Z)
    (src_ip dst_ip : option (list Z)) : outcome bool :=
  match segment, src_ip, dst_ip with
  | Some segment, Some src_ip, Some dst_ip =>
    if segment_len <? UDP_HEADER_LEN then Ret false else
    checksum_verify_ipv6_pseudo segment segment_len src_ip dst_ip IPV4_PROTO_UDP
  | _, _, _ => Ret false
  end.

(** ** Wire formats *)

(** RFC 793 with the bits the parser drops: the four reserved bits next to the
    data offset and the two ECN bits above the flags. *)
Definition tcp_encode (h : tcp.tcp_header_t) (reserved ecn : Z) : list Z :=
  enc16 (tcp.src_port h) ++ enc16 (tcp.dst_port h) ++
  enc32 (tcp.seq_num h) ++ enc32 (tcp.ack_num h) ++
  [tcp.data_offset h * 16 + reserved; ecn * 64 + tcp.flags h] ++
  enc16 (tcp.window_size h) ++ enc16 (tcp.checksum h) ++ enc16 (tcp.urgent_pointer h).

Definition udp_encode (h : udp.udp_header_t) : list Z :=
  enc16 (udp.src_port h) ++ enc16 (udp.dst_port h) ++ enc16 (udp.length h) ++
  enc16 (udp.checksum h).

Definition tcp_header_ok (h : tcp.tcp_header_t) : Prop :=
  0 <= tcp.src_port h < 65536 /\ 0 <= tcp.dst_port h < 65536 /\
  0 <= tcp.seq_num h < 2 ^ 32 /\ 0 <= tcp.ack_num h < 2 ^ 32 /\
  5 <= tcp.data_offset h <= 15 /\ 0 <= tcp.flags h < 64 /\
  0 <= tcp.window_size h < 65536 /\ 0 <= tcp.checksum h < 65536 /\
  0 <= tcp.urgent_pointer h < 65536 /\ tcp.checksum_valid h = false.

Definition udp_header_ok (h : udp.udp_header_t) : Prop :=
  0 <= udp.src_port h < 65536 /\ 0 <= udp.dst_port h < 65536 /\
  0 <= udp.length h < 65536 /\ 0 <= udp.checksum h < 65536 /\
  udp.checksum_present h = negb (udp.checksum h =? 0) /\ udp.checksum_valid h = false.

(** ** Parser lemmas *)

Lemma enc32_be32 b0 b1 b2 b3 :
  is_byte b0 -> is_byte b1 -> is_byte b2 -> is_byte b3 ->
  enc32 (be32 b0 b1 b2 b3) = [b0; b1; b2; b3].
Proof.
  intros. rewrite be32_val by done. unfold enc32, is_byte in *.
  repeat f_equal; Z.div_mod_to_equations; lia.
Qed.

Lemma be32_range b0 b1 b2 b3 :
  is_byte b0 -> is_byte b1 -> is_byte b2 -> is_byte b3 -> 0 <= be32 b0 b1 b2 b3 < 2 ^ 32.
Proof. intros. rewrite be32_val by done. unfold is_byte in *. lia. Qed.
#[local] Hint Resolve be32_range : bytes.

Lemma land_0x3F b : Z.land b 0x3F = b mod 64.
Proof. exact (land_ones_mod b 6 ltac:(lia)). Qed.
Lemma shiftr_4 b : Z.shiftr b 4 = b / 16.
Proof. exact (Z.shiftr_div_pow2 b 4 ltac:(lia)). Qed.

Lemma tcp_parse_spec data len :
  valid_view data len ->
  exists r, tcp_parse (Some data) len Dest = Ret r /\
  match r with
  | None => len < 20 \/ byte_at data 12 / 16 < 5 \/ len < byte_at data 12 / 16 * 4
  | Some (h, p, n) =>
      tcp_header_ok h /\
      data = tcp_encode h (byte_at data 12 mod 16) (byte_at data 13 / 64) ++ advance data 20 /\
      p = advance data (tcp.data_offset h * 4) /\ n = len - tcp.data_offset h * 4 /\
      valid_view p n
  end.
Proof.
  intros Hv. pose proof Hv as (Hb & Hl & H32). unfold tcp_parse, TCP_HEADER_MIN_LEN.
  zcase; [eexists; split; [reflexivity|left; lia]|]. run_reads. rewrite shiftr_4.
  assert (is_byte (byte_at data 12) /\ is_byte (byte_at data 13)) as [B12 B13] by auto with bytes.
  unfold is_byte in B12, B13. rewrite (u32_small (_ * 4)) by (Z.div_mod_to_equations; lia).
  destruct (_ || _) eqn:Hc.
  { eexists; split; [reflexivity|]. rewrite !orb_true_iff in Hc. lia. }
  rewrite !orb_false_iff in Hc. destruct Hc as [E1 E2].
  assert (5 <= byte_at data 12 / 16 <= 15) by (Z.div_mod_to_equations; lia).
  run_reads. rewrite land_0x3F, (u32_small (len - _)) by lia.
  eexists; split; [reflexivity|]. split; [|split; [|split_and!; try done]].
  - unfold tcp_header_ok; cbn. split_and!; auto with bytes; try apply be16_range;
      try (apply be32_range; auto with bytes); Z.div_mod_to_equations; lia.
  - unfold tcp_encode; cbn [tcp.src_port tcp.dst_port tcp.seq_num tcp.ack_num tcp.data_offset
      tcp.flags tcp.window_size tcp.checksum tcp.urgent_pointer].
    replace (_ * 16 + _) with (byte_at data 12) by (Z.div_mod_to_equations; lia).
    replace (_ * 64 + _) with (byte_at data 13) by (Z.div_mod_to_equations; lia).
    rewrite !enc16_be16, !enc32_be32 by auto with bytes.
    rewrite <- !app_assoc; cbn [app]. rewrite !advance_cons by lia. done.
  - by apply valid_view_advance; [|lia].
Qed.

Lemma udp_parse_spec data len :
  valid_view data len ->
  exists r, udp_parse (Some data) len Dest = Ret r /\
  match r with
  | None => len < 8
  | Some (h, p, n) =>
      udp_header_ok h /\ data = udp_encode h ++ p /\ n = len - 8 /\ valid_view p n
  end.
Proof.
  intros Hv. pose proof Hv as (Hb & Hl & H32). unfold udp_parse, UDP_HEADER_LEN.
  zcase; [eexists; split; [reflexivity|cbn; lia]|]. run_reads.
  eexists; split; [reflexivity|]. rewrite u32_small by lia.
  split; [|split; [|split; [done|by apply valid_view_advance; [|lia]]]].
  - unfold udp_header_ok; cbn. split_and!; try apply be16_range; done.
  - unfold udp_encode; cbn [udp.src_port udp.dst_port udp.length udp.checksum].
    rewrite !enc16_be16 by auto with bytes.
    rewrite <- !app_assoc; cbn [app]. rewrite !advance_cons by lia. done.
Qed.

Lemma tcp_encode_inj h r e h' r' e' :
  tcp_header_ok h -> tcp_header_ok h' -> 0 <= r < 16 -> 0 <= r' < 16 ->
  0 <= e < 4 -> 0 <= e' < 4 ->
  tcp_encode h r e = tcp_encode h' r' e' -> h = h'.
Proof.
  destruct h as [sp dp sq ak off fl ws ck up cv], h' as [sp' dp' sq' ak' off' fl' ws' ck' up' cv'].
  unfold tcp_header_ok, tcp_encode; cbn [tcp.src_port tcp.dst_port tcp.seq_num
    tcp.ack_num tcp.data_offset tcp.flags tcp.window_size tcp.checksum tcp.urgent_pointer
    tcp.checksum_valid].
  intros (?&?&?&?&?&?&?&?&?&->) (?&?&?&?&?&?&?&?&?&->) ???? E. do 7 peel_app E.
  repeat match goal with
         | E : enc16 _ = enc16 _ |- _ => apply enc16_inj in E; [|lia..]
         | E : enc32 _ = enc32 _ |- _ => apply enc32_inj in E; [|lia..]
         | E : [_; _] = [_; _] |- _ => injection E as ? ?
         end.
  subst. f_equal; lia.
Qed.

#[export] Instance tcp_parse_safe :
  SafeParser (fun data len => tcp_parse (Some data) len Dest)
    (fun '(h, p, n) => tcp_header_ok h /\ valid_view p n).
Proof.
  intros data len Hv. destruct (tcp_parse_spec data len Hv) as (r & E & Hr).
  exists r. split; [done|]. intros [[h p] n] ->. tauto.
Qed.

#[export] Instance udp_parse_safe :
  SafeParser (fun data len => udp_parse (Some data) len Dest)
    (fun '(h, p, n) => udp_header_ok h /\ valid_view p n).
Proof.
  intros data len Hv. destruct (udp_parse_spec data len Hv) as (r & E & Hr).
  exists r. split; [done|]. intros [[h p] n] ->. tauto.
Qed.

(** ** Checksum lemmas *)

Section Verify.
Context (segment : list Z) (len : Z) (Hseg : valid_view segment len).

Lemma tcp_verify_eq src dst :
  is_bytes src -> is_bytes dst -> length src = 4%nat -> length dst = 4%nat ->
  20 <= len < 65536 ->
  tcp_verify_checksum (Some segment) len (Some src) (Some dst) =
    Ret (rfc1071_sum (rfc793_pseudo src dst 6 len ++ take (Z.to_nat len) segment) =? 65535).
Proof using Hseg.
  intros. unfold tcp_verify_checksum, TCP_HEADER_MIN_LEN. zcase.
  destruct Hseg as (? & ? & ?). apply verify_ipv4_pseudo_rfc; (done || lia || solve_byte).
Qed.

Lemma tcp_verify_ipv6_eq src dst :
  is_bytes src -> is_bytes dst -> length src = 16%nat -> length dst = 16%nat ->
  20 <= len -> len + 40 <= max_sum_len ->
  tcp_verify_checksum_ipv6 (Some segment) len (Some src) (Some dst) =
    Ret (rfc1071_sum (rfc2460_pseudo src dst 6 len ++ take (Z.to_nat len) segment) =? 65535).
Proof using Hseg.
  intros. unfold tcp_verify_checksum_ipv6, TCP_HEADER_MIN_LEN. zcase.
  destruct Hseg as (? & ? & ?). apply verify_ipv6_pseudo_rfc; (done || lia || solve_byte).
Qed.

Lemma udp_verify_eq src dst :
  is_bytes src -> is_bytes dst -> length src = 4%nat -> length dst = 4%nat ->
  8 <= len < 65536 ->
  udp_verify_checksum (Some segment) len (Some src) (Some dst) =
    Ret ((be16 (byte_at segment 6) (byte_at segment 7) =? 0) ||
         (rfc1071_sum (rfc793_pseudo src dst 17 len ++ take (Z.to_nat len) segment) =? 65535)).
Proof using Hseg.
  intros. destruct Hseg as (? & ? & ?). unfold udp_verify_checksum, UDP_HEADER_LEN. zcase.
  run_reads. destruct (_ =? 0); [done|]. cbn [orb].
  apply verify_ipv4_pseudo_rfc; (done || lia || solve_byte).
Qed.

Lemma udp_verify_ipv6_eq src dst :
  is_bytes src -> is_bytes dst -> length src = 16%nat -> length dst = 16%nat ->
  8 <= len -> len + 40 <= max_sum_len ->
  udp_verify_checksum_ipv6 (Some segment) len (Some src) (Some dst) =
    Ret (rfc1071_sum (rfc2460_pseudo src dst 17 len ++ take (Z.to_nat len) segment) =? 65535).
Proof using Hseg.
  intros. unfold udp_verify_checksum_ipv6, UDP_HEADER_LEN. zcase.
  destruct Hseg as (? & ? & ?). apply verify_ipv6_pseudo_rfc; (done || lia || solve_byte).
Qed.

End Verify.

(** ** Properties *)

(** C35: on any view [tcp_parse] reads only inside it and fails exactly on fewer
    than 20 bytes, a data offset below 5, or options past the view; an accepted
    header is the only one whose wire form (with the reserved and ECN bits the
    parser drops) starts the segment, and the payload is what follows the
    options. *)
Theorem tcp_parse_correct data len :
  valid_view data len ->
  exists r, tcp_parse (Some data) len Dest = Ret r /\
  match r with
  | None => len < 20 \/ byte_at data 12 / 16 < 5 \/ len < byte_at data 12 / 16 * 4
  | Some (h, p, n) =>
      tcp_header_ok h /\
      (forall h' res ecn, tcp_header_ok h' -> 0 <= res < 16 -> 0 <= ecn < 4 ->
         take 20 data = tcp_encode h' res ecn <->
         h' = h /\ res = byte_at data 12 mod 16 /\ ecn = byte_at data 13 / 64) /\
      p = advance data (tcp.data_offset h * 4) /\ n = len - tcp.data_offset h * 4 /\
      valid_view p n
  end.
Proof.
  intros Hv. destruct (tcp_parse_spec data len Hv) as (r & E & Hr).
  exists r. split; [done|]. destruct r as [[[h p] n]|]; [|done].
  destruct Hr as (Hok & Hd & ?). split; [done|]. split; [|done].
  destruct Hv as (Hb & _ & _).
  assert (is_byte (byte_at data 12) /\ is_byte (byte_at data 13)) as [B12 B13] by auto with bytes.
  unfold is_byte in B12, B13.
  assert (take 20 data = tcp_encode h (byte_at data 12 mod 16) (byte_at data 13 / 64)) as Et
    by (rewrite Hd at 1; by rewrite take_app_length').
  intros h' res ecn Hok' Hres Hecn. rewrite Et. split.
  - intros Eh. assert (h = h') as <- by (eapply tcp_encode_inj; try apply Eh; try done;
      Z.div_mod_to_equations; lia). split; [done|].
    unfold tcp_encode in Eh. do 4 peel_app Eh. apply (app_inj_1 _ _) in Eh as [Eh _]; [|done].
    injection Eh as ? ?. lia.
  - by intros (-> & -> & ->).
Qed.

(** A SYN with one option word. *)
Definition sample_tcp_bytes : list Z :=
  [0x01; 0xbb; 0xc0; 0x01; 0; 0; 0; 1; 0; 0; 0; 0; 0x60; 0xc2; 0xff; 0xff; 0; 0; 0; 0;
   2; 4; 5; 0xb4; 0x41].

Lemma tcp_parse_correct_witness :
  exists r, tcp_parse (Some sample_tcp_bytes) 25 Dest = Ret r /\
  match r with
  | None => 25 < 20 \/ byte_at sample_tcp_bytes 12 / 16 < 5 \/
            25 < byte_at sample_tcp_bytes 12 / 16 * 4
  | Some (h, p, n) =>
      tcp_header_ok h /\
      (forall h' res ecn, tcp_header_ok h' -> 0 <= res < 16 -> 0 <= ecn < 4 ->
         take 20 sample_tcp_bytes = tcp_encode h' res ecn <->
         h' = h /\ res = byte_at sample_tcp_bytes 12 mod 16 /\
         ecn = byte_at sample_tcp_bytes 13 / 64) /\
      p = advance sample_tcp_bytes (tcp.data_offset h * 4) /\
      n = 25 - tcp.data_offset h * 4 /\ valid_view p n
  end.
Proof.
  apply (tcp_parse_correct sample_tcp_bytes 25).
  apply (bool_decide_unpack _). vm_compute. exact I.
Defined.

(** [udp_parse] fails exactly below 8 bytes and otherwise splits the view
    losslessly into a header and its payload, flagging a zero checksum field as
    absent and leaving the verdict unset. *)
Theorem udp_parse_correct data len :
  valid_view data len ->
  exists r, udp_parse (Some data) len Dest = Ret r /\
  match r with
  | None => len < 8
  | Some (h, p, n) =>
      udp_header_ok h /\ data = udp_encode h ++ p /\ n = len - 8 /\ valid_view p n
  end.
Proof. apply udp_parse_spec. Qed.

Lemma udp_parse_correct_witness :
  exists r, udp_parse (Some [0; 53; 0x30; 0x39; 0; 9; 0; 0; 0x41]) 9 Dest = Ret r /\
  match r with
  | None => 9 < 8
  | Some (h, p, n) =>
      udp_header_ok h /\ [0; 53; 0x30; 0x39; 0; 9; 0; 0; 0x41] = udp_encode h ++ p /\
      n = 9 - 8 /\ valid_view p n
  end.
Proof.
  apply (udp_parse_correct [0; 53; 0x30; 0x39; 0; 9; 0; 0; 0x41] 9).
  apply (bool_decide_unpack _). vm_compute. exact I.
Defined.

(** A TCP segment whose checksum field the sender filled as RFC 793 / RFC
    2460 prescribe (the complement of the sum over pseudo-header and segment
    with the field zeroed) verifies, over IPv4 and over IPv6. *)
Theorem tcp_sender_verifies pre hi lo post :
  is_bytes pre -> is_byte hi -> is_byte lo -> is_bytes post -> length pre = 16%nat ->
  let segment := pre ++ hi :: lo :: post in
  let len := zlen segment in
  20 <= len < 65536 ->
  (forall src dst, is_bytes src -> is_bytes dst -> length src = 4%nat -> length dst = 4%nat ->
     rfc1071_checksum (rfc793_pseudo src dst 6 len ++ pre ++ 0 :: 0 :: post) = hi * 256 + lo ->
     tcp_verify_checksum (Some segment) len (Some src) (Some dst) = Ret true) /\
  (forall src dst, is_bytes src -> is_bytes dst -> length src = 16%nat -> length dst = 16%nat ->
     rfc1071_checksum (rfc2460_pseudo src dst 6 len ++ pre ++ 0 :: 0 :: post) = hi * 256 + lo ->
     tcp_verify_checksum_ipv6 (Some segment) len (Some src) (Some dst) = Ret true).
Proof.
  intros Hpre Hhi Hlo Hpost L16 segment len Hlen.
  assert (valid_view segment len) as Hv by (split; [subst segment; solve_bytes|subst len; lia]).
  assert (take (Z.to_nat len) segment = pre ++ hi :: lo :: post) as Et
    by (apply take_ge; subst len segment; unfold zlen; by rewrite Nat2Z.id).
  split; intros src dst Hs Hd Ls Ld Hc;
    [rewrite tcp_verify_eq by done|rewrite tcp_verify_ipv6_eq by (done || unfold max_sum_len; lia)];
    f_equal; apply Z.eqb_eq; rewrite Et, app_assoc; (apply rfc1071_sender; [| | | |done|done]);
    try (by rewrite <- app_assoc); try done.
  - unfold rfc793_pseudo. rewrite <- !app_assoc. solve_bytes.
  - unfold rfc793_pseudo. by rewrite !length_app, Ls, Ld, L16.
  - unfold rfc2460_pseudo. rewrite <- !app_assoc. solve_bytes.
  - unfold rfc2460_pseudo. by rewrite !length_app, Ls, Ld, L16.
Qed.

Definition sample_syn_prefix : list Z :=
  [1; 0xbb; 0xc0; 1; 0; 0; 0; 1; 0; 0; 0; 0; 0x50; 2; 0xff; 0xff].

Lemma tcp_sender_verifies_witness :
  tcp_verify_checksum (Some (sample_syn_prefix ++ [0xda; 0x22; 0; 0])) 20
    (Some [10; 0; 0; 1]) (Some [10; 0; 0; 2]) = Ret true.
Proof.
  refine (proj1 (tcp_sender_verifies sample_syn_prefix 0xda 0x22 [0; 0] _ _ _ _ _ _)
    [10; 0; 0; 1] [10; 0; 0; 2] _ _ _ _ _);
    try solve_bytes; try solve_byte; try reflexivity. vm_compute. intuition congruence.
Defined.



(** tcp_udp_parser.h says that over IPv6 a zero field is just a wrong checksum.  The code sums it
    like any other (as its own comment says), and where the rest of the datagram sums to all ones
    already, which a sender that leaves the field out can produce, the datagram is valid. *)
Theorem zero_udp_field_ipv6 :
  udp_verify_checksum_ipv6 (Some [0; 53; 0x30; 0x39; 0; 10; 0; 0; 0xcf; 0x6c]) 10
    (Some (replicate 16 0)) (Some (replicate 16 0)) = Ret true.
Proof. vm_compute. reflexivity. Qed.
