(* ===== verification/IcmpParser.v ===== *)
(** * ICMP and ICMPv6 (src/c/icmp_parser.c, src/c/icmp_parser.h) *)
From S2P Require Import Prelude Checksum.
From stdpp Require Import sets options.

Local Open Scope Z_scope.
Local Open Scope wire_scope.

Definition ICMP_HEADER_LEN : Z := 8.
Definition IP_PROTO_ICMPV6 : Z := 58.
Definition ICMPV4_TYPE_ECHO_REPLY : Z := 0.
Definition ICMPV4_TYPE_DEST_UNREACHABLE : Z := 3.
Definition ICMPV4_TYPE_ECHO_REQUEST : Z := 8.
Definition ICMPV4_TYPE_TIME_EXCEEDED : Z := 11.
Definition ICMPV6_TYPE_DEST_UNREACHABLE : Z := 1.
Definition ICMPV6_TYPE_PACKET_TOO_BIG : Z := 2.
Definition ICMPV6_TYPE_TIME_EXCEEDED : Z := 3.
Definition ICMPV6_TYPE_ECHO_REQUEST : Z := 128.
Definition ICMPV6_TYPE_ECHO_REPLY : Z := 129.

Inductive icmp_family_t := ICMP_FAMILY_V4 | ICMP_FAMILY_V6.

Record icmp_header_t := {
  type : Z;
  code : Z;
  checksum : Z;
  checksum_valid : bool;
  is_echo : bool;
  echo_id : Z;
  echo_seq : Z;
}.

Definition icmp_parse (data : option (list Z)) (length : Z) (family : icmp_family_t)
    (out_header : out_arg) : outcome (option icmp_header_t) :=
  match data, out_header with
  | Some data, Dest =>
    if length <? ICMP_HEADER_LEN then Ret None else
    type ← data.[0]; code ← data.[1];
    b2 ← data.[2]; b3 ← data.[3];
    let echo_request_type :=
      match family with ICMP_FAMILY_V6 => ICMPV6_TYPE_ECHO_REQUEST
                      | ICMP_FAMILY_V4 => ICMPV4_TYPE_ECHO_REQUEST end in
    let echo_reply_type :=
      match family with ICMP_FAMILY_V6 => ICMPV6_TYPE_ECHO_REPLY
                      | ICMP_FAMILY_V4 => ICMPV4_TYPE_ECHO_REPLY end in
    if (type =? echo_request_type) || (type =? echo_reply_type) then
      b4 ← data.[4]; b5 ← data.[5]; b6 ← data.[6]; b7 ← data.[7];
      Ret (Some {| type := type; code := code; checksum := be16 b2 b3;
                   checksum_valid := false; is_echo := true;
                   echo_id := be16 b4 b5; echo_seq := be16 b6 b7 |})
    else
      Ret (Some {| type := type; code := code; checksum := be16 b2 b3;
                   checksum_valid := false; is_echo := false;
                   echo_id := 0; echo_seq := 0 |})
  | _, _ => Ret None
  end.

Definition icmpv4_verify_checksum (segment : option (list Z)) (segment_len : Z)
    : outcome bool :=
  match segment with
  | Some segment =>
    if segment_len <? ICMP_HEADER_LEN then Ret false else checksum_verify segment segment_len
  | None => Ret false
  end.

Definition icmpv6_verify_checksum (segment : option (list Z)) (segment_len : Z)
    (src_ip dst_ip : option (list Z)) : outcome bool :=
  match segment, src_ip, dst_ip with
  | Some segment, Some src_ip, Some dst_ip =>
    if segment_len <? ICMP_HEADER_LEN then Ret false else
    checksum_verify_ipv6_pseudo segment segment_len src_ip dst_ip IP_PROTO_ICMPV6
  | _, _, _ => Ret false
  end.

(** ** Reference *)

(** The message types RFC 792 and RFC 4443 call echo request and echo reply. *)
Definition echo_types (family : icmp_family_t) : list Z :=
  match family with
  | ICMP_FAMILY_V4 => [8; 0]
  | ICMP_FAMILY_V6 => [128; 129]
  end.

Definition icmp_header_ok (family : icmp_family_t) (h : icmp_header_t) : Prop :=
  is_byte (type h) /\ is_byte (code h) /\ 0 <= checksum h < 65536 /\
  checksum_valid h = false /\ is_echo h = bool_decide (type h ∈ echo_types family) /\
  0 <= echo_id h < 65536 /\ 0 <= echo_seq h < 65536.

(** ** Lemmas *)

Lemma echo_test family t :
  bool_decide (t ∈ echo_types family) =
  (t =? match family with ICMP_FAMILY_V6 => ICMPV6_TYPE_ECHO_REQUEST
                        | ICMP_FAMILY_V4 => ICMPV4_TYPE_ECHO_REQUEST end) ||
  (t =? match family with ICMP_FAMILY_V6 => ICMPV6_TYPE_ECHO_REPLY
                        | ICMP_FAMILY_V4 => ICMPV4_TYPE_ECHO_REPLY end).
Proof.
  destruct family; cbn [echo_types]; unfold ICMPV6_TYPE_ECHO_REQUEST, ICMPV4_TYPE_ECHO_REQUEST,
    ICMPV6_TYPE_ECHO_REPLY, ICMPV4_TYPE_ECHO_REPLY;
    repeat match goal with |- context [Z.eqb ?a ?b] => destruct (Z.eqb_spec a b) end; cbn;
    (apply bool_decide_eq_true_2 || apply bool_decide_eq_false_2); set_solver.
Qed.

Lemma icmp_parse_spec family data len :
  valid_view data len ->
  exists r, icmp_parse (Some data) len family Dest = Ret r /\
  match r with
  | None => len < 8
  | Some h =>
      icmp_header_ok family h /\ 8 <= len /\
      type h = byte_at data 0 /\ code h = byte_at data 1 /\
      checksum h = be16 (byte_at data 2) (byte_at data 3) /\
      echo_id h = (if is_echo h then be16 (byte_at data 4) (byte_at data 5) else 0) /\
      echo_seq h = (if is_echo h then be16 (byte_at data 6) (byte_at data 7) else 0)
  end.
Proof.
  intros Hv. pose proof Hv as (Hb & Hl & H32). unfold icmp_parse, ICMP_HEADER_LEN.
  zcase; [eexists; split; [reflexivity|cbn; lia]|]. run_reads. rewrite <- echo_test.
  destruct (bool_decide _) eqn:He; run_reads; (eexists; split; [reflexivity|]);
    unfold icmp_header_ok; cbn [type code checksum checksum_valid is_echo echo_id echo_seq];
    split_and!; auto with bytes; try apply be16_range; lia.
Qed.

#[export] Instance icmp_parse_safe family :
  SafeParser (fun data len => icmp_parse (Some data) len family Dest) (icmp_header_ok family).
Proof.
  intros data len Hv. destruct (icmp_parse_spec family data len Hv) as (r & E & Hr).
  exists r. split; [done|]. intros h ->. tauto.
Qed.

Lemma icmpv4_verify_eq segment len :
  valid_view segment len -> len <= max_sum_len ->
  icmpv4_verify_checksum (Some segment) len =
    Ret ((8 <=? len) && (rfc1071_sum (take (Z.to_nat len) segment) =? 65535)).
Proof.
  intros (Hb & Hl & _) Hmax. unfold icmpv4_verify_checksum, ICMP_HEADER_LEN. zcase.
  - by destruct (Z.leb_spec 8 len); [lia|].
  - rewrite checksum_verify_whole by (done || lia). by destruct (Z.leb_spec 8 len); [|lia].
Qed.

Lemma icmpv6_verify_eq segment len src dst :
  valid_view segment len -> is_bytes src -> is_bytes dst ->
  length src = 16%nat -> length dst = 16%nat -> len + 40 <= max_sum_len ->
  icmpv6_verify_checksum (Some segment) len (Some src) (Some dst) =
    Ret ((8 <=? len) &&
         (rfc1071_sum (rfc2460_pseudo src dst 58 len ++ take (Z.to_nat len) segment) =? 65535)).
Proof.
  intros (Hb & Hl & _) Hs Hd Ls Ld Hmax. unfold icmpv6_verify_checksum, ICMP_HEADER_LEN. zcase.
  - by destruct (Z.leb_spec 8 len); [lia|].
  - unfold IP_PROTO_ICMPV6. rewrite verify_ipv6_pseudo_rfc by (done || lia || solve_byte).
    by destruct (Z.leb_spec 8 len); [|lia].
Qed.

(** ** Properties *)

(** On any view, for both families, [icmp_parse] reads only inside it, fails
    exactly below 8 bytes, and marks a message as an echo precisely for the
    family's own request/reply numbers, decoding identifier and sequence from
    bytes 4..7 then and zeroing them otherwise. *)
Theorem icmp_parse_correct family data len :
  valid_view data len ->
  exists r, icmp_parse (Some data) len family Dest = Ret r /\
  match r with
  | None => len < 8
  | Some h =>
      icmp_header_ok family h /\ 8 <= len /\
      type h = byte_at data 0 /\ code h = byte_at data 1 /\
      checksum h = be16 (byte_at data 2) (byte_at data 3) /\
      echo_id h = (if is_echo h then be16 (byte_at data 4) (byte_at data 5) else 0) /\
      echo_seq h = (if is_echo h then be16 (byte_at data 6) (byte_at data 7) else 0)
  end.
Proof. apply icmp_parse_spec. Qed.

(** Type 128 is an echo request for ICMPv6 only. *)
Lemma icmp_parse_correct_witness :
  exists r, icmp_parse (Some [128; 0; 0; 0; 0x12; 0x34; 0; 1]) 8 ICMP_FAMILY_V6 Dest = Ret r /\
  match r with
  | None => 8 < 8
  | Some h =>
      icmp_header_ok ICMP_FAMILY_V6 h /\ 8 <= 8 /\
      type h = byte_at [128; 0; 0; 0; 0x12; 0x34; 0; 1] 0 /\
      code h = byte_at [128; 0; 0; 0; 0x12; 0x34; 0; 1] 1 /\
      checksum h = be16 (byte_at [128; 0; 0; 0; 0x12; 0x34; 0; 1] 2)
                        (byte_at [128; 0; 0; 0; 0x12; 0x34; 0; 1] 3) /\
      echo_id h = (if is_echo h then be16 (byte_at [128; 0; 0; 0; 0x12; 0x34; 0; 1] 4)
                        (byte_at [128; 0; 0; 0; 0x12; 0x34; 0; 1] 5) else 0) /\
      echo_seq h = (if is_echo h then be16 (byte_at [128; 0; 0; 0; 0x12; 0x34; 0; 1] 6)
                        (byte_at [128; 0; 0; 0; 0x12; 0x34; 0; 1] 7) else 0)
  end.
Proof.
  apply (icmp_parse_correct ICMP_FAMILY_V6 [128; 0; 0; 0; 0x12; 0x34; 0; 1] 8).
  apply (bool_decide_unpack _). vm_compute. exact I.
Defined.
