(* ===== verification/Bpf.v ===== *)
(** * Classic BPF and its reference interpreter (src/tests/bpf_interp.c)

    [sock_filter] and the opcode constants are Linux's <linux/filter.h>; the
    interpreter is the one the repository tests its compiler against. *)
From S2P Require Import Prelude.
From stdpp Require Import options.

Local Open Scope Z_scope.
Local Open Scope wire_scope.

(** ** Instructions *)

Record sock_filter := { code : Z; jt : Z; jf : Z; k : Z }.

#[export] Instance sock_filter_eq_dec : EqDecision sock_filter.
Proof. solve_decision. Defined.

Definition BPF_LD : Z := 0x00.
Definition BPF_LDX : Z := 0x01.
Definition BPF_ALU : Z := 0x04.
Definition BPF_JMP : Z := 0x05.
Definition BPF_RET : Z := 0x06.
Definition BPF_W : Z := 0x00.
Definition BPF_H : Z := 0x08.
Definition BPF_B : Z := 0x10.
Definition BPF_ABS : Z := 0x20.
Definition BPF_IND : Z := 0x40.
Definition BPF_MSH : Z := 0xa0.
Definition BPF_AND : Z := 0x50.
Definition BPF_JEQ : Z := 0x10.
Definition BPF_K : Z := 0x00.

Definition BPF_CLASS (c : Z) : Z := Z.land c 0x07.
Definition BPF_SIZE (c : Z) : Z := Z.land c 0x18.
Definition BPF_MODE (c : Z) : Z := Z.land c 0xe0.
Definition BPF_OP (c : Z) : Z := Z.land c 0xf0.

(** ** The interpreter *)

(** The loop [for (i = 0; i < width; i++) v = (v << 8) | pkt[off + i]]. *)
Fixpoint load_loop (n : nat) (pkt : list Z) (off v : Z) : outcome Z :=
  match n with
  | O => Ret v
  | S n =>
    b ← pkt.[off];
    load_loop n pkt (u32 (off + 1)) (Z.lor (u32 (Z.shiftl v 8)) b)
  end.

(** [None] is the [-1] of an out-of-bounds load. *)
Definition load_u (pkt : list Z) (pkt_len off : Z) (width : nat) : outcome (option Z) :=
  if pkt_len <? u32 (off + Z.of_nat width) then Ret None
  else v ← load_loop width pkt off 0; Ret (Some v).

Record bpf_state := { acc : Z; idx : Z; pc : Z }.

(** One turn of the interpreter loop: the next state or the value returned. *)
Definition bpf_step (f : sock_filter) (pkt : list Z) (pkt_len : Z) (st : bpf_state)
    : outcome (bpf_state + Z) :=
  let cls := BPF_CLASS (code f) in
  if (cls =? BPF_LD) || (cls =? BPF_LDX) then
    let width := if BPF_SIZE (code f) =? BPF_W then 4%nat
                 else if BPF_SIZE (code f) =? BPF_H then 2%nat else 1%nat in
    let mode := BPF_MODE (code f) in
    if mode =? BPF_MSH then
      v ← load_u pkt pkt_len (k f) 1;
      match v with
      | None => Ret (inr 0)
      | Some v => Ret (inl {| acc := acc st; idx := u32 (Z.land v 0x0f * 4); pc := pc st + 1 |})
      end
    else if (mode =? BPF_ABS) || (mode =? BPF_IND) then
      let off := if mode =? BPF_ABS then k f else u32 (k f + idx st) in
      v ← load_u pkt pkt_len off width;
      match v with
      | None => Ret (inr 0)
      | Some v =>
        if cls =? BPF_LD
        then Ret (inl {| acc := v; idx := idx st; pc := pc st + 1 |})
        else Ret (inl {| acc := acc st; idx := v; pc := pc st + 1 |})
      end
    else Ret (inr 0)
  else if cls =? BPF_ALU then
    let a := if BPF_OP (code f) =? BPF_AND then Z.land (acc st) (k f) else acc st in
    Ret (inl {| acc := a; idx := idx st; pc := pc st + 1 |})
  else if cls =? BPF_JMP then
    if BPF_OP (code f) =? BPF_JEQ then
      let taken := acc st =? k f in
      Ret (inl {| acc := acc st; idx := idx st;
                  pc := pc st + 1 + if taken then jt f else jf f |})
    else Ret (inr 0)
  else if cls =? BPF_RET then Ret (inr (k f))
  else Ret (inr 0).

(** The loop [while (pc < prog->len)]; running out of [steps] returns 0, as the
    interpreter's own guard does. *)
Fixpoint bpf_loop (steps : nat) (prog : list sock_filter) (pkt : list Z) (pkt_len : Z)
    (st : bpf_state) : outcome Z :=
  match steps with
  | O => Ret 0
  | S steps =>
    match prog !! Z.to_nat (pc st) with
    | None => Ret 0
    | Some f =>
      r ← bpf_step f pkt pkt_len st;
      match r with
      | inl st => bpf_loop steps prog pkt pkt_len st
      | inr v => Ret v
      end
    end
  end.

Definition bpf_max_steps : nat := Z.to_nat 10000.

(** [None] is a NULL program. *)
Definition bpf_interp_run (prog : option (list sock_filter)) (pkt : list Z) (pkt_len : Z)
    : outcome Z :=
  match prog with
  | None | Some [] => Ret 0xFFFF
  | Some prog => bpf_loop bpf_max_steps prog pkt pkt_len {| acc := 0; idx := 0; pc := 0 |}
  end.

(** ** Loads *)

(** The big-endian value of [n] bytes at [off], if the packet has them. *)
Fixpoint be_bytes (l : list Z) : Z :=
  match l with [] => 0 | b :: l => b * 256 ^ zlen l + be_bytes l end.
Definition pkt_load (pkt : list Z) (off : Z) (n : nat) : option Z :=
  if off + Z.of_nat n <=? zlen pkt
  then Some (be_bytes (take n (drop (Z.to_nat off) pkt))) else None.

(** Loads never misread, and agree with [pkt_load]. *)
Lemma load_loop_spec n : forall pkt off v,
  is_bytes pkt -> 0 <= off -> off + Z.of_nat n <= zlen pkt < 2 ^ 32 - 1 ->
  0 <= v -> v * 256 ^ Z.of_nat n + 256 ^ Z.of_nat n <= 2 ^ 32 ->
  load_loop n pkt off v =
    Ret (v * 256 ^ Z.of_nat n + be_bytes (take n (drop (Z.to_nat off) pkt))).
Proof.
  induction n as [|n IH]; intros pkt off v Hb Hoff Hlen Hv Hfit; cbn [load_loop].
  - rewrite take_0. cbn [be_bytes]. f_equal. lia.
  - rewrite rd_in by lia. obind.
    assert (is_byte (byte_at pkt off)) as Hbo by auto with bytes. unfold is_byte in Hbo.
    assert (256 ^ Z.of_nat (S n) = 256 * 256 ^ Z.of_nat n) as Hp
      by (rewrite Nat2Z.inj_succ, Z.pow_succ_r; lia).
    assert (0 < 256 ^ Z.of_nat n) by (apply Z.pow_pos_nonneg; lia).
    rewrite Hp in *. rewrite (u32_small (off + 1)) by lia.
    rewrite u32_small by (rewrite Z.shiftl_mul_pow2 by lia; change (2 ^ 8) with 256; nia).
    rewrite lor_shiftl_add by lia. change (2 ^ 8) with 256.
    rewrite IH by (done || lia || nia).
    assert (take (S n) (drop (Z.to_nat off) pkt) =
            byte_at pkt off :: take n (drop (Z.to_nat (off + 1)) pkt)) as ->.
    { change (drop (Z.to_nat off) pkt) with (advance pkt off).
      rewrite <- advance_cons by lia. done. }
    cbn [be_bytes].
    replace (zlen (take n (drop (Z.to_nat (off + 1)) pkt))) with (Z.of_nat n)
      by (unfold zlen in *; rewrite length_take, length_drop; lia).
    f_equal. lia.
Qed.

Lemma load_u_spec pkt off n :
  is_bytes pkt -> zlen pkt < 2 ^ 32 - 1 -> 0 <= off -> off + Z.of_nat n < 2 ^ 32 ->
  (n <= 4)%nat -> load_u pkt (zlen pkt) off n = Ret (pkt_load pkt off n).
Proof.
  intros Hb Hlen Hoff Hoff' Hn. unfold load_u, pkt_load. rewrite u32_small by lia.
  destruct (Z.ltb_spec (zlen pkt) (off + Z.of_nat n)), (Z.leb_spec (off + Z.of_nat n) (zlen pkt));
    try lia; [done|].
  rewrite load_loop_spec; try (done || lia).
  assert (256 ^ Z.of_nat n <= 256 ^ 4) by (apply Z.pow_le_mono_r; lia). lia.
Qed.

(** ** Runs of the interpreter *)

(** [c] consecutive turns that do not return. *)
Inductive runs (prog : list sock_filter) (pkt : list Z) : nat -> bpf_state -> bpf_state -> Prop :=
| runs_refl st : runs prog pkt 0 st st
| runs_step c st f st1 st2 :
    prog !! Z.to_nat (pc st) = Some f ->
    bpf_step f pkt (zlen pkt) st = Ret (inl st1) ->
    runs prog pkt c st1 st2 -> runs prog pkt (S c) st st2.

(** [c] turns and then a turn that returns [v]. *)
Definition halts (prog : list sock_filter) (pkt : list Z) (c : nat) (st : bpf_state) (v : Z)
    : Prop :=
  exists st' f, runs prog pkt c st st' /\ prog !! Z.to_nat (pc st') = Some f /\
    bpf_step f pkt (zlen pkt) st' = Ret (inr v).

Lemma runs_trans prog pkt c1 c2 st1 st2 st3 :
  runs prog pkt c1 st1 st2 -> runs prog pkt c2 st2 st3 -> runs prog pkt (c1 + c2) st1 st3.
Proof. induction 1; [done|]. intros. econstructor; eauto. Qed.

Lemma runs_halts prog pkt c1 c2 st1 st2 v :
  runs prog pkt c1 st1 st2 -> halts prog pkt c2 st2 v -> halts prog pkt (c1 + c2) st1 v.
Proof. intros H (st' & f & Hr & Hf & Hs). exists st', f. split; [by eapply runs_trans|done]. Qed.

Lemma halts_step prog pkt c st f st1 v :
  prog !! Z.to_nat (pc st) = Some f -> bpf_step f pkt (zlen pkt) st = Ret (inl st1) ->
  halts prog pkt c st1 v -> halts prog pkt (S c) st v.
Proof. intros Hf Hs (st' & f' & Hr & ?). exists st', f'. split; [by econstructor|done]. Qed.

(** A halting run within the step budget is what the interpreter computes. *)
Lemma bpf_loop_halts prog pkt c st v steps :
  halts prog pkt c st v -> (c < steps)%nat ->
  bpf_loop steps prog pkt (zlen pkt) st = Ret v.
Proof.
  intros (st' & f & Hr & Hf & Hs). revert steps.
  induction Hr as [st|c st f1 st1 st2 Hf1 Hs1 Hr IH]; intros [|steps] Hlt; try lia;
    cbn [bpf_loop].
  - rewrite Hf, Hs. done.
  - rewrite Hf1, Hs1. obind. apply IH; [done..|lia].
Qed.
