(* ===== verification/Text.v ===== *)
(** * Characters, numerals and scanning

    What the two filter lexers and the address printers share of C's character
    tests, [strtoul], [snprintf]'s [%u]/[%x], and scanning loops. *)
From S2P Require Import Prelude.
From stdpp Require Import options.

Local Open Scope Z_scope.

(** ** Character tests *)

Definition in_range (lo hi c : ascii) : bool :=
  (code_of lo <=? code_of c) && (code_of c <=? code_of hi).
Definition is_digit : ascii -> bool := in_range "0" "9".
Definition is_lower : ascii -> bool := in_range "a" "z".
Definition is_upper : ascii -> bool := in_range "A" "Z".
Definition is_alpha (c : ascii) : bool := is_lower c || is_upper c.
(** [isalnum] in the C locale. *)
Definition isalnum (c : ascii) : bool := is_alpha c || is_digit c.
Definition is_space (c : ascii) : bool :=
  bool_decide (c = " "%char \/ c = "009"%char \/ c = "010"%char \/ c = "013"%char).

Definition newline : ascii := "010".
(** A line, and a double quote. *)
Definition ln (s : text) : text := s ++ [newline].
Definition quote : text := ["034"%char].
Definition not_newline (c : ascii) : bool := negb (bool_decide (c = newline)).

(** ** Scanning *)

(** The longest prefix satisfying [p], and the rest. *)
Fixpoint span (p : ascii -> bool) (s : text) : text * text :=
  match s with
  | c :: s' => if p c then let '(w, r) := span p s' in (c :: w, r) else ([], s)
  | [] => ([], [])
  end.

Lemma span_app p w r :
  forallb p w = true -> match r with c :: _ => p c = false | [] => True end ->
  span p (w ++ r) = (w, r).
Proof.
  induction w as [|c w IH]; cbn [app span forallb]; intros Hw Hr.
  - destruct r as [|c r]; [done|]. cbn [span]. by rewrite Hr.
  - apply andb_true_iff in Hw as [-> Hw]. by rewrite IH.
Qed.

Lemma span_spec p s w r :
  span p s = (w, r) ->
  s = w ++ r /\ forallb p w = true /\ match r with c :: _ => p c = false | [] => True end.
Proof.
  revert w r. induction s as [|c s IH]; cbn [span]; intros w r H; [by simplify_eq|].
  destruct (p c) eqn:Hc; [|by simplify_eq].
  destruct (span p s) as [w' r'] eqn:Hs. simplify_eq.
  destruct (IH w' r eq_refl) as (-> & Hw & Hr). cbn [forallb app]. by rewrite Hc, Hw.
Qed.

Lemma span_boundary p ch s w r :
  span p (ch :: s) = (w, r) -> p ch = true ->
  ch :: s = w ++ r /\ (exists w', w = ch :: w') /\ forallb p w = true /\
  match r with d :: _ => p d = false | [] => True end.
Proof.
  intros H Hp. destruct (span_spec _ _ _ _ H) as (E & Hw & Hr). split_and!; [done| |done..].
  destruct w as [|d w]; [|simplify_eq/=; eauto]. cbn [app] in E. subst r. congruence.
Qed.

(** ** Numerals *)

Definition digit_char (d : Z) : ascii :=
  ascii_of_N (Z.to_N (if d <? 10 then code_of "0" + d else code_of "a" + (d - 10))).

(** [%u] (base 10) and [%x] (base 16): most significant digit first. *)
Fixpoint num_loop (fuel : nat) (base n : Z) (acc : text) : text :=
  match fuel with
  | O => acc
  | S fuel =>
    let acc := digit_char (n mod base) :: acc in
    if n <? base then acc else num_loop fuel base (n / base) acc
  end.
Definition num_text (base n : Z) : text := num_loop (S (Z.to_nat (Z.log2 n))) base n [].

(** [%*u] and the like: [s], filled on the left with [c] to the width [w]. *)
Definition setw (w : nat) (c : ascii) (s : text) : text := replicate (w - length s) c ++ s.
(** [%04x] *)
Definition hex4 (n : Z) : text := setw 4 "0" (num_text 16 n).
(** [%02x] of a byte. *)
Definition hex2 (b : Z) : text := [digit_char (b / 16); digit_char (b mod 16)].

(** Value of a run of decimal digits, as [strtoul] accumulates it. *)
Definition digit_val (c : ascii) : Z := code_of c - code_of "0".
Definition dec_value (w : text) : Z := fold_left (fun v c => v * 10 + digit_val c) w 0.
(** [strtoul(s, NULL, 10)] on a run of digits: saturates at [ULONG_MAX] (LP64). *)
Definition strtoul (w : text) : Z := Z.min (dec_value w) (2 ^ 64 - 1).

(** ** Lemmas on characters *)

Lemma code_of_range c : 0 <= code_of c < 256.
Proof. unfold code_of. pose proof (N_ascii_bounded c). lia. Qed.

Lemma code_of_inj c d : code_of c = code_of d -> c = d.
Proof.
  unfold code_of. intros H%N2Z.inj.
  by rewrite <- (ascii_N_embedding c), <- (ascii_N_embedding d), H.
Qed.

Lemma code_of_ascii n : 0 <= n < 256 -> code_of (ascii_of_N (Z.to_N n)) = n.
Proof. intros. unfold code_of. rewrite N_ascii_embedding by lia. lia. Qed.

Lemma in_range_spec lo hi c : in_range lo hi c = true <-> code_of lo <= code_of c <= code_of hi.
Proof. unfold in_range. rewrite andb_true_iff. lia. Qed.

Lemma code_of_digit_char d :
  0 <= d < 16 -> code_of (digit_char d) = if d <? 10 then 48 + d else 97 + (d - 10).
Proof.
  intros. unfold digit_char. change (code_of "0") with 48. change (code_of "a") with 97.
  apply code_of_ascii. zcase.
Qed.

Lemma digit_char_is_digit d : 0 <= d < 10 -> is_digit (digit_char d) = true.
Proof.
  intros. apply in_range_spec. rewrite code_of_digit_char by lia.
  change (code_of "0") with 48. change (code_of "9") with 57. zcase.
Qed.

Lemma digit_val_char d : 0 <= d < 10 -> digit_val (digit_char d) = d.
Proof.
  intros. unfold digit_val. rewrite code_of_digit_char by lia. change (code_of "0") with 48. zcase.
Qed.

Lemma digit_val_range c : is_digit c = true -> 0 <= digit_val c <= 9.
Proof.
  intros H%in_range_spec. unfold digit_val.
  change (code_of "0") with 48 in *. change (code_of "9") with 57 in *. lia.
Qed.

(** ** Printing then reading a numeral *)

Section Numerals.
Context (base : Z) (Hbase : 2 <= base <= 16).

(** What [num_loop] puts in front of [acc], for any reader of digits. *)
Lemma num_loop_spec (val : ascii -> Z) :
  (forall d, 0 <= d < base -> val (digit_char d) = d) ->
  forall fuel n acc, 0 <= n < 2 ^ Z.of_nat (S fuel) ->
  exists w, num_loop (S fuel) base n acc = w ++ acc /\ w <> [] /\
    Forall (fun c => exists d, 0 <= d < base /\ c = digit_char d) w /\
    fold_left (fun v c => v * base + val c) w 0 = n /\
    forall m, n < base ^ Z.of_nat (S m) -> (length w <= S m)%nat.
Proof using Hbase.
  intros Hval. induction fuel as [|fuel IH]; intros n acc Hn.
  - exists [digit_char n]. cbn [num_loop]. change (2 ^ Z.of_nat 1) with 2 in Hn.
    rewrite Z.mod_small by lia. zcase. split_and!; [done|done| | |].
    + apply Forall_singleton. exists n. split; [lia|done].
    + cbn. rewrite Hval; lia.
    + cbn. intros m _. lia.
  - cbn [num_loop]. destruct (Z.ltb_spec n base).
    + exists [digit_char n]. rewrite Z.mod_small by lia. split_and!; [done|done| | |].
      * apply Forall_singleton. exists n. split; [lia|done].
      * cbn. rewrite Hval; lia.
      * cbn. intros m _. lia.
    + assert (0 <= n / base < 2 ^ Z.of_nat (S fuel)) as Hn'.
      { rewrite Nat2Z.inj_succ, Z.pow_succ_r in Hn by lia. split; [apply Z.div_pos; lia|].
        apply Z.div_lt_upper_bound; [lia|]. nia. }
      destruct (IH (n / base) (digit_char (n mod base) :: acc) Hn')
        as (w & E & Hne & Hd & Hv & Hl).
      exists (w ++ [digit_char (n mod base)]). cbn [num_loop] in E. rewrite E.
      pose proof (Z.mod_pos_bound n base ltac:(lia)). split_and!.
      * by rewrite <- app_assoc.
      * by destruct w.
      * apply Forall_app. split; [done|]. apply Forall_singleton. by exists (n mod base).
      * rewrite fold_left_app, Hv. cbn. rewrite Hval by done.
        rewrite (Z.div_mod n base) at 3 by lia. lia.
      * intros [|m] Hm; [change (Z.of_nat 1) with 1 in Hm; lia|].
        rewrite length_app. cbn. enough (length w <= S m)%nat by lia. apply Hl.
        rewrite Nat2Z.inj_succ, Z.pow_succ_r in Hm by lia.
        apply Z.div_lt_upper_bound; lia.
Qed.

Lemma num_text_spec (val : ascii -> Z) n :
  (forall d, 0 <= d < base -> val (digit_char d) = d) -> 0 <= n ->
  num_text base n <> [] /\
  Forall (fun c => exists d, 0 <= d < base /\ c = digit_char d) (num_text base n) /\
  fold_left (fun v c => v * base + val c) (num_text base n) 0 = n /\
  forall m, n < base ^ Z.of_nat (S m) -> (length (num_text base n) <= S m)%nat.
Proof using Hbase.
  intros Hval Hn. unfold num_text.
  destruct (num_loop_spec val Hval (Z.to_nat (Z.log2 n)) n []) as (w & E & H).
  - split; [done|]. rewrite Nat2Z.inj_succ, Z2Nat.id by apply Z.log2_nonneg.
    destruct (Z.eq_dec n 0) as [->|]; [done|]. apply Z.log2_spec. lia.
  - rewrite E, app_nil_r. done.
Qed.
End Numerals.

(** [%u] prints digits that read back as the number. *)
Lemma dec_text_spec n :
  0 <= n ->
  num_text 10 n <> [] /\ forallb is_digit (num_text 10 n) = true /\
  dec_value (num_text 10 n) = n /\
  forall m, n < 10 ^ Z.of_nat (S m) -> (length (num_text 10 n) <= S m)%nat.
Proof.
  intros Hn. destruct (num_text_spec 10 ltac:(lia) digit_val n) as (H1 & H2 & H3 & H4);
    [apply digit_val_char|done|]. split_and!; [done| |done|done].
  apply forallb_forall. intros c Hc%list_elem_of_In.
  rewrite Forall_forall in H2. destruct (H2 c Hc) as (d & Hd & ->).
  by apply digit_char_is_digit.
Qed.
