(* ===== verification/Literals.v ===== *)
(** * Address literals: readers and printers

    [parse_ipv4_word] (src/c/capfilter.c and, identically, src/c/dispfilter.c),
    [hex_nibble], [parse_mac_word], [parse_hextet_list] and [parse_ipv6_word]
    (src/c/dispfilter.c) on one side; [ip_addr_to_str] (src/c/ip_parser.c),
    [eth_mac_to_str] (src/c/eth_parser.c) and [ipv6_addr_to_str]
    (src/c/ipv6_parser.c) on the other. *)
From S2P Require Import Prelude Text.
From stdpp Require Import options.

Local Open Scope Z_scope.

(** ** Readers *)

(** One turn per character of the word and one for the virtual trailing dot;
    [octet] is the number of octets already stored in [out]. *)
Fixpoint ipv4_loop (chs : text) (out : list Z) (value digits : Z) : option (list Z) :=
  match chs with
  | [] => if bool_decide (zlen out = 4) then Some out else None
  | ch :: chs =>
    if bool_decide (ch = "."%char) then
      if (digits =? 0) || (255 <? value) || (3 <? zlen out) then None
      else ipv4_loop chs (out ++ [u8 value]) (-1) 0
    else if is_digit ch then
      let value := (if value <? 0 then 0 else value) * 10 + digit_val ch in
      if 255 <? value then None else ipv4_loop chs out value (digits + 1)
    else None
  end.

Definition parse_ipv4_word (word : text) : option (list Z) :=
  ipv4_loop (word ++ ["."%char]) [] (-1) 0.

Definition hex_nibble (c : ascii) : Z :=
  if in_range "0" "9" c then code_of c - code_of "0"
  else if in_range "a" "f" c then code_of c - code_of "a" + 10
  else if in_range "A" "F" c then code_of c - code_of "A" + 10
  else -1.

(** [groups] groups are left; a group is two nibbles, and a colon follows every
    group but the last. *)
Fixpoint mac_loop (groups : nat) (word : text) (out : list Z) : option (list Z) :=
  match groups with
  | O => Some out
  | S groups =>
    match word with
    | c1 :: c2 :: word =>
      let hi := hex_nibble c1 in
      let lo := hex_nibble c2 in
      if (hi <? 0) || (lo <? 0) then None else
      let out := out ++ [u8 (Z.lor (Z.shiftl hi 4) lo)] in
      match groups, word with
      | O, _ => Some out
      | S _, c3 :: word => if bool_decide (c3 = ":"%char) then mac_loop groups word out else None
      | S _, [] => None
      end
    | _ => None
    end
  end.

Definition parse_mac_word (word : text) : option (list Z) :=
  if bool_decide (length word = 17%nat) then mac_loop 6 word [] else None.

(** The nibble loop of one hextet. *)
Fixpoint hextet_val (g : text) (val : Z) : option Z :=
  match g with
  | [] => Some val
  | c :: g =>
    let nib := hex_nibble c in
    if nib <? 0 then None else hextet_val g (u16 (Z.lor (Z.shiftl val 4) nib))
  end.

Definition not_colon (c : ascii) : bool := negb (bool_decide (c = ":"%char)).

(** The loop [while (i < len)] over what is left of the literal. *)
Fixpoint hextet_loop (fuel : nat) (s : text) (out : list Z) (max_groups : Z)
    : outcome (option (list Z)) :=
  match fuel with
  | O => Timeout
  | S fuel =>
    match s with
    | [] => Ret (Some out)
    | _ =>
      let '(g, rest) := span not_colon s in
      if (zlen g =? 0) || (4 <? zlen g) then Ret None else
      match hextet_val g 0 with
      | None => Ret None
      | Some val =>
        if max_groups <=? zlen out then Ret None else
        let out := out ++ [val] in
        match rest with
        | [] => hextet_loop fuel [] out max_groups
        | _ :: [] => Ret None
        | _ :: rest => hextet_loop fuel rest out max_groups
        end
      end
    end
  end.

Definition parse_hextet_list (s : text) (max_groups : Z) : outcome (option (list Z)) :=
  hextet_loop (S (S (length s))) s [] max_groups.

(** Position of the first double colon: the text before and after it. *)
Fixpoint split_dbl (word : text) : option (text * text) :=
  match word with
  | c1 :: word1 =>
    match word1 with
    | c2 :: word2 =>
      if bool_decide (c1 = ":"%char /\ c2 = ":"%char) then Some ([], word2)
      else match split_dbl word1 with
           | Some (l, r) => Some (c1 :: l, r)
           | None => None
           end
    | [] => None
    end
  | [] => None
  end.

(** Big-endian bytes of a list of hextets. *)
Definition hextet_bytes (hs : list Z) : list Z :=
  concat (map (fun h => [u8 (Z.shiftr h 8); u8 (Z.land h 0xFF)]) hs).

Definition parse_ipv6_word (word : text) : outcome (option (list Z)) :=
  let dbl := split_dbl word in
  let left_part := match dbl with Some (l, _) => l | None => word end in
  lres ← parse_hextet_list left_part 8;
  match lres with
  | None => Ret None
  | Some left_h =>
    rres ← match dbl with
            | Some (_, right_part) => parse_hextet_list right_part 8
            | None => Ret (Some [])
            end;
    match rres with
    | None => Ret None
    | Some right_h =>
      let total := zlen left_h + zlen right_h in
      if (match dbl with Some _ => 7 <? total | None => negb (total =? 8) end) then Ret None
      else
        let n_zero := 8 - total in
        Ret (Some (hextet_bytes left_h ++ hextet_bytes (replicate (Z.to_nat n_zero) 0) ++
                   hextet_bytes right_h))
    end
  end.

(** ** Printers *)

(** [snprintf] into a buffer of [size] bytes keeps [size - 1] characters. *)
Definition snprintf (size : Z) (s : text) : text := take (Z.to_nat (size - 1)) s.

Definition IP_ADDR_STR_LEN : Z := 16.
Definition ETH_MAC_STR_LEN : Z := 18.
Definition IPV6_ADDR_STR_LEN : Z := 40.

(** Texts joined by a separator character. *)
Fixpoint join (sep : ascii) (ts : list text) : text :=
  match ts with
  | [] => []
  | [t] => t
  | t :: ts => t ++ sep :: join sep ts
  end.

(** ["%u.%u.%u.%u"] *)
Definition ip_addr_to_str (addr : list Z) : text :=
  snprintf IP_ADDR_STR_LEN (join "." (map (num_text 10) (take 4 addr))).

(** ["%02x:%02x:%02x:%02x:%02x:%02x"] *)
Definition eth_mac_to_str (mac : list Z) : text :=
  snprintf ETH_MAC_STR_LEN (join ":" (map hex2 (take 6 mac))).

(** The eight 16-bit groups of an address. *)
Fixpoint hextets (addr : list Z) : list Z :=
  match addr with
  | a :: b :: addr => Z.lor (Z.shiftl a 8) b :: hextets addr
  | _ => []
  end.

(** ["%x:%x:%x:%x:%x:%x:%x:%x"] *)
Definition ipv6_addr_to_str (addr : list Z) : text :=
  snprintf IPV6_ADDR_STR_LEN (join ":" (map (num_text 16) (hextets (take 16 addr)))).

Example ipv6_compressed :
  parse_ipv6_word (lit "2001:db8::1") =
    Ret (Some [0x20; 1; 0x0d; 0xb8; 0; 0; 0; 0; 0; 0; 0; 0; 0; 0; 0; 1]).
Proof. reflexivity. Qed.
Example ipv6_two_compressions : parse_ipv6_word (lit "1::2::3") = Ret None.
Proof. reflexivity. Qed.

(** ** IPv4 *)

(** A decimal octet as the reader accepts it: digits with value at most 255. *)
Definition octet_word (w : text) : Prop :=
  w <> [] /\ forallb is_digit w = true /\ dec_value w <= 255.

Abbreviation run_value := (fold_left (fun v c => v * 10 + digit_val c)).

Lemma run_value_mono w v : forallb is_digit w = true -> 0 <= v -> v <= run_value w v.
Proof.
  revert v. induction w as [|c w IH]; intros v; cbn [forallb fold_left]; [lia|].
  intros [Hc Hw]%andb_true_iff Hv. pose proof (digit_val_range c Hc).
  specialize (IH (v * 10 + digit_val c) Hw). lia.
Qed.

Lemma digit_not_dot c : is_digit c = true -> bool_decide (c = "."%char) = false.
Proof. intros H. apply bool_decide_eq_false_2. by intros ->. Qed.

Lemma ipv4_run w : forall v d out rest,
  forallb is_digit w = true -> 0 <= v -> run_value w v <= 255 ->
  ipv4_loop (w ++ rest) out v d = ipv4_loop rest out (run_value w v) (d + zlen w).
Proof.
  induction w as [|c w IH]; intros v d out rest; cbn [forallb fold_left app].
  - intros _ _ _. by rewrite zlen_nil, Z.add_0_r.
  - intros [Hc Hw]%andb_true_iff Hv Hmax. cbn [ipv4_loop].
    rewrite (digit_not_dot c Hc), Hc. pose proof (digit_val_range c Hc).
    pose proof (run_value_mono w (v * 10 + digit_val c) Hw).
    destruct (Z.ltb_spec v 0); [lia|]. zcase.
    rewrite IH by (done || lia). autorewrite with zlen. f_equal. lia.
Qed.

(** Reading one octet and its dot. *)
Lemma ipv4_octet w out rest :
  octet_word w -> zlen out <= 3 ->
  ipv4_loop (w ++ "."%char :: rest) out (-1) 0 = ipv4_loop rest (out ++ [dec_value w]) (-1) 0.
Proof.
  intros (Hne & Hd & Hmax) Ho. destruct w as [|c w]; [done|].
  cbn [forallb] in Hd. apply andb_true_iff in Hd as [Hc Hw].
  cbn [app ipv4_loop]. rewrite (digit_not_dot c Hc), Hc.
  pose proof (digit_val_range c Hc). unfold dec_value in *. cbn [fold_left] in *.
  rewrite Z.mul_0_l, Z.add_0_l in *. change (-1 <? 0) with true. cbn match.
  rewrite Z.mul_0_l, Z.add_0_l. pose proof (run_value_mono w (digit_val c) Hw). zcase.
  rewrite ipv4_run by (done || lia). cbn [ipv4_loop]. rewrite bool_decide_eq_true_2 by done.
  pose proof (zlen_nonneg w). zcase. cbn [orb]. repeat (zcase; cbn [orb]).
  rewrite u8_small; [done|]. unfold is_byte. lia.
Qed.

(** A run of octets, each followed by a dot (the last by the virtual one). *)
Lemma ipv4_octets ws : forall out,
  Forall octet_word ws -> zlen out + zlen ws <= 4 ->
  ipv4_loop (concat (map (fun w => w ++ ["."%char]) ws)) out (-1) 0 =
    if bool_decide (zlen (out ++ map dec_value ws) = 4) then Some (out ++ map dec_value ws) else None.
Proof.
  induction ws as [|w ws IH]; intros out Hws Hlen; cbn [map concat].
  - rewrite app_nil_r. done.
  - apply Forall_cons in Hws as [Hw Hws]. autorewrite with zlen in Hlen.
    pose proof (zlen_nonneg ws). rewrite <- app_assoc. cbn [app].
    rewrite ipv4_octet by (done || lia). rewrite IH; [|done|autorewrite with zlen; lia].
    by rewrite <- app_assoc.
Qed.

Lemma join_dots ws :
  ws <> [] -> join "." ws ++ ["."%char] = concat (map (fun w => w ++ ["."%char]) ws).
Proof.
  intros Hne. induction ws as [|w ws IH]; [done|]. destruct ws as [|w' ws].
  - cbn. by rewrite app_nil_r.
  - cbn [join map concat] in *. rewrite <- IH by done. by rewrite <- !app_assoc.
Qed.

(** What the loop accepts from a state with pending digits [p]. *)
Lemma ipv4_loop_sound chs : forall p out v d a,
  forallb is_digit p = true -> d = zlen p -> v = (if d =? 0 then -1 else dec_value p) ->
  v <= 255 -> (chs = [] /\ p = [] \/ exists c, chs = c ++ ["."%char]) ->
  ipv4_loop chs out v d = Some a ->
  exists ws, p ++ chs = concat (map (fun w => w ++ ["."%char]) ws) /\ Forall octet_word ws /\
    a = out ++ map dec_value ws /\ zlen a = 4.
Proof.
  induction chs as [|c chs IH]; intros p out v d a Hp Hd Hv Hmax Hlast; cbn [ipv4_loop].
  - case_bool_decide; [|done]. intros [= <-]. exists [].
    destruct Hlast as [[_ ->]|[c Hc]]; [|by destruct c].
    cbn. rewrite app_nil_r. by split_and!.
  - assert (chs = [] \/ exists c', chs = c' ++ ["."%char]) as Hl'.
    { destruct Hlast as [[? _]|[[|c0 c'] Hc]]; simplify_eq/=; eauto. }
    destruct (bool_decide_reflect (c = "."%char)) as [->|Hnd].
    + destruct (Z.eqb_spec d 0) as [Hd0|Hd0]; cbn [orb]; [done|].
      destruct (Z.ltb_spec 255 v); [done|]. cbn [orb].
      destruct (Z.ltb_spec 3 (zlen out)); [done|]. intros Hr.
      apply (IH []) in Hr as (ws & E & Hws & -> & Hlen); [|done|done|done|lia|].
      2: { destruct Hl' as [->|?]; [by left|by right]. }
      assert (0 <= dec_value p) by (apply (run_value_mono p 0 Hp); lia).
      exists (p :: ws). cbn [map concat]. rewrite <- E, <- app_assoc.
      split_and!; [done| | |done].
      * apply Forall_cons. split; [|done]. split_and!; [|done|lia].
        intros ->. by rewrite zlen_nil in Hd.
      * rewrite u8_small by (unfold is_byte; lia). subst v. by rewrite <- app_assoc.
    + destruct (is_digit c) eqn:Hc; [|done].
      set (v' := (if v <? 0 then 0 else v) * 10 + digit_val c).
      destruct (Z.ltb_spec 255 v'); [done|]. intros Hr.
      assert (0 <= dec_value p) by (apply (run_value_mono p 0 Hp); lia).
      pose proof (zlen_nonneg p).
      apply (IH (p ++ [c])) in Hr; [by rewrite <- app_assoc in Hr| | | |done|].
      * by rewrite forallb_app, Hp; cbn; rewrite Hc.
      * autorewrite with zlen. lia.
      * destruct (Z.eqb_spec (d + 1) 0); [lia|]. unfold dec_value in *. rewrite fold_left_app.
        cbn [fold_left]. subst v'. f_equal. f_equal. subst v.
        destruct (Z.eqb_spec d 0); [|by destruct (Z.ltb_spec (run_value p 0) 0); [lia|]].
        destruct p; [done|]. autorewrite with zlen in Hd. pose proof (zlen_nonneg p). lia.
      * destruct Hl' as [->|?]; [|by right]. right. destruct Hlast as [[? _]|[[|c0 c'] Hc']];
          simplify_eq/=. by destruct c'.
Qed.

(** The reader accepts exactly the dotted quads of decimal octets. *)
Lemma parse_ipv4_word_iff w a :
  parse_ipv4_word w = Some a <->
  exists ws, length ws = 4%nat /\ Forall octet_word ws /\ w = join "." ws /\ a = map dec_value ws.
Proof.
  unfold parse_ipv4_word. split.
  - intros H. apply (ipv4_loop_sound _ []) in H as (ws & E & Hws & -> & Hlen);
      [|done|done|done|lia|right; by exists w].
    exists ws. unfold zlen in Hlen. cbn [app] in *. rewrite length_map in Hlen.
    split_and!; [lia|done| |done]. destruct ws; [done|].
    rewrite <- join_dots in E by done. by apply app_inj_tail in E as [-> _].
  - intros (ws & Hlen & Hws & -> & ->). destruct ws; [done|].
    rewrite join_dots by done. rewrite ipv4_octets; [|done|unfold zlen in *; cbn in *; lia].
    cbn [app]. rewrite bool_decide_eq_true_2; [done|]. unfold zlen. rewrite length_map. lia.
Qed.

(** ** MAC and hexadecimal digits *)

Lemma hex_nibble_char d : 0 <= d < 16 -> hex_nibble (digit_char d) = d.
Proof.
  intros Hd. unfold hex_nibble, in_range. rewrite code_of_digit_char by done.
  change (code_of "0") with 48. change (code_of "9") with 57.
  change (code_of "a") with 97. change (code_of "f") with 102.
  zcase; repeat (zcase; cbn [andb]).
Qed.

Lemma digit_char_not_colon d : 0 <= d < 16 -> not_colon (digit_char d) = true.
Proof.
  intros Hd. unfold not_colon. rewrite bool_decide_eq_false_2; [done|].
  intros E%(f_equal code_of). rewrite code_of_digit_char in E by done.
  change (code_of ":") with 58 in E. destruct (Z.ltb_spec d 10); lia.
Qed.

Lemma byte_of_nibbles b : is_byte b -> u8 (Z.lor (Z.shiftl (b / 16) 4) (b mod 16)) = b.
Proof.
  unfold is_byte. intros Hb. rewrite lor_shiftl_add by (Z.div_mod_to_equations; lia).
  change (2 ^ 4) with 16. rewrite u8_small; [|unfold is_byte]; Z.div_mod_to_equations; lia.
Qed.

Lemma mac_loop_join ms : forall out,
  is_bytes ms -> mac_loop (length ms) (join ":" (map hex2 ms)) out = Some (out ++ ms).
Proof.
  induction ms as [|b ms IH]; intros out Hms; [by rewrite app_nil_r|].
  apply Forall_cons in Hms as [Hb Hms].
  assert (0 <= b / 16 < 16 /\ 0 <= b mod 16 < 16) as [H1 H2]
    by (unfold is_byte in Hb; Z.div_mod_to_equations; lia).
  assert (forall w, join ":" (map hex2 (b :: ms)) = hex2 b ++ w ->
     mac_loop (length (b :: ms)) (hex2 b ++ w) out =
     match ms with
     | [] => Some (out ++ [b])
     | _ => match w with
            | c3 :: w => if bool_decide (c3 = ":"%char) then mac_loop (length ms) w (out ++ [b])
                         else None
            | [] => None
            end
     end) as Hstep.
  { intros w _. cbn [length hex2 app mac_loop]. rewrite !hex_nibble_char by done.
    repeat (zcase; cbn [orb]). rewrite byte_of_nibbles by done. by destruct ms. }
  destruct ms as [|b' ms].
  - specialize (Hstep [] ltac:(by rewrite app_nil_r)). by rewrite app_nil_r in Hstep.
  - change (join ":" (map hex2 (b :: b' :: ms)))
      with (hex2 b ++ ":"%char :: join ":" (map hex2 (b' :: ms))).
    rewrite Hstep by done. rewrite bool_decide_eq_true_2 by done.
    rewrite IH by done. by rewrite <- app_assoc.
Qed.

Lemma length_join_hex2 ms : ms <> [] -> length (join ":" (map hex2 ms)) = (3 * length ms - 1)%nat.
Proof.
  intros Hne. induction ms as [|b ms IH]; [done|]. destruct ms as [|b' ms]; [done|].
  change (join ":" (map hex2 (b :: b' :: ms)))
    with (hex2 b ++ ":"%char :: join ":" (map hex2 (b' :: ms))).
  rewrite length_app. cbn [length hex2] in *. rewrite IH by done. lia.
Qed.

Lemma mac_str_full mac :
  length mac = 6%nat -> eth_mac_to_str mac = join ":" (map hex2 mac) /\
  length (eth_mac_to_str mac) = 17%nat.
Proof.
  intros L. unfold eth_mac_to_str, snprintf, ETH_MAC_STR_LEN.
  rewrite (take_ge mac) by lia. change (Z.to_nat (18 - 1)) with 17%nat.
  assert (length (join ":" (map hex2 mac)) = 17%nat) as L'
    by (rewrite length_join_hex2; [lia|by destruct mac]).
  rewrite take_ge by lia. done.
Qed.

Lemma mac_roundtrip mac :
  length mac = 6%nat -> is_bytes mac -> parse_mac_word (eth_mac_to_str mac) = Some mac.
Proof.
  intros L Hb. destruct (mac_str_full mac L) as [E L']. unfold parse_mac_word.
  rewrite bool_decide_eq_true_2, E by done. rewrite <- L. by rewrite mac_loop_join.
Qed.

(** ** IPv4 printing *)

Lemma ip_str_full addr :
  length addr = 4%nat -> is_bytes addr ->
  ip_addr_to_str addr = join "." (map (num_text 10) addr) /\
  Forall octet_word (map (num_text 10) addr) /\
  map dec_value (map (num_text 10) addr) = addr.
Proof.
  intros L Hb. unfold ip_addr_to_str, snprintf, IP_ADDR_STR_LEN.
  rewrite (take_ge addr) by lia. change (Z.to_nat (16 - 1)) with 15%nat.
  do 4 (destruct addr as [|? addr]; [done|]). destruct addr; [|done].
  repeat (apply Forall_cons in Hb as [? Hb]). unfold is_byte in *.
  repeat match goal with
         | H : 0 <= ?z < 256 |- _ =>
           destruct (dec_text_spec z ltac:(lia)) as (? & ? & ? & Hl);
           specialize (Hl 2%nat ltac:(change (10 ^ Z.of_nat 3) with 1000; lia));
           revert H Hl
         end.
  intros. split; [|split].
  - apply take_ge. cbn [map join]. repeat (rewrite length_app; cbn [length]). lia.
  - cbn [map]. repeat (apply Forall_cons; split; [split_and!; [done|done|lia]|]).
    by apply Forall_nil.
  - cbn [map]. congruence.
Qed.

(** ** IPv6 *)

(** A hextet as the reader accepts it. *)
Definition hextet_word (g : text) (h : Z) : Prop :=
  g <> [] /\ (length g <= 4)%nat /\ forallb not_colon g = true /\ hextet_val g 0 = Some h.

Lemma hextet_val_digits g : forall v,
  Forall (fun c => exists d, 0 <= d < 16 /\ c = digit_char d) g -> 0 <= v ->
  v <= fold_left (fun v c => v * 16 + hex_nibble c) g v /\
  (fold_left (fun v c => v * 16 + hex_nibble c) g v < 65536 ->
   hextet_val g v = Some (fold_left (fun v c => v * 16 + hex_nibble c) g v)).
Proof.
  induction g as [|c g IH]; intros v Hg Hv; cbn [fold_left hextet_val]; [by split|].
  apply Forall_cons in Hg as [(d & Hd & ->) Hg]. rewrite hex_nibble_char by done.
  destruct (IH (v * 16 + d) Hg ltac:(lia)) as [Hle Hval]. split; [lia|]. intros Hlt. zcase.
  rewrite lor_shiftl_add by lia. change (2 ^ 4) with 16. rewrite u16_small by lia. auto.
Qed.

Lemma hextet_word_printed h : 0 <= h < 65536 -> hextet_word (num_text 16 h) h.
Proof.
  intros Hh. destruct (num_text_spec 16 ltac:(lia) hex_nibble h) as (Hne & Hd & Hv & Hl);
    [intros; by apply hex_nibble_char|lia|].
  specialize (Hl 3%nat ltac:(change (16 ^ Z.of_nat 4) with 65536; lia)).
  split_and!; [done|done| |].
  - apply forallb_forall. intros c Hc%list_elem_of_In. rewrite Forall_forall in Hd.
    destruct (Hd c Hc) as (d & Hd' & ->). by apply digit_char_not_colon.
  - destruct (hextet_val_digits _ 0 Hd ltac:(lia)) as [_ H]. rewrite Hv in H. apply H. lia.
Qed.

Lemma join_cons sep g g' gs : join sep (g :: g' :: gs) = g ++ sep :: join sep (g' :: gs).
Proof. reflexivity. Qed.

Lemma join_nonempty sep g gs : g <> [] -> join sep (g :: gs) <> [].
Proof. destruct gs; [done|]. rewrite join_cons. by destruct g. Qed.

(** One group of the loop. *)
Lemma hextet_loop_group fuel g h rest out max :
  hextet_word g h -> zlen out < max ->
  match rest with c :: _ => not_colon c = false | [] => True end ->
  hextet_loop (S fuel) (g ++ rest) out max =
    match rest with
    | [] => hextet_loop fuel [] (out ++ [h]) max
    | _ :: [] => Ret None
    | _ :: rest => hextet_loop fuel rest (out ++ [h]) max
    end.
Proof.
  intros (Hne & Hlen & Hnc & Hval) Hmax Hr. cbn [hextet_loop].
  destruct (g ++ rest) eqn:E; [by destruct g|]. rewrite <- E.
  rewrite span_app by done. unfold zlen in *.
  assert (0 < length g)%nat by (destruct g; [done|cbn; lia]).
  zcase. cbn [orb]. zcase. rewrite Hval. zcase. done.
Qed.

Lemma hextet_loop_join gs hs : forall fuel out max,
  Forall2 hextet_word gs hs -> gs <> [] -> zlen out + zlen hs <= max ->
  (length gs < fuel)%nat ->
  hextet_loop fuel (join ":" gs) out max = Ret (Some (out ++ hs)).
Proof.
  intros fuel out max Hall. revert fuel out.
  induction Hall as [|g h gs hs Hg Hall IH]; intros [|fuel] out Hne Hmax Hf; try done; [cbn in Hf; lia|].
  autorewrite with zlen in Hmax. pose proof (zlen_nonneg hs). cbn [length] in Hf.
  destruct Hall as [|g' h' gs hs Hg' Hall].
  - rewrite <- (app_nil_r (join _ _)). cbn [join].
    rewrite (hextet_loop_group _ _ h) by (done || lia). by destruct fuel; [cbn in Hf; lia|].
  - rewrite join_cons. rewrite (hextet_loop_group _ _ h) by (done || lia).
    destruct (join ":" (g' :: gs)) as [|c w] eqn:E; [by apply join_nonempty in E; [|apply Hg']|].
    rewrite IH; [by rewrite <- app_assoc|done|autorewrite with zlen in *; lia|].
    cbn [length] in *. lia.
Qed.

Lemma length_join_ge sep gs : Forall (fun g => g <> []) gs -> (length gs <= S (length (join sep gs)))%nat.
Proof.
  induction gs as [|g gs IH]; intros H; [cbn; lia|]. apply Forall_cons in H as [Hg H].
  destruct gs as [|g' gs]; [cbn; lia|]. rewrite join_cons, length_app.
  specialize (IH H). cbn [length] in *. destruct g; [done|cbn in *; lia].
Qed.

Lemma parse_hextet_list_join gs hs max :
  Forall2 hextet_word gs hs -> zlen hs <= max ->
  parse_hextet_list (join ":" gs) max = Ret (Some hs).
Proof.
  intros Hall Hmax. unfold parse_hextet_list. destruct gs as [|g gs].
  - by apply Forall2_nil_inv_l in Hall as ->.
  - rewrite (hextet_loop_join _ hs); [done|done|done|rewrite zlen_nil; lia|].
    assert (Forall (fun g => g <> []) (g :: gs)) as Hne
      by (eapply Forall2_Forall_l; [apply Hall|apply Forall_forall; by intros ? _ ? []]).
    pose proof (length_join_ge ":" _ Hne). lia.
Qed.

(** Where the first double colon is. *)
Lemma split_dbl_app l r :
  split_dbl (l ++ [":"%char]) = None -> split_dbl (l ++ ":"%char :: ":"%char :: r) = Some (l, r).
Proof.
  induction l as [|c l IH]; [by intros|]. cbn [app split_dbl].
  destruct l as [|c' l].
  - cbn. case_bool_decide; by intros.
  - cbn [app]. case_bool_decide; [done|]. intros Hn.
    cbn [app] in IH. destruct (split_dbl (c' :: l ++ [":"%char])) as [[??]|] eqn:E; [done|].
    by rewrite IH.
Qed.

Lemma split_dbl_nocolon g t :
  forallb not_colon g = true -> split_dbl t = None -> split_dbl (g ++ t) = None.
Proof.
  intros Hg Ht. induction g as [|c g IH]; [done|]. cbn [forallb] in Hg.
  apply andb_true_iff in Hg as [Hc Hg]. cbn [app split_dbl].
  destruct (g ++ t) as [|c' w] eqn:E; [done|].
  unfold not_colon in Hc. apply negb_true_iff, bool_decide_eq_false_1 in Hc.
  rewrite bool_decide_eq_false_2 by tauto. by rewrite IH.
Qed.

Lemma split_dbl_colon c s :
  not_colon c = true -> split_dbl (c :: s) = None -> split_dbl (":"%char :: c :: s) = None.
Proof.
  intros Hc Hs. unfold not_colon in Hc. apply negb_true_iff, bool_decide_eq_false_1 in Hc.
  change (split_dbl (":"%char :: c :: s)) with
    (if bool_decide (":"%char = ":"%char /\ c = ":"%char) then Some ([], s)
     else match split_dbl (c :: s) with Some (l, r) => Some (":"%char :: l, r) | None => None end).
  rewrite bool_decide_eq_false_2 by tauto. by rewrite Hs.
Qed.

Lemma split_dbl_join gs hs t :
  Forall2 hextet_word gs hs -> split_dbl t = None -> split_dbl (join ":" gs ++ t) = None.
Proof.
  intros Hall Ht. induction Hall as [|g h gs hs Hg Hall IH]; [done|].
  destruct Hg as (_ & _ & Hnc & _). destruct Hall as [|g' h' gs hs Hg' Hall].
  - by apply split_dbl_nocolon.
  - rewrite join_cons, <- app_assoc. apply split_dbl_nocolon; [done|]. cbn [app].
    destruct g' as [|c g']; [by destruct Hg'|].
    assert (exists w, join ":" ((c :: g') :: gs) = c :: w) as [w E].
    { destruct gs; [by exists g'|]. rewrite join_cons. eexists. reflexivity. }
    rewrite E in *. cbn [app] in *. apply split_dbl_colon; [|done].
    destruct Hg' as (_ & _ & Hnc' & _). cbn [forallb] in Hnc'. by apply andb_true_iff in Hnc' as [? _].
Qed.

(** Both forms of an IPv6 literal. *)
Lemma parse_ipv6_full gs hs :
  Forall2 hextet_word gs hs -> length hs = 8%nat ->
  parse_ipv6_word (join ":" gs) = Ret (Some (hextet_bytes hs)).
Proof.
  intros Hall L. unfold parse_ipv6_word.
  assert (split_dbl (join ":" gs) = None) as ->.
  { rewrite <- (app_nil_r (join _ _)). by eapply split_dbl_join. }
  rewrite (parse_hextet_list_join _ hs) by (done || unfold zlen; lia). obind.
  assert (zlen hs = 8) as -> by (unfold zlen; lia). rewrite zlen_nil. cbn. by rewrite app_nil_r.
Qed.

Lemma parse_ipv6_compressed ls hl rs hr :
  Forall2 hextet_word ls hl -> Forall2 hextet_word rs hr -> zlen hl + zlen hr <= 7 ->
  parse_ipv6_word (join ":" ls ++ ":"%char :: ":"%char :: join ":" rs) =
    Ret (Some (hextet_bytes (hl ++ replicate (8 - length hl - length hr) 0 ++ hr))).
Proof.
  intros Hl Hr Hlen. unfold parse_ipv6_word.
  rewrite split_dbl_app by (by eapply split_dbl_join).
  pose proof (zlen_nonneg hl). pose proof (zlen_nonneg hr).
  rewrite (parse_hextet_list_join ls hl) by (done || lia). obind.
  rewrite (parse_hextet_list_join rs hr) by (done || lia). obind. zcase.
  unfold hextet_bytes. rewrite !map_app, !concat_app.
  replace (Z.to_nat (8 - (zlen hl + zlen hr))) with (8 - length hl - length hr)%nat
    by (unfold zlen in *; lia). done.
Qed.

(** ** IPv6 printing *)

Lemma hextets_bytes addr :
  Nat.even (length addr) = true -> is_bytes addr ->
  hextet_bytes (hextets addr) = addr /\ Forall (fun h => 0 <= h < 65536) (hextets addr) /\
  (length addr = 2 * length (hextets addr))%nat.
Proof.
  assert (forall n addr, (length addr <= n)%nat ->
    Nat.even (length addr) = true -> is_bytes addr ->
    hextet_bytes (hextets addr) = addr /\ Forall (fun h => 0 <= h < 65536) (hextets addr) /\
    (length addr = 2 * length (hextets addr))%nat) as H; [|by apply (H (length addr))].
  clear addr. induction n as [|n IH]; intros [|a [|b addr]] Hn He Hb; try done; try (cbn in Hn; lia).
  cbn [hextets length] in *. apply Forall_cons in Hb as [Ha Hb]. apply Forall_cons in Hb as [Hb' Hb].
  destruct (IH addr) as (E & Hr & L); [lia|done|done|].
  unfold is_byte in *. rewrite lor_shiftl_add by lia. change (2 ^ 8) with 256.
  split_and!; [|apply Forall_cons; split; [lia|done]|lia].
  unfold hextet_bytes in *. cbn [map concat app]. rewrite E. rewrite shiftr_8, land_255.
  rewrite !u8_small by (unfold is_byte; Z.div_mod_to_equations; lia).
  f_equal; [Z.div_mod_to_equations; lia|]. f_equal. Z.div_mod_to_equations; lia.
Qed.

Lemma length_join sep gs m :
  Forall (fun g => length g <= m)%nat gs -> (length (join sep gs) <= length gs * (m + 1) - 1)%nat.
Proof.
  induction gs as [|g gs IH]; intros H; [cbn; lia|]. apply Forall_cons in H as [Hg H].
  destruct gs as [|g' gs]; [cbn; lia|]. rewrite join_cons, length_app.
  specialize (IH H). cbn [length] in *. lia.
Qed.

Lemma ipv6_str_full addr :
  length addr = 16%nat -> is_bytes addr ->
  ipv6_addr_to_str addr = join ":" (map (num_text 16) (hextets addr)) /\
  Forall2 hextet_word (map (num_text 16) (hextets addr)) (hextets addr).
Proof.
  intros L Hb. destruct (hextets_bytes addr) as (E & Hr & L'); [by rewrite L|done|].
  assert (Forall2 hextet_word (map (num_text 16) (hextets addr)) (hextets addr)) as Hw.
  { clear E L'. induction Hr as [|h hs Hh Hr IH]; [constructor|]. cbn [map].
    constructor; [by apply hextet_word_printed|done]. }
  split; [|done]. unfold ipv6_addr_to_str, snprintf, IPV6_ADDR_STR_LEN.
  rewrite (take_ge addr) by lia. change (Z.to_nat (40 - 1)) with 39%nat. apply take_ge.
  pose proof (length_join ":" (map (num_text 16) (hextets addr)) 4) as Hl.
  rewrite length_map in Hl. etrans; [apply Hl|lia].
  eapply Forall2_Forall_l; [apply Hw|]. apply Forall_forall. by intros ? _ ? (_ & ? & _).
Qed.

Lemma ipv6_roundtrip addr :
  length addr = 16%nat -> is_bytes addr ->
  parse_ipv6_word (ipv6_addr_to_str addr) = Ret (Some addr).
Proof.
  intros L Hb. destruct (ipv6_str_full addr L Hb) as [-> Hw].
  destruct (hextets_bytes addr) as (E & Hr & L'); [by rewrite L|done|].
  rewrite (parse_ipv6_full _ _ Hw) by lia. by rewrite E.
Qed.

Lemma ipv4_roundtrip addr :
  length addr = 4%nat -> is_bytes addr -> parse_ipv4_word (ip_addr_to_str addr) = Some addr.
Proof.
  intros L Hb. destruct (ip_str_full addr L Hb) as (-> & Hw & E).
  apply parse_ipv4_word_iff. exists (map (num_text 10) addr). by rewrite length_map.
Qed.

(** Digits alone are never an address. *)
Lemma digits_not_ipv4 w : forallb is_digit w = true -> parse_ipv4_word w = None.
Proof.
  intros Hd. destruct (parse_ipv4_word w) as [a|] eqn:E; [|done]. exfalso.
  apply parse_ipv4_word_iff in E as (ws & L & Hw & -> & _).
  destruct ws as [|w [|w' ws]]; [done|done|].
  rewrite join_cons, forallb_app in Hd. apply andb_true_iff in Hd as [_ Hd].
  discriminate.
Qed.

Lemma dec_value_nonneg w : forallb is_digit w = true -> 0 <= dec_value w.
Proof. intros. by apply (run_value_mono w 0). Qed.

(** ** What the readers return *)

(** What the recognizers return: addresses of the right length. *)
Lemma parse_ipv4_bytes w a : parse_ipv4_word w = Some a -> length a = 4%nat /\ is_bytes a.
Proof.
  intros (ws & L & Hws & -> & ->)%parse_ipv4_word_iff. rewrite length_map.
  split; [done|]. apply Forall_map. eapply Forall_impl; [exact Hws|].
  intros x (? & Hd & ?). unfold compose, is_byte. pose proof (dec_value_nonneg x Hd). lia.
Qed.

Lemma mac_loop_bytes n : forall w out m,
  is_bytes out -> mac_loop n w out = Some m -> is_bytes m /\ length m = (n + length out)%nat.
Proof.
  induction n as [|n IH]; intros w out m Hb; cbn [mac_loop]; [by intros [= <-]|].
  destruct w as [|c1 [|c2 w]]; try done. destruct (_ || _); [done|].
  set (out' := out ++ [_]).
  assert (is_bytes out') as Hb' by (apply Forall_app; split; [done|]; repeat constructor; apply u8_range).
  assert (length out' = S (length out)) as L by (unfold out'; rewrite length_app; cbn; lia).
  destruct n as [|n]; [intros [= <-]; split; [done|lia]|].
  destruct w as [|c3 w]; [done|]. case_bool_decide; [|done].
  intros Hm. destruct (IH _ _ _ Hb' Hm) as [? ?]. split; [done|lia].
Qed.

Lemma parse_mac_bytes w m : parse_mac_word w = Some m -> length m = 6%nat /\ is_bytes m.
Proof.
  unfold parse_mac_word. case_bool_decide; [|done]. intros [H1 H2]%mac_loop_bytes; [|constructor].
  done.
Qed.

(** A MAC literal contains a colon. *)
Lemma parse_mac_colon w m : parse_mac_word w = Some m -> forallb not_colon w = false.
Proof.
  unfold parse_mac_word. case_bool_decide; [|done]. cbn [mac_loop].
  destruct w as [|c1 [|c2 [|c3 w]]]; try done; destruct (_ || _); try done.
  case_bool_decide; [|done]. intros _. subst. cbn [forallb].
  rewrite !andb_false_iff. right. right. by left.
Qed.

Lemma hextet_loop_total fuel : forall s out max,
  (length s < fuel)%nat -> zlen out <= max ->
  exists r, hextet_loop fuel s out max = Ret r /\ forall hs, r = Some hs -> zlen hs <= max.
Proof.
  induction fuel as [|fuel IH]; intros s out max Hf Ho; [lia|]. cbn [hextet_loop].
  destruct s as [|c s]; [eexists; split; [done|]; by intros ? [= <-]|].
  destruct (span not_colon (c :: s)) as [g rest] eqn:E. apply span_spec in E as (E & _ & _).
  assert (length (c :: s) = length g + length rest)%nat as L by (by rewrite E, length_app).
  destruct ((zlen g =? 0) || (4 <? zlen g)) eqn:Hg; [by eexists|].
  apply orb_false_iff in Hg as [Hg _]. apply Z.eqb_neq in Hg. unfold zlen in Hg.
  destruct (hextet_val g 0) as [v|]; [|by eexists]. zcase; [by eexists|].
  assert (zlen (out ++ [v]) <= max) by (rewrite zlen_app; change (zlen [v]) with 1; lia).
  destruct rest as [|d [|e rest]]; [apply IH; cbn; lia || done|by eexists|].
  apply IH; [cbn [length] in *; lia|done].
Qed.

Lemma hextet_bytes_ok hs : is_bytes (hextet_bytes hs) /\ zlen (hextet_bytes hs) = 2 * zlen hs.
Proof.
  induction hs as [|h hs [IH1 IH2]]; [split; [constructor|done]|]. unfold hextet_bytes in *. cbn [map concat app].
  split; [repeat constructor; try apply u8_range; done|]. rewrite !zlen_cons. lia.
Qed.

(** [parse_ipv6_word] always returns, and what it accepts is sixteen bytes. *)
Lemma parse_ipv6_total w : exists r, parse_ipv6_word w = Ret r /\
  forall a, r = Some a -> length a = 16%nat /\ is_bytes a.
Proof.
  unfold parse_ipv6_word, parse_hextet_list.
  set (l := match split_dbl w with Some (l, _) => l | None => w end).
  destruct (hextet_loop_total (S (S (length l))) l [] 8) as (lr & -> & _); [lia|done|]. obind.
  destruct lr as [lh|]; [|by eexists].
  assert (exists rr, match split_dbl w with
            | Some (_, right_part) => hextet_loop (S (S (length right_part))) right_part [] 8
            | None => Ret (Some [])
            end = Ret rr) as [rr ->].
  { destruct (split_dbl w) as [[l' r']|]; [|by eexists].
    destruct (hextet_loop_total (S (S (length r'))) r' [] 8) as (rr & -> & _); [lia|done|eauto]. }
  obind. destruct rr as [rh|]; [|by eexists].
  destruct (match split_dbl w with
            | Some _ => 7 <? zlen lh + zlen rh | None => negb (zlen lh + zlen rh =? 8) end) eqn:Ht;
    [by eexists|].
  eexists. split; [done|]. intros a [= <-].
  assert (zlen lh + zlen rh <= 8) as Hle by (destruct (split_dbl w); lia).
  destruct (hextet_bytes_ok lh) as [B1 L1], (hextet_bytes_ok rh) as [B2 L2].
  destruct (hextet_bytes_ok (replicate (Z.to_nat (8 - (zlen lh + zlen rh))) 0)) as [B3 L3].
  split; [|by repeat (apply Forall_app; split)].
  apply Nat2Z.inj. change (Z.of_nat 16) with 16. change (Z.of_nat (length ?x)) with (zlen x).
  rewrite !zlen_app, L1, L2, L3. unfold zlen at 2. rewrite length_replicate. lia.
Qed.

(** ** Properties *)

(** C38: the filters' literal readers invert the printers of the summary lines:
    an IPv4, MAC or IPv6 address printed by [ip_addr_to_str], [eth_mac_to_str]
    or [ipv6_addr_to_str] (whose fixed buffers never truncate it) reads back as
    the same bytes, so an address copied from the output is a valid literal for
    that address. *)
Theorem address_print_read a4 mac a16 :
  length a4 = 4%nat -> is_bytes a4 -> length mac = 6%nat -> is_bytes mac ->
  length a16 = 16%nat -> is_bytes a16 ->
  parse_ipv4_word (ip_addr_to_str a4) = Some a4 /\
  parse_mac_word (eth_mac_to_str mac) = Some mac /\
  parse_ipv6_word (ipv6_addr_to_str a16) = Ret (Some a16).
Proof.
  intros. split_and!; [by apply ipv4_roundtrip|by apply mac_roundtrip|by apply ipv6_roundtrip].
Qed.

Lemma address_print_read_witness :
  parse_ipv4_word (ip_addr_to_str [192; 168; 0; 255]) = Some [192; 168; 0; 255] /\
  parse_mac_word (eth_mac_to_str [0; 1; 0xab; 0xcd; 0xff; 9]) = Some [0; 1; 0xab; 0xcd; 0xff; 9] /\
  parse_ipv6_word (ipv6_addr_to_str (replicate 16 0xa0)) = Ret (Some (replicate 16 0xa0)).
Proof.
  apply (address_print_read [192; 168; 0; 255] [0; 1; 0xab; 0xcd; 0xff; 9] (replicate 16 0xa0));
    try reflexivity; solve_bytes.
Defined.

(** [parse_ipv4_word] accepts exactly four dot-separated decimal numerals of
    value at most 255 (leading zeros allowed) and returns their values. *)
Theorem parse_ipv4_word_exact w a :
  parse_ipv4_word w = Some a <->
  exists ws, length ws = 4%nat /\ Forall octet_word ws /\ w = join "." ws /\ a = map dec_value ws.
Proof. apply parse_ipv4_word_iff. Qed.

(** RFC 4291 compression: groups of one to four hex digits around one double
    colon, at most seven in all, denote those groups with the missing ones
    zero. *)
Theorem parse_ipv6_word_compressed ls hl rs hr :
  Forall2 hextet_word ls hl -> Forall2 hextet_word rs hr -> zlen hl + zlen hr <= 7 ->
  parse_ipv6_word (join ":" ls ++ ":"%char :: ":"%char :: join ":" rs) =
    Ret (Some (hextet_bytes (hl ++ replicate (8 - length hl - length hr) 0 ++ hr))).
Proof. apply parse_ipv6_compressed. Qed.

Lemma parse_ipv6_word_compressed_witness :
  parse_ipv6_word (lit "fe80::AbC:1") =
    Ret (Some (hextet_bytes ([0xfe80] ++ replicate 5 0 ++ [0xabc; 1]))).
Proof.
  refine (parse_ipv6_word_compressed [lit "fe80"] [0xfe80] [lit "AbC"; lit "1"] [0xabc; 1] _ _ _);
    [| |vm_compute; congruence]; repeat constructor; try done; cbn; lia.
Defined.
