(* ===== verification/FilterCore.v ===== *)
(** * What the two filter compilers share

    capfilter.c and dispfilter.c carry the same context ([ctx_t T] and [df_ctx_t]), the
    same first-error-wins reporting, the same token cursor and the same bounded node
    arena, each in its own static copy.  They are modelled once, over the token type [T]
    and the node type [N], together with the reasoning principles for parsers built from
    them: [parses] (a sentence is consumed and its tree built) and [returns] (whatever
    happens, the parser returns, and what it passed over satisfies a relation). *)
From S2P Require Import Prelude Text Literals.
From stdpp Require Import options.

Local Open Scope Z_scope.

(** [MAX_TOKENS] and [DF_MAX_TOKENS]; [MAX_NODES] and [DF_MAX_NODES]. *)
Definition MAX_TOKENS : Z := 256.
Definition MAX_NODES : Z := 256.

(** ** The context *)

(** [toks] holds the entries written so far ([n_toks] of them); [err] is the
    caller's buffer, [None] when it is NULL. *)
Record ctx_t (T : Type) := {
  toks : list T;
  pos : Z;
  err : option text;
  err_len : Z;
  failed : bool
}.
Arguments toks {T} _.
Arguments pos {T} _.
Arguments err {T} _.
Arguments err_len {T} _.
Arguments failed {T} _.

(** [parser_t]: the context and the number of arena nodes in use. *)
Record parser_t (T : Type) := { ctx : ctx_t T; count : Z }.
Arguments ctx {T} _.
Arguments count {T} _.

Definition parser (T A : Type) : Type := parser_t T -> outcome (A * parser_t T).
#[export] Instance parser_ret {T} : MRet (parser T) := fun A a st => Ret (a, st).
#[export] Instance parser_bind {T} : MBind (parser T) := fun A B f m st =>
  '(a, st) ← m st; f a st.

Abbreviation failing st := (failed (ctx st)).

Section Context.
Context {T : Type}.
Implicit Types (c : ctx_t T) (st : parser_t T) (ts rem : list T).

Definition n_toks c : Z := zlen (toks c).

Definition set_toks ts c : ctx_t T :=
  {| toks := ts; pos := pos c; err := err c; err_len := err_len c; failed := failed c |}.
Definition set_pos (p : Z) c : ctx_t T :=
  {| toks := toks c; pos := p; err := err c; err_len := err_len c; failed := failed c |}.
Definition push_tok c (t : T) : ctx_t T := set_toks (toks c ++ [t]) c.

(** The context a compilation starts from. *)
Definition init_ctx (err_ : option text) (err_len_ : Z) : ctx_t T :=
  {| toks := []; pos := 0; err := err_; err_len := err_len_; failed := false |}.

(** ** Errors *)

(** The error buffer after [snprintf(err, err_len, ...)], untouched when it is
    NULL or has no room. *)
Definition report c (msg : text) : option text :=
  match err c with
  | Some old => Some (if 0 <? err_len c then snprintf (err_len c) msg else old)
  | None => None
  end.

Definition fail c (msg : text) : ctx_t T :=
  if failed c then c
  else {| toks := toks c; pos := pos c; err := report c msg; err_len := err_len c;
          failed := true |}.

(** The only formats used are a prefix, one [%s] and a suffix. *)
Definition failf c (pre suf arg : text) : ctx_t T :=
  if failed c then c
  else {| toks := toks c; pos := pos c; err := report c (pre ++ arg ++ suf);
          err_len := err_len c; failed := true |}.

(** ** Parser steps *)

Definition timeout {A} : parser T A := fun _ => Timeout.

(** [fail(c, msg); return NULL;] *)
Definition fail_null {A} (msg : text) : parser T (option A) := fun st =>
  Ret (None, {| ctx := fail (ctx st) msg; count := count st |}).

(** A child pointer that is stored in a node.  A NULL one would be dereferenced
    later, so storing it is undefined behaviour here already. *)
Definition deref {A} (p : option A) : parser T A := fun st =>
  match p with Some a => Ret (a, st) | None => UB end.

(** Whether a node was allocated: [false] is the NULL of [mk_node]. *)
Definition mk_node : parser T bool := fun st =>
  if failed (ctx st) then Ret (false, st)
  else if MAX_NODES <=? count st then
    Ret (false, {| ctx := fail (ctx st) (lit "filter expression is too complex");
                   count := count st |})
  else Ret (true, {| ctx := ctx st; count := count st + 1 |}).

(** [pos++] *)
Definition incr_pos : parser T unit := fun st =>
  Ret (tt, {| ctx := set_pos (pos (ctx st) + 1) (ctx st); count := count st |}).

Section Nodes.
Context {N : Type}.

(** Allocates a node and fills in its fields. *)
Definition mk_leaf (n : N) : parser T (option N) :=
  ok ← mk_node; mret (if ok : bool then Some n else None).

(** Allocates a node and stores its children. *)
Definition mk_bin (node : N -> N -> N) (l r : option N) : parser T (option N) :=
  ok ← mk_node;
  if ok : bool then l ← deref l; r ← deref r; mret (Some (node l r)) else mret None.
Definition mk_un (node : N -> N) (l : option N) : parser T (option N) :=
  ok ← mk_node;
  if ok : bool then l ← deref l; mret (Some (node l)) else mret None.
End Nodes.
End Context.

Section Cursor.
Context {T : Type} `{!EqDecision T} (TOK_END : T).

(** [toks[pos]]; entries never written are zero, that is, [TOK_END]. *)
Definition p_peek : parser T T := fun st =>
  if (0 <=? pos (ctx st)) && (pos (ctx st) <? MAX_TOKENS)
  then Ret (default TOK_END (toks (ctx st) !! Z.to_nat (pos (ctx st))), st)
  else UB.

Definition p_advance : parser T T :=
  t ← p_peek;
  if bool_decide (t = TOK_END) then mret t else _ ← incr_pos; mret t.
End Cursor.

(** ** Positions *)

Section Positions.
Context {T : Type}.
Implicit Types (c : ctx_t T) (st : parser_t T) (ts rem : list T).

Lemma failf_fail c pre suf arg : failf c pre suf arg = fail c (pre ++ arg ++ suf).
Proof. reflexivity. Qed.
Lemma fail_failed c msg : failed (fail c msg) = true.
Proof. unfold fail. by destruct (failed c) eqn:E. Qed.

Lemma push_toks c t ts : set_toks (toks (push_tok c t) ++ ts) (push_tok c t) =
  set_toks (toks c ++ t :: ts) c.
Proof. unfold push_tok, set_toks. cbn. by rewrite <- app_assoc. Qed.

Lemma n_toks_push c t : n_toks (push_tok c t) = n_toks c + 1.
Proof. unfold n_toks, push_tok, set_toks. cbn [toks]. autorewrite with zlen. lia. Qed.

Definition adv (k : nat) st : parser_t T :=
  {| ctx := set_pos (pos (ctx st) + Z.of_nat k) (ctx st); count := count st |}.
Definition bump (k : Z) st : parser_t T := {| ctx := ctx st; count := count st + k |}.
Definition fail_at (msg : text) st : parser_t T :=
  {| ctx := fail (ctx st) msg; count := count st |}.

Lemma adv_0 st : adv 0 st = st.
Proof. destruct st as [[] ?]. unfold adv, set_pos. cbn. by rewrite Z.add_0_r. Qed.
Lemma adv_adv j k st : adv k (adv j st) = adv (j + k) st.
Proof. unfold adv, set_pos. cbn. by rewrite <- Z.add_assoc, <- Nat2Z.inj_add. Qed.
Lemma bump_bump j k st : bump k (bump j st) = bump (j + k) st.
Proof. unfold bump. cbn. by rewrite Z.add_assoc. Qed.
Lemma adv_bump j k st : adv j (bump k st) = bump k (adv j st).
Proof. done. Qed.
Lemma bump_adv_bump a b i j st :
  bump b (adv j (bump a (adv i st))) = bump (a + b) (adv (i + j) st).
Proof. by rewrite adv_bump, bump_bump, adv_adv. Qed.
Lemma failing_fail_at msg st : failing (fail_at msg st) = true.
Proof. apply fail_failed. Qed.

Lemma failing_mono st st' :
  (failing st = true -> failing st' = true) -> failing st' = false -> failing st = false.
Proof. destruct (failing st); [|done]. intros H. by rewrite H. Qed.

Lemma run_ret {A B} (m : parser T A) (f : A -> parser T B) st a st' :
  m st = Ret (a, st') -> (m ≫= f) st = f a st'.
Proof. intros H. unfold mbind, parser_bind. by rewrite H. Qed.
End Positions.

Section Reasoning.
Context {T : Type} `{!EqDecision T} (TOK_END : T).
Context {N : Type} (size : N -> Z) (size_pos : forall n, 1 <= size n).
Implicit Types (c : ctx_t T) (st : parser_t T) (ts rem : list T).
Local Abbreviation parserT := (parser T (option N)).
Local Abbreviation p_peek := (p_peek TOK_END).
Local Abbreviation p_advance := (p_advance TOK_END).

(** The parser stands before the tokens [rem] and the end marker. *)
Definition st_at rem st : Prop :=
  exists pre, toks (ctx st) = pre ++ rem ++ [TOK_END] /\ pos (ctx st) = zlen pre /\
    (TOK_END ∉ rem) /\ zlen (toks (ctx st)) <= MAX_TOKENS.

Lemma st_at_adv ts rem st : st_at (ts ++ rem) st -> st_at rem (adv (length ts) st).
Proof.
  intros (pre & Ht & Hp & He & Hl). exists (pre ++ ts). cbn. rewrite elem_of_app in He.
  split_and!; [by rewrite Ht, <- !app_assoc|rewrite Hp; unfold zlen; rewrite length_app; lia| |done].
  tauto.
Qed.

Lemma st_at_bump rem k st : st_at rem st -> st_at rem (bump k st).
Proof. done. Qed.

Lemma st_at_fail rem msg st : st_at rem st -> st_at rem (fail_at msg st).
Proof. unfold st_at, fail_at, fail. cbn. by destruct (failed (ctx st)). Qed.

Lemma peek_at rem st : st_at rem st -> p_peek st = Ret (hd TOK_END rem, st).
Proof.
  intros (pre & Ht & Hp & He & Hl). unfold p_peek. rewrite Ht, Hp in *.
  revert Hl. autorewrite with zlen. intros. pose proof (zlen_nonneg pre). pose proof (zlen_nonneg rem).
  destruct (Z.leb_spec 0 (zlen pre)), (Z.ltb_spec (zlen pre) MAX_TOKENS); try lia. cbn [andb].
  unfold zlen. rewrite Nat2Z.id, lookup_app_r by lia. rewrite Nat.sub_diag. by destruct rem.
Qed.

Lemma run_peek {A} (f : T -> parser T A) rem st :
  st_at rem st -> (p_peek ≫= f) st = f (hd TOK_END rem) st.
Proof. intros H. unfold mbind, parser_bind. by rewrite (peek_at rem). Qed.

Lemma run_advance {A} (f : T -> parser T A) t rem st :
  st_at (t :: rem) st -> (p_advance ≫= f) st = f t (adv 1 st).
Proof.
  intros H. unfold p_advance, mbind, parser_bind. rewrite (peek_at _ _ H). cbn [hd].
  obind. rewrite bool_decide_eq_false_2; [done|].
  intros ->. destruct H as (? & _ & _ & He & _). apply He, elem_of_cons. by left.
Qed.

Lemma run_advance_end {A} (f : T -> parser T A) st :
  st_at [] st -> (p_advance ≫= f) st = f TOK_END st.
Proof. intros H. unfold p_advance, mbind, parser_bind. rewrite (peek_at _ _ H). obind.
  by rewrite bool_decide_eq_true_2.
Qed.

(** ** Allocating a whole tree *)

(** What building [n] does: all of it, or the error and an exhausted arena. *)
Definition alloc (n : N) st : outcome (option N * parser_t T) :=
  if failing st then Ret (None, st)
  else if MAX_NODES <? count st + size n then
    Ret (None, {| ctx := fail (ctx st) (lit "filter expression is too complex");
                  count := MAX_NODES |})
  else Ret (Some n, bump (size n) st).

Definition builds (m : parserT) (n : N) : Prop :=
  forall st, count st <= MAX_NODES -> m st = alloc n st.

Lemma builds_leaf n : size n = 1 -> builds (mk_leaf n) n.
Proof.
  intros Hs st Hc. unfold mk_leaf, alloc, mk_node, mbind, parser_bind. rewrite Hs.
  destruct (failing st); [done|]. repeat zcase; [|done]. by replace (count st) with MAX_NODES by lia.
Qed.

Lemma builds_bin node m1 m2 n1 n2 :
  size (node n1 n2) = 1 + size n1 + size n2 -> builds m1 n1 -> builds m2 n2 ->
  builds (l ← m1; r ← m2; mk_bin node l r) (node n1 n2).
Proof using size_pos.
  intros Hs H1 H2 st Hc. pose proof (size_pos n1). pose proof (size_pos n2).
  unfold mbind at 1, parser_bind. rewrite H1 by done. unfold alloc at 1 2. rewrite Hs.
  destruct (failing st) eqn:Hf; obind.
  - unfold mbind at 1. rewrite H2 by done. unfold alloc. rewrite Hf. obind.
    unfold mk_bin, mk_node, mbind, parser_bind. by rewrite Hf.
  - destruct (Z.ltb_spec MAX_NODES (count st + size n1)); obind.
    + unfold mbind at 1. rewrite H2 by done. unfold alloc. cbn [ctx count].
      rewrite fail_failed. obind. unfold mk_bin, mk_node, mbind, parser_bind. cbn [ctx count].
      rewrite fail_failed. by zcase.
    + unfold mbind at 1. rewrite H2 by done. unfold alloc. cbn [bump ctx count]. rewrite Hf.
      destruct (Z.ltb_spec MAX_NODES (count st + size n1 + size n2)); obind.
      * unfold mk_bin, mk_node, mbind, parser_bind. cbn [ctx count].
        rewrite fail_failed. by zcase.
      * unfold mk_bin, mk_node, mbind, parser_bind. cbn [bump ctx count]. rewrite Hf.
        repeat zcase; [by replace (count st + size n1 + size n2) with MAX_NODES by lia|].
        unfold bump. cbn [ctx count].
        by replace (count st + (1 + size n1 + size n2)) with (count st + size n1 + size n2 + 1) by lia.
Qed.


Lemma st_at_next t rem st : st_at (t :: rem) st -> st_at rem (adv 1 st).
Proof. apply (st_at_adv [t]). Qed.

(** ** Every sentence is parsed *)

Lemma mk_bin_ok (node : N -> N -> N) l r st :
  failing st = false -> count st + 1 <= MAX_NODES ->
  mk_bin node (Some l) (Some r) st = Ret (Some (node l r), bump 1 st).
Proof.
  intros Hf Hc. unfold mk_bin, mk_node, mbind, parser_bind. rewrite Hf. by zcase.
Qed.
Lemma mk_un_ok (node : N -> N) l st :
  failing st = false -> count st + 1 <= MAX_NODES ->
  mk_un node (Some l) st = Ret (Some (node l), bump 1 st).
Proof. intros Hf Hc. unfold mk_un, mk_node, mbind, parser_bind. rewrite Hf. by zcase. Qed.

Definition none (t : T) : bool := false.

(** [m], given enough room, consumes [ts] and returns [n] having allocated [k] nodes. *)
Definition parses (m : parserT) (ts : list T) (n : N) (k : Z)
    (stop : T -> bool) : Prop :=
  forall st rem, st_at (ts ++ rem) st -> failing st = false -> count st + k <= MAX_NODES ->
    stop (hd TOK_END rem) = false -> m st = Ret (Some n, bump k (adv (length ts) st)).

(** Sequencing. *)
Lemma parses_then m f ts1 n1 k1 stop1 ts2 n k2 stop2 :
  parses m ts1 n1 k1 stop1 -> parses (f (Some n1)) ts2 n k2 stop2 -> 0 <= k2 ->
  (forall rem, stop2 (hd TOK_END rem) = false -> stop1 (hd TOK_END (ts2 ++ rem)) = false) ->
  parses (m ≫= f) (ts1 ++ ts2) n (k1 + k2) stop2.
Proof.
  intros H1 H2 Hk Hs st rem H Hf Hc Hr. rewrite <- app_assoc in H.
  rewrite (run_ret _ _ _ _ _ (H1 _ _ H Hf ltac:(lia) (Hs _ Hr))).
  rewrite (H2 _ _ (st_at_bump _ k1 _ (st_at_adv _ _ _ H)) Hf ltac:(cbn; lia) Hr).
  by rewrite bump_adv_bump, length_app.
Qed.

Lemma parses_peek (f : T -> parserT) t ts n k stop :
  parses (f t) (t :: ts) n k stop -> parses (p_peek ≫= f) (t :: ts) n k stop.
Proof. intros Hp st rem H. rewrite (run_peek _ _ _ H). by apply Hp. Qed.

Lemma parses_advance (f : T -> parserT) t ts n k stop :
  parses (f t) ts n k stop -> parses (p_advance ≫= f) (t :: ts) n k stop.
Proof.
  intros Hp st rem H Hf Hc Hs. rewrite (run_advance _ _ _ _ H). apply st_at_next in H.
  by rewrite (Hp _ _ H Hf Hc Hs), adv_adv.
Qed.

Lemma parses_ret n stop : parses (mret (Some n)) [] n 0 stop.
Proof. intros [c k] rem _ _ _ _. rewrite adv_0. unfold bump. cbn. by rewrite Z.add_0_r. Qed.

Lemma parses_mk m n : builds m n -> parses m [] n (size n) none.
Proof using size_pos.
  intros Hb st rem H Hf Hc _. pose proof (size_pos n). rewrite Hb by lia. unfold alloc.
  rewrite Hf, adv_0. by zcase.
Qed.

Lemma parses_bin (node : N -> N -> N) l r :
  parses (mk_bin node (Some l) (Some r)) [] (node l r) 1 none.
Proof. intros st rem H Hf Hc _. rewrite adv_0. by apply mk_bin_ok. Qed.
Lemma parses_un (node : N -> N) l : parses (mk_un node (Some l)) [] (node l) 1 none.
Proof. intros st rem H Hf Hc _. rewrite adv_0. by apply mk_un_ok. Qed.

Lemma parses_eq m ts ts' n k k' stop :
  parses m ts n k stop -> ts = ts' -> k = k' -> parses m ts' n k' stop.
Proof. by intros H -> ->. Qed.

(** A loop that meets no further operator. *)
Lemma parses_stop (f : T -> parserT) n stop :
  (forall t, stop t = false -> f t = mret (Some n)) -> parses (p_peek ≫= f) [] n 0 stop.
Proof.
  intros Hq st rem H Hf Hc Hs. rewrite (run_peek _ _ _ H). cbn [app] in *. rewrite (Hq _ Hs).
  by apply (parses_ret n stop st rem).
Qed.

(** A parser that reads [ts] and then allocates [n]. *)
Lemma parses_alloc m ts n :
  (forall rem st, st_at (ts ++ rem) st -> count st <= MAX_NODES -> m st = alloc n (adv (length ts) st)) ->
  parses m ts n (size n) none.
Proof using size_pos.
  intros Hm st rem H Hf Hc _. pose proof (size_pos n). rewrite (Hm rem) by (done || lia).
  unfold alloc. cbn [adv ctx set_pos failed count]. rewrite Hf. by zcase.
Qed.

(** ** Whatever is parsed is a sentence of the grammar *)

(** [res] is a normal return that leaves the parser further along in [rem]; unless it
    reports an error, the tokens passed over and the nodes allocated satisfy [G]. *)
Definition returns rem st
    (res : outcome (option N * parser_t T)) (G : list T -> N -> Z -> Prop) : Prop :=
  exists r st' ts rem', res = Ret (r, st') /\ rem = ts ++ rem' /\ st_at rem' st' /\
    count st' <= MAX_NODES /\ (failing st = true -> failing st' = true) /\
    (failing st' = false -> exists n, r = Some n /\ G ts n (count st' - count st)).

(** A pointer that is NULL only after an error. *)
Definition non_null (p : option N) st (G : N -> Prop) : Prop :=
  failing st = false -> exists n, p = Some n /\ G n.

Lemma returns_weaken rem st res (G G' : list T -> N -> Z -> Prop) :
  returns rem st res G -> (forall ts n k, G ts n k -> G' ts n k) -> returns rem st res G'.
Proof.
  intros (r & st' & ts & rem' & -> & -> & Ha & Hc & Hm & Hg) Hw.
  exists r, st', ts, rem'. split_and!; try done. intros Hf. destruct (Hg Hf) as (n & -> & ?). eauto.
Qed.

Lemma returns_then rem st (m : parserT) (f : option N -> parserT)
    (G1 G : list T -> N -> Z -> Prop) :
  returns rem st (m st) G1 ->
  (forall r st' ts rem', rem = ts ++ rem' -> st_at rem' st' -> count st' <= MAX_NODES ->
     (failing st = true -> failing st' = true) ->
     non_null r st' (fun n => G1 ts n (count st' - count st)) ->
     returns rem' st' (f r st') (fun ts2 n k =>
       forall n1, r = Some n1 -> G1 ts n1 (count st' - count st) ->
         G (ts ++ ts2) n (count st' - count st + k))) ->
  returns rem st ((m ≫= f) st) G.
Proof.
  intros (r & st' & ts & rem' & E & -> & Ha & Hc & Hm & Hg) Hf. rewrite (run_ret _ _ _ _ _ E).
  destruct (Hf r st' ts rem' eq_refl Ha Hc Hm Hg)
    as (r2 & st2 & ts2 & rem2 & -> & -> & Ha2 & Hc2 & Hm2 & Hg2).
  exists r2, st2, (ts ++ ts2), rem2. split_and!; try done; [by rewrite <- app_assoc|by auto|].
  intros Hf2. destruct (Hg2 Hf2) as (n & -> & HG). exists n. split; [done|].
  destruct (failing st') eqn:Hs; [by rewrite Hm2 in Hf2|].
  destruct (Hg eq_refl) as (n1 & -> & H1). specialize (HG n1 eq_refl H1).
  by replace (count st2 - count st) with (count st' - count st + (count st2 - count st')) by lia.
Qed.

Lemma returns_advance rem st t (f : T -> parserT)
    (G : list T -> N -> Z -> Prop) :
  st_at (t :: rem) st ->
  returns rem (adv 1 st) (f t (adv 1 st)) (fun ts n k => G (t :: ts) n k) ->
  returns (t :: rem) st ((p_advance ≫= f) st) G.
Proof.
  intros H (r & st' & ts & rem' & E & -> & Ha & Hc & Hm & Hg). rewrite (run_advance _ _ _ _ H).
  exists r, st', (t :: ts), rem'. by split_and!.
Qed.

Lemma returns_ret rem st (p : option N) (G : list T -> N -> Z -> Prop) :
  st_at rem st -> count st <= MAX_NODES -> non_null p st (fun n => G [] n 0) ->
  returns rem st ((mret p : parserT) st) G.
Proof. intros H Hc Hp. exists p, st, [], rem. rewrite Z.sub_diag. by split_and!. Qed.

(** NULL, and an error reported now or earlier. *)
Lemma returns_failed rem st st' (G : list T -> N -> Z -> Prop) :
  st_at rem st' -> count st' <= MAX_NODES -> failing st' = true -> returns rem st (Ret (None, st')) G.
Proof. intros H Hc Hf. exists None, st', [], rem. rewrite Hf. by split_and!. Qed.

Lemma returns_fail rem st msg (G : list T -> N -> Z -> Prop) :
  st_at rem st -> count st <= MAX_NODES -> returns rem st (fail_null msg st) G.
Proof.
  intros H Hc. apply (returns_failed rem st (fail_at msg st));
    [by apply st_at_fail|done|apply failing_fail_at].
Qed.

Lemma returns_mk rem st m n : builds m n -> st_at rem st -> count st <= MAX_NODES ->
  returns rem st (m st) (fun ts n' k => ts = [] /\ n' = n /\ k = size n).
Proof.
  intros Hb H Hc. rewrite Hb by done. unfold alloc. destruct (failing st) eqn:Hf.
  - exists None, st, [], rem. split_and!; try done. by rewrite Hf.
  - zcase.
    + eexists None, _, [], rem. split_and!; [reflexivity|done|by apply (st_at_fail _ _ st)|done|by rewrite Hf|].
      cbn [ctx]. by rewrite fail_failed.
    + exists (Some n), (bump (size n) st), [], rem. split_and!; [done..|cbn; lia|by rewrite Hf|].
      intros _. exists n. cbn. split_and!; [done..|lia].
Qed.

Lemma returns_bin rem st (node : N -> N -> N) l r Gl Gr :
  st_at rem st -> count st <= MAX_NODES -> non_null l st Gl -> non_null r st Gr ->
  returns rem st (mk_bin node l r st) (fun ts n k => ts = [] /\ k = 1 /\
    exists l0 r0, l = Some l0 /\ r = Some r0 /\ n = node l0 r0).
Proof.
  intros H Hc Hl Hr. unfold mk_bin, mk_node, mbind, parser_bind. destruct (failing st) eqn:Hf.
  - exists None, st, [], rem. obind. split_and!; try done. by rewrite Hf.
  - zcase; obind.
    + eexists None, _, [], rem. split_and!; [reflexivity|done|by apply (st_at_fail _ _ st)|done|by rewrite Hf|].
      cbn [ctx]. by rewrite fail_failed.
    + destruct (Hl Hf) as (l0 & -> & _), (Hr Hf) as (r0 & -> & _).
      exists (Some (node l0 r0)), (bump 1 st), [], rem.
      split_and!; [done..|cbn; lia|by rewrite Hf|]. intros _. eexists. split; [done|].
      cbn. split_and!; [done|lia|eauto].
Qed.

Lemma returns_un rem st (node : N -> N) l Gl :
  st_at rem st -> count st <= MAX_NODES -> non_null l st Gl ->
  returns rem st (mk_un node l st) (fun ts n k => ts = [] /\ k = 1 /\
    exists l0, l = Some l0 /\ n = node l0).
Proof.
  intros H Hc Hl. unfold mk_un, mk_node, mbind, parser_bind. destruct (failing st) eqn:Hf.
  - exists None, st, [], rem. obind. split_and!; try done. by rewrite Hf.
  - zcase; obind.
    + eexists None, _, [], rem. split_and!; [reflexivity|done|by apply (st_at_fail _ _ st)|done|by rewrite Hf|].
      cbn [ctx]. by rewrite fail_failed.
    + destruct (Hl Hf) as (l0 & -> & _). exists (Some (node l0)), (bump 1 st), [], rem.
      split_and!; [done..|cbn; lia|by rewrite Hf|]. intros _. eexists. split; [done|].
      cbn. split_and!; [done|lia|eauto].
Qed.

(** The state a compilation parses from. *)
Definition start ts c : parser_t T := {| ctx := set_toks (ts ++ [TOK_END]) c; count := 0 |}.

Lemma st_at_start ts err err_len :
  TOK_END ∉ ts -> zlen ts < MAX_TOKENS -> st_at ts (start ts (init_ctx err err_len)).
Proof.
  intros He Hn. exists []. cbn. split_and!; [done..|]. autorewrite with zlen. unfold MAX_TOKENS in *. lia.
Qed.

End Reasoning.

(** ** What is left in the error buffer *)

(** [c] descends from [c0]: its error buffer is untouched, or holds the first error. *)
Definition reported {T} (c0 c : ctx_t T) : Prop :=
  err_len c = err_len c0 /\
  if failed c then exists msg, err c = report c0 msg else err c = err c0.

Create HintDb keeps.

Section Reporting.
Context {T : Type} `{!EqDecision T} (TOK_END : T) (c0 : ctx_t T).

Lemma reported_fail c msg : reported c0 c -> reported c0 (fail c msg).
Proof using.
  unfold reported, fail. destruct (failed c) eqn:Hf; [by rewrite Hf|]. cbn. intros [Hl He].
  split; [done|]. exists msg. unfold report. by rewrite Hl, He.
Qed.

(** Parser steps keep it. *)
Definition keeps {A} (m : parser T A) : Prop := forall st a st',
  reported c0 (ctx st) -> m st = Ret (a, st') -> reported c0 (ctx st').

Lemma keeps_bind {A B} (m : parser T A) (f : A -> parser T B) :
  keeps m -> (forall a, keeps (f a)) -> keeps (m ≫= f).
Proof using.
  intros Hm Hf st b st' Hr E. unfold mbind, parser_bind in E.
  destruct (m st) as [[a st1]| |] eqn:E1; [|done..].
  apply (Hf a st1 b st' (Hm st a st1 Hr E1) E).
Qed.
Lemma keeps_ret {A} (a : A) : keeps (mret a).
Proof using. intros st b st' Hr E. by injection E as <- <-. Qed.
Lemma keeps_timeout {A} : keeps (@timeout T A).
Proof using. done. Qed.
Lemma keeps_fail {A} msg : keeps (@fail_null T A msg).
Proof using. intros st b st' Hr E. injection E as <- <-. by apply reported_fail. Qed.
Lemma keeps_deref {A} (p : option A) : keeps (deref p).
Proof using. intros st b st' Hr E. destruct p; [|done]. by injection E as <- <-. Qed.
Lemma keeps_mk_node : keeps mk_node.
Proof using.
  intros st b st' Hr. unfold mk_node. repeat split_goal; intros E; injection E as <- <-; try done.
  by apply reported_fail.
Qed.
Lemma keeps_peek : keeps (p_peek TOK_END).
Proof using. intros st b st' Hr. unfold p_peek. split_goal; [|done]. intros E. by injection E as <- <-. Qed.
Lemma keeps_incr : keeps incr_pos.
Proof using. intros st b st' Hr E. by injection E as <- <-. Qed.
Lemma keeps_advance : keeps (p_advance TOK_END).
Proof using.
  apply keeps_bind; [apply keeps_peek|]. intros t. split_goal; [apply keeps_ret|].
  apply keeps_bind; [apply keeps_incr|]. intros _. apply keeps_ret.
Qed.
Lemma keeps_leaf {N} (n : N) : keeps (mk_leaf n).
Proof using.
  apply keeps_bind; [apply keeps_mk_node|]. intros ok. apply keeps_ret.
Qed.
Lemma keeps_un {N} (node : N -> N) l : keeps (mk_un node l).
Proof using.
  apply keeps_bind; [apply keeps_mk_node|]. intros [|]; [|apply keeps_ret].
  apply keeps_bind; [apply keeps_deref|]. intros n. apply keeps_ret.
Qed.
Lemma keeps_bin {N} (node : N -> N -> N) l r : keeps (mk_bin node l r).
Proof using.
  apply keeps_bind; [apply keeps_mk_node|]. intros [|]; [|apply keeps_ret].
  apply keeps_bind; [apply keeps_deref|]. intros n.
  apply keeps_bind; [apply keeps_deref|]. intros n'. apply keeps_ret.
Qed.
End Reporting.

#[export] Hint Resolve keeps_ret keeps_timeout keeps_fail keeps_peek keeps_advance keeps_leaf
  keeps_un keeps_bin : keeps.

(** Walks through a parser's text. *)
Ltac keep :=
  repeat first
    [ solve [auto with keeps]
    | apply keeps_bind; [|intros ?]
    | match goal with |- keeps _ (match ?x with _ => _ end) => destruct x end ].
