(* ===== verification/Lexing.v ===== *)
(** * Lexers as an interface

    Both filter lexers are loops over the text that skip blanks, stop with an error when
    the token array is full, and otherwise push one token or report an error.  [Lexer]
    states these laws for a loop and a lexical grammar [tok_at]; what follows (exactly
    which texts are accepted, with which tokens, and what happens at the capacity) is
    proved once from the laws. *)
From S2P Require Import Prelude Text Literals FilterCore.
From stdpp Require Import options.

Local Open Scope Z_scope.

(** [tok_at w t s]: [w] is a spelling of the token [t] when [s] follows it. *)
Inductive lexes {T} (tok_at : text -> T -> text -> Prop) : text -> list T -> Prop :=
| lexes_end : lexes tok_at [] []
| lexes_space c s ts : is_space c = true -> lexes tok_at s ts -> lexes tok_at (c :: s) ts
| lexes_tok w t s ts : tok_at w t s -> lexes tok_at s ts -> lexes tok_at (w ++ s) (t :: ts).

Class Lexer {T} (TOK_END : T) (loop : nat -> ctx_t T -> text -> outcome (ctx_t T))
    (tok_at : text -> T -> text -> Prop) := {
  lex_stop fuel c : loop (S fuel) c [] =
    if n_toks c <? MAX_TOKENS then Ret (push_tok c TOK_END) else UB;
  lex_skip fuel c ch s : is_space ch = true -> loop (S fuel) c (ch :: s) = loop fuel c s;
  lex_full fuel c ch s : is_space ch = false -> n_toks c = MAX_TOKENS ->
    loop (S fuel) c (ch :: s) = Ret (fail c (lit "filter expression has too many tokens"));
  lex_token fuel c w t s : tok_at w t s -> n_toks c < MAX_TOKENS ->
    loop (S fuel) c (w ++ s) = loop fuel (push_tok c t) s;
  lex_turn fuel c ch s : is_space ch = false -> n_toks c < MAX_TOKENS ->
    (exists w t s', ch :: s = w ++ s' /\ tok_at w t s') \/
    (exists msg, loop (S fuel) c (ch :: s) = Ret (fail c msg));
  tok_start w t s : tok_at w t s -> exists ch w', w = ch :: w' /\ is_space ch = false;
  tok_not_end w t s : tok_at w t s -> t <> TOK_END
}.

Section Lexing.
Context {T : Type} (TOK_END : T) (loop : nat -> ctx_t T -> text -> outcome (ctx_t T)).
Context (tok_at : text -> T -> text -> Prop) {L : Lexer TOK_END loop tok_at}.
Local Abbreviation lexes := (lexes tok_at).

(** What the loop returns on a lexable text, by the number of tokens. *)
Definition lex_outcome (c : ctx_t T) (ts : list T) : outcome (ctx_t T) :=
  if n_toks c + zlen ts <? MAX_TOKENS then Ret (set_toks (toks c ++ ts ++ [TOK_END]) c)
  else if n_toks c + zlen ts =? MAX_TOKENS then UB
  else Ret (fail (set_toks (toks c ++ take (Z.to_nat (MAX_TOKENS - n_toks c)) ts) c)
              (lit "filter expression has too many tokens")).

Lemma lex_outcome_push c t ts :
  n_toks c < MAX_TOKENS -> lex_outcome (push_tok c t) ts = lex_outcome c (t :: ts).
Proof using.
  intros Hn. unfold lex_outcome. rewrite n_toks_push, zlen_cons, !push_toks.
  replace (n_toks c + 1 + zlen ts) with (n_toks c + (1 + zlen ts)) by lia.
  replace (Z.to_nat (MAX_TOKENS - n_toks c))
    with (S (Z.to_nat (MAX_TOKENS - (n_toks c + 1)))) by lia.
  done.
Qed.

Lemma loop_complete s ts : lexes s ts -> forall fuel c,
  (length s < fuel)%nat -> n_toks c <= MAX_TOKENS -> loop fuel c s = lex_outcome c ts.
Proof using L.
  induction 1 as [|ch s ts Hs Hl IH|w t s ts Hw Hl IH]; intros [|fuel] c Hf Hn; try lia.
  - rewrite lex_stop. unfold lex_outcome. rewrite zlen_nil, Z.add_0_r. repeat zcase; done.
  - rewrite (lex_skip _ _ _ _ Hs). apply IH; [cbn [length] in Hf; lia|done].
  - destruct (tok_start _ _ _ Hw) as (ch & w' & E & Hs). rewrite length_app, E in Hf. cbn [length] in Hf.
    destruct (Z.eq_dec (n_toks c) MAX_TOKENS) as [En|].
    + rewrite E. cbn [app]. rewrite (lex_full _ _ _ _ Hs En). unfold lex_outcome. rewrite zlen_cons.
      pose proof (zlen_nonneg ts). repeat (zcase; []).
      rewrite En, Z.sub_diag, take_0, app_nil_r. by destruct c.
    + rewrite (lex_token _ _ _ _ _ Hw) by lia. rewrite IH by (rewrite ?n_toks_push; lia).
      apply lex_outcome_push. lia.
Qed.

Lemma loop_sound fuel : forall c s,
  (length s < fuel)%nat -> n_toks c <= MAX_TOKENS ->
  (exists ts, lexes s ts /\ loop fuel c s = lex_outcome c ts) \/
  (exists ts msg, loop fuel c s = Ret (fail (set_toks (toks c ++ ts) c) msg)).
Proof using L.
  induction fuel as [|fuel IH]; intros c s Hf Hn; [lia|]. destruct s as [|ch s].
  { left. exists []. split; [constructor|]. apply loop_complete; [constructor|lia|done]. }
  assert (c = set_toks (toks c ++ []) c) as Ec by (destruct c; unfold set_toks; cbn; by rewrite app_nil_r).
  cbn [length] in Hf. destruct (is_space ch) eqn:Hs.
  { rewrite (lex_skip _ _ _ _ Hs).
    destruct (IH c s ltac:(lia) Hn) as [(ts & Hl & E)|(ts & msg & E)]; [left|by eauto].
    exists ts. split; [by constructor|done]. }
  destruct (Z.eq_dec (n_toks c) MAX_TOKENS) as [E|].
  { right. eexists [], _. rewrite <- Ec. by apply lex_full. }
  destruct (lex_turn fuel c ch s Hs ltac:(lia)) as [(w & t & s' & E & Hw)|[msg E]].
  - destruct (tok_start _ _ _ Hw) as (x & w' & Ew & _).
    apply (f_equal length) in E as EL. rewrite Ew in EL. cbn [app length] in EL. rewrite length_app in EL.
    rewrite E, (lex_token _ _ _ _ _ Hw) by lia.
    destruct (IH (push_tok c t) s' ltac:(lia) ltac:(rewrite n_toks_push; lia))
      as [(ts & Hl & E')|(ts & msg & E')]; [left|right].
    + exists (t :: ts). split; [by constructor|]. rewrite E'. apply lex_outcome_push. lia.
    + exists (t :: ts), msg. rewrite E'. by rewrite push_toks.
  - right. exists [], msg. by rewrite <- Ec.
Qed.

Lemma lexes_no_end s ts : lexes s ts -> TOK_END ∉ ts.
Proof using L.
  induction 1 as [|ch s ts Hs Hl IH|w t s ts Hw Hl IH]; [by intros ?%elem_of_nil|done|].
  intros [E|?]%elem_of_cons; [|done]. symmetry in E. by apply (tok_not_end _ _ _ Hw) in E.
Qed.

(** From a fresh context, with one turn per character and one to stop. *)
Section Fresh.
Context (err_ : option text) (err_len_ : Z) (expr : text).
Local Abbreviation c0 := (init_ctx err_ err_len_).
Local Abbreviation run := (loop (S (length expr)) c0 expr).

(** What the lexer does with any expression whatever. *)
Lemma lex_cases :
  (exists ts, lexes expr ts /\ zlen ts < MAX_TOKENS /\ run = Ret (set_toks (ts ++ [TOK_END]) c0)) \/
  (exists ts, lexes expr ts /\ zlen ts = MAX_TOKENS /\ run = UB) \/
  (exists ts msg, run = Ret (fail (set_toks ts c0) msg)).
Proof using L.
  destruct (loop_sound (S (length expr)) c0 expr) as [(ts & Hl & ->)|(ts & msg & E)];
    [lia|done| |by eauto]. unfold lex_outcome. change (n_toks c0) with 0.
  repeat zcase; eauto 6.
Qed.

Lemma lex_accepts ts :
  lexes expr ts -> zlen ts < MAX_TOKENS -> run = Ret (set_toks (ts ++ [TOK_END]) c0).
Proof using L.
  intros Hl Hn. rewrite (loop_complete _ _ Hl) by (lia || done).
  unfold lex_outcome. change (n_toks c0) with 0. by zcase.
Qed.

Lemma lex_overflows ts : lexes expr ts -> zlen ts = MAX_TOKENS -> run = UB.
Proof using L.
  intros Hl Hn. rewrite (loop_complete _ _ Hl) by (lia || done).
  unfold lex_outcome. change (n_toks c0) with 0. by repeat zcase.
Qed.

Lemma lex_too_many ts : lexes expr ts -> MAX_TOKENS < zlen ts ->
  run = Ret (fail (set_toks (take (Z.to_nat MAX_TOKENS) ts) c0) (lit "filter expression has too many tokens")).
Proof using L.
  intros Hl Hn. rewrite (loop_complete _ _ Hl) by (lia || done).
  unfold lex_outcome. change (n_toks c0) with 0. by repeat zcase.
Qed.

Lemma lex_iff ts :
  run = Ret (set_toks (ts ++ [TOK_END]) c0) <-> lexes expr ts /\ zlen ts < MAX_TOKENS.
Proof using L.
  split; [|intros [Hl Hn]; by apply lex_accepts].
  intros H. destruct lex_cases as [(ts' & Hl & Hn & E)|[(ts' & _ & _ & E)|(ts' & msg & E)]];
    rewrite H in E; [|done|].
  - injection E as E. apply app_inj_tail in E as [-> _]. done.
  - exfalso. by apply (f_equal (fun o => match o with Ret c => failed c | _ => true end)) in E.
Qed.

End Fresh.

Lemma lexes_unique expr ts1 ts2 :
  lexes expr ts1 -> zlen ts1 < MAX_TOKENS -> lexes expr ts2 -> zlen ts2 < MAX_TOKENS -> ts1 = ts2.
Proof using L.
  intros H1 N1 H2 N2. pose proof (lex_accepts None 0 expr ts1 H1 N1) as E. rewrite (lex_accepts None 0 expr ts2 H2 N2) in E.
  injection E as E. by apply app_inj_tail in E as [-> _].
Qed.
End Lexing.
