(* ===== verification/BoolParser.v ===== *)
(** * Boolean expression parsers as an interface

    capfilter.c and dispfilter.c parse the same expression grammar, [or] over [and] over
    [not] over parentheses and primitives, with the same recursive descent; they differ
    in the primitives and in how a loop joins two operands.  [syntax] gives the tokens
    and nodes of one of them, [g_expr] its grammar, and [BoolParser] the equations of its
    five functions.  From these it is proved once that the descent returns with a fuel
    of three calls per token, and accepts exactly the sentences of the grammar. *)
From S2P Require Import Prelude Text Literals FilterCore.
From stdpp Require Import options.

Local Open Scope Z_scope.

Record syntax (T N : Type) := {
  tok_end : T; tok_not : T; tok_lparen : T; tok_rparen : T; tok_and : T; tok_or : T;
  node_not : N -> N; node_and : N -> N -> N; node_or : N -> N -> N;
  node_size : N -> Z;
  prim : list T -> N -> Prop
}.
Arguments tok_end {T N} _.
Arguments tok_not {T N} _.
Arguments tok_lparen {T N} _.
Arguments tok_rparen {T N} _.
Arguments tok_and {T N} _.
Arguments tok_or {T N} _.
Arguments node_not {T N} _ _.
Arguments node_and {T N} _ _ _.
Arguments node_or {T N} _ _ _.
Arguments node_size {T N} _ _.
Arguments prim {T N} _ _ _.

(** ** The grammar *)

Section Grammar.
Context {T N : Type} (Y : syntax T N).

(** [or_expr := and_expr ('or' and_expr)*] and so on; [and_rest n ts n'] extends the
    conjunction [n] built so far by the operands in [ts]. *)
Inductive g_not : list T -> N -> Prop :=
| gn_not ts n : g_not ts n -> g_not (tok_not Y :: ts) (node_not Y n)
| gn_paren ts n : g_expr ts n -> g_not (tok_lparen Y :: ts ++ [tok_rparen Y]) n
| gn_prim ts n : prim Y ts n -> g_not ts n
with g_and : list T -> N -> Prop :=
| ga ts1 n1 ts2 n : g_not ts1 n1 -> and_rest n1 ts2 n -> g_and (ts1 ++ ts2) n
with and_rest : N -> list T -> N -> Prop :=
| ar_end n : and_rest n [] n
| ar_and l ts1 r ts2 n : g_not ts1 r -> and_rest (node_and Y l r) ts2 n ->
    and_rest l (tok_and Y :: ts1 ++ ts2) n
with g_expr : list T -> N -> Prop :=
| ge ts1 n1 ts2 n : g_and ts1 n1 -> or_rest n1 ts2 n -> g_expr (ts1 ++ ts2) n
with or_rest : N -> list T -> N -> Prop :=
| or_end n : or_rest n [] n
| or_or l ts1 r ts2 n : g_and ts1 r -> or_rest (node_or Y l r) ts2 n ->
    or_rest l (tok_or Y :: ts1 ++ ts2) n.

Scheme g_not_mut := Minimality for g_not Sort Prop
with g_and_mut := Minimality for g_and Sort Prop
with and_rest_mut := Minimality for and_rest Sort Prop
with g_expr_mut := Minimality for g_expr Sort Prop
with or_rest_mut := Minimality for or_rest Sort Prop.
Combined Scheme grammar_ind from g_not_mut, g_and_mut, and_rest_mut, g_expr_mut, or_rest_mut.

(** A property of trees that primitives have and connectives keep. *)
Lemma g_expr_all (ok : list T -> Prop) (P : N -> Prop) :
  (forall ts1 ts2, ok (ts1 ++ ts2) -> ok ts1 /\ ok ts2) -> (forall t ts, ok (t :: ts) -> ok ts) ->
  (forall ts n, prim Y ts n -> ok ts -> P n) ->
  (forall n, P n -> P (node_not Y n)) -> (forall l r, P l -> P r -> P (node_and Y l r)) ->
  (forall l r, P l -> P r -> P (node_or Y l r)) ->
  forall ts n, g_expr ts n -> ok ts -> P n.
Proof using.
  intros Happ Hcons Hp Hn Ha Ho.
  assert ((forall ts n, g_not ts n -> ok ts -> P n) /\ (forall ts n, g_and ts n -> ok ts -> P n) /\
    (forall l ts n, and_rest l ts n -> ok ts -> P l -> P n) /\ (forall ts n, g_expr ts n -> ok ts -> P n) /\
    (forall l ts n, or_rest l ts n -> ok ts -> P l -> P n)) as H; [|apply H].
  apply grammar_ind; eauto; intros;
    repeat match goal with
    | H : ok (_ :: _) |- _ => apply Hcons in H
    | H : ok (_ ++ _) |- _ => apply Happ in H as [? ?]
    end; eauto.
Qed.
End Grammar.

(** ** Joining two operands *)

Section Join.
Context {T N : Type}.
Abbreviation joiner := ((N -> N -> N) -> option N -> option N ->
  (option N -> parser T (option N)) -> parser T (option N)).

(** capfilter.c: [left = mk(left, right);] and on with the loop, even with a NULL node. *)
Definition join_on : joiner := fun node l r loop => l ← mk_bin node l r; loop l.

(** dispfilter.c: [n = mk_node(...); if (n == NULL) return NULL; ...; left = n;] and on
    with the loop. *)
Definition join_node : joiner := fun node left_ right_ loop =>
  ok ← mk_node;
  if ok : bool then
    l ← deref left_; r ← deref right_; loop (Some (node l r))
  else mret None.

(** [loop l] extends [l] by [rest], on at most [m] remaining tokens. *)
Definition loop_returns (e : T) (size : N -> Z) (rest : N -> list T -> N -> Prop) (m : nat)
    (loop : option N -> parser T (option N)) : Prop := forall rem st l Gl,
  (length rem <= m)%nat -> st_at e rem st -> count st <= MAX_NODES -> non_null l st Gl ->
  returns e rem st (loop l st)
    (fun ts n k => exists l0, l = Some l0 /\ rest l0 ts n /\ k = size n - size l0).

Class Join (join : joiner) := {
  join_parses e node l r loop ts n k stop : parses e (loop (Some (node l r))) ts n k stop -> 0 <= k ->
    parses e (join node (Some l) (Some r) loop) ts n (1 + k) stop;
  join_returns e size node l r loop rest rem st Gl Gr :
    st_at e rem st -> count st <= MAX_NODES -> non_null l st Gl -> non_null r st Gr ->
    loop_returns e size rest (length rem) loop ->
    returns e rem st (join node l r loop st) (fun ts n k => exists l0 r0,
      l = Some l0 /\ r = Some r0 /\ rest (node l0 r0) ts n /\ k = 1 + size n - size (node l0 r0));
  join_keeps c0 node l r loop : (forall l, keeps c0 (loop l)) -> keeps c0 (join node l r loop)
}.

#[export] Instance join_on_laws : Join join_on.
Proof.
  split.
  - intros e node l r loop ts n k stop Hl Hk.
    eapply (parses_then e _ _ [] _ 1); [apply parses_bin|exact Hl|lia|done].
  - intros e size node l r loop rest rem st Gl Gr H Hc Hl Hr Hloop.
    eapply returns_then; [by eapply returns_bin|].
    intros l' st2 ts2 rem2 -> Ha2 Hc2 Hm2 Hl'. rewrite length_app in Hloop.
    eapply returns_weaken; [eapply Hloop; [lia|done..]|].
    intros ts n k (l0 & -> & Hrest & ->) n1 [= ->] (-> & Hk & l1 & r1 & -> & -> & ->).
    exists l1, r1. cbn [app]. split_and!; [done..|lia].
  - intros c0 node l r loop Hl. apply keeps_bind; [apply keeps_bin|done].
Qed.

#[export] Instance join_node_laws : Join join_node.
Proof.
  split.
  - intros e node l r loop ts n k stop Hl Hk st rem H Hf Hc Hs.
    unfold join_node, mk_node, mbind, parser_bind. rewrite Hf. zcase. obind.
    change (loop (Some (node l r)) (bump 1 st) = Ret (Some n, bump (1 + k) (adv (length ts) st))).
    rewrite (Hl (bump 1 st) rem H Hf ltac:(cbn; lia) Hs). by rewrite adv_bump, bump_bump.
  - intros e size node l r loop rest rem st Gl Gr H Hc Hl Hr Hloop.
    unfold join_node. destruct (failing st) eqn:Hf.
    { exists None, st, [], rem. unfold mk_node, mbind, parser_bind. rewrite Hf. by split_and!. }
    unfold mk_node, mbind, parser_bind. rewrite Hf. zcase; obind.
    + eexists None, _, [], rem. split_and!; [reflexivity|done|by apply (st_at_fail e _ _ st)|done|by rewrite Hf|].
      cbn [ctx]. by rewrite fail_failed.
    + destruct (Hl Hf) as (l0 & -> & _), (Hr Hf) as (r0 & -> & _).
      destruct (Hloop rem (bump 1 st) (Some (node l0 r0)) (fun _ => True)) as
        (x & st' & ts & rem' & E & -> & Ha & Hc' & Hm & Hg); [done..|cbn; lia|by eexists|].
      exists x, st', ts, rem'. split_and!; try done. intros Hf'. destruct (Hg Hf') as (n & -> & l1 & [= <-] & Hre & Hk).
      exists n. split; [done|]. exists l0, r0. cbn [bump count] in Hk. split_and!; [done..|lia].
  - intros c0 node l r loop Hl. apply keeps_bind; [apply keeps_mk_node|]. intros [|]; [|apply keeps_ret].
    apply keeps_bind; [apply keeps_deref|]. intros ?. apply keeps_bind; [apply keeps_deref|]. done.
Qed.
End Join.

(** ** The interface *)

Section Interface.
Context {T N : Type} `{!EqDecision T}.

(** What a parser is made of. *)
Record descent := {
  d_prim : parser T (option N);
  d_join : (N -> N -> N) -> option N -> option N ->
    (option N -> parser T (option N)) -> parser T (option N);
  d_not : nat -> parser T (option N);
  d_and : nat -> parser T (option N);
  d_and_loop : nat -> option N -> parser T (option N);
  d_expr : nat -> parser T (option N);
  d_or_loop : nat -> option N -> parser T (option N)
}.

Class BoolParser (Y : syntax T N) (D : descent) := {
  size_pos n : 1 <= node_size Y n;
  size_not n : node_size Y (node_not Y n) = 1 + node_size Y n;
  size_and l r : node_size Y (node_and Y l r) = 1 + node_size Y l + node_size Y r;
  size_or l r : node_size Y (node_or Y l r) = 1 + node_size Y l + node_size Y r;
  tokens_distinct :
    NoDup [tok_end Y; tok_not Y; tok_lparen Y; tok_rparen Y; tok_and Y; tok_or Y];
  prim_start ts n : prim Y ts n -> exists t ts', ts = t :: ts' /\ t <> tok_not Y /\ t <> tok_lparen Y;
  prim_parses ts n : prim Y ts n -> parses (tok_end Y) (d_prim D) ts n (node_size Y n) none;
  prim_returns rem st : st_at (tok_end Y) rem st -> count st <= MAX_NODES ->
    returns (tok_end Y) rem st (d_prim D st) (fun ts n k => prim Y ts n /\ k = node_size Y n);
  prim_keeps c0 : keeps c0 (d_prim D);
  join_laws :: Join (d_join D);
  not_eq fuel : exists f, d_not D (S fuel) = p_peek (tok_end Y) ≫= f /\ forall t, f t =
    if bool_decide (t = tok_not Y) then
      _ ← p_advance (tok_end Y); operand ← d_not D fuel; mk_un (node_not Y) operand
    else if bool_decide (t = tok_lparen Y) then
      _ ← p_advance (tok_end Y);
      inner ← d_expr D fuel;
      t ← p_advance (tok_end Y);
      if bool_decide (t = tok_rparen Y) then mret inner else fail_null (lit "expected ')'")
    else d_prim D;
  and_eq fuel : d_and D (S fuel) = left_ ← d_not D fuel; d_and_loop D fuel left_;
  expr_eq fuel : d_expr D (S fuel) = left_ ← d_and D fuel; d_or_loop D fuel left_;
  and_loop_eq fuel left_ : exists f, d_and_loop D (S fuel) left_ = p_peek (tok_end Y) ≫= f /\
    forall t, f t =
    if bool_decide (t = tok_and Y) then
      _ ← p_advance (tok_end Y); right_ ← d_not D fuel;
      d_join D (node_and Y) left_ right_ (d_and_loop D fuel)
    else mret left_;
  or_loop_eq fuel left_ : exists f, d_or_loop D (S fuel) left_ = p_peek (tok_end Y) ≫= f /\
    forall t, f t =
    if bool_decide (t = tok_or Y) then
      _ ← p_advance (tok_end Y); right_ ← d_and D fuel;
      d_join D (node_or Y) left_ right_ (d_or_loop D fuel)
    else mret left_;
  no_fuel : d_not D 0 = timeout /\ d_and D 0 = timeout /\ (forall l, d_and_loop D 0 l = timeout) /\
    d_expr D 0 = timeout /\ (forall l, d_or_loop D 0 l = timeout)
}.
End Interface.
Arguments descent T N : clear implicits.

Section Descent.
Context {T N : Type} `{!EqDecision T} (Y : syntax T N) (D : descent T N) {P : BoolParser Y D}.
Local Abbreviation size := (node_size Y).
Local Abbreviation parses := (FilterCore.parses (tok_end Y)).
Local Abbreviation returns := (FilterCore.returns (tok_end Y)).
Local Abbreviation st_at := (FilterCore.st_at (tok_end Y)).

(** Decides the comparisons of the given tokens. *)
Ltac tokens :=
  let H := fresh in pose proof tokens_distinct as H; rewrite !NoDup_cons in H;
  rewrite ?not_elem_of_cons in H; destruct_and! H.
Ltac choose_branch :=
  repeat first [ rewrite bool_decide_eq_true_2 by congruence
               | rewrite bool_decide_eq_false_2 by congruence ].

(** ** Every sentence of the grammar is parsed *)

(** The tokens after which a construct could go on. *)
Definition is_and (t : T) : bool := bool_decide (t = tok_and Y).
Definition is_and_or (t : T) : bool := bool_decide (t = tok_and Y) || bool_decide (t = tok_or Y).

Lemma and_rest_size l ts n : and_rest Y l ts n -> size l <= size n.
Proof using P.
  induction 1 as [|l ts1 r ts2 n Hg Hr IH]; [lia|]. rewrite size_and in IH. pose proof (size_pos r). lia.
Qed.
Lemma or_rest_size l ts n : or_rest Y l ts n -> size l <= size n.
Proof using P.
  induction 1 as [|l ts1 r ts2 n Hg Hr IH]; [lia|]. rewrite size_or in IH. pose proof (size_pos r). lia.
Qed.

Lemma or_rest_stop l ts n rem : or_rest Y l ts n ->
  is_and_or (hd (tok_end Y) rem) = false -> is_and (hd (tok_end Y) (ts ++ rem)) = false.
Proof using P.
  destruct 1; cbn [app hd].
  - unfold is_and_or. by intros [? _]%orb_false_elim.
  - intros _. apply bool_decide_eq_false_2. tokens. congruence.
Qed.

Lemma parses_operand node m loop ts1 r ts2 l n k stop1 stop :
  parses m ts1 r (size r) stop1 -> parses (loop (Some (node l r))) ts2 n k stop -> 0 <= k ->
  (forall rem, stop (hd (tok_end Y) rem) = false -> stop1 (hd (tok_end Y) (ts2 ++ rem)) = false) ->
  parses (r ← m; d_join D node (Some l) r loop) (ts1 ++ ts2) n (size r + (1 + k)) stop.
Proof using P.
  intros Hm Hl Hk Hs. eapply parses_then; [exact Hm|by apply join_parses|lia|exact Hs].
Qed.

Lemma parses_not fuel ts n :
  parses (d_not D fuel) ts n (size n) none ->
  parses (d_not D (S fuel)) (tok_not Y :: ts) (node_not Y n) (1 + size n) none.
Proof using P.
  intros IH. destruct (not_eq fuel) as (f & -> & Hf). apply parses_peek. rewrite Hf. choose_branch.
  apply parses_advance. eapply parses_eq;
    [eapply parses_then; [exact IH|apply parses_un|lia|done]|apply app_nil_r|lia].
Qed.

Lemma parses_paren fuel ts n :
  parses (d_expr D fuel) ts n (size n) is_and_or ->
  parses (d_not D (S fuel)) (tok_lparen Y :: ts ++ [tok_rparen Y]) n (size n) none.
Proof using P.
  intros IH. destruct (not_eq fuel) as (f & -> & Hf). tokens. apply parses_peek. rewrite Hf. choose_branch.
  apply parses_advance. eapply parses_eq;
    [eapply (parses_then _ _ _ _ _ _ _ [tok_rparen Y] _ 0); [exact IH| |lia|]|done|lia].
  - apply parses_advance. choose_branch. apply parses_ret.
  - intros rem _. cbn [app hd]. unfold is_and_or. by choose_branch.
Qed.

Lemma parses_prim fuel ts n : prim Y ts n -> parses (d_not D (S fuel)) ts n (size n) none.
Proof using P.
  intros Hg. destruct (prim_start _ _ Hg) as (t & ts' & -> & Hn & Hl).
  destruct (not_eq fuel) as (f & -> & Hf). apply parses_peek. rewrite Hf. choose_branch.
  by apply prim_parses.
Qed.

Lemma parses_and_more fuel l r ts1 ts2 n :
  parses (d_not D fuel) ts1 r (size r) none -> and_rest Y (node_and Y l r) ts2 n ->
  parses (d_and_loop D fuel (Some (node_and Y l r))) ts2 n (size n - size (node_and Y l r)) is_and ->
  parses (d_and_loop D (S fuel) (Some l)) (tok_and Y :: ts1 ++ ts2) n (size n - size l) is_and.
Proof using P.
  intros IH1 Hr IH2. pose proof (and_rest_size _ _ _ Hr). rewrite size_and in *.
  destruct (and_loop_eq fuel (Some l)) as (f & -> & Hf). apply parses_peek. rewrite Hf. choose_branch.
  apply parses_advance. eapply parses_eq; [eapply parses_operand; [exact IH1|exact IH2|lia|done]|done|lia].
Qed.

Lemma parses_or_more fuel l r ts1 ts2 n :
  parses (d_and D fuel) ts1 r (size r) is_and -> or_rest Y (node_or Y l r) ts2 n ->
  parses (d_or_loop D fuel (Some (node_or Y l r))) ts2 n (size n - size (node_or Y l r)) is_and_or ->
  parses (d_or_loop D (S fuel) (Some l)) (tok_or Y :: ts1 ++ ts2) n (size n - size l) is_and_or.
Proof using P.
  intros IH1 Hr IH2. pose proof (or_rest_size _ _ _ Hr). rewrite size_or in *.
  destruct (or_loop_eq fuel (Some l)) as (f & -> & Hf). apply parses_peek. rewrite Hf. choose_branch.
  apply parses_advance. eapply parses_eq;
    [eapply parses_operand; [exact IH1|exact IH2|lia|intros; by eapply or_rest_stop]|done|lia].
Qed.

(** A loop that meets no operator. *)
Lemma parses_loop_end (m : parser T (option N)) n stop t0 (g : T -> parser T (option N)) :
  (exists f, m = p_peek (tok_end Y) ≫= f /\
     forall t, f t = if bool_decide (t = t0) then g t else mret (Some n)) ->
  (forall t, stop t = false -> t <> t0) -> parses m [] n (size n - size n) stop.
Proof using.
  intros (f & -> & Hf) Hs. rewrite Z.sub_diag. apply parses_stop. intros t Ht. rewrite Hf.
  by rewrite bool_decide_eq_false_2 by auto.
Qed.

Lemma parse_complete :
  (forall ts n, g_not Y ts n -> forall fuel, (3 * length ts + 1 <= fuel)%nat ->
     parses (d_not D fuel) ts n (size n) none) /\
  (forall ts n, g_and Y ts n -> forall fuel, (3 * length ts + 2 <= fuel)%nat ->
     parses (d_and D fuel) ts n (size n) is_and) /\
  (forall l ts n, and_rest Y l ts n -> forall fuel, (3 * length ts + 1 <= fuel)%nat ->
     parses (d_and_loop D fuel (Some l)) ts n (size n - size l) is_and) /\
  (forall ts n, g_expr Y ts n -> forall fuel, (3 * length ts + 3 <= fuel)%nat ->
     parses (d_expr D fuel) ts n (size n) is_and_or) /\
  (forall l ts n, or_rest Y l ts n -> forall fuel, (3 * length ts + 1 <= fuel)%nat ->
     parses (d_or_loop D fuel (Some l)) ts n (size n - size l) is_and_or).
Proof using P.
  apply grammar_ind.
  - intros ts n _ IH [|fuel] Hfuel; [lia|]. cbn [length] in *. rewrite size_not.
    apply parses_not, IH. lia.
  - intros ts n _ IH [|fuel] Hfuel; [lia|]. cbn [length] in *. rewrite length_app in Hfuel.
    apply parses_paren, IH. lia.
  - intros ts n Hg [|fuel] Hfuel; [lia|]. by apply parses_prim.
  - intros ts1 n1 ts2 n _ IH1 Hr IH2 [|fuel] Hfuel; [lia|]. rewrite length_app in Hfuel.
    pose proof (and_rest_size _ _ _ Hr). rewrite and_eq. eapply parses_eq;
      [eapply parses_then; [apply IH1; lia|apply IH2; lia|lia|done]|done|lia].
  - intros n [|fuel] Hfuel; [lia|]. eapply parses_loop_end; [apply and_loop_eq|].
    intros t Ht. by apply bool_decide_eq_false in Ht.
  - intros l ts1 r ts2 n _ IH1 Hr IH2 [|fuel] Hfuel; [lia|].
    cbn [length] in Hfuel. rewrite length_app in Hfuel.
    apply (parses_and_more _ _ r); [apply IH1; lia|done|apply IH2; lia].
  - intros ts1 n1 ts2 n _ IH1 Hr IH2 [|fuel] Hfuel; [lia|]. rewrite length_app in Hfuel.
    pose proof (or_rest_size _ _ _ Hr). rewrite expr_eq. eapply parses_eq; [eapply parses_then;
      [apply IH1; lia|apply IH2; lia|lia|intros; by eapply or_rest_stop]|done|lia].
  - intros n [|fuel] Hfuel; [lia|]. eapply parses_loop_end; [apply or_loop_eq|].
    intros t [_ Ht]%orb_false_elim. by apply bool_decide_eq_false in Ht.
  - intros l ts1 r ts2 n _ IH1 Hr IH2 [|fuel] Hfuel; [lia|].
    cbn [length] in Hfuel. rewrite length_app in Hfuel.
    apply (parses_or_more _ _ r); [apply IH1; lia|done|apply IH2; lia].
Qed.

(** ** Whatever is parsed is a sentence of the grammar *)

(** The five functions at one fuel, on [rem] remaining tokens. *)
Definition sound_at (m : nat -> parser T (option N)) (G : list T -> N -> Prop) (slack fuel : nat) : Prop :=
  forall rem st, st_at rem st -> count st <= MAX_NODES -> (3 * length rem + slack <= fuel)%nat ->
    returns rem st (m fuel st) (fun ts n k => G ts n /\ k = size n).
Definition loop_ok (loop : nat -> option N -> parser T (option N))
    (rest : N -> list T -> N -> Prop) (fuel : nat) : Prop :=
  forall m, (3 * m + 1 <= fuel)%nat -> loop_returns (tok_end Y) size rest m (loop fuel).
Local Abbreviation not_ok := (sound_at (d_not D) (g_not Y) 1).
Local Abbreviation and_ok := (sound_at (d_and D) (g_and Y) 2).
Local Abbreviation expr_ok := (sound_at (d_expr D) (g_expr Y) 3).

Lemma paren_sound fuel rem st :
  expr_ok fuel -> st_at (tok_lparen Y :: rem) st -> count st <= MAX_NODES ->
  (3 * length rem + 3 <= fuel)%nat ->
  returns (tok_lparen Y :: rem) st
    ((_ ← p_advance (tok_end Y); inner ← d_expr D fuel; t ← p_advance (tok_end Y);
      if bool_decide (t = tok_rparen Y) then mret inner else fail_null (lit "expected ')'")) st)
    (fun ts n k => g_not Y ts n /\ k = size n).
Proof using P.
  intros IHe H Hc Hf. apply returns_advance; [done|]. apply st_at_next in H.
  eapply returns_then; [apply IHe; [done..|lia]|].
  intros r st' ts rem' -> Ha Hc' Hm Hr. cbv beta. destruct rem' as [|t rem'].
  - rewrite (run_advance_end (tok_end Y) _ _ Ha). tokens. choose_branch. by apply returns_fail.
  - apply returns_advance; [done|]. apply st_at_next in Ha. case_bool_decide as Ht.
    + subst t. apply returns_ret; [done..|]. intros Hfl. destruct (Hr Hfl) as (n & -> & Hn).
      exists n. split; [done|]. intros n1 [= ->] [Hg Hk]. split; [by constructor|lia].
    + by apply returns_fail.
Qed.

Lemma not_sound fuel rem st :
  not_ok fuel -> st_at (tok_not Y :: rem) st -> count st <= MAX_NODES ->
  (3 * length rem + 1 <= fuel)%nat ->
  returns (tok_not Y :: rem) st
    ((_ ← p_advance (tok_end Y); operand ← d_not D fuel; mk_un (node_not Y) operand) st)
    (fun ts n k => g_not Y ts n /\ k = size n).
Proof using P.
  intros IHn H Hc Hf. apply returns_advance; [done|]. apply st_at_next in H.
  eapply returns_then; [apply IHn; [done..|lia]|].
  intros r st' ts rem' -> Ha Hc' Hm Hr. eapply returns_weaken; [by eapply returns_un|].
  intros ts2 n k (-> & -> & l0 & -> & ->) n1 [= ->] [Hg Hk]. rewrite app_nil_r.
  rewrite size_not. split; [by constructor|lia].
Qed.

Lemma not_ok_S fuel : not_ok fuel -> expr_ok fuel -> not_ok (S fuel).
Proof using P.
  intros IHn IHe rem st H Hc Hf. destruct (not_eq fuel) as (f & -> & Hq).
  rewrite (run_peek _ _ _ _ H), Hq. case_bool_decide as En.
  - destruct rem as [|t rem]; [by tokens|]. cbn [hd] in En. subst t. cbn [length] in Hf.
    apply not_sound; [done..|lia].
  - case_bool_decide as El.
    + destruct rem as [|t rem]; [by tokens|]. cbn [hd] in El. subst t. cbn [length] in Hf.
      apply paren_sound; [done..|lia].
    + eapply returns_weaken; [by apply prim_returns|]. intros ts n k [? ?]. split; [by constructor|done].
Qed.

(** [left = operand(p); loop] *)
Lemma level_ok (m : parser T (option N)) loop (operand G : list T -> N -> Prop) rest fuel rem st :
  returns rem st (m st) (fun ts n k => operand ts n /\ k = size n) ->
  loop_ok loop rest fuel -> (3 * length rem + 1 <= fuel)%nat ->
  (forall ts1 n1 ts2 n, operand ts1 n1 -> rest n1 ts2 n -> G (ts1 ++ ts2) n) ->
  returns rem st ((l ← m; loop fuel l) st) (fun ts n k => G ts n /\ k = size n).
Proof using.
  intros Hm IHl Hf HG. eapply returns_then; [exact Hm|].
  intros r st' ts rem' -> Ha Hc' Hm' Hr. rewrite length_app in Hf.
  eapply returns_weaken; [eapply (IHl (length rem')); [lia|done..]|].
  intros ts2 n k (l0 & -> & Hl & ->) n1 [= ->] [Hg Hk]. split; [by eapply HG|lia].
Qed.

Lemma and_ok_S fuel : not_ok fuel -> loop_ok (d_and_loop D) (and_rest Y) fuel -> and_ok (S fuel).
Proof using P.
  intros IHn IHl rem st H Hc Hf. rewrite and_eq.
  eapply level_ok; [apply IHn; [done..|lia]|exact IHl|lia|by econstructor].
Qed.

Lemma expr_ok_S fuel : and_ok fuel -> loop_ok (d_or_loop D) (or_rest Y) fuel -> expr_ok (S fuel).
Proof using P.
  intros IHa IHl rem st H Hc Hf. rewrite expr_eq.
  eapply level_ok; [apply IHa; [done..|lia]|exact IHl|lia|by econstructor].
Qed.

(** One turn of a loop: stop, or read the operator and one more operand. *)
Lemma loop_ok_S (loop : nat -> option N -> parser T (option N)) op node
    (m : nat -> parser T (option N)) (operand : list T -> N -> Prop) slack rest fuel :
  (slack <= 2)%nat -> op <> tok_end Y ->
  (forall left_, exists f, loop (S fuel) left_ = p_peek (tok_end Y) ≫= f /\ forall t, f t =
     if bool_decide (t = op) then
       _ ← p_advance (tok_end Y); right_ ← m fuel; d_join D node left_ right_ (loop fuel)
     else mret left_) ->
  (forall l r, size (node l r) = 1 + size l + size r) ->
  (forall n, rest n [] n) ->
  (forall l ts1 r ts2 n, operand ts1 r -> rest (node l r) ts2 n -> rest l (op :: ts1 ++ ts2) n) ->
  sound_at m operand slack fuel -> loop_ok loop rest fuel -> loop_ok loop rest (S fuel).
Proof using P.
  intros Hslack Hop Heq Hs Hend Hmore IHm IHl b Hb rem st l Gl Hlen H Hc Hl.
  destruct (Heq l) as (f & -> & Hf). rewrite (run_peek _ _ _ _ H), Hf. case_bool_decide as Et.
  2: { apply returns_ret; [done..|]. intros Hx. destruct (Hl Hx) as (l0 & -> & _).
       exists l0. split; [done|]. exists l0. split_and!; [done|apply Hend|lia]. }
  destruct rem as [|t rem]; [by cbn [hd] in Et|]. cbn [hd length] in *. subst t.
  apply returns_advance; [done|]. apply st_at_next in H.
  eapply returns_then; [apply IHm; [done..|lia]|].
  intros r st1 ts1 rem1 -> Ha1 Hc1 Hm1 Hr. rewrite length_app in Hlen.
  assert (non_null l st1 Gl) as Hl1 by (intros Hx; apply Hl; by eapply failing_mono).
  eapply returns_weaken; [eapply (join_returns _ size); [done|done|exact Hl1|exact Hr|apply IHl; lia]|].
  intros ts n k (l0 & r0 & -> & -> & Hrest & ->) n1 [= ->] [Hg Hk].
  exists l0. rewrite Hs. split_and!; [done|by eapply Hmore|lia].
Qed.

Lemma and_loop_ok_S fuel : not_ok fuel -> loop_ok (d_and_loop D) (and_rest Y) fuel ->
  loop_ok (d_and_loop D) (and_rest Y) (S fuel).
Proof using P.
  intros IHn IHl. eapply (loop_ok_S _ (tok_and Y) (node_and Y) _ _ 1 (and_rest Y));
    [lia|tokens; congruence|apply and_loop_eq|apply size_and|constructor|by econstructor|done..].
Qed.

Lemma or_loop_ok_S fuel : and_ok fuel -> loop_ok (d_or_loop D) (or_rest Y) fuel ->
  loop_ok (d_or_loop D) (or_rest Y) (S fuel).
Proof using P.
  intros IHn IHl. eapply (loop_ok_S _ (tok_or Y) (node_or Y) _ _ 2 (or_rest Y));
    [lia|tokens; congruence|apply or_loop_eq|apply size_or|constructor|by econstructor|done..].
Qed.

Lemma parse_sound fuel :
  not_ok fuel /\ and_ok fuel /\ loop_ok (d_and_loop D) (and_rest Y) fuel /\ expr_ok fuel /\
  loop_ok (d_or_loop D) (or_rest Y) fuel.
Proof using P.
  induction fuel as [|fuel (IHn & IHa & IHal & IHe & IHol)].
  - split_and!; intros ? *; lia.
  - split_and!; [by apply not_ok_S|by apply and_ok_S|by apply and_loop_ok_S|by apply expr_ok_S|
      by apply or_loop_ok_S].
Qed.

(** ** The whole parse *)

Section Whole.
Context (fuel : nat) (ts : list T) (err_ : option text) (err_len_ : Z).
Context (He : tok_end Y ∉ ts) (Hn : zlen ts < MAX_TOKENS) (Hfuel : (3 * length ts + 3 <= fuel)%nat).
Local Abbreviation st0 := (start (tok_end Y) ts (init_ctx err_ err_len_)).

Lemma parse_expr_total : exists r st, d_expr D fuel st0 = Ret (r, st).
Proof using P He Hn Hfuel.
  destruct (parse_sound fuel) as (_ & _ & _ & Hs & _).
  destruct (Hs ts _ (st_at_start _ ts err_ err_len_ He Hn) ltac:(done) Hfuel) as (r & st & _ & _ & E & _).
  eauto.
Qed.

Lemma parse_expr_iff r st : d_expr D fuel st0 = Ret (r, st) ->
  forall n, (failing st = false /\ p_peek (tok_end Y) st = Ret (tok_end Y, st) /\ r = Some n) <->
            (g_expr Y ts n /\ size n <= MAX_NODES).
Proof using P He Hn Hfuel.
  intros E. pose proof (st_at_start _ ts err_ err_len_ He Hn) as H.
  destruct (parse_sound fuel) as (_ & _ & _ & Hs & _).
  destruct (Hs ts _ H ltac:(done) Hfuel) as (r' & st' & ts1 & rem & E' & Et & Ha & Hc & _ & Hr).
  rewrite E in E'. injection E' as <- <-. intros n. split.
  - intros (Hfl & Hp & ->). destruct (Hr Hfl) as (n' & [= <-] & Hg & Hk).
    rewrite (peek_at _ _ _ Ha) in Hp. injection Hp as Hp.
    destruct rem as [|t rem]; [|destruct Ha as (? & _ & _ & Hx & _); cbn in Hp; subst t; exfalso;
      apply Hx, elem_of_cons; by left].
    rewrite app_nil_r in Et. subst ts1. cbn [start count] in Hk. split; [done|lia].
  - intros [Hg Hsz]. destruct parse_complete as (_ & _ & _ & Hcomp & _).
    assert (st_at (ts ++ []) st0) as H0 by (by rewrite app_nil_r).
    assert (is_and_or (hd (tok_end Y) []) = false) as Hstop
      by (unfold is_and_or; cbn [hd]; tokens; by choose_branch).
    rewrite (Hcomp ts n Hg fuel Hfuel _ _ H0 ltac:(done) ltac:(cbn; lia) Hstop) in E.
    injection E as <- <-. apply st_at_adv in H0. split_and!; [done|by rewrite (peek_at _ [])|done].
Qed.

(** A parse that returns NULL has reported an error. *)
Lemma parse_expr_null st : d_expr D fuel st0 = Ret (None, st) -> failing st = true.
Proof using P He Hn Hfuel.
  intros E. destruct (parse_sound fuel) as (_ & _ & _ & Hs & _).
  destruct (Hs ts _ (st_at_start _ ts err_ err_len_ He Hn) ltac:(done) Hfuel)
    as (r' & st' & ts1 & rem & E' & _ & _ & _ & _ & Hr).
  rewrite E in E'. injection E' as <- <-. destruct (failing st); [done|].
  by destruct (Hr eq_refl) as (n & [=] & _).
Qed.

(** Where it stops, without an error: at the end, or at a token that fits nowhere. *)
Lemma parse_expr_stops r st : d_expr D fuel st0 = Ret (r, st) -> failing st = false ->
  exists n ts1 rem, r = Some n /\ ts = ts1 ++ rem /\ st_at rem st /\ g_expr Y ts1 n.
Proof using P He Hn Hfuel.
  intros E Hf. destruct (parse_sound fuel) as (_ & _ & _ & Hs & _).
  destruct (Hs ts _ (st_at_start _ ts err_ err_len_ He Hn) ltac:(done) Hfuel)
    as (r' & st' & ts1 & rem & E' & Et & Ha & _ & _ & Hr).
  rewrite E in E'. injection E' as <- <-. destruct (Hr Hf) as (n & -> & Hg & _). eauto 8.
Qed.
End Whole.

(** ** What is reported *)

Lemma keeps_parse c0 fuel :
  keeps c0 (d_not D fuel) /\ keeps c0 (d_and D fuel) /\ (forall l, keeps c0 (d_and_loop D fuel l)) /\
  keeps c0 (d_expr D fuel) /\ (forall l, keeps c0 (d_or_loop D fuel l)).
Proof using P.
  induction fuel as [|fuel (IHn & IHa & IHal & IHe & IHol)].
  - destruct no_fuel as (-> & -> & Ha & -> & Ho).
    split_and!; intros; rewrite ?Ha, ?Ho; apply keeps_timeout.
  - split_and!.
    + destruct (not_eq fuel) as (f & -> & Hf). apply keeps_bind; [apply keeps_peek|]. intros t.
      rewrite Hf. pose proof (prim_keeps c0). keep.
    + rewrite and_eq. by apply keeps_bind.
    + intros l. destruct (and_loop_eq fuel l) as (f & -> & Hf). apply keeps_bind; [apply keeps_peek|].
      intros t. rewrite Hf. case_bool_decide; [|apply keeps_ret].
      do 2 (apply keeps_bind; [auto with keeps|intros ?]). by apply join_keeps.
    + rewrite expr_eq. by apply keeps_bind.
    + intros l. destruct (or_loop_eq fuel l) as (f & -> & Hf). apply keeps_bind; [apply keeps_peek|].
      intros t. rewrite Hf. case_bool_decide; [|apply keeps_ret].
      do 2 (apply keeps_bind; [auto with keeps|intros ?]). by apply join_keeps.
Qed.
End Descent.
