(* ===== verification/FrontEnd.v ===== *)
(** * Lexer and parser put together

    [capfilter_compile] and [dispfilter_compile] run the same front end: lex, parse, and
    complain about trailing tokens.  Against the interfaces [Lexer] and [BoolParser] it is
    shown here, once for both, what an expression denotes ([denotes]), that this tree is
    unique, and what the front end can do with any expression whatever. *)
From S2P Require Import Prelude Text Literals FilterCore Lexing BoolParser.
From stdpp Require Import options.

Local Open Scope Z_scope.

Section FrontEnd.
Context {T N : Type} `{!EqDecision T} (Y : syntax T N) (D : descent T N) {P : BoolParser Y D}.
Context (loop : nat -> ctx_t T -> text -> outcome (ctx_t T)) (tok_at : text -> T -> text -> Prop).
Context {L : Lexer (tok_end Y) loop tok_at}.
Context (fuel : nat).
Local Abbreviation lex c expr := (loop (S (length expr)) c expr).

(** [if (!ctx.failed && p_peek(&parser)->type != TOK_END) fail(...)] *)
Definition check_trailing (st : parser_t T) : outcome (ctx_t T) :=
  if failed (ctx st) then Ret (ctx st)
  else
    '(t, st) ← p_peek (tok_end Y) st;
    if bool_decide (t = tok_end Y) then Ret (ctx st)
    else Ret (fail (ctx st) (lit "unexpected trailing tokens in filter expression")).

(** The stages, with what becomes of an error and of a tree (and its node count). *)
Definition front_end {R} (rej : ctx_t T -> outcome R) (emit : ctx_t T -> option N -> Z -> outcome R)
    (c : ctx_t T) (expr : text) : outcome R :=
  c ← lex c expr;
  if failed c then rej c
  else
    '(root, st) ← d_expr D fuel {| ctx := c; count := 0 |};
    c ← check_trailing st;
    if failed c then rej c else emit c root (count st).

(** An expression and the tree it denotes. *)
Definition denotes (expr : text) (n : N) : Prop :=
  exists ts, lexes tok_at expr ts /\ zlen ts < MAX_TOKENS /\ g_expr Y ts n /\ node_size Y n <= MAX_NODES.

(** The tree, computed. *)
Definition denote (expr : text) : option N :=
  match lex (init_ctx None 0) expr with
  | Ret c =>
    match d_expr D fuel (start (tok_end Y) (removelast (toks c)) (init_ctx None 0)) with
    | Ret (Some n, st) =>
      if failing st then None
      else match p_peek (tok_end Y) st with
           | Ret (t, _) => if bool_decide (t = tok_end Y) then Some n else None
           | _ => None
           end
    | _ => None
    end
  | _ => None
  end.

Context (Hfuel : (3 * 255 + 3 <= fuel)%nat).

Lemma fuel_enough (ts : list T) : zlen ts < MAX_TOKENS -> (3 * length ts + 3 <= fuel)%nat.
Proof using Hfuel. unfold zlen, MAX_TOKENS. lia. Qed.

(** The tree an expression denotes is unique. *)
Lemma denotes_unique expr n1 n2 : denotes expr n1 -> denotes expr n2 -> n1 = n2.
Proof using P L Hfuel.
  intros (ts & Hl & Hn & Hg1 & Hs1) (ts' & Hl' & Hn' & Hg2 & Hs2).
  rewrite <- (lexes_unique (tok_end Y) loop tok_at expr ts ts') in Hg2 by done.
  pose proof (lexes_no_end (tok_end Y) loop tok_at _ _ Hl) as He. pose proof (fuel_enough ts Hn) as Hf.
  destruct (parse_expr_total Y D fuel ts None 0 He Hn Hf) as (r & st & E).
  pose proof (parse_expr_iff Y D fuel ts None 0 He Hn Hf r st E) as Hiff.
  destruct (proj2 (Hiff n1)) as (_ & _ & ->); [done|]. destruct (proj2 (Hiff n2)) as (_ & _ & H); [done|].
  by injection H.
Qed.

Lemma denote_spec expr ts n :
  lex (init_ctx None 0) expr = Ret (set_toks (ts ++ [tok_end Y]) (init_ctx None 0)) ->
  denote expr = Some n -> denotes expr n.
Proof using P L Hfuel.
  intros E. unfold denote. rewrite E. apply (lex_iff (tok_end Y) loop tok_at) in E as [Hl Hn].
  cbn [toks set_toks]. rewrite removelast_last.
  pose proof (lexes_no_end (tok_end Y) loop tok_at _ _ Hl) as He. pose proof (fuel_enough ts Hn) as Hf.
  destruct (parse_expr_total Y D fuel ts None 0 He Hn Hf) as (r & st & Ep). rewrite Ep.
  pose proof (parse_expr_iff Y D fuel ts None 0 He Hn Hf r st Ep n) as Hiff. destruct r as [n'|]; [|done].
  destruct (failing st) eqn:Hfl; [done|]. destruct (p_peek _ st) as [[t st']| |] eqn:Hp; [|done..].
  assert (st' = st) as -> by (unfold p_peek in Hp; by split_hyp Hp; simplify_eq).
  case_bool_decide as Ht; [|done]. subst t. intros [= ->]. exists ts.
  destruct (proj1 Hiff) as [? ?]; by split_and!.
Qed.

(** ** All outcomes *)

Section Outcomes.
Context {R : Type} (rej : ctx_t T -> outcome R) (emit : ctx_t T -> option N -> Z -> outcome R).
Context (expr : text) (err_ : option text) (err_len_ : Z).
Local Abbreviation c0 := (init_ctx err_ err_len_).
Local Abbreviation res := (front_end rej emit c0 expr).

(** An error is reported, and the expression denotes nothing. *)
Definition front_rejects : Prop :=
  exists c, res = rej c /\ reported c0 c /\ failed c = true /\ forall n, ~ denotes expr n.

(** A tree is handed on. *)
Definition front_emits : Prop :=
  exists c n, res = emit c (Some n) (node_size Y n) /\ reported c0 c /\ failed c = false /\
    denotes expr n.

Lemma front_tokens ts :
  lexes tok_at expr ts -> zlen ts < MAX_TOKENS ->
  res = ('(root, st) ← d_expr D fuel (start (tok_end Y) ts c0);
         c ← check_trailing st;
         if failed c then rej c else emit c root (count st)) ->
  front_rejects \/ front_emits.
Proof using P L Hfuel.
  intros Hl Hn E. pose proof (lexes_no_end (tok_end Y) loop tok_at _ _ Hl) as He.
  assert (forall n, denotes expr n <-> g_expr Y ts n /\ node_size Y n <= MAX_NODES) as Hden.
  { intros n. split; [|intros [? ?]; by exists ts]. intros (ts' & Hl' & Hn' & ? & ?).
    by rewrite (lexes_unique (tok_end Y) loop tok_at expr ts ts') by done. }
  destruct (parse_sound Y D fuel) as (_ & _ & _ & Hs & _). pose proof (fuel_enough ts Hn) as Hfu.
  pose proof (st_at_start (tok_end Y) ts err_ err_len_ He Hn) as Hat.
  destruct (Hs ts _ Hat ltac:(done) Hfu) as (r & st & ts1 & rem & Ep & Et & Ha & _ & _ & Hsome).
  pose proof (parse_expr_iff Y D fuel ts err_ err_len_ He Hn Hfu r st Ep) as Hiff.
  assert (reported c0 (ctx st)) as Hrep.
  { destruct (keeps_parse Y D c0 fuel) as (_ & _ & _ & Hk & _). eapply Hk; [|exact Ep]. done. }
  rewrite Ep in E. obind in E. unfold check_trailing in E. destruct (failing st) eqn:Hf.
  { obind in E. rewrite Hf in E. left. exists (ctx st). split_and!; try done.
    intros n [H _]%Hden%Hiff. congruence. }
  rewrite (peek_at _ _ _ Ha) in E. obind in E. case_bool_decide as Ht; obind in E.
  - rewrite Hf in E. destruct (Hsome eq_refl) as (n & -> & Hg & Hk). right.
    assert (p_peek (tok_end Y) st = Ret (tok_end Y, st)) as Hp by (rewrite (peek_at _ _ _ Ha); by rewrite Ht).
    cbn [start count] in Hk. rewrite Z.sub_0_r in Hk. rewrite Hk in E.
    exists (ctx st), n. split_and!; try done. by apply Hden, Hiff.
  - rewrite fail_failed in E. left. eexists. split; [exact E|].
    split_and!; [by apply reported_fail|apply fail_failed|].
    intros n (_ & Hp & _)%Hden%Hiff. rewrite (peek_at _ _ _ Ha) in Hp. by injection Hp as Hp.
Qed.

Lemma front_outcomes :
  front_rejects \/ front_emits \/
  (exists ts, lexes tok_at expr ts /\ zlen ts = MAX_TOKENS /\ res = UB).
Proof using P L Hfuel.
  destruct (lex_cases (tok_end Y) loop tok_at err_ err_len_ expr)
    as [(ts & Hl & Hn & E)|[(ts & Hl & Hn & E)|(ts & msg & E)]].
  - enough (front_rejects \/ front_emits) by tauto. eapply front_tokens; [exact Hl|exact Hn|].
    unfold front_end. rewrite E. obind. cbn [failed set_toks init_ctx]. unfold start. reflexivity.
  - right. right. exists ts. split_and!; [done..|]. unfold front_end. by rewrite E.
  - left. exists (fail (set_toks ts c0) msg). split_and!.
    + unfold front_end. rewrite E. obind. by rewrite fail_failed.
    + by apply reported_fail.
    + apply fail_failed.
    + intros n (ts' & Hl & Hn & _). apply (lex_accepts (tok_end Y) loop tok_at err_ err_len_) in Hl; [|done].
      rewrite E in Hl. by apply (f_equal (fun o => match o with Ret c => failed c | _ => true end)) in Hl.
Qed.

(** A sentence is always handed on. *)
Lemma front_complete n : denotes expr n ->
  exists c, res = emit c (Some n) (node_size Y n) /\ reported c0 c /\ failed c = false.
Proof using P L Hfuel.
  intros Hd. destruct front_outcomes as [(c & _ & _ & _ & Hno)|[(c & n' & E & Hr & Hf & Hd')|(ts & Hl & Hn & _)]].
  - by apply Hno in Hd.
  - exists c. by rewrite (denotes_unique expr n n' Hd Hd').
  - destruct Hd as (ts' & Hl' & Hn' & _).
    pose proof (lex_accepts (tok_end Y) loop tok_at None 0 expr ts' Hl' Hn') as E.
    by rewrite (lex_overflows (tok_end Y) loop tok_at None 0 expr ts Hl Hn) in E.
Qed.
End Outcomes.
End FrontEnd.
