(* ===== verification/CapLexer.v ===== *)
(** * The capture filter's lexer (src/src/c/capfilter.c, lines 8-261)

    [cf_lex], which turns an expression into at most [CF_MAX_TOKENS] tokens, and the
    lexical grammar it implements.  The context and its error reporting are in
    FilterCore. *)
From S2P Require Import Prelude Text Literals FilterCore Lexing.
From stdpp Require Import options.

Local Open Scope Z_scope.

Inductive token_t :=
| TOK_END
| TOK_LPAREN
| TOK_RPAREN
| TOK_SLASH
| TOK_AND
| TOK_OR
| TOK_NOT
| TOK_SRC
| TOK_DST
| TOK_HOST
| TOK_PORT
| TOK_NET
| TOK_PROTO_TCP
| TOK_PROTO_UDP
| TOK_PROTO_ICMP
| TOK_PROTO_IP
| TOK_PROTO_IP6
| TOK_PROTO_ARP
| TOK_NUMBER (num : Z)
| TOK_IPV4 (addr : list Z).

#[export] Instance token_eq_dec : EqDecision token_t.
Proof. solve_decision. Defined.

(** capfilter.c's names for what it shares with dispfilter.c. *)
Abbreviation CF_MAX_TOKENS := MAX_TOKENS.
Abbreviation cf_ctx_t := (ctx_t token_t).
Abbreviation cf_fail := fail.
Abbreviation cf_failf := failf.

(** ** Words *)

Definition KEYWORDS : list (text * token_t) :=
  [ (lit "and", TOK_AND); (lit "or", TOK_OR); (lit "not", TOK_NOT); (lit "src", TOK_SRC);
    (lit "dst", TOK_DST); (lit "host", TOK_HOST); (lit "port", TOK_PORT); (lit "net", TOK_NET);
    (lit "tcp", TOK_PROTO_TCP); (lit "udp", TOK_PROTO_UDP); (lit "icmp", TOK_PROTO_ICMP);
    (lit "ip", TOK_PROTO_IP); (lit "ip6", TOK_PROTO_IP6); (lit "arp", TOK_PROTO_ARP) ].

(** The linear search through the table. *)
Fixpoint keyword (table : list (text * token_t)) (word : text) : option token_t :=
  match table with
  | [] => None
  | (w, t) :: table => if bool_decide (word = w) then Some t else keyword table word
  end.

Definition is_num_char (c : ascii) : bool := is_digit c || bool_decide (c = "."%char).
Definition is_word_char (c : ascii) : bool :=
  is_alpha c || is_digit c || bool_decide (c = "_"%char).

(** [expr[i + 1] == ch], the text standing at [i + 1]. *)
Definition starts_with (ch : ascii) (s : text) : bool :=
  match s with c :: _ => bool_decide (c = ch) | [] => false end.

(** ** The lexer *)

(** The branch of a run of digits and dots: the token, or the error. *)
Definition number_token (word : text) : token_t + text :=
  match parse_ipv4_word word with
  | Some addr => inl (TOK_IPV4 addr)
  | None =>
    if negb (forallb (fun ch => negb (bool_decide (ch = "."%char))) word)
    then inr (lit "invalid IPv4 address")
    else
      let v := strtoul word in
      if 0xFFFFFFFF <? v then inr (lit "number out of range") else inl (TOK_NUMBER (u32 v))
  end.

Fixpoint cf_lex_loop (fuel : nat) (c : cf_ctx_t) (s : text) : outcome cf_ctx_t :=
  match fuel with
  | O => Timeout
  | S fuel =>
    match s with
    | [] =>
      if n_toks c <? CF_MAX_TOKENS then Ret (push_tok c TOK_END)
      else UB (* toks[CF_MAX_TOKENS] is outside the array *)
    | ch :: s1 =>
      if is_space ch then cf_lex_loop fuel c s1
      else if CF_MAX_TOKENS <=? n_toks c then
        Ret (cf_fail c (lit "filter expression has too many tokens"))
      else if bool_decide (ch = "("%char) then cf_lex_loop fuel (push_tok c TOK_LPAREN) s1
      else if bool_decide (ch = ")"%char) then cf_lex_loop fuel (push_tok c TOK_RPAREN) s1
      else if bool_decide (ch = "/"%char) then cf_lex_loop fuel (push_tok c TOK_SLASH) s1
      else if bool_decide (ch = "!"%char) then cf_lex_loop fuel (push_tok c TOK_NOT) s1
      else if bool_decide (ch = "&"%char) && starts_with "&" s1 then
        cf_lex_loop fuel (push_tok c TOK_AND) (drop 1 s1)
      else if bool_decide (ch = "|"%char) && starts_with "|" s1 then
        cf_lex_loop fuel (push_tok c TOK_OR) (drop 1 s1)
      else if is_digit ch then
        let '(word, rest) := span is_num_char s in
        match number_token word with
        | inl t => cf_lex_loop fuel (push_tok c t) rest
        | inr msg => Ret (cf_fail c msg)
        end
      else if is_alpha ch then
        let '(word, rest) := span is_word_char s in
        match keyword KEYWORDS word with
        | Some t => cf_lex_loop fuel (push_tok c t) rest
        | None => Ret (cf_failf c (lit "unknown keyword '") (lit "'") (take 63 word))
        end
      else Ret (cf_fail c (lit "unexpected character in filter expression"))
    end
  end.

Definition cf_lex (c : cf_ctx_t) (expr : text) : outcome cf_ctx_t :=
  cf_lex_loop (S (length expr)) c expr.

Example lex_sample :
  cf_lex (init_ctx None 0) (lit "!tcp && src net 10.0.0.0/8") =
  Ret (set_toks [TOK_NOT; TOK_PROTO_TCP; TOK_AND; TOK_SRC; TOK_NET; TOK_IPV4 [10; 0; 0; 0];
                 TOK_SLASH; TOK_NUMBER 8; TOK_END] (init_ctx None 0)).
Proof. vm_compute. reflexivity. Qed.
Example lex_error :
  cf_lex (init_ctx (Some []) 20) (lit "ip or 300.1.1.1") =
  Ret {| toks := [TOK_PROTO_IP; TOK_OR]; pos := 0; err := Some (lit "invalid IPv4 addres");
         err_len := 20; failed := true |}.
Proof. vm_compute. reflexivity. Qed.

(** ** Specification: what the lexemes are *)

(** A token's spelling.  Numbers and addresses are runs of digits and dots;
    everything alphabetic is a keyword. *)
Inductive lexeme : text -> token_t -> Prop :=
| lx_lparen : lexeme ["("%char] TOK_LPAREN
| lx_rparen : lexeme [")"%char] TOK_RPAREN
| lx_slash : lexeme ["/"%char] TOK_SLASH
| lx_not : lexeme ["!"%char] TOK_NOT
| lx_and : lexeme (lit "&&") TOK_AND
| lx_or : lexeme (lit "||") TOK_OR
| lx_keyword w t : (w, t) ∈ KEYWORDS -> lexeme w t
| lx_number w : w <> [] -> forallb is_digit w = true -> dec_value w < 2 ^ 32 ->
    lexeme w (TOK_NUMBER (dec_value w))
| lx_ipv4 w a : parse_ipv4_word w = Some a -> lexeme w (TOK_IPV4 a).

(** The longest-match rule: a word or a number ends where the next character
    cannot continue it. *)
Definition boundary (w s : text) : Prop :=
  match w, s with
  | c :: _, d :: _ =>
    if is_digit c then is_num_char d = false
    else if is_alpha c then is_word_char d = false else True
  | _, _ => True
  end.

Definition tok_at (w : text) (t : token_t) (s : text) : Prop := lexeme w t /\ boundary w s.
Abbreviation lexes := (Lexing.lexes tok_at).

(** ** Lemmas *)

Lemma keyword_sound table w t : keyword table w = Some t -> (w, t) ∈ table.
Proof.
  induction table as [|[w' t'] table IH]; cbn [keyword]; intros H; [done|].
  case_bool_decide; simplify_eq; apply elem_of_cons; auto.
Qed.

(** The table has no duplicates, and its words are words. *)
Definition keyword_ok (e : text * token_t) : bool :=
  bool_decide (keyword KEYWORDS (fst e) = Some (snd e)) && forallb is_word_char (fst e) &&
  match fst e with c :: _ => is_alpha c | [] => false end.

Lemma keywords_ok : forallb keyword_ok KEYWORDS = true.
Proof. vm_compute. reflexivity. Qed.

Lemma keyword_complete w t : (w, t) ∈ KEYWORDS ->
  keyword KEYWORDS w = Some t /\ forallb is_word_char w = true /\
  exists c w', w = c :: w' /\ is_alpha c = true.
Proof.
  intros Hin%list_elem_of_In. pose proof keywords_ok as H. rewrite forallb_forall in H.
  specialize (H _ Hin). unfold keyword_ok in H. cbn [fst snd] in H.
  apply andb_true_iff in H as [[H1%bool_decide_eq_true H2]%andb_true_iff H3].
  split_and!; [done..|]. destruct w; [done|eauto].
Qed.

Lemma num_char_all w : forallb is_digit w = true -> forallb is_num_char w = true.
Proof.
  rewrite !forallb_forall. intros H c Hc. unfold is_num_char. by rewrite H.
Qed.

Lemma digit_is_num c : is_digit c = true -> is_num_char c = true.
Proof. unfold is_num_char. by intros ->. Qed.

(** An address is a run of digits and dots that starts with a digit. *)
Lemma ipv4_word_shape w a : parse_ipv4_word w = Some a ->
  forallb is_num_char w = true /\ exists c w', w = c :: w' /\ is_digit c = true.
Proof.
  intros (ws & L & Hw & -> & _)%parse_ipv4_word_iff. split.
  - clear L. induction ws as [|w ws IH]; [done|]. apply Forall_cons in Hw as [(Hne & Hd & _) Hw].
    apply num_char_all in Hd. destruct ws as [|w' ws]; [done|].
    rewrite join_cons, forallb_app, Hd. cbn [forallb andb]. by apply IH.
  - destruct ws as [|w ws]; [done|]. apply Forall_cons in Hw as [(Hne & Hd & _) Hw].
    destruct w as [|c w]; [done|]. cbn [forallb] in Hd. apply andb_true_iff in Hd as [Hc _].
    destruct ws as [|w' ws]; cbn; eauto.
Qed.

Lemma digits_no_dot w : forallb is_digit w = true ->
  forallb (fun ch => negb (bool_decide (ch = "."%char))) w = true.
Proof. rewrite !forallb_forall. intros H c Hc. by rewrite digit_not_dot by auto. Qed.

Lemma num_no_dot w : forallb is_num_char w = true ->
  forallb (fun ch => negb (bool_decide (ch = "."%char))) w = true -> forallb is_digit w = true.
Proof.
  rewrite !forallb_forall. intros H1 H2 c Hc. specialize (H1 c Hc). specialize (H2 c Hc).
  unfold is_num_char in H1. destruct (is_digit c); [done|]. cbn in H1. by rewrite H1 in H2.
Qed.

(** [number_token] recognises exactly the numeric lexemes. *)
Lemma number_token_lexeme w t :
  w <> [] -> forallb is_num_char w = true -> number_token w = inl t -> lexeme w t.
Proof.
  intros Hne Hw. unfold number_token. destruct (parse_ipv4_word w) as [a|] eqn:E.
  - intros [= <-]. by apply lx_ipv4.
  - destruct (forallb (fun ch => negb (bool_decide (ch = "."%char))) w) eqn:Hd; [|done]. apply (num_no_dot w Hw) in Hd.
    pose proof (dec_value_nonneg w Hd). unfold strtoul. cbn [negb]. zcase; [done|]. intros [= <-].
    rewrite Z.min_l by lia. rewrite u32_small by lia. apply lx_number; [done..|lia].
Qed.

Lemma number_token_number w :
  forallb is_digit w = true -> dec_value w < 2 ^ 32 ->
  number_token w = inl (TOK_NUMBER (dec_value w)).
Proof.
  intros Hd Hv. pose proof (dec_value_nonneg w Hd). unfold number_token.
  rewrite digits_not_ipv4, digits_no_dot by done. cbn [negb]. unfold strtoul.
  rewrite Z.min_l by lia. zcase. by rewrite u32_small by lia.
Qed.

Lemma number_token_ipv4 w a : parse_ipv4_word w = Some a -> number_token w = inl (TOK_IPV4 a).
Proof. unfold number_token. by intros ->. Qed.

(** Letters and digits start no other branch of the loop. *)
Lemma isalnum_plain c : isalnum c = true ->
  is_space c = false /\
  forallb (fun d => negb (bool_decide (c = d))) ["("; ")"; "/"; "!"; "&"; "|"]%char = true.
Proof.
  intros H. split.
  - unfold is_space. apply bool_decide_eq_false_2. by intros [->|[->|[->| ->]]].
  - apply forallb_forall. intros d Hd. destruct (bool_decide_reflect (c = d)); [|done].
    subst. repeat destruct Hd as [<-|Hd]; done.
Qed.

Lemma alpha_not_digit c : is_alpha c = true -> is_digit c = false.
Proof.
  intros H. destruct (is_digit c) eqn:Hd; [|done]. exfalso.
  apply in_range_spec in Hd. apply orb_true_iff in H as [H|H]; apply in_range_spec in H.
  - change (code_of "a") with 97 in H. change (code_of "9") with 57 in Hd. lia.
  - change (code_of "A") with 65 in H. change (code_of "9") with 57 in Hd. lia.
Qed.

(** Runs the loop past the single-character tests for a letter or a digit. *)
Ltac plain_char H :=
  let Hs := fresh in let Hf := fresh in
  destruct (isalnum_plain _ H) as [Hs Hf]; cbn [forallb] in Hf;
  rewrite !andb_true_iff, !negb_true_iff in Hf; destruct_and! Hf;
  repeat match goal with E : bool_decide _ = false |- _ => rewrite E; clear E end;
  rewrite Hs; clear Hs.

(** One turn of the loop on a lexeme. *)
Lemma loop_tok w t s fuel c :
  lexeme w t -> boundary w s -> n_toks c < CF_MAX_TOKENS ->
  cf_lex_loop (S fuel) c (w ++ s) = cf_lex_loop fuel (push_tok c t) s.
Proof.
  intros Hl Hb Hn. assert ((CF_MAX_TOKENS <=? n_toks c) = false) as Hn' by lia.
  assert (forall w a, number_token w = inl a -> forallb is_num_char w = true ->
    boundary w s -> (exists d w', w = d :: w' /\ is_digit d = true) ->
    cf_lex_loop (S fuel) c (w ++ s) = cf_lex_loop fuel (push_tok c a) s) as Hnum.
  { clear - Hn'. intros w a Ha Hw Hb (d & w' & -> & Hd). cbn [cf_lex_loop app].
    assert (isalnum d = true) as H by (unfold isalnum; by rewrite Hd, orb_true_r).
    plain_char H. rewrite Hn', Hd. cbn [andb].
    change (d :: w' ++ s) with ((d :: w') ++ s). rewrite span_app; [|done|].
    - by rewrite Ha.
    - cbn [boundary] in Hb. destruct s; [done|]. by rewrite Hd in Hb. }
  destruct Hl as [| | | | | |w t Hk|w Hne Hd Hv|w a Ha];
    try (cbn [cf_lex_loop app lit String.list_ascii_of_string]; by rewrite Hn').
  - apply keyword_complete in Hk as (Hk & Hw & d & w' & -> & Hd). cbn [cf_lex_loop app].
    assert (isalnum d = true) as H by (unfold isalnum; by rewrite Hd).
    plain_char H. rewrite Hn', (alpha_not_digit d Hd), Hd. cbn [andb].
    change (d :: w' ++ s) with ((d :: w') ++ s). rewrite span_app; [|done|].
    + by rewrite Hk.
    + cbn [boundary] in Hb. destruct s; [done|]. by rewrite (alpha_not_digit d Hd), Hd in Hb.
  - apply Hnum; [by apply number_token_number|by apply num_char_all|done|].
    destruct w as [|d w]; [done|]. cbn [forallb] in Hd. apply andb_true_iff in Hd as [Hd _].
    eauto.
  - destruct (ipv4_word_shape w a Ha) as [Hw Hex].
    apply Hnum; [by apply number_token_ipv4|done..].
Qed.

(** Any other turn either finds a lexeme or reports an error. *)
Lemma loop_cases fuel c ch s :
  is_space ch = false -> n_toks c < CF_MAX_TOKENS ->
  (exists w t s', ch :: s = w ++ s' /\ tok_at w t s') \/
  (exists msg, cf_lex_loop (S fuel) c (ch :: s) = Ret (cf_fail c msg)).
Proof.
  intros Hs Hn. assert ((CF_MAX_TOKENS <=? n_toks c) = false) as Hn' by lia.
  cbn [cf_lex_loop]. rewrite Hs, Hn'.
  repeat (case_bool_decide; [subst ch|]; cbn [andb]).
  1-4: left; eexists [_], _, s; split; [reflexivity|]; split; [constructor|by destruct s].
  1-2: destruct s as [|d s]; [right; vm_compute is_digit; eauto|]; cbn [starts_with].
  - case_bool_decide; [subst|right; vm_compute is_digit; eauto].
    left. exists (lit "&&"), TOK_AND, s. split; [done|]. split; [constructor|by destruct s].
  - case_bool_decide; [subst|right; vm_compute is_digit; eauto].
    left. exists (lit "||"), TOK_OR, s. split; [done|]. split; [constructor|by destruct s].
  - destruct (is_digit ch) eqn:Hd; [|destruct (is_alpha ch) eqn:Ha; [|eauto]].
    + destruct (span is_num_char (ch :: s)) as [w r] eqn:E.
      apply span_boundary in E as (-> & [w' ->] & Hw & Hr); [|by apply digit_is_num].
      destruct (number_token _) as [t|msg] eqn:Ht; [left|eauto].
      exists (ch :: w'), t, r. split; [done|]. split; [by apply number_token_lexeme|].
      cbn [boundary]. rewrite Hd. by destruct r.
    + destruct (span is_word_char (ch :: s)) as [w r] eqn:E.
      apply span_boundary in E as (-> & [w' ->] & Hw & Hr); [|unfold is_word_char; by rewrite Ha].
      destruct (keyword KEYWORDS _) as [t|] eqn:Ht; [left|right; by eexists].
      exists (ch :: w'), t, r. split; [done|]. split; [by apply lx_keyword, keyword_sound|].
      cbn [boundary]. rewrite Hd, Ha. by destruct r.
Qed.

Lemma lexeme_nonempty w t : lexeme w t -> w <> [].
Proof.
  destruct 1 as [| | | | | |w t Hk|w Hne Hd Hv|w a Ha]; try done.
  - by apply keyword_complete in Hk as (_ & _ & ? & ? & -> & _).
  - by apply ipv4_word_shape in Ha as (_ & ? & ? & -> & _).
Qed.

Lemma lexeme_not_space ch w t : lexeme (ch :: w) t -> is_space ch = false.
Proof.
  assert (forall d, isalnum d = true -> is_space d = false) as Ha
    by (intros d Hd; apply (isalnum_plain d Hd)).
  unfold isalnum in Ha. inversion 1 as [| | | | | |w' t' Hk|w' Hne Hd Hv|w' a Hp]; subst; try done.
  - apply keyword_complete in Hk as (_ & _ & d & w' & [= -> ->] & Hd).
    apply Ha. by rewrite Hd.
  - cbn [forallb] in Hd. apply andb_true_iff in Hd as [Hd _]. apply Ha. by rewrite Hd, orb_true_r.
  - apply ipv4_word_shape in Hp as (_ & d & w' & [= -> ->] & Hd). apply Ha. by rewrite Hd, orb_true_r.
Qed.

Lemma lexeme_not_end w t : lexeme w t -> t <> TOK_END.
Proof.
  destruct 1 as [| | | | | |w t Hk| |]; try done. intros ->.
  apply list_elem_of_In in Hk. cbn in Hk. repeat destruct Hk as [Hk|Hk]; done.
Qed.

#[export] Instance cf_lexer : Lexer TOK_END cf_lex_loop tok_at.
Proof.
  split.
  - done.
  - intros fuel c ch s Hs. cbn [cf_lex_loop]. by rewrite Hs.
  - intros fuel c ch s Hs Hn. cbn [cf_lex_loop]. rewrite Hs. by zcase.
  - intros fuel c w t s [Hl Hb] Hn. by apply loop_tok.
  - intros. by apply loop_cases.
  - intros w t s [Hl _]. pose proof (lexeme_nonempty w t Hl). destruct w as [|ch w]; [done|].
    exists ch, w. split; [done|]. by eapply lexeme_not_space.
  - intros w t s [Hl _]. by eapply lexeme_not_end.
Qed.

(** ** Spelling tokens *)

(** The values a token can carry. *)
Definition token_ok (t : token_t) : Prop :=
  match t with
  | TOK_END => False
  | TOK_NUMBER n => 0 <= n < 2 ^ 32
  | TOK_IPV4 a => length a = 4%nat /\ is_bytes a
  | _ => True
  end.

#[export] Instance token_ok_dec t : Decision (token_ok t).
Proof. destruct t; cbn; apply _. Defined.

Definition spell (t : token_t) : text :=
  match t with
  | TOK_END => []
  | TOK_LPAREN => lit "("
  | TOK_RPAREN => lit ")"
  | TOK_SLASH => lit "/"
  | TOK_AND => lit "and"
  | TOK_OR => lit "or"
  | TOK_NOT => lit "not"
  | TOK_SRC => lit "src"
  | TOK_DST => lit "dst"
  | TOK_HOST => lit "host"
  | TOK_PORT => lit "port"
  | TOK_NET => lit "net"
  | TOK_PROTO_TCP => lit "tcp"
  | TOK_PROTO_UDP => lit "udp"
  | TOK_PROTO_ICMP => lit "icmp"
  | TOK_PROTO_IP => lit "ip"
  | TOK_PROTO_IP6 => lit "ip6"
  | TOK_PROTO_ARP => lit "arp"
  | TOK_NUMBER n => num_text 10 n
  | TOK_IPV4 a => ip_addr_to_str a
  end.

Definition spell_all (ts : list token_t) : text :=
  concat (map (fun t => spell t ++ [" "%char]) ts).

Lemma spell_lexeme t : token_ok t -> lexeme (spell t) t.
Proof.
  destruct t; cbn [token_ok spell]; intros Ht; try done;
    try (constructor; fail); try (by apply lx_keyword, keyword_sound).
  - destruct (dec_text_spec num ltac:(lia)) as (Hne & Hd & Hv & _).
    rewrite <- Hv at 2. apply lx_number; [done..|lia].
  - apply lx_ipv4. destruct Ht. by apply ipv4_roundtrip.
Qed.

Lemma boundary_space w s : boundary w (" "%char :: s).
Proof. destruct w as [|c w]; [done|]. cbn [boundary]. by destruct (is_digit c), (is_alpha c). Qed.

Lemma lexes_spell_all ts : Forall token_ok ts -> lexes (spell_all ts) ts.
Proof.
  induction 1 as [|t ts Ht Hts IH]; [constructor|]. unfold spell_all. cbn [map concat].
  rewrite <- app_assoc. constructor; [split; [by apply spell_lexeme|apply boundary_space]|].
  by constructor.
Qed.

(** ** Properties *)

(** C24: the lexer accepts an expression, with the token sequence [ts], exactly when the
    expression is a sequence of lexemes of [ts] (blanks ignored, longest match) and there
    are fewer than [CF_MAX_TOKENS] of them; it then appends [TOK_END] and leaves the rest
    of the context alone. *)
Theorem cf_lex_exact err err_len expr ts :
  cf_lex (init_ctx err err_len) expr = Ret (set_toks (ts ++ [TOK_END]) (init_ctx err err_len)) <->
  lexes expr ts /\ zlen ts < CF_MAX_TOKENS.
Proof. apply (lex_iff TOK_END cf_lex_loop tok_at). Qed.

(** an expression of exactly [CF_MAX_TOKENS] tokens makes the lexer write the end
    marker one entry past its token array. *)
Theorem cf_lex_overflow err err_len expr ts :
  lexes expr ts -> zlen ts = CF_MAX_TOKENS -> cf_lex (init_ctx err err_len) expr = UB.
Proof. apply (lex_overflows TOK_END cf_lex_loop tok_at). Qed.

Lemma lexes_parens n : lexes (replicate n "("%char) (replicate n TOK_LPAREN).
Proof.
  induction n as [|n IH]; [constructor|].
  apply (lexes_tok _ ["("%char]); [split; [constructor|by destruct n]|done].
Qed.

Lemma cf_lex_overflow_witness :
  cf_lex (init_ctx None 0) (replicate 256 "("%char) = UB.
Proof. apply (cf_lex_overflow _ _ _ (replicate 256 TOK_LPAREN) (lexes_parens 256)). reflexivity. Defined.
