(* ===== verification/CapParser.v ===== *)
(** * The capture filter's parser (src/src/c/capfilter.c, lines 263-544)

    The AST with its bounded arena, and the recursive-descent parser.  The
    parser keeps going after an error ([failed] makes every later allocation
    return NULL), so its model is a state monad in which errors are state. *)
From S2P Require Import Prelude Text Literals FilterCore BoolParser CapLexer.
From stdpp Require Import options.

Local Open Scope Z_scope.

(** ** The AST *)

Abbreviation CF_MAX_NODES := MAX_NODES.
Definition ETHERTYPE_IPV4 : Z := 0x0800.
Definition ETHERTYPE_IPV6 : Z := 0x86DD.
Definition ETHERTYPE_ARP : Z := 0x0806.
Definition IPPROTO_ICMP_ : Z := 1.
Definition IPPROTO_TCP_ : Z := 6.
Definition IPPROTO_UDP_ : Z := 17.

Inductive dir_t := DIR_SRC | DIR_DST.

Inductive node_t :=
| N_AND (left_ right_ : node_t)
| N_OR (left_ right_ : node_t)
| N_NOT (left_ : node_t)
| N_ETHERTYPE (k : Z)
| N_IPPROTO (k : Z)
| N_HOST (dir : dir_t) (addr : list Z)
| N_PORT (dir : dir_t) (k : Z)
| N_NET (dir : dir_t) (addr : list Z) (prefix_len : Z).

#[export] Instance dir_eq_dec : EqDecision dir_t.
Proof. solve_decision. Defined.
#[export] Instance node_eq_dec : EqDecision node_t.
Proof. solve_decision. Defined.

(** ** Node constructors *)

Abbreviation cparser := (parser token_t).
Abbreviation p_peek := (FilterCore.p_peek TOK_END).
Abbreviation p_advance := (FilterCore.p_advance TOK_END).

Definition mk_and : option node_t -> option node_t -> cparser (option node_t) := mk_bin N_AND.
Definition mk_or : option node_t -> option node_t -> cparser (option node_t) := mk_bin N_OR.
Definition mk_not : option node_t -> cparser (option node_t) := mk_un N_NOT.

Definition mk_ethertype (k : Z) : cparser (option node_t) := mk_leaf (N_ETHERTYPE k).
Definition mk_ipproto (k : Z) : cparser (option node_t) := mk_leaf (N_IPPROTO k).
Definition mk_host (d : dir_t) (a : list Z) : cparser (option node_t) := mk_leaf (N_HOST d a).
Definition mk_port (d : dir_t) (k : Z) : cparser (option node_t) := mk_leaf (N_PORT d k).
Definition mk_net (d : dir_t) (a : list Z) (p : Z) : cparser (option node_t) :=
  mk_leaf (N_NET d a p).

Definition mk_l4_proto (ip_proto : Z) : cparser (option node_t) :=
  e ← mk_ethertype ETHERTYPE_IPV4; p ← mk_ipproto ip_proto; mk_and e p.

(** [has_dir ? mk(dir) : mk_or(mk(DIR_SRC), mk(DIR_DST))] *)
Definition mk_dir (dir : option dir_t) (mk : dir_t -> cparser (option node_t))
    : cparser (option node_t) :=
  match dir with
  | Some d => mk d
  | None => s ← mk DIR_SRC; d ← mk DIR_DST; mk_or s d
  end.

(** ** Primitives *)

Definition parse_dir : cparser (option dir_t) :=
  t ← p_peek;
  match t with
  | TOK_SRC => _ ← p_advance; mret (Some DIR_SRC)
  | TOK_DST => _ ← p_advance; mret (Some DIR_DST)
  | _ => mret None
  end.

Definition parse_host (dir : option dir_t) : cparser (option node_t) :=
  _ ← p_advance;
  addr_tok ← p_advance;
  match addr_tok with
  | TOK_IPV4 addr =>
    ip ← mk_ethertype ETHERTYPE_IPV4;
    host ← mk_dir dir (fun d => mk_host d addr);
    mk_and ip host
  | _ => fail_null (lit "expected an IPv4 address after 'host'")
  end.

Definition port_error : text := lit "expected a port number (0-65535) after 'port'".
Definition parse_port (dir : option dir_t) : cparser (option node_t) :=
  _ ← p_advance;
  num_tok ← p_advance;
  match num_tok with
  | TOK_NUMBER num =>
    if 65535 <? num then fail_null port_error
    else
      ip ← mk_ethertype ETHERTYPE_IPV4;
      r ← (is_tcp_or_udp ← (t ← mk_ipproto IPPROTO_TCP_; u ← mk_ipproto IPPROTO_UDP_; mk_or t u);
           port ← mk_dir dir (fun d => mk_port d num);
           mk_and is_tcp_or_udp port);
      mk_and ip r
  | _ => fail_null port_error
  end.

Definition prefix_error : text := lit "expected a prefix length (0-32) after 'net A.B.C.D/'".
Definition parse_net (dir : option dir_t) : cparser (option node_t) :=
  _ ← p_advance;
  addr_tok ← p_advance;
  match addr_tok with
  | TOK_IPV4 addr =>
    slash ← p_advance;
    if negb (bool_decide (slash = TOK_SLASH))
    then fail_null (lit "expected '/' and a prefix length after 'net A.B.C.D'")
    else
      len_tok ← p_advance;
      match len_tok with
      | TOK_NUMBER num =>
        if 32 <? num then fail_null prefix_error
        else
          ip ← mk_ethertype ETHERTYPE_IPV4;
          net ← mk_dir dir (fun d => mk_net d addr (u8 num));
          mk_and ip net
      | _ => fail_null prefix_error
      end
  | _ => fail_null (lit "expected an IPv4 network address after 'net'")
  end.

Definition parse_primitive : cparser (option node_t) :=
  dir ← parse_dir;
  t ← p_peek;
  if bool_decide (dir <> None /\ t <> TOK_HOST /\ t <> TOK_PORT /\ t <> TOK_NET)
  then fail_null (lit "expected 'host', 'port' or 'net' after 'src'/'dst'")
  else
    match t with
    | TOK_PROTO_TCP => _ ← p_advance; mk_l4_proto IPPROTO_TCP_
    | TOK_PROTO_UDP => _ ← p_advance; mk_l4_proto IPPROTO_UDP_
    | TOK_PROTO_ICMP => _ ← p_advance; mk_l4_proto IPPROTO_ICMP_
    | TOK_PROTO_IP => _ ← p_advance; mk_ethertype ETHERTYPE_IPV4
    | TOK_PROTO_IP6 => _ ← p_advance; mk_ethertype ETHERTYPE_IPV6
    | TOK_PROTO_ARP => _ ← p_advance; mk_ethertype ETHERTYPE_ARP
    | TOK_HOST => parse_host dir
    | TOK_PORT => parse_port dir
    | TOK_NET => parse_net dir
    | _ => fail_null (lit "expected a filter primitive (tcp/udp/icmp/ip/ip6/arp/host/port/net)")
    end.

(** ** Expressions *)

Fixpoint parse_not (fuel : nat) : cparser (option node_t) :=
  match fuel with
  | O => timeout
  | S fuel =>
    t ← p_peek;
    match t with
    | TOK_NOT => _ ← p_advance; operand ← parse_not fuel; mk_not operand
    | TOK_LPAREN =>
      _ ← p_advance;
      inner ← parse_expr fuel;
      t ← p_advance;
      if bool_decide (t = TOK_RPAREN) then mret inner else fail_null (lit "expected ')'")
    | _ => parse_primitive
    end
  end
with parse_and (fuel : nat) : cparser (option node_t) :=
  match fuel with
  | O => timeout
  | S fuel => left_ ← parse_not fuel; and_loop fuel left_
  end
with and_loop (fuel : nat) (left_ : option node_t) : cparser (option node_t) :=
  match fuel with
  | O => timeout
  | S fuel =>
    t ← p_peek;
    match t with
    | TOK_AND =>
      _ ← p_advance;
      right_ ← parse_not fuel;
      left_ ← mk_and left_ right_;
      and_loop fuel left_
    | _ => mret left_
    end
  end
with parse_expr (fuel : nat) : cparser (option node_t) :=
  match fuel with
  | O => timeout
  | S fuel => left_ ← parse_and fuel; or_loop fuel left_
  end
with or_loop (fuel : nat) (left_ : option node_t) : cparser (option node_t) :=
  match fuel with
  | O => timeout
  | S fuel =>
    t ← p_peek;
    match t with
    | TOK_OR =>
      _ ← p_advance;
      right_ ← parse_and fuel;
      left_ ← mk_or left_ right_;
      or_loop fuel left_
    | _ => mret left_
    end
  end.

(** Three calls per token are enough (see [parse_expr_total]). *)
Definition parse_fuel : nat := 800.

Definition run_parse (ts : list token_t) : outcome (option node_t * parser_t token_t) :=
  parse_expr parse_fuel
    {| ctx := set_toks (ts ++ [TOK_END]) (init_ctx (Some []) 100); count := 0 |}.
Definition run_result (ts : list token_t) : outcome (option node_t * option text * Z) :=
  '(n, st) ← run_parse ts; Ret (n, err (ctx st), count st).

Example parse_sample :
  run_result [TOK_NOT; TOK_PROTO_ARP; TOK_OR; TOK_SRC; TOK_NET; TOK_IPV4 [10; 0; 0; 0]; TOK_SLASH;
              TOK_NUMBER 8; TOK_AND; TOK_PROTO_IP] =
  Ret (Some (N_OR (N_NOT (N_ETHERTYPE 0x0806))
               (N_AND (N_AND (N_ETHERTYPE 0x0800) (N_NET DIR_SRC [10; 0; 0; 0] 8))
                  (N_ETHERTYPE 0x0800))), Some [], 8).
Proof. vm_compute. reflexivity. Qed.
Example parse_error :
  run_result [TOK_LPAREN; TOK_PROTO_ARP; TOK_AND; TOK_AND; TOK_PROTO_IP] =
  Ret (None, Some (lit "expected a filter primitive (tcp/udp/icmp/ip/ip6/arp/host/port/net)"), 1).
Proof. vm_compute. reflexivity. Qed.

(** ** Specification: the grammar of capfilter.h *)

Definition l4_proto (p : Z) : node_t := N_AND (N_ETHERTYPE ETHERTYPE_IPV4) (N_IPPROTO p).

(** An optional direction: its tokens, and its meaning ("either" when absent). *)
Definition dir_toks (dir : option dir_t) : list token_t :=
  match dir with Some DIR_SRC => [TOK_SRC] | Some DIR_DST => [TOK_DST] | None => [] end.
Definition dir_node (dir : option dir_t) (mk : dir_t -> node_t) : node_t :=
  match dir with Some d => mk d | None => N_OR (mk DIR_SRC) (mk DIR_DST) end.

Definition host_node (dir : option dir_t) (a : list Z) : node_t :=
  N_AND (N_ETHERTYPE ETHERTYPE_IPV4) (dir_node dir (fun d => N_HOST d a)).
Definition port_node (dir : option dir_t) (k : Z) : node_t :=
  N_AND (N_ETHERTYPE ETHERTYPE_IPV4)
    (N_AND (N_OR (N_IPPROTO IPPROTO_TCP_) (N_IPPROTO IPPROTO_UDP_))
       (dir_node dir (fun d => N_PORT d k))).
Definition net_node (dir : option dir_t) (a : list Z) (len : Z) : node_t :=
  N_AND (N_ETHERTYPE ETHERTYPE_IPV4) (dir_node dir (fun d => N_NET d a len)).

Inductive g_prim : list token_t -> node_t -> Prop :=
| gp_tcp : g_prim [TOK_PROTO_TCP] (l4_proto IPPROTO_TCP_)
| gp_udp : g_prim [TOK_PROTO_UDP] (l4_proto IPPROTO_UDP_)
| gp_icmp : g_prim [TOK_PROTO_ICMP] (l4_proto IPPROTO_ICMP_)
| gp_ip : g_prim [TOK_PROTO_IP] (N_ETHERTYPE ETHERTYPE_IPV4)
| gp_ip6 : g_prim [TOK_PROTO_IP6] (N_ETHERTYPE ETHERTYPE_IPV6)
| gp_arp : g_prim [TOK_PROTO_ARP] (N_ETHERTYPE ETHERTYPE_ARP)
| gp_host dir a : g_prim (dir_toks dir ++ [TOK_HOST; TOK_IPV4 a]) (host_node dir a)
| gp_port dir n : n <= 65535 -> g_prim (dir_toks dir ++ [TOK_PORT; TOK_NUMBER n]) (port_node dir n)
| gp_net dir a n : n <= 32 ->
    g_prim (dir_toks dir ++ [TOK_NET; TOK_IPV4 a; TOK_SLASH; TOK_NUMBER n])
      (net_node dir a (u8 n)).

(** Arena nodes a tree takes. *)
Fixpoint size (n : node_t) : Z :=
  match n with
  | N_AND l r | N_OR l r => 1 + size l + size r
  | N_NOT l => 1 + size l
  | _ => 1
  end.

Lemma tree_size_pos n : 1 <= size n.
Proof. induction n; cbn [size]; lia. Qed.

(** The expression language over these primitives; [g_expr] is its grammar. *)
Definition cf_syntax : syntax token_t node_t := {|
  tok_end := TOK_END; tok_not := TOK_NOT; tok_lparen := TOK_LPAREN; tok_rparen := TOK_RPAREN;
  tok_and := TOK_AND; tok_or := TOK_OR;
  node_not := N_NOT; node_and := N_AND; node_or := N_OR;
  node_size := size; prim := g_prim
|}.
Abbreviation g_expr := (BoolParser.g_expr cf_syntax).

(** The five functions, as the interface sees them. *)
Definition cf_descent : descent token_t node_t := {|
  d_prim := parse_primitive; d_join := join_on; d_not := parse_not; d_and := parse_and;
  d_and_loop := and_loop; d_expr := parse_expr; d_or_loop := or_loop
|}.

(** ** Allocating a whole tree *)

Abbreviation st_at := (FilterCore.st_at TOK_END).
Abbreviation alloc := (FilterCore.alloc size).
Abbreviation builds := (FilterCore.builds size).
Abbreviation parses := (FilterCore.parses TOK_END).
Abbreviation returns := (FilterCore.returns TOK_END).

Lemma builds_and m1 m2 n1 n2 :
  builds m1 n1 -> builds m2 n2 -> builds (l ← m1; r ← m2; mk_and l r) (N_AND n1 n2).
Proof. exact (builds_bin size tree_size_pos N_AND m1 m2 n1 n2 eq_refl). Qed.
Lemma builds_or m1 m2 n1 n2 :
  builds m1 n1 -> builds m2 n2 -> builds (l ← m1; r ← m2; mk_or l r) (N_OR n1 n2).
Proof. exact (builds_bin size tree_size_pos N_OR m1 m2 n1 n2 eq_refl). Qed.
Lemma builds_dir dir mk n :
  (forall d, builds (mk d) (n d)) -> builds (mk_dir dir mk) (dir_node dir n).
Proof. intros H. destruct dir; [apply H|]. apply builds_or; apply H. Qed.

Lemma builds_l4 p : builds (mk_l4_proto p) (l4_proto p).
Proof. apply builds_and; by apply builds_leaf. Qed.
Lemma builds_host dir a :
  builds (ip ← mk_ethertype ETHERTYPE_IPV4; host ← mk_dir dir (fun d => mk_host d a); mk_and ip host)
    (host_node dir a).
Proof. apply builds_and; [by apply builds_leaf|]. apply builds_dir. intros. by apply builds_leaf. Qed.
Lemma builds_net dir a p :
  builds (ip ← mk_ethertype ETHERTYPE_IPV4; net ← mk_dir dir (fun d => mk_net d a p); mk_and ip net)
    (net_node dir a p).
Proof. apply builds_and; [by apply builds_leaf|]. apply builds_dir. intros. by apply builds_leaf. Qed.
Lemma builds_port dir k :
  builds (ip ← mk_ethertype ETHERTYPE_IPV4;
          r ← (is_tcp_or_udp ← (t ← mk_ipproto IPPROTO_TCP_; u ← mk_ipproto IPPROTO_UDP_; mk_or t u);
               port ← mk_dir dir (fun d => mk_port d k);
               mk_and is_tcp_or_udp port);
          mk_and ip r)
    (port_node dir k).
Proof.
  apply builds_and; [by apply builds_leaf|]. apply builds_and.
  - apply builds_or; by apply builds_leaf.
  - apply builds_dir. intros. by apply builds_leaf.
Qed.

(** ** Primitives *)

(** The next token is read, or the end marker is. *)
Ltac next_token H :=
  first [ rewrite (run_advance TOK_END _ _ _ _ H); apply st_at_next in H; rewrite ?adv_adv in H |- *
        | rewrite (run_advance_end TOK_END _ _ H) ].

(** Where no direction is given, none is there. *)
Definition dir_done (dir : option dir_t) (rem : list token_t) : Prop :=
  dir = None -> hd TOK_END rem <> TOK_SRC /\ hd TOK_END rem <> TOK_DST.

Lemma run_dir {A} (f : option dir_t -> cparser A) dir rem st :
  st_at (dir_toks dir ++ rem) st -> dir_done dir rem ->
  (parse_dir ≫= f) st = f dir (adv (length (dir_toks dir)) st).
Proof.
  intros H Hd. unfold mbind, parser_bind at 1, parse_dir.
  rewrite (run_peek TOK_END _ _ _ H). destruct dir as [[|]|]; cbn [dir_toks app hd].
  1-2: by rewrite (run_advance TOK_END _ _ _ _ H).
  destruct (Hd eq_refl). cbn [dir_toks app] in *. rewrite adv_0. by destruct (hd TOK_END rem).
Qed.

Lemma dir_split rem : exists dir rem', rem = dir_toks dir ++ rem' /\ dir_done dir rem'.
Proof.
  destruct rem as [|t rem]; [by exists None, []|].
  destruct (decide (t = TOK_SRC)) as [->|]; [by exists (Some DIR_SRC), rem|].
  destruct (decide (t = TOK_DST)) as [->|]; [by exists (Some DIR_DST), rem|].
  by exists None, (t :: rem).
Qed.

(** What follows the direction. *)
Lemma prim_complete ts n rem st :
  g_prim ts n -> st_at (ts ++ rem) st -> count st <= CF_MAX_NODES ->
  parse_primitive st = alloc n (adv (length ts) st).
Proof.
  unfold parse_primitive. intros Hg H Hc.
  destruct Hg as [| | | | | |dir a|dir k Hk|dir a k Hk];
    try (rewrite (run_dir _ None _ _ H), adv_0 by done; rewrite (run_peek TOK_END _ _ _ H);
         cbn [app hd] in *; rewrite bool_decide_eq_false_2 by (by intros [? _]); next_token H;
         first [by apply builds_l4 | by apply builds_leaf]).
  all: rewrite <- app_assoc in H; rewrite (run_dir _ dir _ _ H) by done; rewrite length_app;
    apply st_at_adv in H; rewrite (run_peek TOK_END _ _ _ H); cbn [app hd] in *;
    rewrite bool_decide_eq_false_2 by (by intros (? & ? & ? & ?)).
  - unfold parse_host. do 2 next_token H. rewrite <- Nat.add_assoc. by apply builds_host.
  - unfold parse_port. do 2 next_token H. rewrite <- Nat.add_assoc. zcase. by apply builds_port.
  - unfold parse_net. do 3 next_token H.
    rewrite bool_decide_eq_true_2 by done. cbn [negb]. next_token H. zcase. rewrite <- !Nat.add_assoc.
    by apply builds_net.
Qed.

(** The error returns, after [ts] has been read. *)
Definition prim_fails (rem : list token_t) (m : cparser (option node_t)) (st : parser_t token_t) : Prop :=
  exists ts rem', rem = ts ++ rem' /\
    exists msg, m st = Ret (None, fail_at msg (adv (length ts) st)).

Lemma prim_fails_next t rem (m m' : cparser (option node_t)) st :
  m st = m' (adv 1 st) -> prim_fails rem m' (adv 1 st) -> prim_fails (t :: rem) m st.
Proof.
  intros E (ts & rem' & -> & msg & E'). exists (t :: ts), rem'. split; [done|]. exists msg.
  by rewrite E, E', adv_adv.
Qed.

Lemma prim_fails_here rem msg st : prim_fails rem (fail_null msg) st.
Proof. exists [], rem. split; [done|]. exists msg. by rewrite adv_0. Qed.

Lemma prim_fails_eq rem (m m' : cparser (option node_t)) st :
  m st = m' st -> prim_fails rem m' st -> prim_fails rem m st.
Proof. intros E (ts & rem' & Hr & msg & E'). exists ts, rem'. split; [done|]. exists msg. congruence. Qed.

(** Reads tokens until the error. *)
Ltac fails H :=
  repeat first
    [ apply prim_fails_here
    | eapply prim_fails_next; [rewrite (run_advance TOK_END _ _ _ _ H); reflexivity|apply st_at_next in H]
    | eapply prim_fails_eq; [rewrite (run_advance_end TOK_END _ _ H); reflexivity|] ];
  try apply prim_fails_here.

Lemma host_cases dir rem st : st_at (TOK_HOST :: rem) st ->
  (exists a rem', rem = TOK_IPV4 a :: rem') \/ prim_fails (TOK_HOST :: rem) (parse_host dir) st.
Proof.
  intros H. destruct rem as [|t rem]; [right; unfold parse_host; fails H|].
  destruct t; try (right; unfold parse_host; fails H; fail). eauto.
Qed.

Lemma port_cases dir rem st : st_at (TOK_PORT :: rem) st ->
  (exists k rem', rem = TOK_NUMBER k :: rem' /\ k <= 65535) \/
  prim_fails (TOK_PORT :: rem) (parse_port dir) st.
Proof.
  intros H. destruct rem as [|t rem]; [right; unfold parse_port; fails H|].
  destruct t; try (right; unfold parse_port; fails H; fail).
  destruct (Z.ltb_spec 65535 num); [|eauto]. right. unfold parse_port. fails H.
  eapply prim_fails_eq; [|apply prim_fails_here]. zcase. reflexivity.
Qed.

Lemma net_cases dir rem st : st_at (TOK_NET :: rem) st ->
  (exists a k rem', rem = TOK_IPV4 a :: TOK_SLASH :: TOK_NUMBER k :: rem' /\ k <= 32) \/
  prim_fails (TOK_NET :: rem) (parse_net dir) st.
Proof.
  intros H. destruct rem as [|t rem]; [right; unfold parse_net; fails H|].
  destruct t; try (right; unfold parse_net; fails H; fail).
  destruct rem as [|t rem]; [right; unfold parse_net; fails H|].
  destruct (decide (t = TOK_SLASH)) as [->|Ht].
  2: { right. unfold parse_net. fails H. rewrite bool_decide_eq_false_2 by done. apply prim_fails_here. }
  destruct rem as [|t rem].
  { right. unfold parse_net. fails H. rewrite bool_decide_eq_true_2 by done. cbn [negb]. fails H. }
  destruct t; try (right; unfold parse_net; fails H; rewrite bool_decide_eq_true_2 by done;
    cbn [negb]; fails H; fail).
  destruct (Z.ltb_spec 32 num); [|left; eauto 6]. right. unfold parse_net. fails H.
  rewrite bool_decide_eq_true_2 by done. cbn [negb]. fails H.
  eapply prim_fails_eq; [|apply prim_fails_here]. zcase. reflexivity.
Qed.

Lemma prim_sound rem st :
  st_at rem st -> count st <= CF_MAX_NODES ->
  (exists ts n rem', rem = ts ++ rem' /\ g_prim ts n) \/ prim_fails rem parse_primitive st.
Proof.
  intros H Hc. destruct (dir_split rem) as (dir & rem' & -> & Hd).
  assert (forall m, prim_fails rem' m (adv (length (dir_toks dir)) st) ->
    parse_primitive st = m (adv (length (dir_toks dir)) st) ->
    prim_fails (dir_toks dir ++ rem') parse_primitive st) as Hfail.
  { intros m (ts & rem'' & -> & msg & E) E'. exists (dir_toks dir ++ ts), rem''.
    split; [by rewrite <- app_assoc|]. exists msg.
    by rewrite E', E, adv_adv, length_app. }
  assert (st_at rem' (adv (length (dir_toks dir)) st)) as H' by by apply st_at_adv.
  unfold parse_primitive in Hfail |- *. rewrite (run_dir _ _ _ _ H Hd), (run_peek TOK_END _ _ _ H') in Hfail.
  case_bool_decide as Hb; [right; eapply Hfail; [apply prim_fails_here|reflexivity]|].
  destruct rem' as [|t rem']; [right; eapply Hfail; [apply prim_fails_here|reflexivity]|].
  cbn [hd] in *.
  destruct t; try (right; eapply Hfail; [apply prim_fails_here|reflexivity]);
    try (destruct dir; [exfalso; by apply Hb|]; left; eexists [_], _, rem'; split; [reflexivity|constructor]).
  - destruct (host_cases dir _ _ H') as [(a & r & ->)|Hx]; [left|right; eapply Hfail; done].
    exists (dir_toks dir ++ [TOK_HOST; TOK_IPV4 a]), (host_node dir a), r.
    split; [by rewrite <- app_assoc|constructor].
  - destruct (port_cases dir _ _ H') as [(k & r & -> & Hk)|Hx]; [left|right; eapply Hfail; done].
    eexists (dir_toks dir ++ [TOK_PORT; TOK_NUMBER k]), _, r.
    split; [by rewrite <- app_assoc|by constructor].
  - destruct (net_cases dir _ _ H') as [(a & k & r & -> & Hk)|Hx]; [left|right; eapply Hfail; done].
    eexists (dir_toks dir ++ [TOK_NET; TOK_IPV4 a; TOK_SLASH; TOK_NUMBER k]), _, r.
    split; [by rewrite <- app_assoc|by constructor].
Qed.

(** ** The interface *)

Lemma returns_prim rem st :
  st_at rem st -> count st <= CF_MAX_NODES ->
  returns rem st (parse_primitive st) (fun ts n k => g_prim ts n /\ k = size n).
Proof.
  intros H Hc. destruct (prim_sound rem st H Hc) as [(ts & n & rem' & -> & Hg)|(ts & rem' & -> & msg & E)].
  - rewrite (prim_complete _ _ _ _ Hg H Hc). apply st_at_adv in H.
    destruct (returns_mk TOK_END size rem' (adv (length ts) st) (alloc n) n) as
      (r & st' & ts' & rem'' & -> & -> & Ha & Hc' & Hm & Hr); [done|done|done|].
    exists r, st', (ts ++ ts'), rem''. split_and!; try done; [by rewrite <- app_assoc|].
    intros Hf. destruct (Hr Hf) as (n' & -> & -> & -> & ?). exists n. by rewrite app_nil_r.
  - rewrite E. apply st_at_adv in H. exists None, (fail_at msg (adv (length ts) st)), ts, rem'.
    split_and!; [done..|by apply st_at_fail|done|by rewrite failing_fail_at|by rewrite failing_fail_at].
Qed.

Lemma keeps_primitive c0 : keeps c0 parse_primitive.
Proof.
  unfold parse_primitive, parse_dir, parse_host, parse_port, parse_net, mk_l4_proto, mk_ethertype,
    mk_ipproto, mk_host, mk_port, mk_net, mk_dir, mk_and, mk_or. keep.
Qed.

#[export] Instance cf_parser : BoolParser cf_syntax cf_descent.
Proof.
  split; try done.
  - apply tree_size_pos.
  - apply (bool_decide_unpack _). vm_compute. exact I.
  - intros ts n Hg. destruct Hg as [| | | | | |[[|]|]|[[|]|]|[[|]|]]; by eexists _, _.
  - intros ts n Hg. eapply parses_alloc; [apply tree_size_pos|]. intros rem st. by apply (prim_complete ts n rem).
  - apply returns_prim.
  - apply keeps_primitive.
  - apply join_on_laws.
  - intros fuel. eexists. split; [reflexivity|]. by intros [].
  - intros fuel l. eexists. split; [reflexivity|]. by intros [].
  - intros fuel l. eexists. split; [reflexivity|]. by intros [].
Qed.

Abbreviation start := (FilterCore.start TOK_END).

Lemma parse_fuel_enough (ts : list token_t) :
  zlen ts < CF_MAX_TOKENS -> (3 * length ts + 3 <= parse_fuel)%nat.
Proof. unfold parse_fuel, zlen, CF_MAX_TOKENS. lia. Qed.
Lemma fuel_768 : (3 * 255 + 3 <= parse_fuel)%nat.
Proof. unfold parse_fuel. lia. Qed.
#[global] Opaque parse_fuel.

(** ** Properties *)

(** C10: on any token sequence the lexer can produce, the parser returns (it neither runs
    away nor follows a NULL child), and it accepts, with the tree [n], exactly the
    sentences of the grammar of capfilter.h whose tree [n] fits the node arena. *)
Theorem parse_expr_exact ts err err_len :
  TOK_END ∉ ts -> zlen ts < CF_MAX_TOKENS ->
  exists r st, parse_expr parse_fuel (start ts (init_ctx err err_len)) = Ret (r, st) /\
    forall n, (failing st = false /\ p_peek st = Ret (TOK_END, st) /\ r = Some n) <->
              (g_expr ts n /\ size n <= CF_MAX_NODES).
Proof.
  intros He Hn. pose proof (parse_fuel_enough ts Hn) as Hf.
  destruct (parse_expr_total cf_syntax cf_descent parse_fuel ts err err_len He Hn Hf) as (r & st & E).
  exists r, st. split; [exact E|].
  exact (parse_expr_iff cf_syntax cf_descent parse_fuel ts err err_len He Hn Hf r st E).
Qed.

Lemma parse_expr_exact_witness :
  exists r st, parse_expr parse_fuel
      (start [TOK_NOT; TOK_LPAREN; TOK_PROTO_IP; TOK_RPAREN] (init_ctx None 0)) = Ret (r, st) /\
    forall n, (failing st = false /\ p_peek st = Ret (TOK_END, st) /\ r = Some n) <->
              (g_expr [TOK_NOT; TOK_LPAREN; TOK_PROTO_IP; TOK_RPAREN] n /\ size n <= CF_MAX_NODES).
Proof. apply parse_expr_exact; [by rewrite <- (bool_decide_eq_true _)|reflexivity]. Defined.
