(* ===== verification/CapCodegen.v ===== *)
(** * The capture filter's code generator (src/src/c/capfilter.c, lines 546-728)

    Short-circuit boolean code with backpatching: every comparison leaves its
    two jump fields on a "true" and a "false" patch list, and [pl_resolve]
    fills them in once the target is known. *)
From S2P Require Import Prelude Text Literals Bpf FilterCore CapLexer CapParser.
From stdpp Require Import options.

Local Open Scope Z_scope.
Local Open Scope wire_scope.

Definition CF_MAX_INSNS : Z := 1024.
Definition OFF_ETHERTYPE : Z := 12.
Definition OFF_IP_IHL_BYTE : Z := 14.
Definition OFF_IP_PROTO : Z := 23.
Definition OFF_IP_SRC : Z := 26.
Definition OFF_IP_DST : Z := 30.

(** ** State and errors *)

Record cf_gen_t := { insns : list sock_filter; gen_ctx : cf_ctx_t }.
Definition n_insns (g : cf_gen_t) : Z := zlen (insns g).

(** A computation that may [return -1] ([None]), after which nothing else runs. *)
Definition gen (A : Type) : Type := cf_gen_t -> outcome (option A * cf_gen_t).
#[export] Instance gen_ret : MRet gen := fun A a g => Ret (Some a, g).
#[export] Instance gen_bind : MBind gen := fun A B f m g =>
  '(r, g) ← m g; match r with Some a => f a g | None => Ret (None, g) end.

Definition lift {A} (o : outcome A) : gen A := fun g => a ← o; Ret (Some a, g).
Definition gen_fail {A} (msg : text) : gen A := fun g =>
  Ret (None, {| insns := insns g; gen_ctx := cf_fail (gen_ctx g) msg |}).
(** [if (g->c->failed) return -1;] *)
Definition check_failed : gen unit := fun g =>
  if failed (gen_ctx g) then Ret (None, g) else Ret (Some tt, g).
Definition get_pc : gen Z := fun g => Ret (Some (n_insns g), g).

(** ** Patch lists *)

(** An instruction index and whether its [jt] (or [jf]) field waits for a target. *)
Definition patch : Type := Z * bool.
Definition patch_list_t : Type := list patch.

Definition pl_add (pl : patch_list_t) (idx : Z) (is_jt : bool) : outcome patch_list_t :=
  if zlen pl <? CF_MAX_INSNS then Ret (pl ++ [(idx, is_jt)]) else UB.

Fixpoint pl_append (dst src : patch_list_t) : outcome patch_list_t :=
  match src with
  | [] => Ret dst
  | (idx, is_jt) :: src => dst ← pl_add dst idx is_jt; pl_append dst src
  end.

Definition set_field (is_jt : bool) (v : Z) (f : sock_filter) : sock_filter :=
  if is_jt then {| code := code f; jt := v; jf := jf f; k := k f |}
  else {| code := code f; jt := jt f; jf := v; k := k f |}.

Definition jump_error : text :=
  lit "filter expression is too complex to compile to BPF (jump out of range)".

Fixpoint pl_resolve (pl : patch_list_t) (target_pc : Z) (g : cf_gen_t) : outcome cf_gen_t :=
  match pl with
  | [] => Ret g
  | (idx, is_jt) :: pl =>
    let offset := target_pc - (idx + 1) in
    if (offset <? 0) || (255 <? offset)
    then Ret {| insns := insns g; gen_ctx := cf_fail (gen_ctx g) jump_error |}
    else if (idx <? 0) || (n_insns g <=? idx) then UB
    else pl_resolve pl target_pc
           {| insns := alter (set_field is_jt (u8 offset)) (Z.to_nat idx) (insns g);
              gen_ctx := gen_ctx g |}
  end.

(** [pl_resolve(g, pl, target); if (g->c->failed) return -1;] *)
Definition resolve (pl : patch_list_t) (target_pc : Z) : gen unit := fun g =>
  g ← pl_resolve pl target_pc g; check_failed g.

(** ** Emitting *)

Definition gen_push (f : sock_filter) : gen Z := fun g =>
  if CF_MAX_INSNS <=? n_insns g then gen_fail (lit "compiled filter is too large") g
  else Ret (Some (n_insns g), {| insns := insns g ++ [f]; gen_ctx := gen_ctx g |}).

Fixpoint push_all (load_insns : list sock_filter) : gen unit :=
  match load_insns with
  | [] => mret tt
  | f :: load_insns => _ ← gen_push f; push_all load_insns
  end.

Definition insn (code_ k_ : Z) : sock_filter := {| code := code_; jt := 0; jf := 0; k := k_ |}.

Definition emit_leaf (load_insns : list sock_filter) (k_ : Z) (out_t out_f : patch_list_t)
    : gen (patch_list_t * patch_list_t) :=
  _ ← push_all load_insns;
  idx ← gen_push (insn (Z.lor (Z.lor BPF_JMP BPF_JEQ) BPF_K) k_);
  out_t ← lift (pl_add out_t idx true);
  out_f ← lift (pl_add out_f idx false);
  mret (out_t, out_f).

Definition addr_to_u32 (addr : list Z) : outcome Z :=
  a0 ← addr.[0]; a1 ← addr.[1]; a2 ← addr.[2]; a3 ← addr.[3];
  Ret (be32 a0 a1 a2 a3).

Definition prefix_mask (prefix_len : Z) : Z :=
  if prefix_len =? 0 then 0
  else if 32 <=? prefix_len then 0xFFFFFFFF
  else u32 (Z.shiftl 0xFFFFFFFF (32 - prefix_len)).

Definition addr_off (dir : dir_t) : Z :=
  match dir with DIR_SRC => OFF_IP_SRC | DIR_DST => OFF_IP_DST end.
Definition port_off (dir : dir_t) : Z :=
  match dir with DIR_SRC => OFF_IP_IHL_BYTE | DIR_DST => OFF_IP_IHL_BYTE + 2 end.

Definition LD_H_ABS : Z := Z.lor (Z.lor BPF_LD BPF_H) BPF_ABS.
Definition LD_B_ABS : Z := Z.lor (Z.lor BPF_LD BPF_B) BPF_ABS.
Definition LD_W_ABS : Z := Z.lor (Z.lor BPF_LD BPF_W) BPF_ABS.
Definition LD_H_IND : Z := Z.lor (Z.lor BPF_LD BPF_H) BPF_IND.
Definition LDX_B_MSH : Z := Z.lor (Z.lor BPF_LDX BPF_B) BPF_MSH.
Definition ALU_AND_K : Z := Z.lor (Z.lor BPF_ALU BPF_AND) BPF_K.

Fixpoint compile_node (n : node_t) (out_t out_f : patch_list_t)
    : gen (patch_list_t * patch_list_t) :=
  _ ← check_failed;
  match n with
  | N_NOT l =>
    '(out_f, out_t) ← compile_node l out_f out_t;
    mret (out_t, out_f)
  | N_AND l r =>
    '(lt, lf) ← compile_node l [] [];
    pc_ ← get_pc;
    _ ← resolve lt pc_;
    '(rt, rf) ← compile_node r [] [];
    out_t ← lift (pl_append out_t rt);
    out_f ← lift (pl_append out_f lf);
    out_f ← lift (pl_append out_f rf);
    mret (out_t, out_f)
  | N_OR l r =>
    '(lt, lf) ← compile_node l [] [];
    pc_ ← get_pc;
    _ ← resolve lf pc_;
    '(rt, rf) ← compile_node r [] [];
    out_t ← lift (pl_append out_t lt);
    out_t ← lift (pl_append out_t rt);
    out_f ← lift (pl_append out_f rf);
    mret (out_t, out_f)
  | N_ETHERTYPE k_ => emit_leaf [insn LD_H_ABS OFF_ETHERTYPE] k_ out_t out_f
  | N_IPPROTO k_ => emit_leaf [insn LD_B_ABS OFF_IP_PROTO] k_ out_t out_f
  | N_HOST dir addr =>
    a ← lift (addr_to_u32 addr);
    emit_leaf [insn LD_W_ABS (addr_off dir)] a out_t out_f
  | N_NET dir addr prefix_len =>
    a ← lift (addr_to_u32 addr);
    let mask := prefix_mask prefix_len in
    emit_leaf [insn LD_W_ABS (addr_off dir); insn ALU_AND_K mask] (Z.land a mask) out_t out_f
  | N_PORT dir k_ =>
    _ ← gen_push (insn LDX_B_MSH OFF_IP_IHL_BYTE);
    emit_leaf [insn LD_H_IND (port_off dir)] k_ out_t out_f
  end.

Example codegen_sample :
  compile_node (N_AND (N_ETHERTYPE 0x800) (N_NOT (N_IPPROTO 6))) [] []
    {| insns := []; gen_ctx := init_ctx None 0 |} =
  Ret (Some ([(3, false)], [(1, false); (3, true)]),
       {| insns := [insn 0x28 12; insn 0x15 0x800; insn 0x30 23; insn 0x15 6];
          gen_ctx := init_ctx None 0 |}).
Proof. vm_compute. reflexivity. Qed.

(** ** Specification: what an expression means on a frame *)

(** [None] when a field the (short-circuit) evaluation needs lies beyond the end
    of the frame: the kernel then rejects the frame. *)
Fixpoint eval (n : node_t) (pkt : list Z) : option bool :=
  match n with
  | N_AND l r => b ← eval l pkt; if b : bool then eval r pkt else Some false
  | N_OR l r => b ← eval l pkt; if b : bool then Some true else eval r pkt
  | N_NOT l => b ← eval l pkt; Some (negb b)
  | N_ETHERTYPE k_ => v ← pkt_load pkt 12 2; Some (v =? k_)
  | N_IPPROTO k_ => v ← pkt_load pkt 23 1; Some (v =? k_)
  | N_HOST dir addr =>
    v ← pkt_load pkt (match dir with DIR_SRC => 26 | DIR_DST => 30 end) 4;
    Some (v =? be_bytes addr)
  | N_NET dir addr len =>
    v ← pkt_load pkt (match dir with DIR_SRC => 26 | DIR_DST => 30 end) 4;
    Some (v / 2 ^ (32 - len) =? be_bytes addr / 2 ^ (32 - len))
  | N_PORT dir k_ =>
    b ← pkt_load pkt 14 1;
    v ← pkt_load pkt (14 + 4 * (b mod 16) + match dir with DIR_SRC => 0 | DIR_DST => 2 end) 2;
    Some (v =? k_)
  end.

(** The values the parser puts in a tree. *)
Fixpoint node_ok (n : node_t) : Prop :=
  match n with
  | N_AND l r | N_OR l r => node_ok l /\ node_ok r
  | N_NOT l => node_ok l
  | N_ETHERTYPE k_ | N_IPPROTO k_ | N_PORT _ k_ => 0 <= k_ < 2 ^ 32
  | N_HOST _ addr => length addr = 4%nat /\ is_bytes addr
  | N_NET _ addr len => length addr = 4%nat /\ is_bytes addr /\ 0 <= len <= 32
  end.

(** Comparisons in a tree. *)
Fixpoint leaves (n : node_t) : Z :=
  match n with
  | N_AND l r | N_OR l r => leaves l + leaves r
  | N_NOT l => leaves l
  | _ => 1
  end.

Lemma leaves_bounds n : 1 <= leaves n <= size n.
Proof. induction n; cbn [leaves size]; lia. Qed.

(** A frame as the kernel hands it over. *)
Definition frame_ok (pkt : list Z) : Prop := is_bytes pkt /\ zlen pkt < 2 ^ 32 - 1.

(** ** Masks and addresses *)

Lemma be_bytes_4 a b c d : be_bytes [a; b; c; d] = ((a * 256 + b) * 256 + c) * 256 + d.
Proof.
  cbn [be_bytes]. unfold zlen. cbn [length]. change (256 ^ Z.of_nat 3) with 16777216.
  change (256 ^ Z.of_nat 2) with 65536. change (256 ^ Z.of_nat 1) with 256.
  change (256 ^ Z.of_nat 0) with 1. lia.
Qed.

Lemma addr_to_u32_ok addr : length addr = 4%nat -> is_bytes addr ->
  addr_to_u32 addr = Ret (be_bytes addr) /\ 0 <= be_bytes addr < 2 ^ 32.
Proof.
  intros L Hb. destruct addr as [|a [|b [|c [|d [|]]]]]; try done.
  unfold is_bytes in Hb. rewrite !Forall_cons in Hb. destruct Hb as (Ha & Hb & Hc & Hd & _).
  change (addr_to_u32 [a; b; c; d]) with (Ret (be32 a b c d)). rewrite be_bytes_4, be32_val by done. unfold is_byte in *.
  split; [done|lia].
Qed.

Lemma prefix_mask_spec len x : 0 <= len <= 32 -> 0 <= x < 2 ^ 32 ->
  Z.land x (prefix_mask len) = x / 2 ^ (32 - len) * 2 ^ (32 - len).
Proof.
  intros Hl Hx. unfold prefix_mask. destruct (Z.eqb_spec len 0) as [->|].
  { rewrite Z.land_0_r. rewrite Z.div_small; [done|]. change (32 - 0) with 32. lia. }
  destruct (Z.leb_spec 32 len).
  { replace (32 - len) with 0 by lia. change (2 ^ 0) with 1. rewrite Z.div_1_r.
    change 0xFFFFFFFF with (2 ^ 32 - 1). rewrite land_ones_mod by lia. rewrite Z.mod_small; lia. }
  assert (forall m, 32 <= m -> Z.testbit x m = false) as Hhi.
  { intros m Hm. destruct (Z.eq_dec x 0) as [->|]; [apply Z.bits_0|].
    apply Z.bits_above_log2; [lia|]. apply Z.log2_lt_pow2; [lia|].
    apply (Z.lt_le_trans _ (2 ^ 32)); [lia|]. apply Z.pow_le_mono_r; lia. }
  rewrite <- Z.shiftr_div_pow2, <- Z.shiftl_mul_pow2 by lia.
  unfold u32. change 0xFFFFFFFF with (Z.ones 32). rewrite <- Z.land_ones by lia.
  apply Z.bits_inj'. intros m Hm. rewrite !Z.land_spec, Z.testbit_ones_nonneg by lia.
  destruct (Z.lt_ge_cases m (32 - len)).
  { rewrite !Z.shiftl_spec_low by lia. by rewrite andb_false_r. }
  rewrite !Z.shiftl_spec, Z.shiftr_spec, Z.testbit_ones_nonneg by lia.
  replace (m - (32 - len) + (32 - len)) with m by lia.
  destruct (Z.lt_ge_cases m 32); [|by rewrite Hhi by lia].
  repeat zcase. by rewrite !andb_true_r.
Qed.

(** Masking both sides compares the leading [len] bits. *)
Lemma mask_compare len x y : 0 <= len <= 32 -> 0 <= x < 2 ^ 32 -> 0 <= y < 2 ^ 32 ->
  (Z.land x (prefix_mask len) =? Z.land y (prefix_mask len)) =
  (x / 2 ^ (32 - len) =? y / 2 ^ (32 - len)).
Proof.
  intros Hl Hx Hy. rewrite !prefix_mask_spec by done.
  assert (0 < 2 ^ (32 - len)) by (apply Z.pow_pos_nonneg; lia).
  apply eq_true_iff_eq. rewrite !Z.eqb_eq. nia.
Qed.

(** ** Instructions *)

Lemma be_bytes_range l : is_bytes l -> 0 <= be_bytes l < 256 ^ zlen l.
Proof.
  induction l as [|b l IH]; intros H; [done|]. apply Forall_cons in H as [Hb H].
  specialize (IH H). cbn [be_bytes]. rewrite zlen_cons, Z.pow_add_r by (auto with bytes; lia).
  unfold is_byte in Hb. nia.
Qed.

Lemma pkt_load_range pkt off n v :
  is_bytes pkt -> 0 <= off -> pkt_load pkt off n = Some v -> 0 <= v < 256 ^ Z.of_nat n.
Proof.
  intros Hb Hoff. unfold pkt_load. destruct (Z.leb_spec (off + Z.of_nat n) (zlen pkt)); [|done].
  intros [= <-]. pose proof (be_bytes_range _ (is_bytes_sub pkt n (Z.to_nat off) Hb)) as H'.
  unfold zlen in *. rewrite length_take, length_drop in H'.
  by replace (min n (length pkt - Z.to_nat off)) with n in H' by lia.
Qed.

(** Decides the interpreter's tests on a known opcode. *)
Ltac decode :=
  repeat (match goal with
  | |- context [if ?b then _ else _] =>
      let v := eval vm_compute in b in
      match v with true => change b with true | false => change b with false end
  end; cbv iota).

Section Steps.
Context (pkt : list Z) (Hpkt : frame_ok pkt).

Definition load_step (v : option Z) (st : bpf_state) : outcome (bpf_state + Z) :=
  match v with
  | Some v => Ret (inl {| acc := v; idx := idx st; pc := pc st + 1 |})
  | None => Ret (inr 0)
  end.

Lemma step_abs f st w :
  (code f = LD_H_ABS /\ w = 2%nat) \/ (code f = LD_B_ABS /\ w = 1%nat) \/
  (code f = LD_W_ABS /\ w = 4%nat) ->
  0 <= k f < 2 ^ 31 ->
  bpf_step f pkt (zlen pkt) st = load_step (pkt_load pkt (k f) w) st.
Proof using Hpkt.
  destruct Hpkt as [Hb Hl]. intros Hc Hk. unfold bpf_step.
  destruct Hc as [[-> ->]|[[-> ->]|[-> ->]]];
    cbv zeta; decode; rewrite load_u_spec by (done || lia); obind;
    by destruct (pkt_load pkt (k f) _).
Qed.

Lemma step_msh f st :
  code f = LDX_B_MSH -> 0 <= k f < 2 ^ 31 ->
  bpf_step f pkt (zlen pkt) st =
  match pkt_load pkt (k f) 1 with
  | Some b => Ret (inl {| acc := acc st; idx := 4 * (b mod 16); pc := pc st + 1 |})
  | None => Ret (inr 0)
  end.
Proof using Hpkt.
  destruct Hpkt as [Hb Hl]. intros Hc Hk. unfold bpf_step. rewrite Hc.
  cbv zeta. decode. rewrite load_u_spec by (done || lia). obind.
  destruct (pkt_load pkt (k f) 1) as [b|] eqn:E; [|done].
  apply pkt_load_range in E; [|done|lia]. change 15 with (2 ^ 4 - 1).
  rewrite land_ones_mod by lia. change (2 ^ 4) with 16.
  pose proof (Z.mod_pos_bound b 16 ltac:(lia)).
  rewrite u32_small by lia. by rewrite Z.mul_comm.
Qed.

Lemma step_ind f st :
  code f = LD_H_IND -> 0 <= k f < 2 ^ 16 -> 0 <= idx st < 2 ^ 16 ->
  bpf_step f pkt (zlen pkt) st = load_step (pkt_load pkt (k f + idx st) 2) st.
Proof using Hpkt.
  destruct Hpkt as [Hb Hl]. intros Hc Hk Hi. unfold bpf_step. rewrite Hc.
  cbv zeta. decode. rewrite u32_small by lia. rewrite load_u_spec by (done || lia).
  obind. by destruct (pkt_load pkt _ _).
Qed.

Lemma step_and f st :
  code f = ALU_AND_K ->
  bpf_step f pkt (zlen pkt) st =
    Ret (inl {| acc := Z.land (acc st) (k f); idx := idx st; pc := pc st + 1 |}).
Proof using. intros Hc. unfold bpf_step. rewrite Hc. cbv zeta. by decode. Qed.

Definition JEQ_K : Z := Z.lor (Z.lor BPF_JMP BPF_JEQ) BPF_K.
Definition RET_K : Z := Z.lor BPF_RET BPF_K.

Lemma step_jeq f st :
  code f = JEQ_K ->
  bpf_step f pkt (zlen pkt) st =
    Ret (inl {| acc := acc st; idx := idx st;
                pc := pc st + 1 + if acc st =? k f then jt f else jf f |}).
Proof using. intros Hc. unfold bpf_step. rewrite Hc. cbv zeta. by decode. Qed.

Lemma step_ret f st : code f = RET_K -> bpf_step f pkt (zlen pkt) st = Ret (inr (k f)).
Proof using. intros Hc. unfold bpf_step. rewrite Hc. cbv zeta. by decode. Qed.
End Steps.

(** ** Segments of a program *)

Definition field (is_jt : bool) (f : sock_filter) : Z := if is_jt then jt f else jf f.

(** [D] contains the segment [new] at [p0], up to the jump fields listed in [open]. *)
Definition agrees (D : list sock_filter) (p0 : Z) (new : list sock_filter) (open : list patch)
    : Prop :=
  forall i f, new !! i = Some f ->
    exists f', D !! (Z.to_nat p0 + i)%nat = Some f' /\ code f' = code f /\ k f' = k f /\
      forall b, (p0 + Z.of_nat i, b) ∉ open -> field b f' = field b f.

(** The jump field [e] of [D] leads to [target]. *)
Definition jumps_to (D : list sock_filter) (target : Z) (e : patch) : Prop :=
  exists f, D !! Z.to_nat e.1 = Some f /\ e.1 + 1 + field e.2 f = target.

(** From [p0], [D] decides [res] within [len] steps: it reaches [T] or [F], or rejects. *)
Definition decides (D : list sock_filter) (pkt : list Z) (p0 : Z) (len : nat) (res : option bool)
    (T F : Z) : Prop :=
  forall st, pc st = p0 -> exists c, (c <= len)%nat /\
    match res with
    | Some b => exists st', runs D pkt c st st' /\ pc st' = if b then T else F
    | None => halts D pkt c st 0
    end.

(** From [p0], the loads [L] leave [val] in the accumulator, or reject. *)
Definition loads (D : list sock_filter) (pkt : list Z) (p0 : Z) (len : nat) (val : option Z) : Prop :=
  forall st, pc st = p0 ->
    match val with
    | Some v => exists st', runs D pkt len st st' /\ acc st' = v /\ pc st' = p0 + Z.of_nat len
    | None => exists c, (c <= len)%nat /\ halts D pkt c st 0
    end.

Lemma halts_now D pkt st f v :
  D !! Z.to_nat (pc st) = Some f -> bpf_step f pkt (zlen pkt) st = Ret (inr v) -> halts D pkt 0 st v.
Proof. intros. exists st, f. split; [constructor|done]. Qed.

Lemma loads_one D pkt p0 f (v : option Z) :
  D !! Z.to_nat p0 = Some f ->
  (forall st, bpf_step f pkt (zlen pkt) st = load_step v st) -> loads D pkt p0 1 v.
Proof.
  intros Hf Hs st <-. specialize (Hs st). destruct v as [v|].
  - eexists. split; [econstructor; [done|exact Hs|constructor]|]. cbn. split; [done|lia].
  - exists 0%nat. split; [lia|]. by eapply halts_now.
Qed.

(** A comparison after its loads. *)
Lemma decides_leaf D pkt p0 len val f T F :
  loads D pkt p0 len val ->
  D !! Z.to_nat (p0 + Z.of_nat len) = Some f -> code f = JEQ_K ->
  p0 + Z.of_nat len + 1 + jt f = T -> p0 + Z.of_nat len + 1 + jf f = F ->
  decides D pkt p0 (len + 1) (v ← val; Some (v =? k f)) T F.
Proof.
  intros Hl Hf Hc HT HF st Hpc. specialize (Hl st Hpc). destruct val as [v|]; cbn.
  - destruct Hl as (st' & Hr & Ha & Hp). exists (len + 1)%nat. split; [lia|].
    eexists. split.
    + eapply runs_trans; [exact Hr|]. econstructor; [by rewrite Hp|by apply step_jeq|constructor].
    + cbn. rewrite Ha, Hp. by destruct (v =? k f).
  - destruct Hl as (c & Hc' & Hh). exists c. split; [lia|done].
Qed.

Lemma agrees_app D p0 l1 l2 open : 0 <= p0 ->
  agrees D p0 (l1 ++ l2) open <-> agrees D p0 l1 open /\ agrees D (p0 + zlen l1) l2 open.
Proof.
  intros Hp. split.
  - intros H. split; intros i f Hf.
    + apply H. by apply lookup_app_l_Some.
    + destruct (H (length l1 + i)%nat f) as (f' & Hf' & ?).
      { rewrite lookup_app_r by lia. by replace (length l1 + i - length l1)%nat with i by lia. }
      exists f'. unfold zlen.
      replace (Z.to_nat (p0 + Z.of_nat (length l1)) + i)%nat with (Z.to_nat p0 + (length l1 + i))%nat by lia.
      by replace (p0 + Z.of_nat (length l1) + Z.of_nat i) with (p0 + Z.of_nat (length l1 + i)) by lia.
  - intros [H1 H2] i f Hf. apply lookup_app_Some in Hf as [Hf|[Hi Hf]]; [by apply H1|].
    destruct (H2 _ _ Hf) as (f' & Hf' & ?). exists f'. unfold zlen in *.
    replace (Z.to_nat p0 + i)%nat with (Z.to_nat (p0 + Z.of_nat (length l1)) + (i - length l1))%nat by lia.
    by replace (p0 + Z.of_nat i) with (p0 + Z.of_nat (length l1) + Z.of_nat (i - length l1)) by lia.
Qed.

(** The first instruction of a segment. *)
Lemma agrees_cons D p0 f l open : 0 <= p0 -> agrees D p0 (f :: l) open ->
  (exists f', D !! Z.to_nat p0 = Some f' /\ code f' = code f /\ k f' = k f) /\
  agrees D (p0 + 1) l open.
Proof.
  intros Hp H. apply (agrees_app D p0 [f] l) in H as [H1 H2]; [|done]. split; [|done].
  destruct (H1 0%nat f eq_refl) as (f' & Hf & Hc & Hk & _). rewrite Nat.add_0_r in Hf. eauto.
Qed.

(** What the final program must satisfy for the segment of [n] to compute [eval n]. *)
Definition seg_ok (n : node_t) (p0 : Z) (new : list sock_filter) (tn fn : list patch) : Prop :=
  forall D pkt T F, frame_ok pkt -> agrees D p0 new (tn ++ fn) ->
    Forall (jumps_to D T) tn -> Forall (jumps_to D F) fn ->
    decides D pkt p0 (length new) (eval n pkt) T F.

Lemma leaf_seg n p0 L kk :
  0 <= p0 ->
  (forall D pkt open, frame_ok pkt -> agrees D p0 L open ->
     exists val, loads D pkt p0 (length L) val /\ eval n pkt = (v ← val; Some (v =? kk))) ->
  seg_ok n p0 (L ++ [insn JEQ_K kk]) [(p0 + zlen L, true)] [(p0 + zlen L, false)].
Proof.
  intros Hp HL D pkt T F Hpkt Ha HT HF.
  apply agrees_app in Ha as [Ha1 Ha2]; [|done].
  destruct (HL D pkt _ Hpkt Ha1) as (val & Hl & ->).
  apply agrees_cons in Ha2 as [(f & Hf & Hc & Hk) _]; [|pose proof (zlen_nonneg L); lia].
  apply Forall_singleton in HT as (f1 & Hf1 & HT). apply Forall_singleton in HF as (f2 & Hf2 & HF).
  cbn [fst snd field] in *. rewrite Hf in Hf1, Hf2. simplify_eq. rewrite length_app.
  cbn [insn k] in Hk. rewrite <- Hk. eapply decides_leaf; done.
Qed.

(** The loads of each kind of leaf. *)
Section Leaves.
Context (D : list sock_filter) (pkt : list Z) (p0 : Z) (open : list patch).
Context (Hpkt : frame_ok pkt) (Hp0 : 0 <= p0).

Lemma loads_abs c off w :
  (c = LD_H_ABS /\ w = 2%nat) \/ (c = LD_B_ABS /\ w = 1%nat) \/ (c = LD_W_ABS /\ w = 4%nat) ->
  0 <= off < 2 ^ 31 -> agrees D p0 [insn c off] open -> loads D pkt p0 1 (pkt_load pkt off w).
Proof using Hpkt Hp0.
  intros Hc Ho H. apply agrees_cons in H as [(f & Hf & Hcf & Hk) _]; [|done].
  cbn in Hcf, Hk. eapply loads_one; [exact Hf|]. intros st. rewrite <- Hk.
  apply step_abs; [done|by rewrite Hcf|by rewrite Hk].
Qed.

Lemma loads_net off mask :
  0 <= off < 2 ^ 31 -> agrees D p0 [insn LD_W_ABS off; insn ALU_AND_K mask] open ->
  loads D pkt p0 2 (v ← pkt_load pkt off 4; Some (Z.land v mask)).
Proof using Hpkt Hp0.
  intros Ho H. apply (agrees_app D p0 [_] [_]) in H as [H1 H2]; [|done].
  change (zlen [insn LD_W_ABS off]) with 1 in H2. pose proof (loads_abs LD_W_ABS off 4 ltac:(auto) Ho H1) as Hl.
  apply agrees_cons in H2 as [(f & Hf & Hc & Hk) _]; [|lia]. cbn in Hc, Hk.
  intros st Hst. specialize (Hl st Hst). destruct (pkt_load pkt off 4) as [v|]; cbn.
  - destruct Hl as (st' & Hr & Hacc & Hp). eexists. split.
    + apply (runs_trans _ _ 1 1 _ st'); [exact Hr|]. econstructor; [by rewrite Hp|by apply step_and|constructor].
    + cbn. rewrite Hacc, Hk, Hp. split; [done|lia].
  - destruct Hl as (c & ? & ?). exists c. split; [lia|done].
Qed.

Lemma loads_port off :
  0 <= off < 2 ^ 16 -> agrees D p0 [insn LDX_B_MSH 14; insn LD_H_IND off] open ->
  loads D pkt p0 2 (b ← pkt_load pkt 14 1; pkt_load pkt (off + 4 * (b mod 16)) 2).
Proof using Hpkt Hp0.
  intros Ho H. apply agrees_cons in H as [(f1 & Hf1 & Hc1 & Hk1) H]; [|done].
  apply agrees_cons in H as [(f2 & Hf2 & Hc2 & Hk2) _]; [|lia]. cbn in Hc1, Hk1, Hc2, Hk2.
  intros st Hst. pose proof (step_msh pkt Hpkt f1 st Hc1 ltac:(lia)) as Hs1. rewrite Hk1 in Hs1.
  destruct (pkt_load pkt 14 1) as [b|]; cbn.
  2: { exists 0%nat. split; [lia|]. eapply halts_now; [by rewrite Hst|done]. }
  set (st1 := {| acc := acc st; idx := 4 * (b mod 16); pc := pc st + 1 |}) in *.
  pose proof (Z.mod_pos_bound b 16 ltac:(lia)).
  pose proof (step_ind pkt Hpkt f2 st1 Hc2 ltac:(lia) ltac:(cbn; lia)) as Hs2.
  rewrite Hk2 in Hs2. cbn [st1 idx] in Hs2.
  assert (D !! Z.to_nat (pc st1) = Some f2) as Hf2' by (cbn; by rewrite Hst).
  destruct (pkt_load pkt (off + 4 * (b mod 16)) 2) as [v|]; cbn.
  - eexists. split; [econstructor; [by rewrite Hst|exact Hs1|econstructor; [done|exact Hs2|constructor]]|].
    cbn. split; [done|lia].
  - exists 1%nat. split; [lia|]. eapply halts_step; [by rewrite Hst|exact Hs1|].
    by eapply halts_now.
Qed.
End Leaves.

(** ** Resolving a patch list *)

(** [l'] is the segment [l] at [p0] with the fields in [pl] made to lead to [target]. *)
Definition patched (p0 : Z) (pl : patch_list_t) (target : Z) (l l' : list sock_filter) : Prop :=
  length l' = length l /\
  forall i f, l !! i = Some f -> exists f', l' !! i = Some f' /\ code f' = code f /\ k f' = k f /\
    forall b, field b f' =
      if bool_decide ((p0 + Z.of_nat i, b) ∈ pl) then target - (p0 + Z.of_nat i + 1) else field b f.

Definition in_segment (p0 p1 : Z) (e : patch) : Prop := p0 <= e.1 < p1.

Lemma field_set_field b b' v f :
  field b (set_field b' v f) = if bool_decide (b = b') then v else field b f.
Proof. by destruct b, b'. Qed.

Lemma pl_resolve_spec pl target : forall g,
  Forall (in_segment 0 (n_insns g)) pl -> Forall (fun e => e.1 < target) pl ->
  exists g', pl_resolve pl target g = Ret g' /\
    ((gen_ctx g' = gen_ctx g /\ patched 0 pl target (insns g) (insns g') /\
      Forall (fun e => target - (e.1 + 1) <= 255) pl) \/
     (failed (gen_ctx g') = true /\ exists e, e ∈ pl /\ 255 < target - (e.1 + 1))).
Proof.
  induction pl as [|[i b] pl IH]; intros g Hin Ht; cbn [pl_resolve].
  { exists g. split; [done|]. left. split_and!; [done| |done]. split; [done|].
    intros j f Hf. exists f. done. }
  apply Forall_cons in Hin as [Hi Hin]. apply Forall_cons in Ht as [Hit Ht].
  unfold in_segment in Hi. cbn [fst] in *.
  destruct (Z.ltb_spec (target - (i + 1)) 0); [lia|]. cbn [orb].
  destruct (Z.ltb_spec 255 (target - (i + 1))).
  { eexists. split; [done|]. right. cbn. split; [apply fail_failed|].
    exists (i, b). split; [apply elem_of_cons; by left|done]. }
  destruct (Z.ltb_spec i 0), (Z.leb_spec (n_insns g) i); try lia. cbn [orb].
  rewrite u8_small by (unfold is_byte; lia).
  set (g1 := {| insns := alter _ _ _; gen_ctx := _ |}).
  assert (n_insns g1 = n_insns g) as Hn by (unfold n_insns, zlen; cbn; by rewrite length_alter).
  destruct (IH g1) as (g' & -> & Hg'); [by rewrite Hn|done|]. exists g'. split; [done|].
  destruct Hg' as [(Hctx & [Hlen Hl] & Hr)|(Hf & e & He & Ho)].
  2: { right. split; [done|]. exists e. split; [apply elem_of_cons; by right|done]. }
  left. cbn [g1 insns gen_ctx] in *. split_and!; [done| |constructor; [cbn; lia|done]].
  split; [by rewrite Hlen, length_alter|]. intros j f Hf.
  destruct (decide (j = Z.to_nat i)) as [->|Hj].
  - destruct (Hl (Z.to_nat i) (set_field b (target - (i + 1)) f)) as (f' & Hf' & Hc & Hk & Hfld).
    { by rewrite list_lookup_alter_eq, Hf. }
    exists f'. split_and!; [done|by destruct b|by destruct b|]. intros b'. rewrite Hfld.
    rewrite Z.add_0_l, Z2Nat.id by lia. rewrite field_set_field.
    assert ((i, b') ∈ (i, b) :: pl <-> b' = b \/ (i, b') ∈ pl) as E
      by (rewrite elem_of_cons, pair_equal_spec; tauto).
    repeat case_bool_decide; try done; tauto.
  - destruct (Hl j f) as (f' & Hf' & Hc & Hk & Hfld); [by rewrite list_lookup_alter_ne|].
    exists f'. split_and!; [done..|]. intros b'. rewrite Hfld, !Z.add_0_l.
    assert ((Z.of_nat j, b') ∈ (i, b) :: pl <-> (Z.of_nat j, b') ∈ pl) as E.
    { rewrite elem_of_cons, pair_equal_spec. assert (Z.of_nat j <> i) by lia. tauto. }
    repeat case_bool_decide; try done; tauto.
Qed.

Lemma sock_filter_ext f f' :
  code f' = code f -> k f' = k f -> (forall b, field b f' = field b f) -> f' = f.
Proof.
  intros Hc Hk Hf. pose proof (Hf true) as Ht. pose proof (Hf false) as Hff. cbn in *.
  destruct f, f'. cbn in *. congruence.
Qed.

(** Patches inside the last segment leave what precedes it alone. *)
Lemma patched_split pl target a b l' :
  patched 0 pl target (a ++ b) l' -> Forall (in_segment (zlen a) (zlen a + zlen b)) pl ->
  exists b', l' = a ++ b' /\ patched (zlen a) pl target b b'.
Proof.
  intros [Hlen H] Hin. exists (drop (length a) l'). split.
  - rewrite <- (take_drop (length a) l') at 1. f_equal. apply list_eq_same_length with (length a); [done| |].
    { rewrite length_take. rewrite length_app in Hlen. lia. }
    intros i f' f Hi Hf' Hf. rewrite lookup_take_lt in Hf' by done.
    destruct (H i f) as (f2 & Hf2 & Hc & Hk & Hfld); [by apply lookup_app_l_Some|].
    rewrite Hf' in Hf2. simplify_eq. apply sock_filter_ext; [done..|]. intros c. rewrite Hfld.
    rewrite bool_decide_eq_false_2; [done|]. intros He. rewrite Forall_forall in Hin.
    specialize (Hin _ He). unfold in_segment, zlen in Hin. cbn in Hin. lia.
  - split; [rewrite length_drop, Hlen, length_app; lia|]. intros i f Hf.
    destruct (H (length a + i)%nat f) as (f' & Hf' & Hc & Hk & Hfld).
    { rewrite lookup_app_r by lia. by replace (length a + i - length a)%nat with i by lia. }
    exists f'. rewrite lookup_drop. split_and!; [done..|]. intros c. rewrite Hfld.
    unfold zlen. by rewrite Z.add_0_l, Nat2Z.inj_add.
Qed.

(** ** Joining two segments *)

Lemma agrees_weaken D p0 l (o1 o2 : list patch) :
  agrees D p0 l o1 -> (forall e, e ∈ o1 -> e ∈ o2) -> agrees D p0 l o2.
Proof.
  intros H Ho i f Hf. destruct (H i f Hf) as (f' & ? & ? & ? & Hfld). exists f'.
  split_and!; [done..|]. intros b Hb. apply Hfld. auto.
Qed.

(** A segment whose [pat] fields were patched still is the segment, and they jump. *)
Lemma agrees_patched D p0 l l' (pat keep open : list patch) target :
  0 <= p0 -> patched p0 pat target l l' -> agrees D p0 l' open ->
  Forall (in_segment p0 (p0 + zlen l)) pat ->
  (forall e, e ∈ pat -> e ∉ open) ->
  (forall e, e ∈ open -> in_segment p0 (p0 + zlen l) e -> e ∈ keep) ->
  agrees D p0 l (pat ++ keep) /\ Forall (jumps_to D target) pat.
Proof.
  intros Hp [Hlen Hpat] Ha Hin Hdis Hkeep. split.
  - intros i f Hf. destruct (Hpat i f Hf) as (f1 & Hf1 & Hc1 & Hk1 & Hfl1).
    destruct (Ha i f1 Hf1) as (f2 & Hf2 & Hc2 & Hk2 & Hfl2).
    exists f2. split_and!; [done|congruence..|]. intros b Hb. rewrite elem_of_app in Hb.
    rewrite Hfl2, Hfl1; [rewrite bool_decide_eq_false_2; [done|tauto]|].
    intros Ho. apply Hb. right. apply Hkeep; [done|]. apply lookup_lt_Some in Hf.
    unfold in_segment, zlen. cbn. lia.
  - apply Forall_forall. intros [i b] He. rewrite Forall_forall in Hin.
    pose proof (Hin _ He) as Hi. unfold in_segment, zlen in Hi. cbn in Hi.
    destruct (lookup_lt_is_Some_2 l (Z.to_nat (i - p0))) as [f Hf]; [lia|].
    destruct (Hpat _ f Hf) as (f1 & Hf1 & _ & _ & Hfl1).
    destruct (Ha _ f1 Hf1) as (f2 & Hf2 & _ & _ & Hfl2).
    replace (Z.to_nat p0 + Z.to_nat (i - p0))%nat with (Z.to_nat i) in Hf2 by lia.
    replace (p0 + Z.of_nat (Z.to_nat (i - p0))) with i in Hfl1, Hfl2 by lia.
    exists f2. cbn [fst snd]. split; [done|]. rewrite Hfl2, Hfl1 by by apply Hdis.
    rewrite bool_decide_eq_true_2 by done. lia.
Qed.

Lemma decides_and D pkt p0 p1 len1 len2 r1 r2 T F :
  decides D pkt p0 len1 r1 p1 F -> decides D pkt p1 len2 r2 T F ->
  decides D pkt p0 (len1 + len2) (b ← r1; if b : bool then r2 else Some false) T F.
Proof.
  intros H1 H2 st Hst. destruct (H1 st Hst) as (c1 & Hc1 & R1).
  destruct r1 as [[|]|]; cbn; [|exists c1; split; [lia|done]..].
  destruct R1 as (st1 & R1 & Hp1). destruct (H2 st1 Hp1) as (c2 & Hc2 & R2).
  exists (c1 + c2)%nat. split; [lia|]. destruct r2 as [b|].
  - destruct R2 as (st2 & R2 & Hp2). exists st2. split; [by eapply runs_trans|done].
  - by eapply runs_halts.
Qed.

Lemma decides_or D pkt p0 p1 len1 len2 r1 r2 T F :
  decides D pkt p0 len1 r1 T p1 -> decides D pkt p1 len2 r2 T F ->
  decides D pkt p0 (len1 + len2) (b ← r1; if b : bool then Some true else r2) T F.
Proof.
  intros H1 H2 st Hst. destruct (H1 st Hst) as (c1 & Hc1 & R1).
  destruct r1 as [[|]|]; cbn; [exists c1; split; [lia|done]| |exists c1; split; [lia|done]].
  destruct R1 as (st1 & R1 & Hp1). destruct (H2 st1 Hp1) as (c2 & Hc2 & R2).
  exists (c1 + c2)%nat. split; [lia|]. destruct r2 as [b|].
  - destruct R2 as (st2 & R2 & Hp2). exists st2. split; [by eapply runs_trans|done].
  - by eapply runs_halts.
Qed.

Lemma decides_not D pkt p0 len r T F :
  decides D pkt p0 len r F T -> decides D pkt p0 len (b ← r; Some (negb b)) T F.
Proof.
  intros H st Hst. destruct (H st Hst) as (c & Hc & R). exists c. split; [done|].
  destruct r as [b|]; cbn; [|done]. destruct R as (st' & ? & Hp). exists st'. by destruct b.
Qed.

(** ** Well-formed code *)

(** Instructions that do not jump. *)
Definition PLAIN_CODES : list Z :=
  [LD_H_ABS; LD_B_ABS; LD_W_ABS; LD_H_IND; LDX_B_MSH; ALU_AND_K; RET_K].

(** Every instruction is one the generator uses, its constant fits, and its jump
    fields are still [open] or land strictly before [last]. *)
Definition seg_valid (p0 last : Z) (new : list sock_filter) (open : list patch) : Prop :=
  forall i f, new !! i = Some f -> 0 <= k f < 2 ^ 32 /\
    (code f ∈ PLAIN_CODES \/
     code f = JEQ_K /\ forall b, (p0 + Z.of_nat i, b) ∈ open \/
       (0 <= field b f <= 255 /\ p0 + Z.of_nat i + 1 + field b f < last)).

Lemma seg_valid_weaken p0 l1 l2 new (o1 o2 : list patch) :
  seg_valid p0 l1 new o1 -> l1 <= l2 -> (forall e, e ∈ o1 -> e ∈ o2) -> seg_valid p0 l2 new o2.
Proof.
  intros H Hl Ho i f Hf. destruct (H i f Hf) as [Hk [Hc|[Hc Hj]]]; split; auto. right.
  split; [done|]. intros b. destruct (Hj b) as [?|[? ?]]; [auto|right; split; [done|lia]].
Qed.

Lemma seg_valid_app p0 last l1 l2 open :
  seg_valid p0 last l1 open -> seg_valid (p0 + zlen l1) last l2 open ->
  seg_valid p0 last (l1 ++ l2) open.
Proof.
  intros H1 H2 i f Hf. apply lookup_app_Some in Hf as [Hf|[Hi Hf]]; [by apply H1|].
  specialize (H2 _ _ Hf). unfold zlen in H2.
  by replace (p0 + Z.of_nat (length l1) + Z.of_nat (i - length l1)) with (p0 + Z.of_nat i) in H2 by lia.
Qed.

Lemma seg_valid_patched p0 last l l' (pat keep : list patch) target :
  seg_valid p0 last l (pat ++ keep) -> patched p0 pat target l l' ->
  Forall (fun e => e.1 < target) pat -> Forall (fun e => target - (e.1 + 1) <= 255) pat ->
  last <= target + 1 -> seg_valid p0 (target + 1) l' keep.
Proof.
  intros H [Hlen Hp] Hlt Hle Hlast i f' Hf'.
  destruct (lookup_lt_is_Some_2 l i) as [f Hf]; [rewrite <- Hlen; by eapply lookup_lt_Some|].
  destruct (Hp i f Hf) as (f2 & Hf2 & Hc & Hk & Hfl). rewrite Hf' in Hf2. simplify_eq.
  destruct (H i f Hf) as [Hkr Hcode]. rewrite Hc, Hk. split; [done|].
  destruct Hcode as [?|[Hj Ho]]; [by left|]. right. split; [done|]. intros b. rewrite Hfl.
  rewrite Forall_forall in Hlt, Hle. case_bool_decide as He.
  - right. specialize (Hlt _ He). specialize (Hle _ He). cbn in Hlt, Hle. lia.
  - destruct (Ho b) as [Hx%elem_of_app|Hx]; [left; tauto|]. right. lia.
Qed.

(** ** Segments *)

(** Instructions a tree compiles to. *)
Fixpoint icount (n : node_t) : Z :=
  match n with
  | N_AND l r | N_OR l r => icount l + icount r
  | N_NOT l => icount l
  | N_ETHERTYPE _ | N_IPPROTO _ | N_HOST _ _ => 2
  | N_NET _ _ _ | N_PORT _ _ => 3
  end.

Lemma icount_pos n : 2 <= icount n.
Proof. induction n; cbn [icount]; lia. Qed.

(** Everything the generator guarantees about the code of [n] at [p0], with [tn] and
    [fn] the fields that must lead to the true and the false target. *)
Record segment (n : node_t) (p0 : Z) (new : list sock_filter) (tn fn : list patch) : Prop := {
  seg_len : zlen new = icount n;
  seg_tn : zlen tn <= leaves n;
  seg_fn : zlen fn <= leaves n;
  seg_in : Forall (in_segment (p0 + 1) (p0 + zlen new)) (tn ++ fn);
  seg_disj : forall e, e ∈ tn -> e ∉ fn;
  seg_sem : seg_ok n p0 new tn fn;
  seg_wf : seg_valid p0 (p0 + zlen new) new (tn ++ fn)
}.

Lemma segment_not n p0 new tn fn : segment n p0 new tn fn -> segment (N_NOT n) p0 new fn tn.
Proof.
  intros [H1 H2 H3 H4 H5 H6 H7]. apply Forall_app in H4 as [? ?].
  assert (forall e, e ∈ tn ++ fn -> e ∈ fn ++ tn) as Hswap by (intros e; rewrite !elem_of_app; tauto).
  split; [done..|by apply Forall_app| | |by eapply seg_valid_weaken].
  - intros e Hf Ht. by apply (H5 e).
  - intros D pkt T F Hpkt Ha HT HF. cbn [eval]. apply decides_not. apply H6; [done| |done..].
    eapply agrees_weaken; [done|]. intros e. rewrite !elem_of_app. tauto.
Qed.

Lemma segment_range n p0 new tn fn e :
  segment n p0 new tn fn -> e ∈ tn \/ e ∈ fn -> p0 + 1 <= e.1 < p0 + zlen new.
Proof.
  intros H He. pose proof (seg_in _ _ _ _ _ H) as Hin. rewrite Forall_forall in Hin.
  apply (Hin e), elem_of_app, He.
Qed.

(** The left part [cl] has been patched to enter the right part [cr] through [pat]; [keep]
    are the exits it keeps. *)
Section Join.
Context (p0 : Z) (cl cl' cr : list sock_filter) (pat keep rt rf open : list patch).
Context (Hp0 : 0 <= p0) (Hcr : 0 < zlen cr).
Context (Hpat : patched p0 pat (p0 + zlen cl) cl cl').
Context (Hl : forall e, e ∈ pat \/ e ∈ keep -> p0 + 1 <= e.1 < p0 + zlen cl).
Context (Hr : forall e, e ∈ rt \/ e ∈ rf -> p0 + zlen cl + 1 <= e.1 < p0 + zlen cl + zlen cr).
Context (Hdis : forall e, e ∈ pat -> e ∉ keep).
Context (Hopen : forall e, e ∈ open <-> e ∈ keep \/ e ∈ rt \/ e ∈ rf).

Lemma join_len : zlen cl' = zlen cl.
Proof using Hpat. unfold zlen. by rewrite (proj1 Hpat). Qed.

Lemma join_in : Forall (in_segment (p0 + 1) (p0 + zlen (cl' ++ cr))) open.
Proof using Hl Hr Hopen Hpat Hcr.
  apply Forall_forall. intros e He. unfold in_segment. rewrite zlen_app, join_len.
  pose proof (zlen_nonneg cl). apply Hopen in He as [He|He]; [pose proof (Hl e)|pose proof (Hr e)];
    specialize (H0 ltac:(tauto)); lia.
Qed.

Lemma join_agrees D :
  agrees D p0 (cl' ++ cr) open ->
  agrees D p0 cl (pat ++ keep) /\ Forall (jumps_to D (p0 + zlen cl)) pat /\
  agrees D (p0 + zlen cl) cr (rt ++ rf).
Proof using Hp0 Hpat Hl Hr Hdis Hopen.
  intros Ha. apply agrees_app in Ha as [Ha1 Ha2]; [|done]. rewrite join_len in Ha2.
  destruct (agrees_patched D p0 cl cl' pat keep open (p0 + zlen cl)) as [H1 H2]; try done.
  - apply Forall_forall. intros e He. pose proof (Hl e (or_introl He)). unfold in_segment. lia.
  - intros e He [Hk|Hk]%Hopen; [by apply (Hdis e)|]. pose proof (Hl e (or_introl He)).
    pose proof (Hr e Hk). lia.
  - intros e [Hk|Hk]%Hopen Hin; [done|]. pose proof (Hr e Hk). unfold in_segment in Hin. lia.
  - split_and!; [done..|]. intros i f Hf. destruct (Ha2 i f Hf) as (f' & ? & ? & ? & Hfl).
    exists f'. split_and!; [done..|]. intros b Hb. apply Hfl. rewrite Hopen, elem_of_app in *.
    intros [Hk|Hk]; [|tauto]. pose proof (Hl _ (or_intror Hk)) as Hx. cbn in Hx. lia.
Qed.

Lemma join_valid :
  seg_valid p0 (p0 + zlen cl) cl (pat ++ keep) ->
  seg_valid (p0 + zlen cl) (p0 + zlen cl + zlen cr) cr (rt ++ rf) ->
  Forall (fun e => p0 + zlen cl - (e.1 + 1) <= 255) pat ->
  seg_valid p0 (p0 + zlen (cl' ++ cr)) (cl' ++ cr) open.
Proof using Hpat Hl Hopen Hcr.
  intros H1 H2 Hoff. rewrite zlen_app, join_len. apply seg_valid_app.
  - eapply seg_valid_weaken; [eapply seg_valid_patched; [exact H1|exact Hpat| |exact Hoff|lia]|lia|].
    + apply Forall_forall. intros e He. pose proof (Hl e (or_introl He)). lia.
    + intros e He. apply Hopen. by left.
  - rewrite join_len. eapply seg_valid_weaken; [exact H2|lia|].
    intros e He%elem_of_app. apply Hopen. by right.
Qed.
End Join.

(** [l && r]: the true exits of [l] enter [r]. *)
Lemma segment_and l r p0 cl cl' lt lf cr rt rf :
  0 <= p0 -> segment l p0 cl lt lf -> segment r (p0 + zlen cl) cr rt rf ->
  patched p0 lt (p0 + zlen cl) cl cl' ->
  Forall (fun e => p0 + zlen cl - (e.1 + 1) <= 255) lt ->
  segment (N_AND l r) p0 (cl' ++ cr) rt (lf ++ rf).
Proof.
  intros Hp Hl Hr Hpat Hoff. pose proof (icount_pos r). pose proof (seg_len _ _ _ _ _ Hr).
  assert (forall e, e ∈ rt ++ lf ++ rf <-> e ∈ lf \/ e ∈ rt \/ e ∈ rf) as Ho
    by (intros e; rewrite !elem_of_app; tauto).
  pose proof (fun e => segment_range _ _ _ _ _ e Hl) as Rl.
  pose proof (fun e => segment_range _ _ _ _ _ e Hr) as Rr.
  pose proof (seg_disj _ _ _ _ _ Hl) as Dl.
  split.
  - rewrite zlen_app, (join_len _ _ _ _ Hpat), (seg_len _ _ _ _ _ Hl). cbn [icount]. lia.
  - pose proof (seg_tn _ _ _ _ _ Hr). pose proof (leaves_bounds l). cbn [leaves]. lia.
  - rewrite zlen_app. pose proof (seg_fn _ _ _ _ _ Hl). pose proof (seg_fn _ _ _ _ _ Hr).
    cbn [leaves]. lia.
  - eapply join_in; [lia|done..].
  - intros e He [Hf|Hf]%elem_of_app; [|by apply (seg_disj _ _ _ _ _ Hr e)].
    pose proof (Rl e (or_intror Hf)). pose proof (Rr e (or_introl He)). lia.
  - intros D pkt T F Hpkt Ha HT HF. apply Forall_app in HF as [HF1 HF2].
    destruct (join_agrees _ _ _ _ _ _ _ _ _ Hp Hpat Rl Rr Dl Ho D Ha) as (A1 & J & A2).
    rewrite length_app, (proj1 Hpat). cbn [eval].
    eapply decides_and; [by apply (seg_sem _ _ _ _ _ Hl)|by apply (seg_sem _ _ _ _ _ Hr)].
  - eapply join_valid; [lia|done..|apply Hl|apply Hr|done].
Qed.

(** [l || r]: the false exits of [l] enter [r]. *)
Lemma segment_or l r p0 cl cl' lt lf cr rt rf :
  0 <= p0 -> segment l p0 cl lt lf -> segment r (p0 + zlen cl) cr rt rf ->
  patched p0 lf (p0 + zlen cl) cl cl' ->
  Forall (fun e => p0 + zlen cl - (e.1 + 1) <= 255) lf ->
  segment (N_OR l r) p0 (cl' ++ cr) (lt ++ rt) rf.
Proof.
  intros Hp Hl Hr Hpat Hoff. pose proof (icount_pos r). pose proof (seg_len _ _ _ _ _ Hr).
  assert (forall e, e ∈ (lt ++ rt) ++ rf <-> e ∈ lt \/ e ∈ rt \/ e ∈ rf) as Ho
    by (intros e; rewrite !elem_of_app; tauto).
  pose proof (fun e => segment_range _ _ _ _ _ e Hl) as Rl.
  assert (forall e, e ∈ lf \/ e ∈ lt -> p0 + 1 <= e.1 < p0 + zlen cl) as Rl' by (intros e ?; apply Rl; tauto).
  pose proof (fun e => segment_range _ _ _ _ _ e Hr) as Rr.
  assert (forall e, e ∈ lf -> e ∉ lt) as Dl by (intros e ? ?; by apply (seg_disj _ _ _ _ _ Hl e)).
  assert (forall e, e ∈ lf ++ lt <-> e ∈ lt ++ lf) as Hsw by (intros e; rewrite !elem_of_app; tauto).
  split.
  - rewrite zlen_app, (join_len _ _ _ _ Hpat), (seg_len _ _ _ _ _ Hl). cbn [icount]. lia.
  - rewrite zlen_app. pose proof (seg_tn _ _ _ _ _ Hl). pose proof (seg_tn _ _ _ _ _ Hr).
    cbn [leaves]. lia.
  - pose proof (seg_fn _ _ _ _ _ Hr). pose proof (leaves_bounds l). cbn [leaves]. lia.
  - eapply join_in; [lia|done..].
  - intros e [He|He]%elem_of_app Hf; [|by apply (seg_disj _ _ _ _ _ Hr e)].
    pose proof (Rl e (or_introl He)). pose proof (Rr e (or_intror Hf)). lia.
  - intros D pkt T F Hpkt Ha HT HF. apply Forall_app in HT as [HT1 HT2].
    destruct (join_agrees _ _ _ _ _ _ _ _ _ Hp Hpat Rl' Rr Dl Ho D Ha) as (A1 & J & A2).
    rewrite length_app, (proj1 Hpat). cbn [eval].
    eapply decides_or; [|by apply (seg_sem _ _ _ _ _ Hr)].
    apply (seg_sem _ _ _ _ _ Hl); [done| |done..]. eapply agrees_weaken; [done|]. apply Hsw.
  - eapply join_valid; [lia|done..| |apply Hr|done].
    eapply seg_valid_weaken; [apply Hl|lia|apply Hsw].
Qed.

Lemma segment_leaf n p0 L kk :
  0 <= p0 -> icount n = zlen L + 1 -> leaves n = 1 -> 1 <= zlen L -> 0 <= kk < 2 ^ 32 ->
  Forall (fun f => code f ∈ PLAIN_CODES /\ 0 <= k f < 2 ^ 32) L ->
  (forall D pkt open, frame_ok pkt -> agrees D p0 L open ->
     exists val, loads D pkt p0 (length L) val /\ eval n pkt = (v ← val; Some (v =? kk))) ->
  segment n p0 (L ++ [insn JEQ_K kk]) [(p0 + zlen L, true)] [(p0 + zlen L, false)].
Proof.
  intros Hp Hi Hlv HL Hk Hcodes Hsem. split.
  - rewrite zlen_app, Hi. done.
  - by rewrite Hlv.
  - by rewrite Hlv.
  - rewrite zlen_app. change (zlen [insn JEQ_K kk]) with 1. unfold in_segment.
    repeat constructor; cbn; lia.
  - intros e ->%list_elem_of_singleton ?%list_elem_of_singleton. done.
  - by apply leaf_seg.
  - apply seg_valid_app.
    + intros i f Hf. rewrite Forall_forall in Hcodes. destruct (Hcodes f) as [? ?]; [|by auto].
      by eapply list_elem_of_lookup_2.
    + intros [|i] f Hf; [|done]. injection Hf as <-. cbn [insn k code]. split; [done|]. right.
      split; [done|]. intros b. left. rewrite Z.add_0_r. destruct b; [by left|by right; left].
Qed.

(** ** Emitting leaves *)

Lemma gen_bind_some {A B} (m : gen A) (f : A -> gen B) g a g' :
  m g = Ret (Some a, g') -> (m ≫= f) g = f a g'.
Proof. intros H. unfold mbind, gen_bind. by rewrite H. Qed.
Lemma gen_bind_none {A B} (m : gen A) (f : A -> gen B) g g' :
  m g = Ret (None, g') -> (m ≫= f) g = Ret (None, g').
Proof. intros H. unfold mbind, gen_bind. by rewrite H. Qed.
Lemma gen_bind_assoc {A B C} (m : gen A) (f : A -> gen B) (h : B -> gen C) g :
  ((m ≫= f) ≫= h) g = (m ≫= fun a => f a ≫= h) g.
Proof. unfold mbind, gen_bind. by destruct (m g) as [[[a|] g']| |]. Qed.

Definition extend (new : list sock_filter) (g : cf_gen_t) : cf_gen_t :=
  {| insns := insns g ++ new; gen_ctx := gen_ctx g |}.

(** A computation that returned [-1] has reported why. *)
Definition reports {A} (res : outcome (option A * cf_gen_t)) : Prop :=
  exists g', res = Ret (None, g') /\ failed (gen_ctx g') = true.

Lemma reports_bind {A B} (m : gen A) (f : A -> gen B) g : reports (m g) -> reports ((m ≫= f) g).
Proof. intros (g' & E & Hf). exists g'. split; [by apply gen_bind_none|done]. Qed.

Lemma push_all_spec L : forall g,
  (n_insns g + zlen L <= CF_MAX_INSNS -> push_all L g = Ret (Some tt, extend L g)) /\
  (CF_MAX_INSNS < n_insns g + zlen L -> n_insns g <= CF_MAX_INSNS -> reports (push_all L g)).
Proof.
  induction L as [|f L IH]; intros g; cbn [push_all].
  { rewrite zlen_nil. split; [|lia]. intros _. unfold extend. rewrite app_nil_r. by destruct g. }
  rewrite zlen_cons. pose proof (zlen_nonneg L).
  assert (n_insns (extend [f] g) = n_insns g + 1) as Hn
    by (unfold n_insns, extend; cbn [insns]; by rewrite zlen_app).
  destruct (IH (extend [f] g)) as [H1 H2]. rewrite Hn in H1, H2.
  assert (n_insns g < CF_MAX_INSNS -> gen_push f g = Ret (Some (n_insns g), extend [f] g)) as Hpush
    by (intros; unfold gen_push; by zcase).
  split.
  - intros Hx. rewrite (gen_bind_some _ _ _ _ _ (Hpush ltac:(lia))), H1 by lia.
    unfold extend. cbn [insns gen_ctx]. by rewrite <- app_assoc.
  - intros Hx Hy. destruct (Z.eq_dec (n_insns g) CF_MAX_INSNS) as [E|].
    + apply reports_bind. unfold gen_push, gen_fail. zcase. eexists. split; [done|]. apply fail_failed.
    + rewrite (gen_bind_some _ _ _ _ _ (Hpush ltac:(lia))). apply H2; lia.
Qed.

(** Pushing the loads and then the comparison. *)
Lemma emit_leaf_spec L kk t0 f0 g :
  zlen t0 < CF_MAX_INSNS -> zlen f0 < CF_MAX_INSNS -> n_insns g <= CF_MAX_INSNS ->
  (n_insns g + zlen L + 1 <= CF_MAX_INSNS ->
     emit_leaf L kk t0 f0 g =
     Ret (Some (t0 ++ [(n_insns g + zlen L, true)], f0 ++ [(n_insns g + zlen L, false)]),
          extend (L ++ [insn JEQ_K kk]) g)) /\
  (CF_MAX_INSNS < n_insns g + zlen L + 1 -> reports (emit_leaf L kk t0 f0 g)).
Proof.
  intros Ht Hf Hn. destruct (push_all_spec L g) as [H1 H2]. unfold emit_leaf.
  assert (n_insns (extend L g) = n_insns g + zlen L) as Hn'
    by (unfold n_insns, extend; cbn [insns]; by rewrite zlen_app).
  split; intros Hx.
  - rewrite (gen_bind_some _ _ _ _ _ (H1 ltac:(lia))). unfold gen_push, pl_add, lift, mbind, gen_bind.
    rewrite Hn'. repeat (zcase; []). cbn. unfold extend. cbn [insns gen_ctx]. by rewrite <- app_assoc.
  - destruct (Z.le_gt_cases (n_insns g + zlen L) CF_MAX_INSNS).
    + rewrite (gen_bind_some _ _ _ _ _ (H1 ltac:(lia))). apply reports_bind.
      unfold gen_push, gen_fail. rewrite Hn'. zcase. eexists. split; [done|]. apply fail_failed.
    + apply reports_bind, H2; lia.
Qed.

Lemma emit_leaf_cons f L kk t0 f0 g :
  (_ ← gen_push f; emit_leaf L kk t0 f0) g = emit_leaf (f :: L) kk t0 f0 g.
Proof. unfold emit_leaf. cbn [push_all]. by rewrite gen_bind_assoc. Qed.

Lemma pl_append_spec src : forall dst, zlen dst + zlen src <= CF_MAX_INSNS ->
  pl_append dst src = Ret (dst ++ src).
Proof.
  induction src as [|[i b] src IH]; intros dst Hn; cbn [pl_append]; [by rewrite app_nil_r|].
  rewrite zlen_cons in Hn. pose proof (zlen_nonneg src). unfold pl_add. zcase. obind.
  rewrite IH by (rewrite zlen_app; cbn; unfold zlen in *; cbn; lia). by rewrite <- app_assoc.
Qed.

(** ** The whole generator *)

(** Longest code in which every jump is sure to fit its 8-bit field. *)
Definition MAX_JUMP_CODE : Z := 256.

(** What compiling [n] does: it appends a segment and the segment's open exits, or
    reports an error, the latter only for a large expression. *)
Definition compiled (n : node_t) (t0 f0 : patch_list_t) (g : cf_gen_t)
    (res : outcome (option (patch_list_t * patch_list_t) * cf_gen_t)) : Prop :=
  (exists tn fn new, res = Ret (Some (t0 ++ tn, f0 ++ fn), extend new g) /\
     segment n (n_insns g) new tn fn /\ n_insns g + icount n <= CF_MAX_INSNS) \/
  (reports res /\ (MAX_JUMP_CODE < icount n \/ CF_MAX_INSNS < n_insns g + icount n)).

Lemma check_ok {B} (f : unit -> gen B) g :
  failed (gen_ctx g) = false -> (check_failed ≫= f) g = f tt g.
Proof. intros H. unfold mbind, gen_bind, check_failed. by rewrite H. Qed.

Lemma leaf_compiled n L kk t0 f0 g :
  zlen t0 < CF_MAX_INSNS -> zlen f0 < CF_MAX_INSNS -> n_insns g <= CF_MAX_INSNS ->
  icount n = zlen L + 1 -> leaves n = 1 -> 1 <= zlen L -> 0 <= kk < 2 ^ 32 ->
  Forall (fun f => code f ∈ PLAIN_CODES /\ 0 <= k f < 2 ^ 32) L ->
  (forall D pkt open, frame_ok pkt -> agrees D (n_insns g) L open ->
     exists val, loads D pkt (n_insns g) (length L) val /\ eval n pkt = (v ← val; Some (v =? kk))) ->
  compiled n t0 f0 g (emit_leaf L kk t0 f0 g).
Proof.
  intros Ht Hf Hn Hi Hlv HL Hk Hcodes Hsem.
  assert (0 <= n_insns g) by apply zlen_nonneg.
  destruct (emit_leaf_spec L kk t0 f0 g Ht Hf Hn) as [H1 H2].
  destruct (Z.le_gt_cases (n_insns g + zlen L + 1) CF_MAX_INSNS).
  - left. do 3 eexists. split; [apply H1; lia|]. split; [by apply segment_leaf|lia].
  - right. split; [apply H2; lia|right; lia].
Qed.

Ltac solve_codes :=
  repeat (apply Forall_cons_2; [split; [solve [repeat constructor]|cbn [insn k]]|]);
  try apply Forall_nil_2.

Lemma prefix_mask_range len : 0 <= prefix_mask len < 2 ^ 32.
Proof. unfold prefix_mask. repeat zcase. apply u32_range. Qed.

Lemma addr_off_range dir : 0 <= addr_off dir < 2 ^ 31.
Proof. by destruct dir. Qed.

Lemma compile_leaf n t0 f0 g :
  match n with N_AND _ _ | N_OR _ _ | N_NOT _ => False | _ => True end ->
  node_ok n -> failed (gen_ctx g) = false ->
  zlen t0 < CF_MAX_INSNS -> zlen f0 < CF_MAX_INSNS -> n_insns g <= CF_MAX_INSNS ->
  compiled n t0 f0 g (compile_node n t0 f0 g).
Proof.
  intros Hleaf Hok Hfl Ht Hf Hn. assert (0 <= n_insns g) by apply zlen_nonneg.
  destruct n as [| | |k_|k_|dir addr|dir k_|dir addr len]; try done; cbn [compile_node node_ok] in *;
    rewrite check_ok by done.
  - apply leaf_compiled; try done; [by solve_codes|]. intros D pkt open Hp Ha.
    exists (pkt_load pkt 12 2). split; [|done].
    apply (loads_abs _ _ _ open Hp ltac:(done) LD_H_ABS 12 2); [tauto|done|done].
  - apply leaf_compiled; try done; [by solve_codes|]. intros D pkt open Hp Ha.
    exists (pkt_load pkt 23 1). split; [|done].
    apply (loads_abs _ _ _ open Hp ltac:(done) LD_B_ABS 23 1); [tauto|done|done].
  - destruct Hok as [L4 Hb]. destruct (addr_to_u32_ok addr L4 Hb) as [E Hr].
    pose proof (addr_off_range dir). unfold lift at 1. unfold mbind at 1, gen_bind. rewrite E. obind.
    apply leaf_compiled; try done; [solve_codes; lia|]. intros D pkt open Hp Ha.
    exists (pkt_load pkt (addr_off dir) 4). split; [|by destruct dir].
    apply (loads_abs _ _ _ open Hp ltac:(done) LD_W_ABS _ 4); [tauto|done|done].
  - rewrite emit_leaf_cons. apply leaf_compiled; try done; [by solve_codes; destruct dir|].
    intros D pkt open Hp Ha. eexists. split; [by eapply loads_port; [..|exact Ha]; destruct dir|].
    cbn [eval]. destruct (pkt_load pkt 14 1) as [b|]; [|done]. cbn.
    by replace (port_off dir + 4 * (b mod 16))
      with (14 + 4 * (b mod 16) + match dir with DIR_SRC => 0 | DIR_DST => 2 end)
      by (destruct dir; unfold port_off, OFF_IP_IHL_BYTE; lia).
  - destruct Hok as (L4 & Hb & Hlen). destruct (addr_to_u32_ok addr L4 Hb) as [E Hr].
    pose proof (addr_off_range dir). pose proof (prefix_mask_range len) as Hm.
    unfold lift at 1. unfold mbind at 1, gen_bind. rewrite E. obind.
    apply leaf_compiled; try done; [|solve_codes; lia|].
    + rewrite prefix_mask_spec by done. assert (0 < 2 ^ (32 - len)) by (apply Z.pow_pos_nonneg; lia).
      pose proof (Z.mul_div_le (be_bytes addr) (2 ^ (32 - len)) ltac:(lia)).
      pose proof (Z.div_pos (be_bytes addr) (2 ^ (32 - len)) ltac:(lia) ltac:(lia)). nia.
    + intros D pkt open Hp Ha. eexists. split; [by eapply loads_net|]. cbn [eval].
      replace (match dir with DIR_SRC => 26 | DIR_DST => 30 end) with (addr_off dir) by by destruct dir.
      destruct (pkt_load pkt (addr_off dir) 4) as [v|] eqn:Hv; [|done]. cbn.
      apply pkt_load_range in Hv; [|apply Hp|lia]. by rewrite mask_compare.
Qed.

Lemma n_insns_extend new g : n_insns (extend new g) = n_insns g + zlen new.
Proof. unfold n_insns, extend. cbn [insns]. apply zlen_app. Qed.

Lemma extend_extend l1 l2 g : extend l2 (extend l1 g) = extend (l1 ++ l2) g.
Proof. unfold extend. cbn [insns gen_ctx]. by rewrite <- app_assoc. Qed.

(** Resolving some exits of the code just emitted. *)
Lemma resolve_segment pat target cl g :
  failed (gen_ctx g) = false ->
  (forall e, e ∈ pat -> n_insns g + 1 <= e.1 < n_insns g + zlen cl) ->
  n_insns g + zlen cl <= target ->
  (exists cl', resolve pat target (extend cl g) = Ret (Some tt, extend cl' g) /\
     patched (n_insns g) pat target cl cl' /\ Forall (fun e => target - (e.1 + 1) <= 255) pat) \/
  (reports (resolve pat target (extend cl g)) /\ 255 < target - (n_insns g + 2)).
Proof.
  intros Hf Hin Ht. assert (0 <= n_insns g) by apply zlen_nonneg.
  destruct (pl_resolve_spec pat target (extend cl g)) as (g' & E & Hg').
  - rewrite n_insns_extend. apply Forall_forall. intros e He. specialize (Hin e He).
    unfold in_segment. lia.
  - apply Forall_forall. intros e He. specialize (Hin e He). lia.
  - unfold resolve. rewrite E. obind. unfold check_failed.
    destruct Hg' as [(Hctx & Hp & Ho)|(Hfl & e & He & Ho)]; [left|right].
    + cbn [extend gen_ctx insns] in Hctx, Hp. apply patched_split in Hp as (cl' & Hi & Hp).
      2: { apply Forall_forall. intros e He. specialize (Hin e He). unfold in_segment, n_insns in *. lia. }
      exists cl'. rewrite Hctx, Hf. split_and!; [|done..]. destruct g' as [i' c']. cbn in *.
      by subst.
    + rewrite Hfl. split; [by exists g'|]. specialize (Hin e He). lia.
Qed.

Lemma compiled_bind n t0 f0 g m (f : patch_list_t * patch_list_t -> gen (patch_list_t * patch_list_t)) :
  reports (m g) -> (MAX_JUMP_CODE < icount n \/ CF_MAX_INSNS < n_insns g + icount n) ->
  compiled n t0 f0 g ((m ≫= f) g).
Proof. intros H Hn. right. split; [by apply reports_bind|done]. Qed.

Lemma lift_ret {A B} (a : A) (f : A -> gen B) g : (lift (Ret a) ≫= f) g = f a g.
Proof. reflexivity. Qed.

Section Binary.
Context (l r : node_t) (t0 f0 : patch_list_t) (g : cf_gen_t).
Context (IHl : compiled l [] [] g (compile_node l [] [] g)).
Context (IHr : forall cl', zlen cl' = icount l -> n_insns g + icount l <= CF_MAX_INSNS ->
  compiled r [] [] (extend cl' g) (compile_node r [] [] (extend cl' g))).
Context (Hfl : failed (gen_ctx g) = false).
Context (Ht : zlen t0 + (leaves l + leaves r) <= CF_MAX_INSNS).
Context (Hf : zlen f0 + (leaves l + leaves r) <= CF_MAX_INSNS).

Lemma compile_and : compiled (N_AND l r) t0 f0 g (compile_node (N_AND l r) t0 f0 g).
Proof using IHl IHr Hfl Ht Hf.
  assert (0 <= n_insns g) by apply zlen_nonneg. pose proof (icount_pos l). pose proof (icount_pos r).
  cbn [compile_node]. rewrite check_ok by done.
  destruct IHl as [(lt & lf & cl & E & Sl & Hn)|[Hrep Hbig]].
  2: { right. split; [by apply reports_bind|cbn [icount]; lia]. }
  rewrite (gen_bind_some _ _ _ _ _ E). cbn [app]. unfold get_pc at 1, mbind at 1, gen_bind at 1. obind.
  rewrite n_insns_extend. pose proof (seg_len _ _ _ _ _ Sl) as Ll.
  destruct (resolve_segment lt (n_insns g + zlen cl) cl g) as [(cl' & E' & Hp & Ho)|[Hrep Ho]];
    [done|intros e He; apply (segment_range _ _ _ _ _ e Sl); tauto|lia| |].
  2: { right. split; [by apply reports_bind|]. cbn [icount]. unfold MAX_JUMP_CODE. lia. }
  rewrite (gen_bind_some _ _ _ _ _ E').
  assert (zlen cl' = zlen cl) as Hlen by (unfold zlen; by rewrite (proj1 Hp)).
  destruct (IHr cl' ltac:(lia) Hn) as [(rt & rf & cr & E2 & Sr & Hn2)|[Hrep Hbig]].
  2: { right. split; [by apply reports_bind|]. rewrite n_insns_extend in Hbig. cbn [icount]. lia. }
  rewrite (gen_bind_some _ _ _ _ _ E2). cbn [app]. rewrite n_insns_extend, Hlen in Sr, Hn2.
  pose proof (seg_fn _ _ _ _ _ Sl). pose proof (seg_tn _ _ _ _ _ Sr). pose proof (seg_fn _ _ _ _ _ Sr).
  pose proof (leaves_bounds l). pose proof (leaves_bounds r).
  rewrite !pl_append_spec by (rewrite ?zlen_app; lia). rewrite !lift_ret.
  rewrite pl_append_spec by (rewrite ?zlen_app; lia). rewrite lift_ret.
  left. exists rt, (lf ++ rf), (cl' ++ cr). split_and!.
  - by rewrite <- app_assoc, extend_extend.
  - by eapply segment_and.
  - cbn [icount]. lia.
Qed.

Lemma compile_or : compiled (N_OR l r) t0 f0 g (compile_node (N_OR l r) t0 f0 g).
Proof using IHl IHr Hfl Ht Hf.
  assert (0 <= n_insns g) by apply zlen_nonneg. pose proof (icount_pos l). pose proof (icount_pos r).
  cbn [compile_node]. rewrite check_ok by done.
  destruct IHl as [(lt & lf & cl & E & Sl & Hn)|[Hrep Hbig]].
  2: { right. split; [by apply reports_bind|cbn [icount]; lia]. }
  rewrite (gen_bind_some _ _ _ _ _ E). cbn [app]. unfold get_pc at 1, mbind at 1, gen_bind at 1. obind.
  rewrite n_insns_extend. pose proof (seg_len _ _ _ _ _ Sl) as Ll.
  destruct (resolve_segment lf (n_insns g + zlen cl) cl g) as [(cl' & E' & Hp & Ho)|[Hrep Ho]];
    [done|intros e He; apply (segment_range _ _ _ _ _ e Sl); tauto|lia| |].
  2: { right. split; [by apply reports_bind|]. cbn [icount]. unfold MAX_JUMP_CODE. lia. }
  rewrite (gen_bind_some _ _ _ _ _ E').
  assert (zlen cl' = zlen cl) as Hlen by (unfold zlen; by rewrite (proj1 Hp)).
  destruct (IHr cl' ltac:(lia) Hn) as [(rt & rf & cr & E2 & Sr & Hn2)|[Hrep Hbig]].
  2: { right. split; [by apply reports_bind|]. rewrite n_insns_extend in Hbig. cbn [icount]. lia. }
  rewrite (gen_bind_some _ _ _ _ _ E2). cbn [app]. rewrite n_insns_extend, Hlen in Sr, Hn2.
  pose proof (seg_tn _ _ _ _ _ Sl). pose proof (seg_tn _ _ _ _ _ Sr). pose proof (seg_fn _ _ _ _ _ Sr).
  pose proof (leaves_bounds l). pose proof (leaves_bounds r).
  rewrite !pl_append_spec by (rewrite ?zlen_app; lia). rewrite !lift_ret.
  rewrite pl_append_spec by (rewrite ?zlen_app; lia). rewrite lift_ret.
  left. exists (lt ++ rt), rf, (cl' ++ cr). split_and!.
  - by rewrite <- app_assoc, extend_extend.
  - by eapply segment_or.
  - cbn [icount]. lia.
Qed.
End Binary.

Lemma compile_ok n : node_ok n -> forall t0 f0 g,
  failed (gen_ctx g) = false -> n_insns g <= CF_MAX_INSNS ->
  zlen t0 + leaves n <= CF_MAX_INSNS -> zlen f0 + leaves n <= CF_MAX_INSNS ->
  compiled n t0 f0 g (compile_node n t0 f0 g).
Proof.
  induction n as [l IHl r IHr|l IHl r IHr|l IHl|?|?|?|?|?]; intros Hok t0 f0 g Hfl Hn Ht Hf;
    try (apply compile_leaf; cbn [leaves] in *; done || lia); cbn [node_ok leaves] in *.
  - destruct Hok as [Hl Hr]. pose proof (leaves_bounds l). pose proof (leaves_bounds r).
    pose proof (zlen_nonneg t0).
    apply compile_and; [apply IHl; rewrite ?zlen_nil; done || lia| |done..].
    intros cl' Hcl Hx. apply IHr; try done; rewrite ?n_insns_extend, ?zlen_nil; lia.
  - destruct Hok as [Hl Hr]. pose proof (leaves_bounds l). pose proof (leaves_bounds r).
    pose proof (zlen_nonneg t0).
    apply compile_or; [apply IHl; rewrite ?zlen_nil; done || lia| |done..].
    intros cl' Hcl Hx. apply IHr; try done; rewrite ?n_insns_extend, ?zlen_nil; lia.
  - cbn [compile_node]. rewrite check_ok by done.
    destruct (IHl Hok f0 t0 g Hfl Hn Hf Ht) as [(tn & fn & new & E & S & Hx)|[Hrep Hbig]].
    + rewrite (gen_bind_some _ _ _ _ _ E). left. exists fn, tn, new.
      split_and!; [done|by apply segment_not|done].
    + right. split; [by apply reports_bind|done].
Qed.
