(* ===== verification/CapFilter.v ===== *)
(** * The capture filter compiler (src/src/c/capfilter.c, lines 730-820)

    [capfilter_compile] as a whole: lexer, parser and code generator put
    together, and what the BPF programs it returns compute. *)
From S2P Require Import Prelude Text Literals Bpf FilterCore Lexing BoolParser FrontEnd CapLexer CapParser CapCodegen.
From stdpp Require Import options.

Local Open Scope Z_scope.

Definition CF_ACCEPT_LEN : Z := 65535.

(** [struct sock_fprog]; [filter] is [None] for a NULL program. *)
Record sock_fprog := { len : Z; filter : option (list sock_filter) }.

Definition empty_fprog : sock_fprog := {| len := 0; filter := None |}.

(** What a call leaves behind: the return code, [*out] (absent when [out] is NULL) and
    the error buffer. *)
Record compile_result := { rc : Z; out : option sock_fprog; err_buf : option text }.

Definition reject (c : cf_ctx_t) : outcome compile_result :=
  Ret {| rc := -1; out := Some empty_fprog; err_buf := err c |}.

(** The code generation stage: both exits resolved and the two returns appended. *)
Definition gen_program (root : node_t) : gen unit :=
  '(true_list, false_list) ← compile_node root [] [];
  accept_pc ← get_pc;
  _ ← resolve true_list accept_pc;
  _ ← gen_push (insn (Z.lor BPF_RET BPF_K) CF_ACCEPT_LEN);
  reject_pc ← get_pc;
  _ ← resolve false_list reject_pc;
  _ ← gen_push (insn (Z.lor BPF_RET BPF_K) 0);
  mret tt.

(** [malloc n] is whether an allocation of [n] instructions succeeds. *)
Definition emit_program (malloc : Z -> bool) (c : cf_ctx_t) (root : node_t)
    : outcome compile_result :=
  '(r, g) ← gen_program root {| insns := []; gen_ctx := c |};
  match r with
  | None => reject (gen_ctx g)
  | Some tt =>
    if malloc (n_insns g) then
      Ret {| rc := 0;
             out := Some {| len := u16 (n_insns g); filter := Some (insns g) |};
             err_buf := err (gen_ctx g) |}
    else reject (cf_fail (gen_ctx g) (lit "out of memory compiling filter"))
  end.

Abbreviation check_trailing := (FrontEnd.check_trailing cf_syntax).

Definition compile_expr (malloc : Z -> bool) (c : cf_ctx_t) (expr : text)
    : outcome compile_result :=
  c ← cf_lex c expr;
  if failed c then reject c
  else
    '(root, st) ← parse_expr parse_fuel {| ctx := c; count := 0 |};
    c ← check_trailing st;
    if failed c then reject c
    else match root with
         | None => UB (* compile_node(&gen, NULL, ...) *)
         | Some root => emit_program malloc c root
         end.

Definition capfilter_compile (malloc : Z -> bool) (expr : option text) (out_ : out_arg)
    (err_ : option text) (err_len_ : Z) : outcome compile_result :=
  match out_ with
  | Null => Ret {| rc := -1; out := None; err_buf := err_ |}
  | Dest =>
    match expr with
    | None | Some [] => Ret {| rc := 0; out := Some empty_fprog; err_buf := err_ |}
    | Some expr => compile_expr malloc (init_ctx err_ err_len_) expr
    end
  end.

Definition capfilter_free (fprog : option sock_fprog) : option sock_fprog :=
  match fprog with
  | None => None
  | Some _ => Some empty_fprog
  end.

(** The program as the interpreter sees it: [len] instructions of [filter]. *)
Definition program (p : sock_fprog) : option (list sock_filter) :=
  match filter p with Some l => Some (take (Z.to_nat (len p)) l) | None => None end.

Definition run_compile (expr : string) : outcome compile_result :=
  capfilter_compile (fun _ => true) (Some (lit expr)) Dest (Some []) 80.

Example compile_tcp :
  run_compile "tcp" =
  Ret {| rc := 0;
         out := Some {| len := 6; filter := Some
           [insn 0x28 12; {| code := 0x15; jt := 0; jf := 3; k := 0x800 |};
            insn 0x30 23; {| code := 0x15; jt := 0; jf := 1; k := 6 |};
            insn 6 65535; insn 6 0] |};
         err_buf := Some [] |}.
Proof. vm_compute. reflexivity. Qed.

(** ** The stages fit together *)

Lemma lexes_tokens_ok s ts : lexes s ts -> Forall token_ok ts.
Proof.
  induction 1 as [|c s ts Hs Hl IH|w t s ts [Hw _] Hl IH]; [constructor|done|].
  constructor; [|done]. destruct Hw as [| | | | | |w t Hk|w Hne Hd Hv|w a Ha]; try done.
  - apply list_elem_of_In in Hk. cbn in Hk. repeat destruct Hk as [Hk|Hk]; by simplify_eq.
  - cbn. pose proof (dec_value_nonneg w Hd). lia.
  - by apply parse_ipv4_bytes in Ha.
Qed.

Lemma g_prim_node_ok ts n : g_prim ts n -> Forall token_ok ts -> node_ok n.
Proof.
  destruct 1 as [| | | | | |dir a|dir p Hp|dir a p Hp]; intros Ht; cbn; try done;
    apply Forall_app in Ht as [_ Ht]; rewrite !Forall_cons in Ht; cbn in Ht; split; try done.
  - destruct dir; cbn; tauto.
  - destruct Ht as (_ & Hn & _). destruct dir; cbn; repeat split; done || lia.
  - destruct Ht as (_ & [? ?] & _ & Hn & _).
    rewrite u8_small by (unfold is_byte; lia). destruct dir; cbn; repeat split; done || lia.
Qed.

(** An expression and the tree it denotes. *)
Abbreviation denotes := (FrontEnd.denotes cf_syntax tok_at).

Lemma denotes_node_ok expr n : denotes expr n -> node_ok n.
Proof.
  intros (ts & Hl & _ & Hg & _). apply lexes_tokens_ok in Hl. revert ts n Hg Hl.
  apply g_expr_all; [|by intros t ts [_ ?]%Forall_cons|apply g_prim_node_ok|done|done|done].
  by intros ts1 ts2 [? ?]%Forall_app.
Qed.

(** ** Complete programs *)

(** What the kernel's checker demands: known instructions with in-range jumps, and a
    return at the end. *)
Definition bpf_valid (prog : list sock_filter) : Prop :=
  zlen prog <= CF_MAX_INSNS /\ seg_valid 0 (zlen prog) prog [] /\
  exists f, last prog = Some f /\ code f = RET_K.

(** The verdict of a tree as the interpreter's return value. *)
Definition verdict (n : node_t) (pkt : list Z) : Z :=
  if bool_decide (eval n pkt = Some true) then CF_ACCEPT_LEN else 0.

Definition implements (prog : list sock_filter) (n : node_t) : Prop :=
  forall pkt, frame_ok pkt -> bpf_interp_run (Some prog) pkt (zlen pkt) = Ret (verdict n pkt).

(** Code that decides, followed by its two returns. *)
Lemma decides_program D n T F :
  (forall pkt, frame_ok pkt -> decides D pkt 0 (Z.to_nat (zlen D)) (eval n pkt) T F) ->
  zlen D <= CF_MAX_INSNS ->
  (exists f, D !! Z.to_nat T = Some f /\ code f = RET_K /\ k f = CF_ACCEPT_LEN) ->
  (exists f, D !! Z.to_nat F = Some f /\ code f = RET_K /\ k f = 0) ->
  implements D n.
Proof.
  intros Hdec Hlen (fT & HfT & HcT & HkT) (fF & HfF & HcF & HkF) pkt Hpkt.
  unfold bpf_interp_run. destruct D as [|f0 D]; [done|].
  destruct (Hdec pkt Hpkt {| acc := 0; idx := 0; pc := 0 |} eq_refl) as (c & Hc & R).
  assert (c < bpf_max_steps)%nat.
  { unfold CF_MAX_INSNS, bpf_max_steps in *. lia. }
  unfold verdict. destruct (eval n pkt) as [b|].
  - destruct R as (st & R & Hp). eapply bpf_loop_halts; [|done].
    destruct b; [rewrite bool_decide_eq_true_2 by done; exists st, fT
                |rewrite bool_decide_eq_false_2 by done; exists st, fF];
      (split; [exact R|]; rewrite Hp; split; [done|]; rewrite step_ret by done; congruence).
  - eapply bpf_loop_halts; done.
Qed.

(** The program built from a finished segment. *)
Lemma program_ok n new tn fn l1 l2 :
  segment n 0 new tn fn -> zlen new + 2 <= CF_MAX_INSNS ->
  patched 0 tn (zlen new) new l1 ->
  Forall (fun e => zlen new - (e.1 + 1) <= 255) tn ->
  patched 0 fn (zlen new + 1) (l1 ++ [insn RET_K CF_ACCEPT_LEN]) l2 ->
  Forall (fun e => zlen new + 1 - (e.1 + 1) <= 255) fn ->
  bpf_valid (l2 ++ [insn RET_K 0]) /\ implements (l2 ++ [insn RET_K 0]) n.
Proof.
  intros S Hlen P1 O1 P2 O2. set (mid := l1 ++ [insn RET_K CF_ACCEPT_LEN]) in *.
  assert (zlen l1 = zlen new) as L1 by (unfold zlen; by rewrite (proj1 P1)).
  assert (zlen mid = zlen new + 1) as Lm by (unfold mid; by rewrite zlen_app, L1).
  assert (zlen l2 = zlen new + 1) as L2 by (rewrite <- Lm; unfold zlen; by rewrite (proj1 P2)).
  pose proof (fun e => segment_range _ _ _ _ _ e S) as R. pose proof (zlen_nonneg new).
  split.
  - split; [rewrite zlen_app, L2; change (zlen [_]) with 1; lia|]. split; [|eexists; split; [apply last_snoc|done]].
    rewrite zlen_app, L2. change (zlen [_]) with 1.
    assert (forall x, seg_valid x (zlen new + 1 + 1) [insn RET_K 0] []) as Hret.
    { intros x [|i] f Hf; [|done]. injection Hf as <-. split; [done|]. left. repeat constructor. }
    apply seg_valid_app; [|apply Hret].
    eapply (seg_valid_patched 0 (zlen new + 1) mid l2 fn []); [|done| |done|lia].
    + rewrite app_nil_r. apply seg_valid_app.
      * eapply (seg_valid_patched 0 (zlen new) new l1 tn fn); [apply S|done| |done|lia].
        apply Forall_forall. intros e He. pose proof (R e ltac:(tauto)). lia.
      * intros [|i] f Hf; [|done]. injection Hf as <-. split; [done|]. left. repeat constructor.
    + apply Forall_forall. intros e He. pose proof (R e ltac:(tauto)). lia.
  - set (D := l2 ++ [insn RET_K 0]).
    assert (agrees D 0 l2 []) as A.
    { intros i f Hf. exists f. split_and!; [|done..]. by apply lookup_app_l_Some. }
    destruct (agrees_patched D 0 mid l2 fn [] [] (zlen new + 1)) as [A2 J2]; try done.
    { apply Forall_forall. intros e He. pose proof (R e ltac:(tauto)). unfold in_segment. lia. }
    { intros e _. apply not_elem_of_nil. }
    rewrite app_nil_r in A2. apply agrees_app in A2 as [A3 A4]; [|done].
    destruct (agrees_patched D 0 new l1 tn fn fn (zlen new)) as [A5 J5]; try done.
    { apply Forall_forall. intros e He. pose proof (R e ltac:(tauto)). unfold in_segment. lia. }
    { apply (seg_disj _ _ _ _ _ S). }
    apply (decides_program D n (zlen new) (zlen new + 1)).
    + intros pkt Hpkt st Hst.
      destruct (seg_sem _ _ _ _ _ S D pkt _ _ Hpkt A5 J5 J2 st Hst) as (c & Hc & ?).
      exists c. split; [|done]. unfold D. unfold zlen in *. rewrite length_app. lia.
    + unfold D. rewrite zlen_app, L2. change (zlen [_]) with 1. lia.
    + apply agrees_cons in A4 as [(f & Hf & Hc & Hk) _]; [|lia].
      rewrite Z.add_0_l, L1 in Hf. eauto.
    + exists (insn RET_K 0). split; [|done]. unfold D.
      rewrite <- L2. unfold zlen. rewrite Nat2Z.id. by apply list_lookup_middle.
Qed.

Lemma gen_push_spec f g :
  (n_insns g < CF_MAX_INSNS -> gen_push f g = Ret (Some (n_insns g), extend [f] g)) /\
  (CF_MAX_INSNS <= n_insns g -> reports (gen_push f g)).
Proof.
  unfold gen_push, gen_fail. split; intros; zcase; [done|]. eexists. split; [done|].
  apply fail_failed.
Qed.

Lemma run_get_pc {B} (f : Z -> gen B) g : (get_pc ≫= f) g = f (n_insns g) g.
Proof. reflexivity. Qed.

(** One exit: the fields [pat] are made to lead to the return instruction appended here. *)
Lemma exit_stage {B} pat cl f c (K : gen B) :
  failed c = false -> (forall e, e ∈ pat -> 1 <= e.1 < zlen cl) ->
  let g cl := {| insns := cl; gen_ctx := c |} in
  let stage := (pc_ ← get_pc; _ ← resolve pat pc_; _ ← gen_push f; K) in
  (exists cl', stage (g cl) = K (g (cl' ++ [f])) /\ zlen cl' = zlen cl /\ zlen cl < CF_MAX_INSNS /\
     patched 0 pat (zlen cl) cl cl' /\ Forall (fun e => zlen cl - (e.1 + 1) <= 255) pat) \/
  (reports (stage (g cl)) /\ 257 < zlen cl).
Proof.
  intros Hf Hin g stage. unfold stage. rewrite run_get_pc. change (n_insns (g cl)) with (zlen cl).
  pose (g0 := {| insns := []; gen_ctx := c |}).
  destruct (resolve_segment pat (zlen cl) cl g0) as [(cl' & E & P & O)|[Hrep Ho]];
    [done|exact Hin|apply Z.le_refl| |].
  2: { right. split; [by apply reports_bind|]. change (n_insns g0) with 0 in Ho. lia. }
  rewrite (gen_bind_some _ _ _ _ _ E). change (extend cl' g0) with (g cl').
  assert (zlen cl' = zlen cl) as L by (unfold zlen; by rewrite (proj1 P)).
  destruct (gen_push_spec f (g cl')) as [Hp Hp']. change (n_insns (g cl')) with (zlen cl') in Hp, Hp'.
  destruct (Z.lt_ge_cases (zlen cl) CF_MAX_INSNS).
  - left. exists cl'. rewrite (gen_bind_some _ _ _ _ _ (Hp ltac:(lia))). by split_and!.
  - right. split; [apply reports_bind, Hp'; lia|]. unfold CF_MAX_INSNS in *. lia.
Qed.

(** Code generation succeeds on every expression of moderate size, and whenever it
    succeeds the program is valid and computes the expression. *)
Lemma gen_program_ok n c :
  node_ok n -> size n <= CF_MAX_NODES -> failed c = false ->
  (exists prog, gen_program n {| insns := []; gen_ctx := c |} =
       Ret (Some tt, {| insns := prog; gen_ctx := c |}) /\
     zlen prog = icount n + 2 /\ bpf_valid prog /\ implements prog n) \/
  (reports (gen_program n {| insns := []; gen_ctx := c |}) /\ MAX_JUMP_CODE < icount n).
Proof.
  intros Hok Hsz Hf. set (g0 := {| insns := []; gen_ctx := c |}). unfold gen_program.
  pose proof (leaves_bounds n). unfold CF_MAX_NODES in Hsz.
  destruct (compile_ok n Hok [] [] g0 Hf) as [(tn & fn & new & E & S & Hn)|[Hrep Hbig]];
    [done|rewrite zlen_nil; unfold CF_MAX_INSNS; lia..| |].
  2: { right. split; [by apply reports_bind|]. change (n_insns g0) with 0 in Hbig.
       unfold MAX_JUMP_CODE, CF_MAX_INSNS in *. lia. }
  rewrite (gen_bind_some _ _ _ _ _ E). cbn [app].
  change (n_insns g0) with 0 in S. pose proof (seg_len _ _ _ _ _ S) as Ln.
  pose proof (fun e => segment_range _ _ _ _ _ e S) as R.
  set (K := (reject_pc ← get_pc; _ ← resolve fn reject_pc; _ ← gen_push _; _)).
  destruct (exit_stage tn new (insn RET_K CF_ACCEPT_LEN) c K Hf) as [(l1 & E1 & L1 & B1 & P1 & O1)|[Hrep Ho]];
    [intros e He; specialize (R e ltac:(tauto)); lia| |right; split; [done|unfold MAX_JUMP_CODE; lia]].
  change (extend new g0) with {| insns := new; gen_ctx := c |}.
  change (Z.lor BPF_RET BPF_K) with RET_K. rewrite E1. unfold K.
  change (Z.lor BPF_RET BPF_K) with RET_K. set (mid := l1 ++ [_]).
  assert (zlen mid = zlen new + 1) as Lm by (unfold mid; rewrite zlen_app, L1; done).
  destruct (exit_stage fn mid (insn RET_K 0) c (mret tt) Hf) as [(l2 & E2 & L2 & B2 & P2 & O2)|[Hrep Ho]];
    [intros e He; specialize (R e ltac:(tauto)); lia| |right; split; [done|unfold MAX_JUMP_CODE; lia]].
  rewrite E2. left. exists (l2 ++ [insn RET_K 0]). split; [done|]. split.
  - rewrite zlen_app, L2, Lm, Ln. change (zlen [_]) with 1. lia.
  - rewrite Lm in *. apply (program_ok n new tn fn l1 l2); done || lia.
Qed.

(** ** Error reporting *)

Section Reporting.
Context (c0 : cf_ctx_t).
Abbreviation reported := (FilterCore.reported c0).

(** The generator's steps keep the reported error. *)
Definition gkeeps {A} (m : gen A) : Prop := forall g r g',
  reported (gen_ctx g) -> m g = Ret (r, g') -> reported (gen_ctx g').

Lemma gkeeps_bind {A B} (m : gen A) (f : A -> gen B) :
  gkeeps m -> (forall a, gkeeps (f a)) -> gkeeps (m ≫= f).
Proof using.
  intros Hm Hf g r g' Hr E. unfold mbind, gen_bind in E.
  destruct (m g) as [[[a|] g1]| |] eqn:E1; [|obind in E; injection E as <- <-; by eapply Hm|done..].
  apply (Hf a g1 r g' (Hm g _ g1 Hr E1) E).
Qed.
Lemma gkeeps_ret {A} (a : A) : gkeeps (mret a).
Proof using. intros g r g' Hr E. by injection E as <- <-. Qed.
Lemma gkeeps_lift {A} (o : outcome A) : gkeeps (lift o).
Proof using. intros g r g' Hr E. unfold lift in E. destruct o; [|done..]. by injection E as <- <-. Qed.
Lemma gkeeps_check : gkeeps check_failed.
Proof using.
  intros g r g' Hr. unfold check_failed. split_goal; intros E; by injection E as <- <-.
Qed.
Lemma gkeeps_get_pc : gkeeps get_pc.
Proof using. intros g r g' Hr E. by injection E as <- <-. Qed.
Lemma gkeeps_push f : gkeeps (gen_push f).
Proof using.
  intros g r g' Hr. unfold gen_push, gen_fail. split_goal; intros E; injection E as <- <-; [|done].
  by apply reported_fail.
Qed.
Lemma gkeeps_resolve pl target : gkeeps (resolve pl target).
Proof using.
  induction pl as [|[i b] pl IH]; [by apply gkeeps_check|]. intros g r g' Hr.
  unfold resolve. cbn [pl_resolve]. 
  destruct (_ || _); obind; [apply gkeeps_check; by apply reported_fail|].
  destruct (_ || _); [done|].
  intros E. by eapply IH; [|exact E].
Qed.
#[local] Hint Resolve gkeeps_ret gkeeps_lift gkeeps_check gkeeps_get_pc gkeeps_push gkeeps_resolve
  : keeps.
Ltac gkeep :=
  repeat first
    [ solve [auto with keeps]
    | apply gkeeps_bind; [|intros ?]
    | match goal with |- gkeeps (match ?x with _ => _ end) => destruct x end ].

Lemma gkeeps_leaf L kk t f : gkeeps (emit_leaf L kk t f).
Proof using.
  apply gkeeps_bind; [induction L; cbn [push_all]; gkeep|]. intros _. gkeep.
Qed.
#[local] Hint Resolve gkeeps_leaf : keeps.

Lemma gkeeps_compile n : forall t f, gkeeps (compile_node n t f).
Proof using. induction n; intros t f; cbn [compile_node]; gkeep. Qed.
#[local] Hint Resolve gkeeps_compile : keeps.

Lemma gkeeps_program n : gkeeps (gen_program n).
Proof using. unfold gen_program. gkeep. Qed.
End Reporting.

(** ** All outcomes of a compilation *)

(** The tree, computed. *)
Abbreviation denote := (FrontEnd.denote cf_syntax cf_descent cf_lex_loop parse_fuel).

Lemma cf_denotes_unique expr n1 n2 : denotes expr n1 -> denotes expr n2 -> n1 = n2.
Proof. exact (denotes_unique cf_syntax cf_descent cf_lex_loop tok_at parse_fuel fuel_768 expr n1 n2). Qed.
Lemma cf_denote_spec expr ts n :
  cf_lex (init_ctx None 0) expr = Ret (set_toks (ts ++ [TOK_END]) (init_ctx None 0)) ->
  denote expr = Some n -> denotes expr n.
Proof. exact (denote_spec cf_syntax cf_descent cf_lex_loop tok_at parse_fuel fuel_768 expr ts n). Qed.

Section Outcomes.
Context (malloc : Z -> bool) (expr : text) (err_ : option text) (err_len_ : Z).
Abbreviation c0 := (init_ctx err_ err_len_).
Abbreviation res := (compile_expr malloc c0 expr).

(** Rejected: an error is reported, and no expression of moderate size is to blame
    unless memory ran out. *)
Definition rejected : Prop :=
  exists c, res = reject c /\ reported c0 c /\ failed c = true /\
    forall n, denotes expr n -> icount n <= MAX_JUMP_CODE -> malloc (icount n + 2) = false.

Definition accepted : Prop :=
  exists n prog, denotes expr n /\ bpf_valid prog /\ implements prog n /\
    zlen prog = icount n + 2 /\
    res = Ret {| rc := 0; out := Some {| len := zlen prog; filter := Some prog |}; err_buf := err_ |}.

(** From the tree on. *)
Lemma compile_tree n c :
  denotes expr n -> failed c = false -> reported c0 c ->
  (forall n', denotes expr n' -> n' = n) -> res = emit_program malloc c n ->
  rejected \/ accepted.
Proof using.
  intros Hd Hf Hr Hu E. pose proof (denotes_node_ok _ _ Hd) as Hok. unfold emit_program in E.
  assert (size n <= CF_MAX_NODES) as Hsz by (by destruct Hd as (? & _ & _ & _ & ?)).
  destruct (gen_program_ok n c Hok Hsz Hf) as [(prog & Ep & Hl & Hv & Hi)|[(g & Eg & Hg) Hbig]].
  - rewrite Ep in E. obind in E. unfold n_insns in E. cbn [insns gen_ctx] in E.
    destruct (malloc (zlen prog)) eqn:Hm.
    + right. exists n, prog. destruct Hr as [_ Hr]. rewrite Hf in Hr. split_and!; [done..|].
      rewrite E, Hr. rewrite u16_small; [done|].
      pose proof (zlen_nonneg prog). destruct Hv as [Hv _]. unfold CF_MAX_INSNS in Hv. lia.
    + left. eexists. split; [exact E|].
      split_and!; [by apply reported_fail|apply fail_failed|].
      intros n' Hn' Hic. apply Hu in Hn' as ->. by rewrite <- Hl.
  - left. exists (gen_ctx g). rewrite Eg in E. split_and!; [done| |done|].
    + by eapply (gkeeps_program c0); [|exact Eg].
    + intros n' Hn' Hic. apply Hu in Hn' as ->. lia.
Qed.

Lemma compile_outcomes :
  rejected \/ accepted \/ (exists ts, lexes expr ts /\ zlen ts = CF_MAX_TOKENS /\ res = UB).
Proof using.
  destruct (front_outcomes cf_syntax cf_descent cf_lex_loop tok_at parse_fuel fuel_768 reject
    (fun c root _ => match root with None => UB | Some root => emit_program malloc c root end)
    expr err_ err_len_) as [(c & E & Hr & Hf & Hd)|[(c & n & E & Hr & Hf & Hd)|Hub]].
  - left. exists c. split_and!; try done. intros n Hn. by apply Hd in Hn.
  - enough (rejected \/ accepted) by tauto. apply (compile_tree n c); try done.
    intros n' Hn'. by apply (cf_denotes_unique expr).
  - by right; right.
Qed.
End Outcomes.

(** Two of the messages: too many tokens, and no memory for a program that would fit. *)
Lemma compile_too_many malloc expr err_ err_len_ ts : lexes expr ts -> CF_MAX_TOKENS < zlen ts ->
  exists c, compile_expr malloc (init_ctx err_ err_len_) expr = reject c /\
    err c = report (init_ctx err_ err_len_ : cf_ctx_t) (lit "filter expression has too many tokens").
Proof.
  intros Hl Hn. unfold compile_expr, cf_lex.
  rewrite (lex_too_many TOK_END cf_lex_loop tok_at err_ err_len_ expr ts Hl Hn). obind. rewrite fail_failed. by eexists.
Qed.

Lemma compile_no_memory malloc expr err_ err_len_ n :
  denotes expr n -> icount n <= MAX_JUMP_CODE -> malloc (icount n + 2) = false ->
  exists c, compile_expr malloc (init_ctx err_ err_len_) expr = reject c /\
    err c = report (init_ctx err_ err_len_ : cf_ctx_t) (lit "out of memory compiling filter").
Proof.
  intros Hd Hic Hm. assert (size n <= CF_MAX_NODES) as Hsz by (by destruct Hd as (? & _ & _ & _ & ?)).
  destruct (front_complete cf_syntax cf_descent cf_lex_loop tok_at parse_fuel fuel_768 reject
    (fun c root _ => match root with None => UB | Some root => emit_program malloc c root end)
    expr err_ err_len_ n Hd) as (c & E & [Hl Hr] & Hf). rewrite Hf in Hr.
  destruct (gen_program_ok n c (denotes_node_ok _ _ Hd) Hsz Hf) as [(prog & Ep & Hlen & _)|[_ Hbig]]; [|lia].
  eexists. split.
  - etransitivity; [exact E|]. unfold emit_program. rewrite Ep. obind. unfold n_insns. cbn [insns gen_ctx].
    rewrite Hlen, Hm. done.
  - unfold cf_fail, fail. rewrite Hf. cbn [err]. unfold report. by rewrite Hl, Hr.
Qed.

Lemma compile_nonempty malloc expr err_ err_len_ :
  expr <> [] ->
  capfilter_compile malloc (Some expr) Dest err_ err_len_ = compile_expr malloc (init_ctx err_ err_len_) expr.
Proof. by destruct expr. Qed.

(** What is returned with code 0. *)
Lemma compile_accepts malloc expr err_ err_len_ r :
  capfilter_compile malloc (Some expr) Dest err_ err_len_ = Ret r -> expr <> [] -> rc r = 0 ->
  exists n prog, denotes expr n /\ out r = Some {| len := zlen prog; filter := Some prog |} /\
    bpf_valid prog /\ implements prog n.
Proof.
  intros E Hne Hrc. rewrite compile_nonempty in E by done.
  destruct (compile_outcomes malloc expr err_ err_len_)
    as [(c & Ec & _)|[(n & prog & Hd & Hv & Hi & _ & Ea)|(ts & _ & _ & Eu)]].
  - rewrite E in Ec. injection Ec as ->. done.
  - rewrite E in Ea. injection Ea as ->. exists n, prog. split_and!; done.
  - congruence.
Qed.

(** ** Properties *)

(** C3: whenever the compiler returns a program, the expression is a sentence of the filter
    language, the program has only in-range jumps and ends in a return, and on every
    frame the interpreter accepts (65535) exactly when the expression's tree evaluates to
    true without needing a byte beyond the frame, and returns 0 otherwise. *)
Theorem capfilter_compile_sound malloc expr err_ err_len_ r :
  capfilter_compile malloc (Some expr) Dest err_ err_len_ = Ret r -> expr <> [] -> rc r = 0 ->
  exists n prog, denotes expr n /\ out r = Some {| len := zlen prog; filter := Some prog |} /\
    bpf_valid prog /\
    forall pkt, frame_ok pkt -> bpf_interp_run (Some prog) pkt (zlen pkt) = Ret (verdict n pkt).
Proof. apply compile_accepts. Qed.

Definition port_expr : text := lit "not dst port 53 || src net 10.0.0.0/8".
Definition port_result : compile_result :=
  match run_compile "not dst port 53 || src net 10.0.0.0/8" with
  | Ret r => r
  | _ => {| rc := -1; out := None; err_buf := None |}
  end.

Lemma capfilter_compile_sound_witness :
  exists n prog, denotes port_expr n /\
    out port_result = Some {| len := zlen prog; filter := Some prog |} /\ bpf_valid prog /\
    forall pkt, frame_ok pkt -> bpf_interp_run (Some prog) pkt (zlen pkt) = Ret (verdict n pkt).
Proof.
  apply (capfilter_compile_sound (fun _ => true) port_expr (Some []) 80);
    [vm_compute; reflexivity|done|vm_compute; reflexivity].
Defined.

(** C20: every sentence of the filter language whose tree fits the node arena and takes at most
    256 instructions compiles (given the memory for it): return code 0, error buffer
    untouched, and a program of exactly its instructions and two returns that computes it. *)
Theorem capfilter_compile_complete malloc expr n err_ err_len_ :
  denotes expr n -> expr <> [] -> icount n <= MAX_JUMP_CODE -> malloc (icount n + 2) = true ->
  exists prog, bpf_valid prog /\ implements prog n /\ zlen prog = icount n + 2 /\
    capfilter_compile malloc (Some expr) Dest err_ err_len_ =
      Ret {| rc := 0; out := Some {| len := zlen prog; filter := Some prog |}; err_buf := err_ |}.
Proof.
  intros Hd Hne Hic Hm. rewrite compile_nonempty by done.
  destruct (compile_outcomes malloc expr err_ err_len_)
    as [(c & _ & _ & _ & Hno)|[(n' & prog & Hd' & Hv & Hi & Hl & Ea)|(ts & Hl & Hn & _)]].
  - rewrite Hno in Hm by done. done.
  - assert (n' = n) as -> by by apply (cf_denotes_unique expr). by exists prog.
  - exfalso. destruct Hd as (ts' & Hl' & Hn' & _).
    apply (lex_accepts TOK_END cf_lex_loop tok_at None 0) in Hl'; [|done].
    by rewrite (lex_overflows TOK_END cf_lex_loop tok_at None 0 expr ts) in Hl'.
Qed.

Definition sample_expr : text := lit "tcp and !(host 10.0.0.1 or src port 22)".

Lemma capfilter_compile_complete_witness :
  exists n, denotes sample_expr n /\
  exists prog, bpf_valid prog /\ implements prog n /\ zlen prog = icount n + 2 /\
    capfilter_compile (fun _ => true) (Some sample_expr) Dest None 0 =
      Ret {| rc := 0; out := Some {| len := zlen prog; filter := Some prog |}; err_buf := None |}.
Proof.
  assert (exists n, denotes sample_expr n /\ icount n <= MAX_JUMP_CODE) as (n & Hd & Hi).
  { eexists. split; [eapply cf_denote_spec|].
    - instantiate (1 := [TOK_PROTO_TCP; TOK_AND; TOK_NOT; TOK_LPAREN; TOK_HOST; TOK_IPV4 [10; 0; 0; 1];
        TOK_OR; TOK_SRC; TOK_PORT; TOK_NUMBER 22; TOK_RPAREN]). vm_compute. reflexivity.
    - vm_compute. reflexivity.
    - vm_compute. discriminate. }
  exists n. split; [exact Hd|].
  apply (capfilter_compile_complete (fun _ => true) sample_expr n None 0 Hd); [done|exact Hi|reflexivity].
Defined.

(** C29: every call either returns or, for an expression of exactly [CF_MAX_TOKENS] tokens,
    overruns the token array.  Success leaves the error buffer alone; failure is -1 with an
    empty program and, if there is a buffer with room, an error message in it: that there are
    too many tokens for an expression of more than [CF_MAX_TOKENS], and that memory ran out for
    a sentence of the language that takes at most 256 instructions, which is rejected only if
    malloc fails. *)
Theorem capfilter_compile_outcomes malloc expr out_ err_ err_len_ :
  let c0 : cf_ctx_t := init_ctx err_ err_len_ in
  (exists r, capfilter_compile malloc expr out_ err_ err_len_ = Ret r /\
     (rc r = 0 /\ err_buf r = err_ \/
      rc r = -1 /\
      match out_ with
      | Null => out r = None /\ err_buf r = err_
      | Dest => out r = Some empty_fprog /\
          (exists msg, err_buf r = report c0 msg) /\
          (forall e ts, expr = Some e -> lexes e ts -> CF_MAX_TOKENS < zlen ts ->
             err_buf r = report c0 (lit "filter expression has too many tokens")) /\
          (forall e n, expr = Some e -> denotes e n -> icount n <= MAX_JUMP_CODE ->
             malloc (icount n + 2) = false /\ err_buf r = report c0 (lit "out of memory compiling filter"))
      end)) \/
  (exists e ts, expr = Some e /\ lexes e ts /\ zlen ts = CF_MAX_TOKENS /\
     capfilter_compile malloc expr out_ err_ err_len_ = UB).
Proof.
  destruct out_; [|left; eexists; split; [done|]; right; done].
  destruct expr as [[|ch s]|]; [left; eexists; split; [done|]; by left| |left; eexists; split; [done|]; by left].
  cbn [capfilter_compile]. destruct (compile_outcomes malloc (ch :: s) err_ err_len_)
    as [(c & E & [_ Hr] & Hf & Hno)|[(n & prog & _ & _ & _ & _ & E)|(ts & Hl & Hn & E)]].
  - left. eexists. split; [exact E|]. right. rewrite Hf in Hr. split_and!; [done..| |].
    + intros e ts [= <-] Hl Hn. destruct (compile_too_many malloc _ err_ err_len_ ts Hl Hn) as (c' & E' & <-).
      rewrite E in E'. by injection E' as ->.
    + intros e n [= <-] Hd Hic. pose proof (Hno n Hd Hic) as Hm. split; [done|].
      destruct (compile_no_memory malloc _ err_ err_len_ n Hd Hic Hm) as (c' & E' & <-).
      rewrite E in E'. by injection E' as ->.
  - left. eexists. split; [exact E|]. by left.
  - right. exists (ch :: s), ts. by split_and!.
Qed.

(** the capture filter the README and the usage text suggest, "tcp port 443", is not in
    the language: juxtaposition is refused with a "trailing tokens" error. *)
Theorem readme_example_rejected :
  run_compile "tcp port 443" =
  Ret {| rc := -1; out := Some empty_fprog;
         err_buf := Some (lit "unexpected trailing tokens in filter expression") |}.
Proof. vm_compute. reflexivity. Qed.
