(* ===== verification/CapPrint.v ===== *)
(** * Listing a compiled filter (src/src/c/capfilter.c, lines 811-820)

    [capfilter_print], and a reader of its listings: nothing of a program is lost in print. *)
From S2P Require Import Prelude Text Literals Bpf CapFilter.
From stdpp Require Import options.

Local Open Scope Z_scope.

(** ** The code *)

(** ["%3u: code=0x%04x jt=%u jf=%u k=0x%x\n"] *)
Definition insn_line (i : Z) (f : sock_filter) : text :=
  setw 3 " " (num_text 10 i) ++ lit ": code=0x" ++ hex4 (code f) ++ lit " jt=" ++ num_text 10 (jt f) ++
  lit " jf=" ++ num_text 10 (jf f) ++ lit " k=0x" ++ num_text 16 (k f) ++ [newline].

(** The loop, with [n] instructions to go from index [i]. *)
Fixpoint print_insns (n : nat) (i : Z) (prog : list sock_filter) : outcome text :=
  match n with
  | O => Ret []
  | S n =>
    match prog !! Z.to_nat i with
    | None => UB
    | Some f => s ← print_insns n (i + 1) prog; Ret (insn_line i f ++ s)
    end
  end.

Definition empty_listing : text := lit "(empty filter - accepts everything)" ++ [newline].

Definition capfilter_print (fprog : option sock_fprog) : outcome text :=
  match fprog with
  | None => Ret empty_listing
  | Some p =>
    match filter p with
    | None => Ret empty_listing
    | Some prog => print_insns (Z.to_nat (len p)) 0 prog
    end
  end.

(** ** Reading a listing *)

(** [s] behind the prefix [p]. *)
Fixpoint expect (p s : text) : option text :=
  match p, s with
  | [], _ => Some s
  | a :: p, b :: s => if Ascii.eqb a b then expect p s else None
  | _ :: _, [] => None
  end.

Definition is_hex (c : ascii) : bool := 0 <=? hex_nibble c.
Definition hex_value (w : text) : Z := fold_left (fun v c => v * 16 + hex_nibble c) w 0.

(** A number in base ten or sixteen behind a prefix. *)
Definition read_dec (p s : text) : option (Z * text) :=
  s ← expect p s; let '(w, s) := span is_digit s in Some (dec_value w, s).
Definition read_hex (p s : text) : option (Z * text) :=
  s ← expect p s; let '(w, s) := span is_hex s in Some (hex_value w, s).

Definition read_line (s : text) : option (sock_filter * text) :=
  let s := snd (span (fun c => bool_decide (c = " "%char) || is_digit c) s) in
  '(code, s) ← read_hex (lit ": code=0x") s;
  '(jt, s) ← read_dec (lit " jt=") s;
  '(jf, s) ← read_dec (lit " jf=") s;
  '(k, s) ← read_hex (lit " k=0x") s;
  s ← expect [newline] s;
  Some ({| code := code; jt := jt; jf := jf; k := k |}, s).

Fixpoint read_lines (fuel : nat) (s : text) : option (list sock_filter) :=
  match fuel, s with
  | _, [] => Some []
  | O, _ => None
  | S fuel, _ => '(f, s) ← read_line s; fs ← read_lines fuel s; Some (f :: fs)
  end.

(** ** Numbers *)

Lemma expect_app p s : expect p (p ++ s) = Some s.
Proof. induction p as [|a p IH]; [done|]. cbn. by rewrite Ascii.eqb_refl. Qed.

Lemma read_dec_text p n s : 0 <= n -> match s with c :: _ => is_digit c = false | [] => True end ->
  read_dec p (p ++ num_text 10 n ++ s) = Some (n, s).
Proof.
  intros Hn Hs. unfold read_dec. rewrite expect_app. cbn [mbind option_bind]. destruct (dec_text_spec n Hn) as (_ & Hd & Hv & _).
  by rewrite span_app, Hv.
Qed.

Lemma hex_digits w : Forall (fun c => exists d, 0 <= d < 16 /\ c = digit_char d) w -> forallb is_hex w = true.
Proof.
  induction 1 as [|c w (d & Hd & ->) _ IH]; [done|]. cbn. rewrite IH. unfold is_hex. rewrite hex_nibble_char by done.
  by replace (0 <=? d) with true by (symmetry; apply Z.leb_le; lia).
Qed.

Lemma hex_value_zeros n w : hex_value (replicate n "0"%char ++ w) = hex_value w.
Proof. unfold hex_value. induction n as [|n IH]; [done|]. exact IH. Qed.

Lemma read_hex_text p w n s : 0 <= n -> match s with c :: _ => is_hex c = false | [] => True end ->
  read_hex p (p ++ setw w "0" (num_text 16 n) ++ s) = Some (n, s).
Proof.
  intros Hn Hs. unfold read_hex. rewrite expect_app. cbn [mbind option_bind].
  destruct (num_text_spec 16 ltac:(lia) hex_nibble n hex_nibble_char Hn) as (_ & Hd & Hv & _).
  unfold setw. rewrite span_app; [|apply hex_digits, Forall_app; split; [apply Forall_replicate; by exists 0|done]|done].
  rewrite hex_value_zeros. unfold hex_value. by rewrite Hv.
Qed.

(** ** Lines *)

(** The fields of an instruction are unsigned. *)
Definition unsigned (f : sock_filter) : Prop := 0 <= code f /\ 0 <= jt f /\ 0 <= jf f /\ 0 <= k f.

Lemma read_line_insn i f s : 0 <= i -> unsigned f -> read_line (insn_line i f ++ s) = Some (f, s).
Proof.
  intros Hi (Hc & Ht & Hf & Hk). unfold read_line, insn_line. rewrite <- !app_assoc.
  destruct (dec_text_spec i Hi) as (_ & Hd & _). unfold setw at 1. rewrite <- app_assoc, app_assoc, span_app; [| |done].
  2: { rewrite forallb_app. apply andb_true_iff. split.
       - by induction (3 - length (num_text 10 i))%nat.
       - rewrite forallb_forall in Hd |- *. intros c Hin. rewrite (Hd c Hin). apply orb_true_r. }
  cbn [snd]. unfold hex4. rewrite read_hex_text by done. cbn [mbind option_bind].
  rewrite read_dec_text by done. cbn [mbind option_bind]. rewrite read_dec_text by done. cbn [mbind option_bind].
  change (num_text 16 (k f)) with (setw 0 "0" (num_text 16 (k f))).
  rewrite read_hex_text by done. cbn [mbind option_bind]. rewrite expect_app. cbn [mbind option_bind].
  by destruct f.
Qed.

Lemma insn_line_length i f : (1 <= length (insn_line i f))%nat.
Proof. unfold insn_line. rewrite !length_app. cbn. lia. Qed.

Lemma read_insns prog : Forall unsigned prog -> forall n i, 0 <= i -> i + Z.of_nat n = zlen prog ->
  exists s, print_insns n i prog = Ret s /\
    forall fuel, (length s <= fuel)%nat -> read_lines fuel s = Some (drop (Z.to_nat i) prog).
Proof.
  intros Hu. induction n as [|n IH]; intros i Hi Hl.
  - exists []. split; [done|]. intros fuel _. rewrite drop_ge by (unfold zlen in Hl; lia). by destruct fuel.
  - cbn [print_insns]. destruct (lookup_lt_is_Some_2 prog (Z.to_nat i)) as [f Hf]; [unfold zlen in Hl; lia|].
    rewrite Hf. destruct (IH (i + 1)) as (s & -> & Hs); [lia..|]. obind. eexists. split; [done|]. intros fuel Hfuel.
    rewrite length_app in Hfuel. pose proof (insn_line_length i f). destruct fuel as [|fuel]; [lia|].
    rewrite (drop_S prog f) by done. cbn [read_lines]. destruct (insn_line i f ++ s) eqn:E.
    { apply app_nil in E as [E _]. rewrite E in H. cbn in H. lia. }
    rewrite <- E, read_line_insn; [|done|by eapply Forall_lookup_1]. cbn [mbind option_bind].
    rewrite Hs by lia. cbn [mbind option_bind]. by replace (Z.to_nat (i + 1)) with (S (Z.to_nat i)) by lia.
Qed.

(** Every instruction of a program is listed, in order and in full: the listing reads back as
    the program. *)
Theorem listing_read_back prog : Forall unsigned prog ->
  exists s, capfilter_print (Some {| len := zlen prog; filter := Some prog |}) = Ret s /\
    read_lines (length s) s = Some prog.
Proof.
  intros Hu. destruct (read_insns prog Hu (Z.to_nat (zlen prog)) 0) as (s & E & Hs); [lia|unfold zlen; lia|].
  exists s. split; [done|]. by rewrite Hs.
Qed.

Example listing_of_tcp :
  match run_compile "tcp" with
  | Ret r => capfilter_print (out r) = Ret (
      lit "  0: code=0x0028 jt=0 jf=0 k=0xc" ++ newline ::
      lit "  1: code=0x0015 jt=0 jf=3 k=0x800" ++ newline ::
      lit "  2: code=0x0030 jt=0 jf=0 k=0x17" ++ newline ::
      lit "  3: code=0x0015 jt=0 jf=1 k=0x6" ++ newline ::
      lit "  4: code=0x0006 jt=0 jf=0 k=0xffff" ++ newline ::
      lit "  5: code=0x0006 jt=0 jf=0 k=0x0" ++ [newline])
  | _ => False
  end.
Proof. vm_compute. reflexivity. Qed.
