(* ===== verification/DispLexer.v ===== *)
(** * The display filter's lexer (src/src/c/dispfilter.c, lines 12-431)

    [df_lex] and the lexical grammar it implements: field names, address literals
    of three kinds, numbers and operators. *)
From S2P Require Import Prelude Text Literals FilterCore Lexing.
From stdpp Require Import options.

Local Open Scope Z_scope.

Inductive df_field_t :=
| FIELD_ETH_SRC
| FIELD_ETH_DST
| FIELD_ETH_ADDR
| FIELD_IP_SRC
| FIELD_IP_DST
| FIELD_IP_ADDR
| FIELD_IPV6_SRC
| FIELD_IPV6_DST
| FIELD_IPV6_ADDR
| FIELD_TCP_SRCPORT
| FIELD_TCP_DSTPORT
| FIELD_TCP_PORT
| FIELD_UDP_SRCPORT
| FIELD_UDP_DSTPORT
| FIELD_UDP_PORT.

Inductive token_t :=
| TOK_END
| TOK_LPAREN
| TOK_RPAREN
| TOK_AND
| TOK_OR
| TOK_NOT
| TOK_EQ
| TOK_NE
| TOK_FIELD (field : df_field_t)
| TOK_NUMBER (num : Z)
| TOK_IPV4 (ipv4 : list Z)
| TOK_IPV6 (ipv6 : list Z)
| TOK_MAC (mac : list Z).

#[export] Instance df_field_eq_dec : EqDecision df_field_t.
Proof. solve_decision. Defined.
#[export] Instance token_eq_dec : EqDecision token_t.
Proof. solve_decision. Defined.

(** dispfilter.c's names for what it shares with capfilter.c. *)
Abbreviation DF_MAX_TOKENS := MAX_TOKENS.
Abbreviation df_ctx_t := (ctx_t token_t).
Abbreviation df_fail := fail.
Abbreviation df_failf := failf.

(** ** Words *)

Definition KEYWORDS : list (text * token_t) :=
  [ (lit "and", TOK_AND); (lit "or", TOK_OR); (lit "not", TOK_NOT);
    (lit "eth.src", TOK_FIELD FIELD_ETH_SRC); (lit "eth.dst", TOK_FIELD FIELD_ETH_DST);
    (lit "eth.addr", TOK_FIELD FIELD_ETH_ADDR);
    (lit "ip.src", TOK_FIELD FIELD_IP_SRC); (lit "ip.dst", TOK_FIELD FIELD_IP_DST);
    (lit "ip.addr", TOK_FIELD FIELD_IP_ADDR);
    (lit "ipv6.src", TOK_FIELD FIELD_IPV6_SRC); (lit "ipv6.dst", TOK_FIELD FIELD_IPV6_DST);
    (lit "ipv6.addr", TOK_FIELD FIELD_IPV6_ADDR);
    (lit "tcp.srcport", TOK_FIELD FIELD_TCP_SRCPORT);
    (lit "tcp.dstport", TOK_FIELD FIELD_TCP_DSTPORT);
    (lit "tcp.port", TOK_FIELD FIELD_TCP_PORT);
    (lit "udp.srcport", TOK_FIELD FIELD_UDP_SRCPORT);
    (lit "udp.dstport", TOK_FIELD FIELD_UDP_DSTPORT);
    (lit "udp.port", TOK_FIELD FIELD_UDP_PORT) ].

(** The linear search through the table. *)
Fixpoint keyword (table : list (text * token_t)) (word : text) : option token_t :=
  match table with
  | [] => None
  | (w, t) :: table => if bool_decide (word = w) then Some t else keyword table word
  end.

Definition is_word_char (c : ascii) : bool :=
  isalnum c || bool_decide (c = "_"%char) || bool_decide (c = "."%char) ||
  bool_decide (c = ":"%char).

(** [expr[i + 1] == ch], the text standing at [i + 1]. *)
Definition starts_with (ch : ascii) (s : text) : bool :=
  match s with c :: _ => bool_decide (c = ch) | [] => false end.

(** The branch of a word: the token, or what the error says. *)
Definition word_token (word : text) : outcome (token_t + text) :=
  if negb (forallb not_colon word) then
    match parse_mac_word word with
    | Some mac => Ret (inl (TOK_MAC mac))
    | None =>
      r ← parse_ipv6_word word;
      match r with
      | Some ipv6 => Ret (inl (TOK_IPV6 ipv6))
      | None => Ret (inr (lit "invalid MAC or IPv6 literal"))
      end
    end
  else if match word with c :: _ => is_digit c | [] => false end then
    match parse_ipv4_word word with
    | Some addr => Ret (inl (TOK_IPV4 addr))
    | None =>
      if negb (forallb is_digit word) then Ret (inr (lit "invalid number or IPv4 address"))
      else
        let v := strtoul word in
        if 0xFFFFFFFF <? v then Ret (inr (lit "number out of range"))
        else Ret (inl (TOK_NUMBER (u32 v)))
    end
  else
    match keyword KEYWORDS word with
    | Some t => Ret (inl t)
    | None => Ret (inr (lit "unknown field or keyword '" ++ take 63 word ++ lit "'"))
    end.

(** ** The lexer *)

Fixpoint df_lex_loop (fuel : nat) (c : df_ctx_t) (s : text) : outcome df_ctx_t :=
  match fuel with
  | O => Timeout
  | S fuel =>
    match s with
    | [] =>
      if n_toks c <? DF_MAX_TOKENS then Ret (push_tok c TOK_END)
      else UB (* toks[DF_MAX_TOKENS] is outside the array *)
    | ch :: s1 =>
      if is_space ch then df_lex_loop fuel c s1
      else if DF_MAX_TOKENS <=? n_toks c then
        Ret (df_fail c (lit "filter expression has too many tokens"))
      else if bool_decide (ch = "("%char) then df_lex_loop fuel (push_tok c TOK_LPAREN) s1
      else if bool_decide (ch = ")"%char) then df_lex_loop fuel (push_tok c TOK_RPAREN) s1
      else if bool_decide (ch = "&"%char) && starts_with "&" s1 then
        df_lex_loop fuel (push_tok c TOK_AND) (drop 1 s1)
      else if bool_decide (ch = "|"%char) && starts_with "|" s1 then
        df_lex_loop fuel (push_tok c TOK_OR) (drop 1 s1)
      else if bool_decide (ch = "="%char) && starts_with "=" s1 then
        df_lex_loop fuel (push_tok c TOK_EQ) (drop 1 s1)
      else if bool_decide (ch = "!"%char) && starts_with "=" s1 then
        df_lex_loop fuel (push_tok c TOK_NE) (drop 1 s1)
      else if bool_decide (ch = "!"%char) then df_lex_loop fuel (push_tok c TOK_NOT) s1
      else if is_word_char ch then
        let '(word, rest) := span is_word_char s in
        r ← word_token word;
        match r with
        | inl t => df_lex_loop fuel (push_tok c t) rest
        | inr msg => Ret (df_fail c msg)
        end
      else Ret (df_fail c (lit "unexpected character in filter expression"))
    end
  end.

Definition df_lex (c : df_ctx_t) (expr : text) : outcome df_ctx_t :=
  df_lex_loop (S (length expr)) c expr.

Example df_lex_sample :
  df_lex (init_ctx None 0) (lit "!tcp.port!=443&&ipv6.addr == ::1 or eth.src==aa:BB:0c:00:11:fF") =
  Ret (set_toks [TOK_NOT; TOK_FIELD FIELD_TCP_PORT; TOK_NE; TOK_NUMBER 443; TOK_AND;
                 TOK_FIELD FIELD_IPV6_ADDR; TOK_EQ; TOK_IPV6 (replicate 15 0 ++ [1]); TOK_OR;
                 TOK_FIELD FIELD_ETH_SRC; TOK_EQ; TOK_MAC [0xaa; 0xbb; 0x0c; 0; 0x11; 0xff];
                 TOK_END] (init_ctx None 0)).
Proof. vm_compute. reflexivity. Qed.

(** ** Specification: what the lexemes are *)

Inductive word_lexeme : text -> token_t -> Prop :=
| wl_keyword w t : (w, t) ∈ KEYWORDS -> word_lexeme w t
| wl_number w : w <> [] -> forallb is_digit w = true -> dec_value w < 2 ^ 32 ->
    word_lexeme w (TOK_NUMBER (dec_value w))
| wl_ipv4 w a : parse_ipv4_word w = Some a -> word_lexeme w (TOK_IPV4 a)
| wl_mac w m : forallb is_word_char w = true -> parse_mac_word w = Some m ->
    word_lexeme w (TOK_MAC m)
| wl_ipv6 w a : forallb is_word_char w = true -> parse_mac_word w = None ->
    forallb not_colon w = false -> parse_ipv6_word w = Ret (Some a) -> word_lexeme w (TOK_IPV6 a).

Inductive op_lexeme : text -> token_t -> Prop :=
| ol_lparen : op_lexeme (lit "(") TOK_LPAREN
| ol_rparen : op_lexeme (lit ")") TOK_RPAREN
| ol_and : op_lexeme (lit "&&") TOK_AND
| ol_or : op_lexeme (lit "||") TOK_OR
| ol_eq : op_lexeme (lit "==") TOK_EQ
| ol_ne : op_lexeme (lit "!=") TOK_NE
| ol_not : op_lexeme (lit "!") TOK_NOT.

(** Longest match: a word ends before a non-word character, and an exclamation mark
    before an equals sign is not a negation. *)
Inductive tok_at : text -> token_t -> text -> Prop :=
| ta_op w t s : op_lexeme w t -> (t = TOK_NOT -> starts_with "=" s = false) -> tok_at w t s
| ta_word w t s : word_lexeme w t ->
    match s with d :: _ => is_word_char d = false | [] => True end -> tok_at w t s.
Abbreviation lexes := (Lexing.lexes tok_at).

(** ** Words: the code and the specification agree *)

Lemma df_keyword_sound table w t : keyword table w = Some t -> (w, t) ∈ table.
Proof.
  induction table as [|[w' t'] table IH]; cbn [keyword]; intros H; [done|].
  case_bool_decide; simplify_eq; apply elem_of_cons; auto.
Qed.

(** The table has no duplicates, and its words are words that are no literals. *)
Definition keyword_ok (e : text * token_t) : bool :=
  bool_decide (keyword KEYWORDS (fst e) = Some (snd e)) && forallb is_word_char (fst e) &&
  forallb not_colon (fst e) && match fst e with c :: _ => negb (is_digit c) | [] => false end &&
  negb (bool_decide (snd e = TOK_END)).

Lemma df_keywords_ok : forallb keyword_ok KEYWORDS = true.
Proof. vm_compute. reflexivity. Qed.

Lemma df_keyword_complete w t : (w, t) ∈ KEYWORDS ->
  keyword KEYWORDS w = Some t /\ forallb is_word_char w = true /\ forallb not_colon w = true /\
  (exists c w', w = c :: w' /\ is_digit c = false) /\ t <> TOK_END.
Proof.
  intros Hin%list_elem_of_In. pose proof df_keywords_ok as H. rewrite forallb_forall in H.
  specialize (H _ Hin). unfold keyword_ok in H. cbn [fst snd] in H.
  rewrite !andb_true_iff, negb_true_iff in H.
  destruct H as [[[[H1%bool_decide_eq_true H2] H3] H4] H5%bool_decide_eq_false].
  split_and!; [done..| |done]. destruct w as [|c w]; [done|]. exists c, w.
  by rewrite negb_true_iff in H4.
Qed.

Lemma digit_word_char c : is_digit c = true -> is_word_char c = true /\ not_colon c = true.
Proof.
  intros H. split.
  - unfold is_word_char, isalnum. by rewrite H, orb_true_r.
  - unfold not_colon. apply negb_true_iff, bool_decide_eq_false_2. by intros ->.
Qed.

Lemma digits_word w : forallb is_digit w = true ->
  forallb is_word_char w = true /\ forallb not_colon w = true.
Proof.
  rewrite !forallb_forall. intros H. split; intros c Hc; by apply digit_word_char, H.
Qed.

(** An address is made of digits and dots and starts with a digit. *)
Lemma df_ipv4_word_shape w a : parse_ipv4_word w = Some a ->
  forallb is_word_char w = true /\ forallb not_colon w = true /\
  exists c w', w = c :: w' /\ is_digit c = true.
Proof.
  intros (ws & L & Hw & -> & _)%parse_ipv4_word_iff.
  assert (forallb is_word_char (join "." ws) = true /\ forallb not_colon (join "." ws) = true) as [? ?].
  { clear L. induction Hw as [|w ws (_ & Hd & _) Hw IH]; [done|].
    apply digits_word in Hd as [H1 H2]. destruct ws as [|w' ws]; [done|].
    rewrite join_cons, !forallb_app, H1, H2. apply IH. }
  split_and!; [done..|]. destruct ws as [|w ws]; [done|].
  apply Forall_cons in Hw as [(Hne & Hd & _) _]. destruct w as [|c w]; [done|].
  cbn [forallb] in Hd. apply andb_true_iff in Hd as [Hc _].
  destruct ws as [|w' ws]; [by exists c, w|]. rewrite join_cons. by eexists c, _.
Qed.

Lemma word_lexeme_shape w t : word_lexeme w t ->
  w <> [] /\ forallb is_word_char w = true /\ t <> TOK_END.
Proof.
  destruct 1 as [w t Hk|w Hne Hd Hv|w a Ha|w m Hw Hm|w a Hw Hm Hc Ha].
  - apply df_keyword_complete in Hk as (_ & Hw & _ & (c & w' & -> & _) & Ht). done.
  - split_and!; [done| |done]. by apply digits_word.
  - apply df_ipv4_word_shape in Ha as (Hw & _ & c & w' & -> & _). done.
  - split_and!; [|done..]. by intros ->.
  - split_and!; [|done..]. by intros ->.
Qed.

Lemma word_token_complete w t : word_lexeme w t -> word_token w = Ret (inl t).
Proof.
  unfold word_token. destruct 1 as [w t Hk|w Hne Hd Hv|w a Ha|w m Hw Hm|w a Hw Hm Hc Ha].
  - apply df_keyword_complete in Hk as (Hk & _ & -> & (c & w' & -> & Hd) & _). cbn [negb].
    by rewrite Hd, Hk.
  - destruct (digits_word w Hd) as [_ ->]. cbn [negb]. destruct w as [|c w]; [done|].
    pose proof Hd as Hd'. cbn [forallb] in Hd'. apply andb_true_iff in Hd' as [-> _].
    rewrite digits_not_ipv4, Hd by done. cbn [negb]. pose proof (dec_value_nonneg _ Hd).
    unfold strtoul. rewrite Z.min_l by lia. zcase. by rewrite u32_small by lia.
  - destruct (df_ipv4_word_shape w a Ha) as (_ & -> & c & w' & -> & Hd). cbn [negb].
    by rewrite Hd, Ha.
  - by rewrite (parse_mac_colon w m), Hm.
  - by rewrite Hc, Hm, Ha.
Qed.

Lemma word_token_sound w : w <> [] -> forallb is_word_char w = true ->
  exists r, word_token w = Ret r /\ forall t, r = inl t -> word_lexeme w t.
Proof.
  intros Hne Hw. unfold word_token. destruct (forallb not_colon w) eqn:Hc; cbn [negb].
  - destruct w as [|c w]; [done|]. destruct (is_digit c) eqn:Hd.
    + destruct (parse_ipv4_word (c :: w)) as [a|] eqn:Ha.
      { eexists. split; [done|]. intros t [= <-]. by apply wl_ipv4. }
      destruct (forallb is_digit (c :: w)) eqn:Hdd; cbn [negb]; [|by eexists].
      pose proof (dec_value_nonneg _ Hdd). unfold strtoul. zcase; [by eexists|].
      eexists. split; [done|]. intros t [= <-]. rewrite Z.min_l by lia. rewrite u32_small by lia.
      apply wl_number; [done..|lia].
    + destruct (keyword KEYWORDS (c :: w)) as [t|] eqn:Hk; eexists; (split; [done|]); [|done].
      intros t' [= <-]. by apply wl_keyword, df_keyword_sound.
  - destruct (parse_mac_word w) as [m|] eqn:Hm.
    { eexists. split; [done|]. intros t [= <-]. by apply wl_mac. }
    destruct (parse_ipv6_total w) as (r & Hr & _). rewrite Hr. obind.
    destruct r as [a|]; eexists; (split; [done|]); [|done]. intros t [= <-]. by apply wl_ipv6.
Qed.

(** ** The loop obeys the laws of a lexer *)

(** Word characters start no other branch of the loop. *)
Lemma word_char_plain c : is_word_char c = true ->
  is_space c = false /\
  forallb (fun d => negb (bool_decide (c = d))) ["("; ")"; "&"; "|"; "="; "!"]%char = true.
Proof.
  intros H. split.
  - unfold is_space. apply bool_decide_eq_false_2. by intros [->|[->|[->| ->]]].
  - apply forallb_forall. intros d Hd. destruct (bool_decide_reflect (c = d)); [|done].
    subst. repeat destruct Hd as [<-|Hd]; done.
Qed.

Lemma loop_word fuel c w t s :
  word_lexeme w t -> match s with d :: _ => is_word_char d = false | [] => True end ->
  n_toks c < DF_MAX_TOKENS ->
  df_lex_loop (S fuel) c (w ++ s) = df_lex_loop fuel (push_tok c t) s.
Proof.
  intros Hl Hs Hn. destruct (word_lexeme_shape w t Hl) as (Hne & Hw & _).
  assert ((DF_MAX_TOKENS <=? n_toks c) = false) as Hn' by lia.
  destruct w as [|ch w]; [done|]. pose proof Hw as Hw'. cbn [forallb] in Hw'.
  apply andb_true_iff in Hw' as [Hch _]. destruct (word_char_plain ch Hch) as [Hsp Hf].
  cbn [forallb] in Hf. rewrite !andb_true_iff, !negb_true_iff in Hf. destruct_and! Hf.
  cbn [df_lex_loop app]. rewrite Hsp, Hn', Hch.
  repeat match goal with E : bool_decide _ = false |- _ => rewrite E; clear E end. cbn [andb].
  change (ch :: w ++ s) with ((ch :: w) ++ s). rewrite span_app by done.
  rewrite (word_token_complete _ _ Hl). done.
Qed.

Lemma loop_op fuel c w t s :
  op_lexeme w t -> (t = TOK_NOT -> starts_with "=" s = false) -> n_toks c < DF_MAX_TOKENS ->
  df_lex_loop (S fuel) c (w ++ s) = df_lex_loop fuel (push_tok c t) s.
Proof.
  intros Hl Hs Hn. assert ((DF_MAX_TOKENS <=? n_toks c) = false) as Hn' by lia.
  destruct Hl; cbn [df_lex_loop app lit String.list_ascii_of_string]; rewrite Hn'; try done.
  cbn [is_space]. rewrite Hs by done. done.
Qed.

Lemma df_loop_cases fuel c ch s :
  is_space ch = false -> n_toks c < DF_MAX_TOKENS ->
  (exists w t s', ch :: s = w ++ s' /\ tok_at w t s') \/
  (exists msg, df_lex_loop (S fuel) c (ch :: s) = Ret (df_fail c msg)).
Proof.
  intros Hs Hn. assert ((DF_MAX_TOKENS <=? n_toks c) = false) as Hn' by lia.
  destruct (is_word_char ch) eqn:Hw.
  { destruct (span is_word_char (ch :: s)) as [w r] eqn:E.
    pose proof E as E'. apply span_boundary in E as (Es & [w' ->] & Hall & Hr); [|done].
    destruct (word_token_sound (ch :: w')) as (res & Hres & Hsound); [done..|].
    destruct res as [t|msg].
    - left. exists (ch :: w'), t, r. split; [done|]. apply ta_word; [by apply Hsound|done].
    - right. exists msg. destruct (word_char_plain ch Hw) as [_ Hf]. cbn [forallb] in Hf.
      rewrite !andb_true_iff, !negb_true_iff in Hf. destruct_and! Hf.
      cbn [df_lex_loop]. rewrite Hs, Hn', Hw, E'.
      repeat match goal with H : bool_decide _ = false |- _ => rewrite H; clear H end. cbn [andb].
      by rewrite Hres. }
  assert (forall w t s', ch :: s = w ++ s' -> op_lexeme w t ->
    (t = TOK_NOT -> starts_with "=" s' = false) ->
    (exists w t s', ch :: s = w ++ s' /\ tok_at w t s')) as Hop.
  { intros w t s' E Hl Hx. exists w, t, s'. split; [done|]. by apply ta_op. }
  cbn [df_lex_loop]. rewrite Hs, Hn', Hw.
  repeat (case_bool_decide; [subst ch|]; cbn [andb]).
  1-2: left; eapply (Hop [_]); [reflexivity|constructor|done].
  1-3: destruct s as [|d s]; cbn [starts_with]; [eauto|]; case_bool_decide; [subst|eauto];
    left; eapply (Hop [_; _]); [reflexivity|constructor|done].
  - destruct (starts_with "=" s) eqn:Hx.
    + destruct s as [|d s]; [done|]. cbn [starts_with] in Hx. apply bool_decide_eq_true in Hx. subst.
      left. eapply (Hop [_; _]); [reflexivity|constructor|done].
    + left. eapply (Hop [_]); [reflexivity|constructor|done].
  - eauto.
Qed.

#[export] Instance df_lexer : Lexer TOK_END df_lex_loop tok_at.
Proof.
  split.
  - done.
  - intros fuel c ch s Hs. cbn [df_lex_loop]. by rewrite Hs.
  - intros fuel c ch s Hs Hn. cbn [df_lex_loop]. rewrite Hs. by zcase.
  - intros fuel c w t s Hl Hn. destruct Hl; [by apply loop_op|by apply loop_word].
  - intros. by apply df_loop_cases.
  - intros w t s [w' t' s' Hl _|w' t' s' Hl _].
    + destruct Hl; by eexists _, _.
    + destruct (word_lexeme_shape w' t' Hl) as (Hne & Hw & _). destruct w' as [|ch w']; [done|].
      exists ch, w'. split; [done|]. cbn [forallb] in Hw. apply andb_true_iff in Hw as [Hch _].
      by apply word_char_plain.
  - intros w t s [w' t' s' Hl _|w' t' s' Hl _]; [by destruct Hl|]. by apply (word_lexeme_shape w').
Qed.

(** ** Properties *)

(** C25: the display filter's lexer accepts an expression, with the token sequence [ts],
    exactly when the expression is a sequence of lexemes of [ts] (blanks ignored, longest
    match) and there are fewer than [DF_MAX_TOKENS] of them. *)
Theorem df_lex_exact err_ err_len_ expr ts :
  df_lex (init_ctx err_ err_len_) expr = Ret (set_toks (ts ++ [TOK_END]) (init_ctx err_ err_len_)) <->
  lexes expr ts /\ zlen ts < DF_MAX_TOKENS.
Proof. apply (lex_iff TOK_END df_lex_loop tok_at). Qed.

(** an expression of exactly [DF_MAX_TOKENS] tokens makes the display filter's lexer
    write the end marker one entry past its token array. *)
Theorem df_lex_overflow err_ err_len_ expr ts :
  lexes expr ts -> zlen ts = DF_MAX_TOKENS -> df_lex (init_ctx err_ err_len_) expr = UB.
Proof. apply (lex_overflows TOK_END df_lex_loop tok_at). Qed.

Lemma df_lexes_parens n : lexes (replicate n "("%char) (replicate n TOK_LPAREN).
Proof.
  induction n as [|n IH]; [constructor|].
  apply (lexes_tok _ ["("%char]); [|done]. apply ta_op; [constructor|done].
Qed.

Lemma df_lex_overflow_witness : df_lex (init_ctx None 0) (replicate 256 "("%char) = UB.
Proof.
  apply (df_lex_overflow _ _ _ (replicate 256 TOK_LPAREN) (df_lexes_parens 256)). reflexivity.
Defined.
