(* ===== verification/DispParser.v ===== *)
(** * The display filter's parser (src/src/c/dispfilter.c, lines 433-642)

    The AST, whose leaves compare a field with a literal of the field's type, and the
    recursive-descent parser.  Unlike the capture filter's, its loops return NULL as soon
    as a node cannot be allocated. *)
From S2P Require Import Prelude Text Literals FilterCore Lexing BoolParser DispLexer.
From stdpp Require Import options.

Local Open Scope Z_scope.

(** ** The AST *)

Abbreviation DF_MAX_NODES := MAX_NODES.

Inductive df_cmp_t := CMP_EQ | CMP_NE.

(** The value union of an [N_CMP] node. *)
Inductive df_value_t :=
| V_port (port : Z)
| V_ipv4 (ipv4 : list Z)
| V_ipv6 (ipv6 : list Z)
| V_mac (mac : list Z).

Inductive df_node_t :=
| N_AND (left_ right_ : df_node_t)
| N_OR (left_ right_ : df_node_t)
| N_NOT (left_ : df_node_t)
| N_CMP (field : df_field_t) (cmp : df_cmp_t) (value : df_value_t).

#[export] Instance df_cmp_eq_dec : EqDecision df_cmp_t.
Proof. solve_decision. Defined.
#[export] Instance df_value_eq_dec : EqDecision df_value_t.
Proof. solve_decision. Defined.
#[export] Instance df_node_eq_dec : EqDecision df_node_t.
Proof. solve_decision. Defined.

Abbreviation dparser := (parser token_t).
Abbreviation p_peek := (FilterCore.p_peek TOK_END).
Abbreviation p_advance := (FilterCore.p_advance TOK_END).

(** ** Primitives *)

(** The literal a field is compared with: its value, or the error. *)
Definition field_value (field : df_field_t) (val_tok : token_t) : df_value_t + text :=
  match field with
  | FIELD_ETH_SRC | FIELD_ETH_DST | FIELD_ETH_ADDR =>
    match val_tok with
    | TOK_MAC mac => inl (V_mac mac)
    | _ => inr (lit "expected a MAC address (aa:bb:cc:dd:ee:ff)")
    end
  | FIELD_IP_SRC | FIELD_IP_DST | FIELD_IP_ADDR =>
    match val_tok with
    | TOK_IPV4 ipv4 => inl (V_ipv4 ipv4)
    | _ => inr (lit "expected an IPv4 address")
    end
  | FIELD_IPV6_SRC | FIELD_IPV6_DST | FIELD_IPV6_ADDR =>
    match val_tok with
    | TOK_IPV6 ipv6 => inl (V_ipv6 ipv6)
    | _ => inr (lit "expected an IPv6 address")
    end
  | FIELD_TCP_SRCPORT | FIELD_TCP_DSTPORT | FIELD_TCP_PORT
  | FIELD_UDP_SRCPORT | FIELD_UDP_DSTPORT | FIELD_UDP_PORT =>
    match val_tok with
    | TOK_NUMBER num =>
      if 65535 <? num then inr (lit "expected a port number (0-65535)") else inl (V_port (u16 num))
    | _ => inr (lit "expected a port number (0-65535)")
    end
  end.

(** From the operator on; the node is allocated before its literal is checked. *)
Definition parse_comparison (field : df_field_t) (cmp : df_cmp_t) : dparser (option df_node_t) :=
  val_tok ← p_advance;
  ok ← mk_node;
  if ok : bool then
    match field_value field val_tok with
    | inl value => mret (Some (N_CMP field cmp value))
    | inr msg => fail_null msg
    end
  else mret None.

Definition parse_primitive : dparser (option df_node_t) :=
  field_tok ← p_advance;
  match field_tok with
  | TOK_FIELD field =>
    op_tok ← p_advance;
    match op_tok with
    | TOK_EQ => parse_comparison field CMP_EQ
    | TOK_NE => parse_comparison field CMP_NE
    | _ => fail_null (lit "expected '==' or '!=' after field name")
    end
  | _ => fail_null (lit "expected a field name (e.g. tcp.port, ip.src)")
  end.

(** ** Expressions *)

Fixpoint parse_not (fuel : nat) : dparser (option df_node_t) :=
  match fuel with
  | O => timeout
  | S fuel =>
    t ← p_peek;
    match t with
    | TOK_NOT => _ ← p_advance; operand ← parse_not fuel; mk_un N_NOT operand
    | TOK_LPAREN =>
      _ ← p_advance;
      inner ← parse_expr fuel;
      t ← p_advance;
      if bool_decide (t = TOK_RPAREN) then mret inner else fail_null (lit "expected ')'")
    | _ => parse_primitive
    end
  end
with parse_and (fuel : nat) : dparser (option df_node_t) :=
  match fuel with
  | O => timeout
  | S fuel => left_ ← parse_not fuel; and_loop fuel left_
  end
with and_loop (fuel : nat) (left_ : option df_node_t) : dparser (option df_node_t) :=
  match fuel with
  | O => timeout
  | S fuel =>
    t ← p_peek;
    match t with
    | TOK_AND => _ ← p_advance; right_ ← parse_not fuel; join_node N_AND left_ right_ (and_loop fuel)
    | _ => mret left_
    end
  end
with parse_expr (fuel : nat) : dparser (option df_node_t) :=
  match fuel with
  | O => timeout
  | S fuel => left_ ← parse_and fuel; or_loop fuel left_
  end
with or_loop (fuel : nat) (left_ : option df_node_t) : dparser (option df_node_t) :=
  match fuel with
  | O => timeout
  | S fuel =>
    t ← p_peek;
    match t with
    | TOK_OR => _ ← p_advance; right_ ← parse_and fuel; join_node N_OR left_ right_ (or_loop fuel)
    | _ => mret left_
    end
  end.

(** Three calls per token are enough (see [parse_expr_total]). *)
Definition parse_fuel : nat := 800.

Example df_parse_sample :
  ('(n, st) ← parse_expr parse_fuel
      {| ctx := set_toks [TOK_NOT; TOK_FIELD FIELD_TCP_PORT; TOK_EQ; TOK_NUMBER 443; TOK_OR;
           TOK_FIELD FIELD_IP_SRC; TOK_NE; TOK_IPV4 [10; 0; 0; 1]; TOK_END] (init_ctx (Some []) 100);
         count := 0 |};
   Ret (n, err (ctx st), count st)) =
  Ret (Some (N_OR (N_NOT (N_CMP FIELD_TCP_PORT CMP_EQ (V_port 443)))
               (N_CMP FIELD_IP_SRC CMP_NE (V_ipv4 [10; 0; 0; 1]))), Some [], 4).
Proof. vm_compute. reflexivity. Qed.

(** ** Specification: the grammar of dispfilter.h *)

(** The fields of each layer, and the literals they are compared with. *)
Definition eth_fields : list df_field_t := [FIELD_ETH_SRC; FIELD_ETH_DST; FIELD_ETH_ADDR].
Definition ip_fields : list df_field_t := [FIELD_IP_SRC; FIELD_IP_DST; FIELD_IP_ADDR].
Definition ipv6_fields : list df_field_t := [FIELD_IPV6_SRC; FIELD_IPV6_DST; FIELD_IPV6_ADDR].
Definition port_fields : list df_field_t :=
  [FIELD_TCP_SRCPORT; FIELD_TCP_DSTPORT; FIELD_TCP_PORT;
   FIELD_UDP_SRCPORT; FIELD_UDP_DSTPORT; FIELD_UDP_PORT].

Inductive literal : df_field_t -> token_t -> df_value_t -> Prop :=
| lit_mac f a : f ∈ eth_fields -> literal f (TOK_MAC a) (V_mac a)
| lit_ipv4 f a : f ∈ ip_fields -> literal f (TOK_IPV4 a) (V_ipv4 a)
| lit_ipv6 f a : f ∈ ipv6_fields -> literal f (TOK_IPV6 a) (V_ipv6 a)
| lit_port f k : f ∈ port_fields -> k <= 65535 -> literal f (TOK_NUMBER k) (V_port (u16 k)).

Definition cmp_token (cmp : df_cmp_t) : token_t :=
  match cmp with CMP_EQ => TOK_EQ | CMP_NE => TOK_NE end.

(** [primitive := field ('=='|'!=') value] *)
Inductive g_prim : list token_t -> df_node_t -> Prop :=
| gp_cmp f cmp t v : literal f t v -> g_prim [TOK_FIELD f; cmp_token cmp; t] (N_CMP f cmp v).

Lemma field_value_iff f t v : field_value f t = inl v <-> literal f t v.
Proof.
  split.
  - destruct f, t; cbn; try done; try (intros [= <-]; constructor; by apply (bool_decide_unpack _)).
    all: destruct (Z.ltb_spec 65535 num); [done|]; intros [= <-]; constructor;
      [by apply (bool_decide_unpack _)|lia].
  - destruct 1 as [f a Hf|f a Hf|f a Hf|f k Hf Hk];
      repeat (apply elem_of_cons in Hf as [->|Hf]; [cbn; by try zcase|]); by apply elem_of_nil in Hf.
Qed.

(** Arena nodes a tree takes. *)
Fixpoint size (n : df_node_t) : Z :=
  match n with
  | N_AND l r | N_OR l r => 1 + size l + size r
  | N_NOT l => 1 + size l
  | N_CMP _ _ _ => 1
  end.

Lemma df_tree_size_pos n : 1 <= size n.
Proof. induction n; cbn [size]; lia. Qed.

(** The expression language over these primitives; [g_expr] is its grammar. *)
Definition df_syntax : syntax token_t df_node_t := {|
  tok_end := TOK_END; tok_not := TOK_NOT; tok_lparen := TOK_LPAREN; tok_rparen := TOK_RPAREN;
  tok_and := TOK_AND; tok_or := TOK_OR;
  node_not := N_NOT; node_and := N_AND; node_or := N_OR;
  node_size := size; prim := g_prim
|}.
Abbreviation g_expr := (BoolParser.g_expr df_syntax).

(** The five functions, as the interface sees them. *)
Definition df_descent : descent token_t df_node_t := {|
  d_prim := parse_primitive; d_join := join_node; d_not := parse_not; d_and := parse_and;
  d_and_loop := and_loop; d_expr := parse_expr; d_or_loop := or_loop
|}.

(** ** Primitives *)

Abbreviation st_at := (FilterCore.st_at TOK_END).
Abbreviation alloc := (FilterCore.alloc size).
Abbreviation returns := (FilterCore.returns TOK_END).

Lemma builds_cmp f cmp v :
  FilterCore.builds size
    (ok ← mk_node; if ok : bool then mret (Some (N_CMP f cmp v)) else mret None : dparser (option df_node_t))
    (N_CMP f cmp v).
Proof.
  intros st Hc. rewrite <- (builds_leaf size (N_CMP f cmp v) eq_refl st Hc).
  unfold mk_leaf, mk_node, mbind, parser_bind. by repeat split_goal.
Qed.

Lemma df_prim_complete ts n rem st :
  g_prim ts n -> st_at (ts ++ rem) st -> count st <= DF_MAX_NODES ->
  parse_primitive st = alloc n (adv (length ts) st).
Proof.
  intros [f cmp t v Hv] H Hc. unfold parse_primitive. cbn [app] in H.
  rewrite (run_advance TOK_END _ _ _ _ H). apply st_at_next in H.
  assert (parse_comparison f cmp (adv 1 (adv 1 st)) = alloc (N_CMP f cmp v) (adv 3 st)) as E.
  { apply st_at_next in H. unfold parse_comparison. rewrite (run_advance TOK_END _ _ _ _ H), !adv_adv.
    apply field_value_iff in Hv. rewrite Hv. by apply builds_cmp. }
  by destruct cmp; rewrite (run_advance TOK_END _ _ _ _ H).
Qed.

(** The error returns: tokens are passed over, and at most one node is allocated. *)
Lemma returns_comparison f cmp rem st :
  st_at rem st -> count st <= DF_MAX_NODES ->
  returns rem st (parse_comparison f cmp st)
    (fun ts n k => exists t v, ts = [t] /\ literal f t v /\ n = N_CMP f cmp v /\ k = 1).
Proof.
  intros H Hc.
  assert (forall t rem st, st_at rem st -> count st <= DF_MAX_NODES -> returns rem st
    ((ok ← mk_node; if ok : bool then
        match field_value f t with inl v => mret (Some (N_CMP f cmp v)) | inr msg => fail_null msg end
      else mret None) st)
    (fun ts n k => exists v, ts = [] /\ literal f t v /\ n = N_CMP f cmp v /\ k = 1)) as Hnode.
  { clear. intros t rem st H Hc. destruct (field_value f t) as [v|msg] eqn:Hv.
    - eapply returns_weaken; [by apply (returns_mk TOK_END size rem st _ _ (builds_cmp f cmp v))|].
      intros ts n k (-> & -> & ->). exists v. by apply field_value_iff in Hv.
    - unfold mk_node, mbind, parser_bind. destruct (failing st) eqn:Hf; obind.
      + by apply returns_failed.
      + zcase; obind.
        * apply (returns_failed TOK_END rem st (fail_at _ st)); [by apply st_at_fail|done|apply failing_fail_at].
        * apply (returns_failed TOK_END rem st (fail_at _ (bump 1 st)));
            [by apply st_at_fail|cbn; lia|apply failing_fail_at]. }
  unfold parse_comparison. destruct rem as [|t rem].
  - rewrite (run_advance_end TOK_END _ _ H). eapply returns_weaken; [by apply Hnode|].
    intros ts n k (v & _ & Hl & _). by inversion Hl.
  - apply returns_advance; [done|]. apply st_at_next in H.
    eapply returns_weaken; [by apply Hnode|]. intros ts n k (v & -> & Hl & -> & ->). eauto 8.
Qed.

Lemma df_returns_prim rem st :
  st_at rem st -> count st <= DF_MAX_NODES ->
  returns rem st (parse_primitive st) (fun ts n k => g_prim ts n /\ k = size n).
Proof.
  intros H Hc. unfold parse_primitive. destruct rem as [|t rem].
  { rewrite (run_advance_end TOK_END _ _ H). by apply returns_fail. }
  apply returns_advance; [done|]. apply st_at_next in H.
  destruct t as [| | | | | | | |f| | | |]; try by apply returns_fail.
  destruct rem as [|t rem].
  { rewrite (run_advance_end TOK_END _ _ H). by apply returns_fail. }
  apply returns_advance; [done|]. apply st_at_next in H.
  destruct t; try by apply returns_fail.
  - eapply returns_weaken; [by apply returns_comparison|].
    intros ts n k (t & v & -> & Hl & -> & ->). split; [by apply (gp_cmp f CMP_EQ)|done].
  - eapply returns_weaken; [by apply returns_comparison|].
    intros ts n k (t & v & -> & Hl & -> & ->). split; [by apply (gp_cmp f CMP_NE)|done].
Qed.

Lemma df_keeps_primitive c0 : keeps c0 parse_primitive.
Proof.
  assert (forall f cmp, keeps c0 (parse_comparison f cmp)) as H.
  { intros f cmp. unfold parse_comparison. pose proof (keeps_mk_node (T := token_t) c0). keep. }
  unfold parse_primitive. keep.
Qed.

#[export] Instance df_parser : BoolParser df_syntax df_descent.
Proof.
  split; try done.
  - apply df_tree_size_pos.
  - apply (bool_decide_unpack _). vm_compute. exact I.
  - intros ts n [f cmp t v _]. by eexists _, _.
  - intros ts n Hg. eapply parses_alloc; [apply df_tree_size_pos|]. intros rem st. by apply (df_prim_complete ts n rem).
  - apply df_returns_prim.
  - apply df_keeps_primitive.
  - apply join_node_laws.
  - intros fuel. eexists. split; [reflexivity|]. by intros [].
  - intros fuel l. eexists. split; [reflexivity|]. by intros [].
  - intros fuel l. eexists. split; [reflexivity|]. by intros [].
Qed.

Abbreviation start := (FilterCore.start TOK_END).

Lemma df_fuel_768 : (3 * 255 + 3 <= parse_fuel)%nat.
Proof. unfold parse_fuel. lia. Qed.
#[global] Opaque parse_fuel.

(** ** Properties *)

(** C23: on any token sequence the lexer can produce, the display filter's parser returns, and
    it accepts, with the tree [n], exactly the sentences of the grammar of dispfilter.h
    whose tree [n] fits the node arena. *)
Theorem df_parse_expr_exact ts err err_len :
  TOK_END ∉ ts -> zlen ts < DF_MAX_TOKENS ->
  exists r st, parse_expr parse_fuel (start ts (init_ctx err err_len)) = Ret (r, st) /\
    forall n, (failing st = false /\ p_peek st = Ret (TOK_END, st) /\ r = Some n) <->
              (g_expr ts n /\ size n <= DF_MAX_NODES).
Proof.
  intros He Hn.
  assert (3 * length ts + 3 <= parse_fuel)%nat as Hf
    by (pose proof df_fuel_768; unfold zlen, DF_MAX_TOKENS in Hn; lia).
  destruct (parse_expr_total df_syntax df_descent parse_fuel ts err err_len He Hn Hf) as (r & st & E).
  exists r, st. split; [exact E|].
  exact (parse_expr_iff df_syntax df_descent parse_fuel ts err err_len He Hn Hf r st E).
Qed.

Definition sample_tokens : list token_t :=
  [TOK_NOT; TOK_LPAREN; TOK_FIELD FIELD_TCP_PORT; TOK_NE; TOK_NUMBER 443; TOK_RPAREN].
Lemma df_parse_expr_exact_witness :
  exists r st, parse_expr parse_fuel (start sample_tokens (init_ctx None 0)) = Ret (r, st) /\
    forall n, (failing st = false /\ p_peek st = Ret (TOK_END, st) /\ r = Some n) <->
              (g_expr sample_tokens n /\ size n <= DF_MAX_NODES).
Proof. apply df_parse_expr_exact; [by rewrite <- (bool_decide_eq_true _)|reflexivity]. Defined.
