(* ===== verification/DispCopies.v ===== *)
(** * dispfilter.c's own copies (src/src/c/dispfilter.c, lines 57-88, 127-157 and 475-509)

    The context, error, arena, cursor and IPv4 helpers are static in both filter compilers, and
    the other files model them once (FilterCore, Literals), over lists.  Here they are
    translated from dispfilter.c as it has them, over its fixed arrays with their indices, and
    shown to refine the shared ones: [abs_ctx] and [abs_parser] forget the array entries not in
    use. *)
From S2P Require Import Prelude Text Literals FilterCore DispLexer DispParser.
From stdpp Require Import options.

Local Open Scope Z_scope.

Module own.

(** ** The context *)

Record df_ctx_t := {
  toks : list token_t; n_toks : Z; pos : Z; err : option text; err_len : Z; failed : bool
}.

Definition df_report (c : df_ctx_t) (s : text) : option text :=
  match err c with
  | None => None
  | Some old => if 0 <? err_len c then Some (snprintf (err_len c) s) else Some old
  end.

Definition df_fail (c : df_ctx_t) (msg : text) : df_ctx_t :=
  if failed c then c
  else {| toks := toks c; n_toks := n_toks c; pos := pos c; err := df_report c msg; err_len := err_len c;
          failed := true |}.

(** The format is [pre], a [%s] and [suf]. *)
Definition df_failf (c : df_ctx_t) (pre suf arg : text) : df_ctx_t :=
  if failed c then c
  else {| toks := toks c; n_toks := n_toks c; pos := pos c; err := df_report c (pre ++ arg ++ suf);
          err_len := err_len c; failed := true |}.

(** ** The arena and the cursor *)

Record node_arena_t := { count : Z; cap : Z }.
Record parser_t := { c : df_ctx_t; arena : node_arena_t }.

(** [inl] is NULL; [inr i] the node [pool[i]], zeroed and of the kind asked for. *)
Definition mk_node (p : parser_t) : (unit + Z) * parser_t :=
  if failed (c p) then (inl tt, p)
  else if cap (arena p) <=? count (arena p) then
    (inl tt, {| c := df_fail (c p) (lit "filter expression is too complex"); arena := arena p |})
  else (inr (count (arena p)), {| c := c p; arena := {| count := count (arena p) + 1; cap := cap (arena p) |} |}).

(** [toks[pos]], an entry of the array. *)
Definition p_peek (p : parser_t) : outcome token_t :=
  match toks (c p) !! Z.to_nat (pos (c p)) with
  | Some t => if pos (c p) <? 0 then UB else Ret t
  | None => UB
  end.

Definition p_advance (p : parser_t) : outcome (token_t * parser_t) :=
  t ← p_peek p;
  if bool_decide (t = TOK_END) then Ret (t, p)
  else Ret (t, {| c := {| toks := toks (c p); n_toks := n_toks (c p); pos := pos (c p) + 1; err := err (c p);
                          err_len := err_len (c p); failed := failed (c p) |}; arena := arena p |}).

(** ** IPv4 words *)

(** The loop from [i] on, with [n] turns to go; [out] is the caller's array. *)
Fixpoint word_loop (n i : nat) (word : text) (out : list Z) (octet value digits : Z) : option (list Z) :=
  match n with
  | O => if octet =? 4 then Some out else None
  | S n =>
    let ch := match word !! i with Some ch => ch | None => "."%char end in
    if bool_decide (ch = "."%char) then
      if (digits =? 0) || (255 <? value) || (3 <? octet) then None
      else word_loop n (S i) word (<[Z.to_nat octet := u8 value]> out) (octet + 1) (-1) 0
    else if is_digit ch then
      let value := (if value <? 0 then 0 else value) * 10 + digit_val ch in
      if 255 <? value then None else word_loop n (S i) word out octet value (digits + 1)
    else None
  end.

Definition parse_ipv4_word (word : text) (out : list Z) : option (list Z) :=
  word_loop (S (length word)) 0 word out 0 (-1) 0.
End own.

(** ** The shared definitions, refined *)

Definition abs_ctx (c : own.df_ctx_t) : ctx_t token_t :=
  {| toks := take (Z.to_nat (own.n_toks c)) (own.toks c); pos := own.pos c; err := own.err c;
     err_len := own.err_len c; failed := own.failed c |}.
Definition abs_parser (p : own.parser_t) : parser_t token_t :=
  {| ctx := abs_ctx (own.c p); count := own.count (own.arena p) |}.

(** The context [memset] to zero and filled by the lexer: entries not in use are [TOK_END]. *)
Definition zero_filled (c : own.df_ctx_t) : Prop :=
  length (own.toks c) = Z.to_nat DF_MAX_TOKENS /\ 0 <= own.n_toks c <= DF_MAX_TOKENS /\
  forall i t, own.toks c !! i = Some t -> own.n_toks c <= Z.of_nat i -> t = TOK_END.

Lemma df_report_refines c msg : own.df_report c msg = report (abs_ctx c) msg.
Proof. unfold own.df_report, report. cbn. destruct (own.err c); [|done]. by destruct (0 <? own.err_len c). Qed.

Lemma df_fail_refines c msg : abs_ctx (own.df_fail c msg) = fail (abs_ctx c) msg.
Proof. unfold own.df_fail, fail. rewrite <- df_report_refines. cbn. by destruct (own.failed c). Qed.

Lemma df_failf_refines c pre suf arg : abs_ctx (own.df_failf c pre suf arg) = failf (abs_ctx c) pre suf arg.
Proof. unfold own.df_failf, failf. rewrite <- df_report_refines. cbn. by destruct (own.failed c). Qed.

Lemma mk_node_refines p : own.cap (own.arena p) = DF_MAX_NODES ->
  mk_node (abs_parser p) =
    Ret (match fst (own.mk_node p) with inl _ => false | inr _ => true end, abs_parser (snd (own.mk_node p))).
Proof.
  intros Hcap. unfold own.mk_node, mk_node. rewrite Hcap. cbn. destruct (own.failed (own.c p)); [done|].
  destruct (_ <=? own.count (own.arena p)); [|done]. cbn. unfold abs_parser. cbn. by rewrite df_fail_refines.
Qed.

Lemma p_peek_refines p : zero_filled (own.c p) ->
  FilterCore.p_peek TOK_END (abs_parser p) = (t ← own.p_peek p; Ret (t, abs_parser p)).
Proof.
  intros (Hl & Hn & Hz). unfold FilterCore.p_peek, own.p_peek. cbn. set (i := own.pos (own.c p)).
  destruct (Z.leb_spec 0 i) as [H0|H0].
  2: { cbn. destruct (_ !! _); [|done]. by replace (i <? 0) with true by (symmetry; apply Z.ltb_lt; lia). }
  cbn [andb]. destruct (Z.ltb_spec i MAX_TOKENS) as [H1|H1].
  2: { by rewrite lookup_ge_None_2 by lia. }
  destruct (lookup_lt_is_Some_2 (own.toks (own.c p)) (Z.to_nat i)) as [t Ht]; [lia|]. rewrite Ht.
  replace (i <? 0) with false by (symmetry; apply Z.ltb_ge; lia). obind. do 2 f_equal.
  destruct (Z.lt_ge_cases i (own.n_toks (own.c p))).
  - by rewrite lookup_take_lt, Ht by lia.
  - rewrite lookup_take_ge by lia. by rewrite (Hz _ _ Ht) by lia.
Qed.

Lemma p_advance_refines p : zero_filled (own.c p) ->
  FilterCore.p_advance TOK_END (abs_parser p) = ('(t, p) ← own.p_advance p; Ret (t, abs_parser p)).
Proof.
  intros Hz. unfold FilterCore.p_advance, own.p_advance. unfold mbind at 1, parser_bind at 1. rewrite p_peek_refines by done.
  destruct (own.p_peek p) as [t| |]; [|done..]. obind. by destruct (bool_decide (t = TOK_END)).
Qed.

Lemma word_loop_refines word : forall n i out octet value digits,
  (i + n = S (length word))%nat -> length out = 4%nat -> 0 <= octet <= 4 ->
  own.word_loop n i word out octet value digits =
    ipv4_loop (drop i (word ++ ["."%char])) (take (Z.to_nat octet) out) value digits.
Proof.
  induction n as [|n IH]; intros i out octet value digits Hi Ho Hc.
  - cbn [own.word_loop]. rewrite drop_ge by (rewrite length_app; cbn; lia). cbn [ipv4_loop]. unfold zlen.
    rewrite length_take, Ho. destruct (Z.eqb_spec octet 4) as [->|].
    + by rewrite bool_decide_eq_true_2, firstn_all2 by (cbn; lia).
    + rewrite bool_decide_eq_false_2 by lia. done.
  - destruct (lookup_lt_is_Some_2 (word ++ ["."%char]) i) as [ch Hch]; [rewrite length_app; cbn; lia|].
    rewrite (drop_S _ ch) by done. cbn [own.word_loop ipv4_loop].
    assert (match word !! i with Some ch => ch | None => "."%char end = ch) as ->.
    { apply lookup_app_Some in Hch as [->|[Hge Hch]]; [done|]. rewrite lookup_ge_None_2 by done.
      by apply list_lookup_singleton_Some in Hch as [_ <-]. }
    assert (zlen (take (Z.to_nat octet) out) = octet) as -> by (unfold zlen; rewrite length_take; lia).
    destruct (bool_decide (ch = "."%char)); [|destruct (is_digit ch); [|done]; destruct (255 <? _); [done|by apply IH; lia]].
    destruct (_ || _) eqn:E; [done|]. apply orb_false_iff in E as [_ E%Z.ltb_ge].
    rewrite IH by (rewrite ?length_insert; lia). f_equal.
    replace (Z.to_nat (octet + 1)) with (S (Z.to_nat octet)) by lia.
    rewrite (take_S_r _ _ (u8 value)) by (apply list_lookup_insert_eq; lia). by rewrite take_insert_ge by lia.
Qed.

(** What dispfilter.c's parser of IPv4 words stores does not depend on the array it is given,
    and is what the shared one reads. *)
Theorem own_ipv4_word word out : length out = 4%nat -> own.parse_ipv4_word word out = parse_ipv4_word word.
Proof. intros Ho. unfold own.parse_ipv4_word. by rewrite word_loop_refines by (done || lia). Qed.
