(* ===== verification/DispFilter.v ===== *)
(** * The display filter (src/src/c/dispfilter.c, lines 644-797)

    The evaluator over a packet's parsed fields, and the compiler as a whole: the two
    heap blocks it allocates, its front end, and every way out of it. *)
From S2P Require Import Prelude Text Literals FilterCore Lexing BoolParser FrontEnd DispLexer DispParser.
From stdpp Require Import options.

Local Open Scope Z_scope.

(** ** The evaluator *)

Record dispfilter_fields_t := {
  eth_src : list Z; eth_dst : list Z;
  has_ip : Z; ip_src : list Z; ip_dst : list Z;
  has_ipv6 : Z; ipv6_src : list Z; ipv6_dst : list Z;
  has_tcp : Z; tcp_src_port : Z; tcp_dst_port : Z;
  has_udp : Z; udp_src_port : Z; udp_dst_port : Z
}.

(** C truth values, and [&&] and [||] with their short circuits. *)
Definition truth (x : Z) : bool := negb (x =? 0).
Definition and_then (b : bool) (m : outcome bool) : outcome bool := if b then m else Ret false.
Definition or_else (b : bool) (m : outcome bool) : outcome bool := if b then Ret true else m.

(** The members of the value union; reading one that was not written is excluded. *)
Definition value_mac (v : df_value_t) : outcome (list Z) :=
  match v with V_mac mac => Ret mac | _ => UB end.
Definition value_ipv4 (v : df_value_t) : outcome (list Z) :=
  match v with V_ipv4 ipv4 => Ret ipv4 | _ => UB end.
Definition value_ipv6 (v : df_value_t) : outcome (list Z) :=
  match v with V_ipv6 ipv6 => Ret ipv6 | _ => UB end.
Definition value_port (v : df_value_t) : outcome Z :=
  match v with V_port port => Ret port | _ => UB end.

(** [memcmp(a, b, n) == 0] *)
Definition bytes_eq (a b : list Z) (n : nat) : bool := bool_decide (take n a = take n b).

Section EvalCmp.
Context (f : dispfilter_fields_t) (value : df_value_t).

Definition mac_is (a : list Z) : outcome bool := mac ← value_mac value; Ret (bytes_eq a mac 6).
Definition ipv4_is (a : list Z) : outcome bool := ipv4 ← value_ipv4 value; Ret (bytes_eq a ipv4 4).
Definition ipv6_is (a : list Z) : outcome bool := ipv6 ← value_ipv6 value; Ret (bytes_eq a ipv6 16).
Definition port_is (p : Z) : outcome bool := port ← value_port value; Ret (p =? port).

Definition field_eq (field : df_field_t) : outcome bool :=
  match field with
  | FIELD_ETH_SRC => mac_is (eth_src f)
  | FIELD_ETH_DST => mac_is (eth_dst f)
  | FIELD_ETH_ADDR => b ← mac_is (eth_src f); or_else b (mac_is (eth_dst f))
  | FIELD_IP_SRC => and_then (truth (has_ip f)) (ipv4_is (ip_src f))
  | FIELD_IP_DST => and_then (truth (has_ip f)) (ipv4_is (ip_dst f))
  | FIELD_IP_ADDR =>
    and_then (truth (has_ip f)) (b ← ipv4_is (ip_src f); or_else b (ipv4_is (ip_dst f)))
  | FIELD_IPV6_SRC => and_then (truth (has_ipv6 f)) (ipv6_is (ipv6_src f))
  | FIELD_IPV6_DST => and_then (truth (has_ipv6 f)) (ipv6_is (ipv6_dst f))
  | FIELD_IPV6_ADDR =>
    and_then (truth (has_ipv6 f)) (b ← ipv6_is (ipv6_src f); or_else b (ipv6_is (ipv6_dst f)))
  | FIELD_TCP_SRCPORT => and_then (truth (has_tcp f)) (port_is (tcp_src_port f))
  | FIELD_TCP_DSTPORT => and_then (truth (has_tcp f)) (port_is (tcp_dst_port f))
  | FIELD_TCP_PORT =>
    and_then (truth (has_tcp f)) (b ← port_is (tcp_src_port f); or_else b (port_is (tcp_dst_port f)))
  | FIELD_UDP_SRCPORT => and_then (truth (has_udp f)) (port_is (udp_src_port f))
  | FIELD_UDP_DSTPORT => and_then (truth (has_udp f)) (port_is (udp_dst_port f))
  | FIELD_UDP_PORT =>
    and_then (truth (has_udp f)) (b ← port_is (udp_src_port f); or_else b (port_is (udp_dst_port f)))
  end.

(** [n->cmp == CMP_EQ ? eq : !eq] *)
Definition eval_cmp (field : df_field_t) (cmp : df_cmp_t) : outcome bool :=
  eq ← field_eq field;
  Ret (if bool_decide (cmp = CMP_EQ) then eq else negb eq).
End EvalCmp.

Fixpoint eval_node (n : df_node_t) (f : dispfilter_fields_t) : outcome bool :=
  match n with
  | N_AND l r => b ← eval_node l f; and_then b (eval_node r f)
  | N_OR l r => b ← eval_node l f; or_else b (eval_node r f)
  | N_NOT l => b ← eval_node l f; Ret (negb b)
  | N_CMP field cmp value => eval_cmp f value field cmp
  end.

(** ** The public interface *)

(** The heap: the addresses of the live blocks.  [free(NULL)] does nothing. *)
Abbreviation heap := handles.
Definition free (p : option Z) (h : heap) : outcome heap :=
  match p with None => Ret h | Some a => release a h end.

(** [struct dispfilter]; [nodes] is the address of its arena. *)
Record dispfilter_t := { nodes : option Z; node_count : Z; root : option df_node_t }.

(** A filter with its address; NULL is [None]. *)
Abbreviation filter_ptr := (option (Z * dispfilter_t)).

Definition dispfilter_free (filter : filter_ptr) (h : heap) : outcome heap :=
  match filter with
  | None => Ret h
  | Some (a, filter) => h ← free (nodes filter) h; free (Some a) h
  end.

Definition dispfilter_matches (filter : filter_ptr) (fields : dispfilter_fields_t) : outcome Z :=
  match filter with
  | None => Ret 1
  | Some (_, filter) =>
    match root filter with
    | None => Ret 1
    | Some root => b ← eval_node root fields; Ret (if b : bool then 1 else 0)
    end
  end.

(** What a call leaves behind. *)
Record df_result := { ret : filter_ptr; live : heap; err_buf : option text }.

Definition oom (h : heap) (err_ : option text) (err_len_ : Z) : outcome df_result :=
  Ret {| ret := None; live := h;
         err_buf := report (init_ctx err_ err_len_ : df_ctx_t) (lit "out of memory compiling filter") |}.

Abbreviation check_trailing := (FrontEnd.check_trailing df_syntax).

(** From the lexer on, with the filter allocated. *)
Definition compile_expr (self : Z) (filter : dispfilter_t) (h : heap) (c : df_ctx_t) (expr : text)
    : outcome df_result :=
  let reject c :=
    h ← dispfilter_free (Some (self, filter)) h; Ret {| ret := None; live := h; err_buf := err c |} in
  c ← df_lex c expr;
  if failed c then reject c
  else
    '(root, st) ← parse_expr parse_fuel {| ctx := c; count := 0 |};
    c ← check_trailing st;
    if failed c then reject c
    else Ret {| ret := Some (self, {| nodes := nodes filter; node_count := count st; root := root |});
                live := h; err_buf := err c |}.

(** [malloc1] and [malloc2] are what the two calls of malloc return. *)
Definition dispfilter_compile (malloc1 malloc2 : option Z) (h : heap) (expr : option text)
    (err_ : option text) (err_len_ : Z) : outcome df_result :=
  match malloc1 with
  | None => oom h err_ err_len_
  | Some self =>
    let h := self :: h in
    match malloc2 with
    | None => h ← free (Some self) h; oom h err_ err_len_
    | Some arena =>
      let h := arena :: h in
      let filter := {| nodes := Some arena; node_count := 0; root := None |} in
      match expr with
      | None | Some [] => Ret {| ret := Some (self, filter); live := h; err_buf := err_ |}
      | Some expr => compile_expr self filter h (init_ctx err_ err_len_) expr
      end
    end
  end.

(** ** Specification: what a filter means *)

(** The values a packet has for a field; none when the layer is absent. *)
Definition values (f : dispfilter_fields_t) (field : df_field_t) : list df_value_t :=
  let ip l := if truth (has_ip f) then map V_ipv4 l else [] in
  let ip6 l := if truth (has_ipv6 f) then map V_ipv6 l else [] in
  let tcp l := if truth (has_tcp f) then map V_port l else [] in
  let udp l := if truth (has_udp f) then map V_port l else [] in
  match field with
  | FIELD_ETH_SRC => [V_mac (eth_src f)]
  | FIELD_ETH_DST => [V_mac (eth_dst f)]
  | FIELD_ETH_ADDR => [V_mac (eth_src f); V_mac (eth_dst f)]
  | FIELD_IP_SRC => ip [ip_src f]
  | FIELD_IP_DST => ip [ip_dst f]
  | FIELD_IP_ADDR => ip [ip_src f; ip_dst f]
  | FIELD_IPV6_SRC => ip6 [ipv6_src f]
  | FIELD_IPV6_DST => ip6 [ipv6_dst f]
  | FIELD_IPV6_ADDR => ip6 [ipv6_src f; ipv6_dst f]
  | FIELD_TCP_SRCPORT => tcp [tcp_src_port f]
  | FIELD_TCP_DSTPORT => tcp [tcp_dst_port f]
  | FIELD_TCP_PORT => tcp [tcp_src_port f; tcp_dst_port f]
  | FIELD_UDP_SRCPORT => udp [udp_src_port f]
  | FIELD_UDP_DSTPORT => udp [udp_dst_port f]
  | FIELD_UDP_PORT => udp [udp_src_port f; udp_dst_port f]
  end.

(** What dispfilter.h documents: [==] holds when some value of the field is the literal, [!=] when
    none is, and neither of a packet without the field's layer. *)
Fixpoint holds (n : df_node_t) (f : dispfilter_fields_t) : bool :=
  match n with
  | N_AND l r => holds l f && holds r f
  | N_OR l r => holds l f || holds r f
  | N_NOT l => negb (holds l f)
  | N_CMP field CMP_EQ v => bool_decide (v ∈ values f field)
  | N_CMP field CMP_NE v => negb (bool_decide (values f field = [])) && negb (bool_decide (v ∈ values f field))
  end.

(** The layer of every field the expression compares with [!=] is there.  Elsewhere the code
    departs from its documentation (see [absent_field_ne]). *)
Fixpoint ne_present (n : df_node_t) (f : dispfilter_fields_t) : bool :=
  match n with
  | N_AND l r | N_OR l r => ne_present l f && ne_present r f
  | N_NOT l => ne_present l f
  | N_CMP _ CMP_EQ _ => true
  | N_CMP field CMP_NE _ => negb (bool_decide (values f field = []))
  end.

(** What the evaluator computes: [!=] is the negation of [==], on an absent layer too. *)
Fixpoint evaluates (n : df_node_t) (f : dispfilter_fields_t) : bool :=
  match n with
  | N_AND l r => evaluates l f && evaluates r f
  | N_OR l r => evaluates l f || evaluates r f
  | N_NOT l => negb (evaluates l f)
  | N_CMP field CMP_EQ v => bool_decide (v ∈ values f field)
  | N_CMP field CMP_NE v => negb (bool_decide (v ∈ values f field))
  end.

(** Which is what is documented, where every [!=] has its layer. *)
Lemma evaluates_holds n f : ne_present n f = true -> evaluates n f = holds n f.
Proof.
  induction n as [l IHl r IHr|l IHl r IHr|l IHl|field [] v]; cbn; rewrite ?andb_true_iff; try done.
  - intros [? ?]. by rewrite IHl, IHr.
  - intros [? ?]. by rewrite IHl, IHr.
  - intros ?. by rewrite IHl.
  - by intros ->.
Qed.

(** The arrays of the structures have their declared lengths, and literals fit their field. *)
Definition fields_ok (f : dispfilter_fields_t) : Prop :=
  length (eth_src f) = 6%nat /\ length (eth_dst f) = 6%nat /\
  length (ip_src f) = 4%nat /\ length (ip_dst f) = 4%nat /\
  length (ipv6_src f) = 16%nat /\ length (ipv6_dst f) = 16%nat.
Definition value_ok (field : df_field_t) (v : df_value_t) : Prop :=
  match v with
  | V_mac a => field ∈ eth_fields /\ length a = 6%nat
  | V_ipv4 a => field ∈ ip_fields /\ length a = 4%nat
  | V_ipv6 a => field ∈ ipv6_fields /\ length a = 16%nat
  | V_port _ => field ∈ port_fields
  end.
Fixpoint node_ok (n : df_node_t) : Prop :=
  match n with
  | N_AND l r | N_OR l r => node_ok l /\ node_ok r
  | N_NOT l => node_ok l
  | N_CMP field _ v => value_ok field v
  end.

Lemma bytes_eq_full a b n :
  length a = n -> length b = n -> bytes_eq a b n = bool_decide (b = a).
Proof. intros <- Hb. unfold bytes_eq. rewrite firstn_all, <- Hb, firstn_all. by apply bool_decide_ext. Qed.

Lemma in_one {A} `{!EqDecision A} (v a : A) : bool_decide (v ∈ [a]) = bool_decide (v = a).
Proof. apply bool_decide_ext. rewrite elem_of_cons, elem_of_nil. tauto. Qed.
Lemma in_two {A} `{!EqDecision A} (v a b : A) :
  bool_decide (v ∈ [a; b]) = bool_decide (v = a) || bool_decide (v = b).
Proof. rewrite <- bool_decide_or. apply bool_decide_ext. rewrite !elem_of_cons, elem_of_nil. tauto. Qed.

(** ** The evaluator computes it *)

Lemma mac_is_spec a x : length x = 6%nat -> length a = 6%nat ->
  mac_is (V_mac a) x = Ret (bool_decide (V_mac a = V_mac x)).
Proof. intros Hx Ha. unfold mac_is. cbn. rewrite bytes_eq_full by done. f_equal. by apply bool_decide_ext; split; congruence. Qed.
Lemma ipv4_is_spec a x : length x = 4%nat -> length a = 4%nat ->
  ipv4_is (V_ipv4 a) x = Ret (bool_decide (V_ipv4 a = V_ipv4 x)).
Proof. intros Hx Ha. unfold ipv4_is. cbn. rewrite bytes_eq_full by done. f_equal. by apply bool_decide_ext; split; congruence. Qed.
Lemma ipv6_is_spec a x : length x = 16%nat -> length a = 16%nat ->
  ipv6_is (V_ipv6 a) x = Ret (bool_decide (V_ipv6 a = V_ipv6 x)).
Proof. intros Hx Ha. unfold ipv6_is. cbn. rewrite bytes_eq_full by done. f_equal. by apply bool_decide_ext; split; congruence. Qed.
Lemma port_is_spec p x : port_is (V_port p) x = Ret (bool_decide (V_port p = V_port x)).
Proof.
  unfold port_is. cbn. f_equal. destruct (Z.eqb_spec x p) as [->|Hne]; [by rewrite bool_decide_eq_true_2|].
  rewrite bool_decide_eq_false_2; [done|]. congruence.
Qed.

(** A field with one value, one with two, and either behind a layer flag. *)
Lemma one_value {A} `{!EqDecision A} (v x : A) m :
  m = Ret (bool_decide (v = x)) -> m = Ret (bool_decide (v ∈ [x])).
Proof. intros ->. by rewrite in_one. Qed.
Lemma two_values {A} `{!EqDecision A} (v x y : A) m1 m2 :
  m1 = Ret (bool_decide (v = x)) -> m2 = Ret (bool_decide (v = y)) ->
  (b ← m1; or_else b m2) = Ret (bool_decide (v ∈ [x; y])).
Proof. intros -> ->. rewrite in_two. cbn. by destruct (bool_decide (v = x)). Qed.
Lemma layer_values {A} `{!EqDecision A} (v : A) flag l m :
  m = Ret (bool_decide (v ∈ l)) -> and_then flag m = Ret (bool_decide (v ∈ (if flag : bool then l else []))).
Proof. intros ->. by destruct flag. Qed.

Lemma field_eq_spec f v field :
  fields_ok f -> value_ok field v -> field_eq f v field = Ret (bool_decide (v ∈ values f field)).
Proof.
  intros (? & ? & ? & ? & ? & ?) Hv.
  destruct v as [p|a|a|a]; cbn [value_ok] in Hv;
    [rename Hv into Hf|destruct Hv as [Hf ?]..];
    repeat (apply elem_of_cons in Hf as [->|Hf];
      [cbn [field_eq values map]; try apply layer_values;
       first [apply one_value|apply two_values];
       first [apply port_is_spec|by apply mac_is_spec|by apply ipv4_is_spec|by apply ipv6_is_spec]|]);
    by apply elem_of_nil in Hf.
Qed.

Lemma eval_node_spec n f : node_ok n -> fields_ok f -> eval_node n f = Ret (evaluates n f).
Proof.
  intros Hn Hf. induction n as [l IHl r IHr|l IHl r IHr|l IHl|field cmp v]; cbn [node_ok] in Hn.
  - destruct Hn as [Hl Hr]. cbn. rewrite (IHl Hl), (IHr Hr). cbn. by destruct (evaluates l f).
  - destruct Hn as [Hl Hr]. cbn. rewrite (IHl Hl), (IHr Hr). cbn. by destruct (evaluates l f).
  - cbn. by rewrite (IHl Hn).
  - cbn. unfold eval_cmp. rewrite field_eq_spec by done. cbn. by destruct cmp.
Qed.

(** ** Trees that are compiled are well formed *)

Definition token_ok (t : token_t) : Prop :=
  match t with
  | TOK_MAC a => length a = 6%nat
  | TOK_IPV4 a => length a = 4%nat
  | TOK_IPV6 a => length a = 16%nat
  | _ => True
  end.

Lemma df_lexes_tokens_ok s ts : lexes s ts -> Forall token_ok ts.
Proof.
  induction 1 as [|c s ts Hs Hl IH|w t s ts Hw Hl IH]; [constructor|done|].
  constructor; [|done]. destruct Hw as [w t s Hw _|w t s Hw _]; [by destruct Hw|].
  destruct Hw as [w t Hk|w Hne Hd Hv|w a Ha|w m Hw Hm|w a Hw Hm Hc Ha].
  - apply list_elem_of_In in Hk. cbn in Hk. repeat destruct Hk as [Hk|Hk]; by simplify_eq.
  - done.
  - by apply parse_ipv4_bytes in Ha as [? _].
  - by apply parse_mac_bytes in Hm as [? _].
  - destruct (parse_ipv6_total w) as (r & E & Hr). rewrite Ha in E. injection E as <-.
    by destruct (Hr a eq_refl).
Qed.

Lemma df_g_prim_node_ok ts n : g_prim ts n -> Forall token_ok ts -> node_ok n.
Proof.
  intros [f cmp t v Hv] Ht. rewrite !Forall_cons in Ht. destruct Ht as (_ & _ & Ht & _).
  by destruct Hv.
Qed.

(** An expression and the tree it denotes; the tree, computed. *)
Abbreviation denotes := (FrontEnd.denotes df_syntax tok_at).
Abbreviation denote := (FrontEnd.denote df_syntax df_descent df_lex_loop parse_fuel).

Lemma df_denotes_node_ok expr n : denotes expr n -> node_ok n.
Proof.
  intros (ts & Hl & _ & Hg & _). apply df_lexes_tokens_ok in Hl. revert ts n Hg Hl.
  apply g_expr_all; [|by intros t ts [_ ?]%Forall_cons|apply df_g_prim_node_ok|done|done|done].
  by intros ts1 ts2 [? ?]%Forall_app.
Qed.

(** ** All outcomes of a compilation *)

(** What malloc promises: a block that is not live. *)
Definition fresh (malloc1 malloc2 : option Z) (h : heap) : Prop :=
  forall a, malloc1 = Some a -> (a ∉ h) /\ forall b, malloc2 = Some b -> b ∉ a :: h.

Lemma free_fresh a h : a ∉ h -> free (Some a) (a :: h) = Ret h.
Proof. apply release_fresh. Qed.

Lemma dispfilter_free_fresh self arena filter h :
  nodes filter = Some arena -> self ∉ h -> arena ∉ self :: h ->
  dispfilter_free (Some (self, filter)) (arena :: self :: h) = Ret h.
Proof. intros Hn Hs Ha. cbn [dispfilter_free]. rewrite Hn, free_fresh by done. obind. by apply free_fresh. Qed.

Lemma df_denotes_unique expr n1 n2 : denotes expr n1 -> denotes expr n2 -> n1 = n2.
Proof. exact (denotes_unique df_syntax df_descent df_lex_loop tok_at parse_fuel df_fuel_768 expr n1 n2). Qed.
Lemma df_denote_spec expr ts n :
  df_lex (init_ctx None 0) expr = Ret (set_toks (ts ++ [TOK_END]) (init_ctx None 0)) ->
  denote expr = Some n -> denotes expr n.
Proof. exact (denote_spec df_syntax df_descent df_lex_loop tok_at parse_fuel df_fuel_768 expr ts n). Qed.

Section Outcomes.
Context (malloc1 malloc2 : option Z) (h : heap) (Hfresh : fresh malloc1 malloc2 h).
Context (expr err_ : option text) (err_len_ : Z).
Local Abbreviation res := (dispfilter_compile malloc1 malloc2 h expr err_ err_len_).
Local Abbreviation out_of_memory := (malloc1 = None \/ malloc2 = None).

(** NULL: both blocks are free again, and the error is reported. *)
Definition df_rejected : Prop :=
  exists msg, res = Ret {| ret := None; live := h; err_buf := report (init_ctx err_ err_len_ : df_ctx_t) msg |} /\
    (out_of_memory \/ exists e, expr = Some e /\ e <> [] /\ forall n, ~ denotes e n).

(** A filter of two live blocks; its tree is the one denoted, if there is an expression. *)
Definition df_accepted : Prop :=
  exists self arena n k, malloc1 = Some self /\ malloc2 = Some arena /\
    res = Ret {| ret := Some (self, {| nodes := Some arena; node_count := k; root := n |});
                 live := arena :: self :: h; err_buf := err_ |} /\
    match n with
    | None => k = 0 /\ (expr = None \/ expr = Some [])
    | Some n => k = size n /\ exists e, expr = Some e /\ denotes e n
    end.

Lemma df_front_outcomes self arena e :
  malloc1 = Some self -> malloc2 = Some arena -> expr = Some e -> e <> [] ->
  df_rejected \/ df_accepted \/
  (exists ts, lexes e ts /\ zlen ts = DF_MAX_TOKENS /\ res = UB).
Proof using Hfresh.
  intros E1 E2 Ee Hne. destruct (Hfresh _ E1) as [Hs Ha]. specialize (Ha _ E2).
  set (filter := {| nodes := Some arena; node_count := 0; root := None |}).
  assert (res = compile_expr self filter (arena :: self :: h) (init_ctx err_ err_len_) e) as E
    by (rewrite E1, E2, Ee; by destruct e). 
  unfold df_rejected, df_accepted. rewrite E.
  destruct (front_outcomes df_syntax df_descent df_lex_loop tok_at parse_fuel df_fuel_768
    (fun c => h ← dispfilter_free (Some (self, filter)) (arena :: self :: h);
              Ret {| ret := None; live := h; err_buf := err c |})
    (fun c root k => Ret {| ret := Some (self, {| nodes := nodes filter; node_count := k; root := root |});
                            live := arena :: self :: h; err_buf := err c |})
    e err_ err_len_) as [(c & Ec & Hr & Hf & Hd)|[(c & n & Ec & Hr & Hf & Hd)|Hub]].
  - left. destruct Hr as [_ Hr]. rewrite Hf in Hr. destruct Hr as [msg Hr]. exists msg. split; [|eauto].
    etransitivity; [exact Ec|]. rewrite dispfilter_free_fresh by done. obind. by rewrite Hr.
  - right. left. destruct Hr as [_ Hr]. rewrite Hf in Hr.
    exists self, arena, (Some n), (size n). split_and!; [done..| |done|eauto].
    etransitivity; [exact Ec|]. by rewrite Hr.
  - by right; right.
Qed.

End Outcomes.

Lemma df_outcomes malloc1 malloc2 h expr err_ err_len_ :
  fresh malloc1 malloc2 h ->
  df_rejected malloc1 malloc2 h expr err_ err_len_ \/ df_accepted malloc1 malloc2 h expr err_ err_len_ \/
  (exists e ts, expr = Some e /\ lexes e ts /\ zlen ts = DF_MAX_TOKENS /\
     dispfilter_compile malloc1 malloc2 h expr err_ err_len_ = UB).
Proof.
  intros Hfresh. destruct malloc1 as [self|]; [|left; by eexists; split; [reflexivity|eauto]].
  destruct (Hfresh self eq_refl) as [Hs Ha]. destruct malloc2 as [arena|].
  2: { left. eexists. split; [|eauto]. cbn [dispfilter_compile]. rewrite free_fresh by done. reflexivity. }
  destruct expr as [[|ch e]|].
  1, 3: right; left; exists self, arena, None, 0; by split_and!; auto.
  destruct (df_front_outcomes (Some self) (Some arena) h Hfresh (Some (ch :: e)) err_ err_len_ self arena (ch :: e))
    as [?|[?|(ts & ?)]]; eauto 8.
Qed.

(** ** Properties *)

(** A filter that was compiled. *)
Lemma compiled_filter malloc1 malloc2 h expr err_ err_len_ r :
  fresh malloc1 malloc2 h ->
  dispfilter_compile malloc1 malloc2 h (Some expr) err_ err_len_ = Ret r -> expr <> [] -> ret r <> None ->
  exists n self arena, denotes expr n /\ node_ok n /\
    ret r = Some (self, {| nodes := Some arena; node_count := size n; root := Some n |}).
Proof.
  intros Hfresh E Hne Hr.
  destruct (df_outcomes malloc1 malloc2 h (Some expr) err_ err_len_ Hfresh)
    as [(msg & Ec & _)|[(self & arena & n & k & _ & _ & Ec & Hn)|(e & ts & _ & _ & _ & Ec)]];
    rewrite E in Ec; [by simplify_eq| |done].
  injection Ec as ->. cbn [ret] in *. destruct n as [n|]; [|destruct Hn as (_ & [[=]|[= ->]]); done].
  destruct Hn as (-> & e & [= <-] & Hd). exists n, self, arena.
  split_and!; [done|by eapply df_denotes_node_ok|done].
Qed.

(** C4: whenever the compiler returns a filter for a non-empty expression, the expression is a
    sentence of the display filter language, the filter holds its tree, and on every packet that
    has the layer of each field compared with [!=], [dispfilter_matches] returns 1 or 0 as the
    expression holds of the packet's fields by the documentation: [==] when a value of the field
    is the literal, [!=] when none is, and a comparison with a field the packet does not have
    false.  (Packets without the layer of a field compared with [!=] are left out: there the code
    answers 1 where the documentation says 0, which is [absent_field_ne].) *)
Theorem dispfilter_compile_sound malloc1 malloc2 h expr err_ err_len_ r :
  fresh malloc1 malloc2 h ->
  dispfilter_compile malloc1 malloc2 h (Some expr) err_ err_len_ = Ret r -> expr <> [] -> ret r <> None ->
  exists n, denotes expr n /\
    (exists self arena, ret r = Some (self, {| nodes := Some arena; node_count := size n; root := Some n |})) /\
    forall f, fields_ok f -> ne_present n f = true -> dispfilter_matches (ret r) f = Ret (if holds n f then 1 else 0).
Proof.
  intros Hfresh E Hne Hr.
  destruct (compiled_filter _ _ _ _ _ _ _ Hfresh E Hne Hr) as (n & self & arena & Hd & Hn & ->).
  exists n. split_and!; [done|eauto|]. intros f Hf Hp. cbn [dispfilter_matches root].
  by rewrite eval_node_spec, evaluates_holds.
Qed.

Definition sample_expr : text := lit "tcp.port == 443 and !(ip.src == 10.0.0.1)".
Definition sample_result : df_result :=
  match dispfilter_compile (Some 100) (Some 200) [1] (Some sample_expr) (Some []) 80 with
  | Ret r => r
  | _ => {| ret := None; live := []; err_buf := None |}
  end.

Lemma sample_fresh : fresh (Some 100) (Some 200) [1].
Proof.
  intros a [= <-]. split; [by apply (bool_decide_unpack _)|].
  intros b [= <-]. by apply (bool_decide_unpack _).
Qed.

Lemma dispfilter_compile_sound_witness :
  exists n, denotes sample_expr n /\
    (exists self arena,
       ret sample_result = Some (self, {| nodes := Some arena; node_count := size n; root := Some n |})) /\
    forall f, fields_ok f -> ne_present n f = true ->
      dispfilter_matches (ret sample_result) f = Ret (if holds n f then 1 else 0).
Proof.
  apply (dispfilter_compile_sound (Some 100) (Some 200) [1] sample_expr (Some []) 80);
    [exact sample_fresh|vm_compute; reflexivity|discriminate|vm_compute; discriminate].
Defined.

(** C21: every sentence of the display filter language whose tree fits the node arena compiles, given
    the memory: a filter with its tree, two more live blocks, and the error buffer untouched. *)
Theorem dispfilter_compile_complete self arena h expr n err_ err_len_ :
  fresh (Some self) (Some arena) h -> denotes expr n -> expr <> [] ->
  dispfilter_compile (Some self) (Some arena) h (Some expr) err_ err_len_ =
    Ret {| ret := Some (self, {| nodes := Some arena; node_count := size n; root := Some n |});
           live := arena :: self :: h; err_buf := err_ |}.
Proof.
  intros Hfresh Hd Hne.
  destruct (df_outcomes (Some self) (Some arena) h (Some expr) err_ err_len_ Hfresh)
    as [(msg & _ & [[[=]|[=]]|(e & [= <-] & _ & Hno)])|[(s & a & n' & k & [= <-] & [= <-] & Ec & Hn)|(e & ts & [= <-] & Hl & Hn & _)]].
  - by apply Hno in Hd.
  - destruct n' as [n'|]; [|destruct Hn as (_ & [[=]|[= ->]]); done].
    destruct Hn as (-> & e & [= <-] & Hd'). by rewrite (df_denotes_unique expr n n').
  - exfalso. destruct Hd as (ts' & Hl' & Hn' & _).
    apply (lex_accepts TOK_END df_lex_loop tok_at None 0) in Hl'; [|done].
    by rewrite (lex_overflows TOK_END df_lex_loop tok_at None 0 expr ts) in Hl'.
Qed.

Lemma dispfilter_compile_complete_witness :
  exists n, denotes sample_expr n /\
  dispfilter_compile (Some 100) (Some 200) [1] (Some sample_expr) None 0 =
    Ret {| ret := Some (100, {| nodes := Some 200; node_count := size n; root := Some n |});
           live := [200; 100; 1]; err_buf := None |}.
Proof.
  assert (exists n, denotes sample_expr n) as (n & Hd).
  { eexists. eapply df_denote_spec.
    - instantiate (1 := [TOK_FIELD FIELD_TCP_PORT; TOK_EQ; TOK_NUMBER 443; TOK_AND; TOK_NOT; TOK_LPAREN;
        TOK_FIELD FIELD_IP_SRC; TOK_EQ; TOK_IPV4 [10; 0; 0; 1]; TOK_RPAREN]). vm_compute. reflexivity.
    - vm_compute. reflexivity. }
  exists n. split; [exact Hd|].
  apply (dispfilter_compile_complete 100 200 [1] sample_expr n None 0); [exact sample_fresh|exact Hd|discriminate].
Defined.

(** C31: every call either returns or, for an expression of exactly [DF_MAX_TOKENS] tokens,
    overruns the token array.  NULL comes with a message and leaves no block behind, whatever
    went wrong; a filter owns two blocks, which [dispfilter_free] gives back; no block is
    freed twice. *)
Theorem dispfilter_compile_outcomes malloc1 malloc2 h expr err_ err_len_ :
  fresh malloc1 malloc2 h ->
  (exists r, dispfilter_compile malloc1 malloc2 h expr err_ err_len_ = Ret r /\
     dispfilter_free (ret r) (live r) = Ret h /\
     (ret r <> None /\ length (live r) = (2 + length h)%nat /\ err_buf r = err_ \/
      ret r = None /\ live r = h /\
      exists msg, err_buf r = report (init_ctx err_ err_len_ : df_ctx_t) msg)) \/
  (exists e ts, expr = Some e /\ lexes e ts /\ zlen ts = DF_MAX_TOKENS /\
     dispfilter_compile malloc1 malloc2 h expr err_ err_len_ = UB).
Proof.
  intros Hfresh. destruct (df_outcomes malloc1 malloc2 h expr err_ err_len_ Hfresh)
    as [(msg & Ec & _)|[(self & arena & n & k & E1 & E2 & Ec & Hn)|Hub]]; [left|left|by right].
  - eexists. split; [exact Ec|]. cbn. eauto 6.
  - eexists. split; [exact Ec|]. destruct (Hfresh _ E1) as [Hs Ha]. split; [by apply dispfilter_free_fresh; auto|].
    left. by split_and!.
Qed.

Lemma dispfilter_compile_outcomes_witness :
  (exists r, dispfilter_compile (Some 100) None [1] (Some sample_expr) (Some []) 80 = Ret r /\
     dispfilter_free (ret r) (live r) = Ret [1] /\
     (ret r <> None /\ length (live r) = 3%nat /\ err_buf r = Some [] \/
      ret r = None /\ live r = [1] /\
      exists msg, err_buf r = report (init_ctx (Some []) 80 : df_ctx_t) msg)) \/
  (exists e ts, Some sample_expr = Some e /\ lexes e ts /\ zlen ts = DF_MAX_TOKENS /\
     dispfilter_compile (Some 100) None [1] (Some sample_expr) (Some []) 80 = UB).
Proof.
  apply (dispfilter_compile_outcomes (Some 100) None [1]).
  intros a [= <-]. split; [by apply (bool_decide_unpack _)|discriminate].
Defined.

(** on a packet without the field's layer, [==] is false but [!=] is true, for every field
    and literal: an absent field matches each inequality, although it is documented not to. *)
Theorem absent_field_ne f field v :
  values f field = [] -> fields_ok f -> value_ok field v ->
  eval_node (N_CMP field CMP_EQ v) f = Ret false /\ eval_node (N_CMP field CMP_NE v) f = Ret true /\
  holds (N_CMP field CMP_NE v) f = false.
Proof. intros Hv Hf Ho. rewrite !eval_node_spec by done. cbn [evaluates holds]. by rewrite Hv. Qed.

(** An ARP frame: no layer but Ethernet. *)
Definition arp_fields : dispfilter_fields_t := {|
  eth_src := replicate 6 0; eth_dst := replicate 6 255;
  has_ip := 0; ip_src := replicate 4 0; ip_dst := replicate 4 0;
  has_ipv6 := 0; ipv6_src := replicate 16 0; ipv6_dst := replicate 16 0;
  has_tcp := 0; tcp_src_port := 0; tcp_dst_port := 0;
  has_udp := 0; udp_src_port := 0; udp_dst_port := 0
|}.

Lemma absent_field_ne_witness :
  eval_node (N_CMP FIELD_IP_SRC CMP_EQ (V_ipv4 [10; 0; 0; 1])) arp_fields = Ret false /\
  eval_node (N_CMP FIELD_IP_SRC CMP_NE (V_ipv4 [10; 0; 0; 1])) arp_fields = Ret true /\
  holds (N_CMP FIELD_IP_SRC CMP_NE (V_ipv4 [10; 0; 0; 1])) arp_fields = false.
Proof.
  apply absent_field_ne; [reflexivity|by split_and!|].
  split; [by apply (bool_decide_unpack _)|reflexivity].
Defined.

(** ** Typing *)

Lemma field_eq_total f field v : value_ok field v -> exists b, field_eq f v field = Ret b.
Proof.
  intros Hv. destruct v as [p|a|a|a]; cbn [value_ok] in Hv; [|destruct Hv as [Hv _]..];
    repeat (apply elem_of_cons in Hv as [->|Hv];
      [cbn [field_eq]; unfold mac_is, ipv4_is, ipv6_is, port_is, and_then, or_else; cbn;
       repeat case_match; by eexists|]); by apply elem_of_nil in Hv.
Qed.

Lemma eval_node_total n f : node_ok n -> exists b, eval_node n f = Ret b.
Proof.
  induction n as [l IHl r IHr|l IHl r IHr|l IHl|field cmp v]; cbn [node_ok eval_node]; intros Hn.
  - destruct Hn as [[bl ->]%IHl [br ->]%IHr]. destruct bl; by eexists.
  - destruct Hn as [[bl ->]%IHl [br ->]%IHr]. destruct bl; by eexists.
  - apply IHl in Hn as [b ->]. by eexists.
  - unfold eval_cmp. destruct (field_eq_total f field v Hn) as [b ->]. by eexists.
Qed.

(** C22: typing: in every tree the compiler builds, each comparison pairs a field with a literal of
    that field's kind (MAC, IPv4, IPv6 or port), so the evaluator never reads a member of the
    value union that was not written, whatever the packet's fields are. *)
Theorem compiled_well_typed malloc1 malloc2 h expr err_ err_len_ r self flt n :
  fresh malloc1 malloc2 h ->
  dispfilter_compile malloc1 malloc2 h expr err_ err_len_ = Ret r ->
  ret r = Some (self, flt) -> root flt = Some n ->
  node_ok n /\ forall f, exists b, eval_node n f = Ret b.
Proof.
  intros Hfresh E Er En. destruct (df_outcomes malloc1 malloc2 h expr err_ err_len_ Hfresh)
    as [(msg & Ec & _)|[(self' & arena & n' & k & _ & _ & Ec & Hn)|(e & ts & _ & _ & _ & Ec)]];
    rewrite E in Ec; [by simplify_eq| |done].
  injection Ec as ->. cbn [ret] in Er. injection Er as <- <-. cbn [root] in En. subst n'.
  destruct Hn as (_ & e & _ & Hd). apply df_denotes_node_ok in Hd. split; [done|].
  intros f. by apply eval_node_total.
Qed.

Lemma compiled_well_typed_witness :
  exists self flt n, ret sample_result = Some (self, flt) /\ root flt = Some n /\
    (node_ok n /\ forall f, exists b, eval_node n f = Ret b).
Proof.
  eexists _, _, _. split; [vm_compute; reflexivity|]. split; [reflexivity|].
  eapply (compiled_well_typed (Some 100) (Some 200) [1] (Some sample_expr) (Some []) 80 sample_result);
    [exact sample_fresh|vm_compute; reflexivity|vm_compute; reflexivity|reflexivity].
Defined.
