(* ===== verification/PacketQueue.v ===== *)
(** * The packet queue (src/src/cpp/packet_queue.cpp)

    The bounded queue between the capture thread, the printing thread and whoever closes
    it, at the granularity of its critical sections: a thread takes the lock and tests its
    wait predicate in one step, sleeps on a condition variable until it is notified (or
    wakes spuriously), and notifies the others in a step of its own after unlocking. *)
From S2P Require Import Prelude.
From stdpp Require Import options.

(** ** State *)

Record CapturedFrame := { data : list Z; ts_seconds : Z; ts_microseconds : Z }.

(** Where the capture thread is in [push]. *)
Inductive producer :=
| P_out                             (* not in push *)
| P_lock (frame : CapturedFrame)    (* about to lock and test the predicate *)
| P_wait (frame : CapturedFrame)    (* asleep on not_full_ *)
| P_notify.                         (* unlocked, about to notify not_empty_ *)

(** Where the printing thread is in [pop]. *)
Inductive consumer := C_out | C_lock | C_wait | C_notify.

(** Where the closing thread is in [close]. *)
Inductive closer := K_out | K_notify_empty | K_notify_full | K_done.

(** The queue's members and the threads; [pushed] and [popped] record what went through
    the queue, [drained] whether [pop] has returned false. *)
Record state := {
  queue : list CapturedFrame;
  closed : bool;
  prod : producer;
  cons_ : consumer;
  clos : closer;
  pushed : list CapturedFrame;
  popped : list CapturedFrame;
  drained : bool
}.

Definition init : state :=
  {| queue := []; closed := false; prod := P_out; cons_ := C_out; clos := K_out;
     pushed := []; popped := []; drained := false |}.

Definition with_prod (p : producer) (s : state) : state :=
  {| queue := queue s; closed := closed s; prod := p; cons_ := cons_ s; clos := clos s;
     pushed := pushed s; popped := popped s; drained := drained s |}.
Definition with_cons (c : consumer) (s : state) : state :=
  {| queue := queue s; closed := closed s; prod := prod s; cons_ := c; clos := clos s;
     pushed := pushed s; popped := popped s; drained := drained s |}.
Definition with_clos (k : closer) (s : state) : state :=
  {| queue := queue s; closed := closed s; prod := prod s; cons_ := cons_ s; clos := k;
     pushed := pushed s; popped := popped s; drained := drained s |}.

(** [notify] on a condition variable wakes the thread asleep on it, if there is one. *)
Definition notify_not_full (s : state) : state :=
  match prod s with P_wait f => with_prod (P_lock f) s | _ => s end.
Definition notify_not_empty (s : state) : state :=
  match cons_ s with C_wait => with_cons C_lock s | _ => s end.

(** ** Steps *)

Inductive event :=
| E_push (frame : CapturedFrame)  (* push is called *)
| E_push_section                  (* its critical section, or back to sleep *)
| E_push_notify
| E_push_wakes                    (* a spurious wakeup *)
| E_pop
| E_pop_section
| E_pop_notify
| E_pop_wakes
| E_close                         (* close: its critical section *)
| E_close_notify.

(** One case per step that can be taken. *)
Tactic Notation "step_cases" reference(step) hyp(E) :=
  unfold step in E; repeat case_match; try discriminate E; injection E as <-.

Section Queue.
Context (max_size_ : nat).

(** The critical section of [push]. *)
Definition push_section (frame : CapturedFrame) (s : state) : state :=
  if negb ((length (queue s) <? max_size_)%nat || closed s) then with_prod (P_wait frame) s
  else if closed s then with_prod P_out s
  else {| queue := queue s ++ [frame]; closed := closed s; prod := P_notify; cons_ := cons_ s;
          clos := clos s; pushed := pushed s ++ [frame]; popped := popped s; drained := drained s |}.

(** The critical section of [pop]. *)
Definition pop_section (s : state) : state :=
  match queue s with
  | [] =>
    if negb (closed s) then with_cons C_wait s
    else {| queue := []; closed := closed s; prod := prod s; cons_ := C_out; clos := clos s;
            pushed := pushed s; popped := popped s; drained := true |}
  | frame :: q =>
    {| queue := q; closed := closed s; prod := prod s; cons_ := C_notify; clos := clos s;
       pushed := pushed s; popped := popped s ++ [frame]; drained := drained s |}
  end.

Definition step (e : event) (s : state) : option state :=
  match e, prod s, cons_ s, clos s with
  | E_push frame, P_out, _, _ => Some (with_prod (P_lock frame) s)
  | E_push_section, P_lock frame, _, _ => Some (push_section frame s)
  | E_push_notify, P_notify, _, _ => Some (with_prod P_out (notify_not_empty s))
  | E_push_wakes, P_wait frame, _, _ => Some (with_prod (P_lock frame) s)
  | E_pop, _, C_out, _ => Some (with_cons C_lock s)
  | E_pop_section, _, C_lock, _ => Some (pop_section s)
  | E_pop_notify, _, C_notify, _ => Some (with_cons C_out (notify_not_full s))
  | E_pop_wakes, _, C_wait, _ => Some (with_cons C_lock s)
  | E_close, _, _, K_out =>
    Some {| queue := queue s; closed := true; prod := prod s; cons_ := cons_ s;
            clos := K_notify_empty; pushed := pushed s; popped := popped s; drained := drained s |}
  | E_close_notify, _, _, K_notify_empty => Some (with_clos K_notify_full (notify_not_empty s))
  | E_close_notify, _, _, K_notify_full => Some (with_clos K_done (notify_not_full s))
  | _, _, _, _ => None
  end.

(** The states some interleaving of the threads leads to. *)
Inductive reachable : state -> Prop :=
| reach_init : reachable init
| reach_step e s s' : reachable s -> step e s = Some s' -> reachable s'.

(** A whole schedule. *)
Fixpoint run (es : list event) (s : state) : option state :=
  match es with
  | [] => Some s
  | e :: es => s ← step e s; run es s
  end.

Lemma run_reachable es s s' : reachable s -> run es s = Some s' -> reachable s'.
Proof using.
  revert s. induction es as [|e es IH]; cbn; intros s Hs; [by intros [= <-]|].
  destruct (step e s) as [s1|] eqn:E; [|done]. apply IH. by eapply reach_step.
Qed.

(** ** Invariants *)

Definition p_asleep (s : state) : Prop := exists f, prod s = P_wait f.

(** First in, first out, within the bound. *)
Definition fifo (s : state) : Prop :=
  pushed s = popped s ++ queue s /\ (length (queue s) <= max_size_)%nat.

(** Why a thread may be asleep: its wait predicate is false, or a notification is on its way. *)
Definition p_reason (s : state) : Prop :=
  length (queue s) = max_size_ /\ closed s = false \/ cons_ s = C_notify \/
  closed s = true /\ (clos s = K_notify_empty \/ clos s = K_notify_full).
Definition c_reason (s : state) : Prop :=
  queue s = [] /\ closed s = false \/ prod s = P_notify \/ closed s = true /\ clos s = K_notify_empty.

(** A sleeping thread has such a reason. *)
Definition no_lost_wakeup (s : state) : Prop :=
  (p_asleep s -> p_reason s) /\ (cons_ s = C_wait -> c_reason s).

(** Closing is for good, and the consumer is told so only when nothing is left. *)
Definition closing (s : state) : Prop :=
  (closed s = true <-> clos s <> K_out) /\
  (drained s = true -> closed s = true /\ queue s = []).

(** Whom [close] has woken stays awake. *)
Definition awake (s : state) : Prop :=
  (clos s = K_notify_full \/ clos s = K_done -> cons_ s <> C_wait) /\
  (clos s = K_done -> ~ p_asleep s).

Definition inv (s : state) : Prop := fifo s /\ no_lost_wakeup s /\ closing s /\ awake s.

Lemma inv_init : inv init.
Proof using.
  unfold inv, fifo, no_lost_wakeup, closing, awake. cbn. split_and!; try done; try lia.
  by intros [? [=]].
Qed.

(** What a notification makes of the thread it finds. *)
Definition woken_p (p : producer) : producer := match p with P_wait f => P_lock f | _ => p end.
Definition woken_c (c : consumer) : consumer := match c with C_wait => C_lock | _ => c end.

Lemma notify_full_eq s : notify_not_full s = with_prod (woken_p (prod s)) s.
Proof using. unfold notify_not_full, with_prod. by destruct s as [? ? []]. Qed.
Lemma notify_empty_eq s : notify_not_empty s = with_cons (woken_c (cons_ s)) s.
Proof using. unfold notify_not_empty, with_cons. by destruct s as [? ? ? []]. Qed.

Lemma push_section_cases frame s :
  length (queue s) >= max_size_ /\ closed s = false /\ push_section frame s = with_prod (P_wait frame) s \/
  closed s = true /\ push_section frame s = with_prod P_out s \/
  length (queue s) < max_size_ /\ closed s = false /\
  push_section frame s =
    {| queue := queue s ++ [frame]; closed := false; prod := P_notify; cons_ := cons_ s;
       clos := clos s; pushed := pushed s ++ [frame]; popped := popped s; drained := drained s |}.
Proof using.
  unfold push_section. destruct (Nat.ltb_spec (length (queue s)) max_size_), (closed s); cbn; auto 6.
Qed.

Lemma pop_section_cases s :
  queue s = [] /\ closed s = false /\ pop_section s = with_cons C_wait s \/
  queue s = [] /\ closed s = true /\ pop_section s =
    {| queue := []; closed := true; prod := prod s; cons_ := C_out; clos := clos s;
       pushed := pushed s; popped := popped s; drained := true |} \/
  exists frame q, queue s = frame :: q /\ pop_section s =
    {| queue := q; closed := closed s; prod := prod s; cons_ := C_notify; clos := clos s;
       pushed := pushed s; popped := popped s ++ [frame]; drained := drained s |}.
Proof using. unfold pop_section. destruct (queue s), (closed s); cbn; eauto 8. Qed.

Lemma step_fifo e s s' : fifo s -> step e s = Some s' -> fifo s'.
Proof using.
  unfold fifo. intros [Hf Hl] E. step_cases step E; rewrite ?notify_full_eq, ?notify_empty_eq; try done.
  - destruct (push_section_cases frame s) as [(_ & _ & ->)|[(_ & ->)|(Hq & _ & ->)]]; [done..|].
    cbn. rewrite Hf, <- app_assoc, length_app. cbn. split; [done|lia].
  - destruct (pop_section_cases s) as [(_ & _ & ->)|[(Hq & _ & ->)|(f & q & Hq & ->)]]; [done|..].
    + cbn. rewrite Hf, Hq. split; [done|lia].
    + cbn. rewrite Hf, Hq, <- app_assoc. rewrite Hq in Hl. cbn in Hl. split; [done|lia].
Qed.

Lemma step_closing e s s' : closing s -> step e s = Some s' -> closing s'.
Proof using.
  unfold closing. intros [Hk Hd] E. step_cases step E; rewrite ?notify_full_eq, ?notify_empty_eq; cbn; try done.
  - destruct (push_section_cases frame s) as [(_ & _ & ->)|[(_ & ->)|(_ & Hc & ->)]]; [done..|].
    cbn. rewrite Hc in *. split; [done|]. intros [[=] _]%Hd.
  - destruct (pop_section_cases s) as [(_ & _ & ->)|[(Hq & Hc & ->)|(f & q & Hq & ->)]]; [done|..]; cbn.
    + rewrite Hc in Hk. by split.
    + split; [done|]. intros [_ Hn]%Hd. congruence.
  - split; [done|]. intros [_ Hn]%Hd. done.
  - split; [|done]. destruct Hk as [Hk1 Hk2]. split; [done|]. intros _. apply Hk2. congruence.
  - split; [|done]. destruct Hk as [Hk1 Hk2]. split; [done|]. intros _. apply Hk2. congruence.
Qed.

Lemma step_p_wakeup e s s' :
  fifo s -> (p_asleep s -> p_reason s) -> step e s = Some s' -> p_asleep s' -> p_reason s'.
Proof using.
  unfold p_asleep, p_reason. intros [_ Hl] IH E. step_cases step E;
    rewrite ?notify_full_eq, ?notify_empty_eq; cbn; try (by intros [? [=]]); try done.
  - destruct (push_section_cases frame s) as [(Hq & Hc & ->)|[(_ & ->)|(_ & _ & ->)]]; cbn;
      [|by intros [? [=]]..]. intros _. left. split; [lia|done].
  - intros Ha. specialize (IH Ha). intuition congruence.
  - destruct (pop_section_cases s) as [(Hq & _ & ->)|[(Hq & Hc & ->)|(f & q & _ & ->)]]; cbn; [| |tauto];
      intros Ha; specialize (IH Ha); rewrite Hq in *; intuition congruence.
  - intros [f Hf]. by destruct (prod s).
  - intros Ha. specialize (IH Ha). intuition congruence.
  - intros Ha. specialize (IH Ha). tauto.
  - intros Ha. specialize (IH Ha). destruct IH as [?|[->|[? _]]]; tauto.
  - intros [f Hf]. by destruct (prod s).
Qed.

Lemma step_c_wakeup e s s' :
  (cons_ s = C_wait -> c_reason s) -> step e s = Some s' -> cons_ s' = C_wait -> c_reason s'.
Proof using.
  unfold c_reason. intros IH E. step_cases step E;
    rewrite ?notify_full_eq, ?notify_empty_eq; cbn; try done.
  - intros Ha. specialize (IH Ha). intuition congruence.
  - destruct (push_section_cases frame s) as [(_ & Hc & ->)|[(Hc & ->)|(_ & _ & ->)]]; cbn; [..|tauto];
      intros Ha; specialize (IH Ha); intuition congruence.
  - by destruct (cons_ s).
  - intros Ha. specialize (IH Ha). intuition congruence.
  - destruct (pop_section_cases s) as [(Hq & Hc & ->)|[(Hq & Hc & ->)|(f & q & _ & ->)]]; cbn; [|done..].
    intros _. by left.
  - tauto.
  - by destruct (cons_ s).
  - intros Ha. specialize (IH Ha). destruct IH as [?|[->|[? ?]]]; [tauto..|congruence].
Qed.

Lemma step_awake e s s' : closing s -> awake s -> step e s = Some s' -> awake s'.
Proof using.
  unfold awake, p_asleep. intros [Hk _] [Hc Hp] E.
  assert (clos s = K_notify_full \/ clos s = K_done -> closed s = true) as Hcl
    by (intros [?|?]; apply Hk; congruence).
  step_cases step E; rewrite ?notify_full_eq, ?notify_empty_eq; cbn; try done;
    try (split; [|intros ? [? [=]]]; tauto || done); try (split; [done|tauto]).
  - destruct (push_section_cases frame s) as [(_ & Hf & ->)|[(_ & ->)|(_ & Hf & ->)]]; cbn;
      (split; [done|]); intros Hd; [|by intros [? [=]]..].
    specialize (Hcl (or_intror Hd)). congruence.
  - split; [by destruct (cons_ s)|by intros _ [? [=]]].
  - destruct (pop_section_cases s) as [(_ & Hf & ->)|[(_ & _ & ->)|(f & q & _ & ->)]]; cbn; [|done..].
    split; [|done]. intros Hd. specialize (Hcl Hd). congruence.
  - split; [done|]. intros _ [f Hf]. by destruct (prod s).
  - split; [by intros [?|?]|done].
  - split; [by destruct (cons_ s)|done].
  - split; [intros _; apply Hc; by left|]. intros _ [f Hf]. by destruct (prod s).
Qed.

Lemma reachable_inv s : reachable s -> inv s.
Proof using.
  induction 1 as [|e s s' _ (Hf & [Hp Hc] & Hk & Ha) E]; [apply inv_init|].
  split_and!; [by eapply step_fifo| |by eapply step_closing|by eapply step_awake].
  split; [by eapply step_p_wakeup|by eapply step_c_wakeup].
Qed.

(** Once closed, the queue only shrinks, and stays closed. *)
Lemma step_closed e s s' :
  closed s = true -> step e s = Some s' -> closed s' = true /\ pushed s' = pushed s.
Proof using.
  intros Hc E. step_cases step E; rewrite ?notify_full_eq, ?notify_empty_eq; try done.
  - destruct (push_section_cases frame s) as [(_ & ? & ->)|[(_ & ->)|(_ & ? & ->)]]; [congruence|done|congruence].
  - destruct (pop_section_cases s) as [(_ & _ & ->)|[(_ & _ & ->)|(f & q & _ & ->)]]; done.
Qed.

Lemma run_closed es s s' :
  closed s = true -> run es s = Some s' -> closed s' = true /\ pushed s' = pushed s.
Proof using.
  revert s. induction es as [|e es IH]; cbn; intros s Hc; [by intros [= <-]|].
  destruct (step e s) as [s1|] eqn:E; [|done]. destruct (step_closed _ _ _ Hc E) as [Hc1 <-]. by apply IH.
Qed.

(** The frame [push] is busy with. *)
Definition pending (s : state) : list CapturedFrame :=
  match prod s with P_lock frame | P_wait frame => [frame] | _ => [] end.

(** The printing thread on its own. *)
Definition consumer_event (e : event) : Prop := e = E_pop \/ e = E_pop_section \/ e = E_pop_notify.

Lemma step_pop s : cons_ s = C_out -> step E_pop s = Some (with_cons C_lock s).
Proof using. intros H. unfold step. rewrite H. by destruct (prod s). Qed.
Lemma step_pop_section s : cons_ s = C_lock -> step E_pop_section s = Some (pop_section s).
Proof using. intros H. unfold step. rewrite H. by destruct (prod s). Qed.
Lemma step_pop_notify s :
  cons_ s = C_notify -> step E_pop_notify s = Some (with_cons C_out (notify_not_full s)).
Proof using. intros H. unfold step. rewrite H. by destruct (prod s). Qed.

Lemma run_cons e es s s1 s' : step e s = Some s1 -> run es s1 = Some s' -> run (e :: es) s = Some s'.
Proof using. intros E. cbn. by rewrite E. Qed.

Lemma drain_locked n : forall s, length (queue s) = n -> closed s = true -> cons_ s = C_lock ->
  exists es s', Forall consumer_event es /\ run es s = Some s' /\ drained s' = true.
Proof using.
  assert (consumer_event E_pop /\ consumer_event E_pop_section /\ consumer_event E_pop_notify)
    as (? & ? & ?) by (unfold consumer_event; auto).
  induction n as [|n IH]; intros s Hn Hc Hl.
  - exists [E_pop_section], (pop_section s). split; [by repeat constructor|]. split.
    { eapply run_cons; [by apply step_pop_section|done]. }
    destruct (pop_section_cases s) as [(_ & ? & _)|[(_ & _ & ->)|(f & q & Hq & _)]];
      [congruence|done|by rewrite Hq in Hn].
  - destruct (pop_section_cases s) as [(Hq & _)|[(Hq & _)|(f & q & Hq & E)]]; [by rewrite Hq in Hn..|].
    set (s3 := with_cons C_lock (with_cons C_out (notify_not_full (pop_section s)))).
    destruct (IH s3) as (es & s' & Hes & Hr & Hd);
      [unfold s3; rewrite notify_full_eq, E; cbn; rewrite Hq in Hn; cbn in Hn; lia|
       by unfold s3; rewrite notify_full_eq, E|by unfold s3; rewrite notify_full_eq, E|].
    exists (E_pop_section :: E_pop_notify :: E_pop :: es), s'.
    split; [by repeat constructor|]. split; [|done].
    eapply run_cons; [by apply step_pop_section|].
    eapply run_cons; [apply step_pop_notify; by rewrite E|].
    eapply run_cons; [by apply step_pop|done].
Qed.

Lemma drain s : closed s = true -> cons_ s <> C_wait ->
  exists es s', Forall consumer_event es /\ run es s = Some s' /\ drained s' = true.
Proof using.
  assert (consumer_event E_pop /\ consumer_event E_pop_notify) as (? & ?) by (unfold consumer_event; auto).
  intros Hc Hw. destruct (cons_ s) eqn:El; [|by eapply drain_locked|done|].
  - destruct (drain_locked _ (with_cons C_lock s) eq_refl Hc eq_refl) as (es & s' & Hes & Hr & Hd).
    exists (E_pop :: es), s'. split; [by repeat constructor|]. split; [|done].
    eapply run_cons; [by apply step_pop|done].
  - destruct (drain_locked _ (with_cons C_lock (with_cons C_out (notify_not_full s))) eq_refl)
      as (es & s' & Hes & Hr & Hd); [by rewrite notify_full_eq|done|].
    exists (E_pop_notify :: E_pop :: es), s'. split; [by repeat constructor|]. split; [|done].
    eapply run_cons; [by apply step_pop_notify|]. eapply run_cons; [by apply step_pop|done].
Qed.
End Queue.

(** ** Properties *)

(** C11: in every interleaving, what has been popped followed by what is queued is exactly what
    was pushed, in order, and the queue never exceeds its bound. *)
Theorem queue_fifo max_size_ s :
  reachable max_size_ s ->
  pushed s = popped s ++ queue s /\ (length (queue s) <= max_size_)%nat.
Proof. intros H. apply (reachable_inv max_size_ s H). Qed.

(** C26: no wakeup is ever lost: a thread asleep in [push] has a full, open queue before it, or
    the other thread or the closer is about to notify it; likewise in [pop] with an empty
    queue.  So both never sleep at once, but for a [close] about to wake them. *)
Theorem queue_no_lost_wakeup max_size_ s :
  reachable max_size_ s -> (0 < max_size_)%nat ->
  (p_asleep s -> p_reason max_size_ s) /\ (cons_ s = C_wait -> c_reason s) /\
  (p_asleep s -> cons_ s = C_wait -> clos s = K_notify_empty).
Proof.
  intros H Hm. destruct (reachable_inv _ _ H) as (_ & [Hp Hc] & _ & _). split_and!; [done..|].
  intros Ha Hw. destruct (Hc Hw) as [[Hq Hcl]|[Hn|[_ ?]]]; [|destruct Ha; congruence|done].
  destruct (Hp Ha) as [[Hl _]|[?|[? _]]]; [|congruence..]. rewrite Hq in Hl. cbn in Hl. lia.
Qed.

(** Shutdown: once [close] has returned no thread is asleep and nothing is enqueued any
    more; the printing thread, by itself, gets all queued frames and then false; and it is
    told false only when it has received every frame that was pushed. *)
Theorem queue_shutdown max_size_ s :
  reachable max_size_ s -> clos s = K_done ->
  ~ p_asleep s /\ cons_ s <> C_wait /\
  (exists es s', Forall consumer_event es /\ run max_size_ es s = Some s' /\ drained s' = true) /\
  (forall es s', run max_size_ es s = Some s' ->
     pushed s' = pushed s /\ (drained s' = true -> popped s' = pushed s)).
Proof.
  intros H Hk. destruct (reachable_inv _ _ H) as (_ & _ & [Hcl _] & [Hc Hp]).
  assert (closed s = true) as Hclosed by (apply Hcl; congruence).
  assert (cons_ s <> C_wait) as Hw by (apply Hc; by right).
  split_and!; [by apply Hp|done|by apply drain|].
  intros es s' Hr. destruct (run_closed _ _ _ _ Hclosed Hr) as [_ Hpu]. split; [done|]. intros Hd.
  destruct (reachable_inv _ _ (run_reachable _ _ _ _ H Hr)) as ([Hf _] & _ & [_ Hdr] & _).
  destruct (Hdr Hd) as [_ Hq]. by rewrite <- Hpu, Hf, Hq, app_nil_r.
Qed.

(** A schedule: three frames through a queue of two, with both threads put to sleep. *)
Definition frame_n (n : Z) : CapturedFrame := {| data := [n]; ts_seconds := n; ts_microseconds := 0 |}.
Definition push_all (n : Z) : list event := [E_push (frame_n n); E_push_section; E_push_notify].
Definition sample_schedule : list event :=
  [E_pop; E_pop_section] ++ push_all 1 ++ push_all 2 ++ [E_push (frame_n 3); E_push_section] ++
  [E_pop_section; E_pop_notify; E_push_section; E_push_notify].
Definition closing_schedule : list event := sample_schedule ++ [E_close; E_close_notify; E_close_notify].

Definition after (es : list event) : state := default init (run 2 es init).

Lemma after_reachable es : run 2 es init = Some (after es) -> reachable 2 (after es).
Proof. apply run_reachable, reach_init. Qed.

Example sample_state :
  queue (after sample_schedule) = [frame_n 2; frame_n 3] /\ popped (after sample_schedule) = [frame_n 1].
Proof. vm_compute. done. Qed.

Lemma queue_fifo_witness :
  pushed (after sample_schedule) = popped (after sample_schedule) ++ queue (after sample_schedule) /\
  (length (queue (after sample_schedule)) <= 2)%nat.
Proof. apply (queue_fifo 2), after_reachable. vm_compute. reflexivity. Defined.

Lemma queue_no_lost_wakeup_witness :
  let s := after (take 10 sample_schedule) in
  p_asleep s /\ (p_asleep s -> p_reason 2 s) /\ (cons_ s = C_wait -> c_reason s) /\
  (p_asleep s -> cons_ s = C_wait -> clos s = K_notify_empty).
Proof.
  split; [by eexists; vm_compute|].
  apply (queue_no_lost_wakeup 2); [apply after_reachable; vm_compute; reflexivity|lia].
Defined.

Lemma queue_shutdown_witness :
  let s := after closing_schedule in
  ~ p_asleep s /\ cons_ s <> C_wait /\
  (exists es s', Forall consumer_event es /\ run 2 es s = Some s' /\ drained s' = true) /\
  (forall es s', run 2 es s = Some s' ->
     pushed s' = pushed s /\ (drained s' = true -> popped s' = pushed s)).
Proof.
  apply (queue_shutdown 2); [apply after_reachable; vm_compute; reflexivity|vm_compute; reflexivity].
Defined.
