(* ===== verification/Pipeline.v ===== *)
(** * The two threads of a session (src/src/main.cpp, src/src/cpp/packet_queue.cpp)

    The queue's steps as the program's two threads take them: the capture thread pushes one
    frame after the other and closes the queue when the capture has returned, the main
    thread pops until [pop] returns false.  Every interleaving of the two is a run of this
    system; it is shown to end, in one and the same state. *)
From S2P Require Import Prelude PacketQueue.
From stdpp Require Import options.

#[export] Instance CapturedFrame_eq_dec : EqDecision CapturedFrame.
Proof. solve_decision. Defined.

(** The queue, and the frames the capture thread has still to push. *)
Record threads := { q : state; to_push : list CapturedFrame }.

Definition start (frames : list CapturedFrame) : threads := {| q := init; to_push := frames |}.

(** What the threads' own control flow lets them do next: the next frame is pushed, the queue
    is closed after the last [push] has returned, and [pop] is called until it returns false. *)
Definition may (e : event) (t : threads) : bool :=
  match e with
  | E_push frame => bool_decide (head (to_push t) = Some frame)
  | E_close => match to_push t, prod (q t) with [], P_out => true | _, _ => false end
  | E_pop => negb (drained (q t))
  | _ => true
  end.

Section Threads.
Context (max_size_ : nat).

Definition thread_step (e : event) (t : threads) : option threads :=
  if may e t then
    s ← step max_size_ e (q t);
    Some {| q := s; to_push := match e with E_push _ => tail (to_push t) | _ => to_push t end |}
  else None.

Fixpoint run_threads (es : list event) (t : threads) : option threads :=
  match es with
  | [] => Some t
  | e :: es => t ← thread_step e t; run_threads es t
  end.

(** A wakeup nobody asked for. *)
Definition spurious (e : event) : bool :=
  match e with E_push_wakes | E_pop_wakes => true | _ => false end.
Definition n_spurious (es : list event) : nat := length (List.filter spurious es).

(** Both threads have ended, and every frame has come out. *)
Definition finished (frames : list CapturedFrame) : threads :=
  {| q := {| queue := []; closed := true; prod := P_out; cons_ := C_out; clos := K_done;
             pushed := frames; popped := frames; drained := true |};
     to_push := [] |}.

(** ** The invariant *)

(** The capture thread closes last, the main thread stops at false, and no frame is dropped. *)
Definition orderly (frames : list CapturedFrame) (t : threads) : Prop :=
  (clos (q t) <> K_out -> to_push t = [] /\ prod (q t) = P_out) /\
  (drained (q t) = true -> cons_ (q t) = C_out) /\
  pushed (q t) ++ pending (q t) ++ to_push t = frames.

Definition t_inv (frames : list CapturedFrame) (t : threads) : Prop :=
  reachable max_size_ (q t) /\ orderly frames t.

Lemma thread_step_inv e t t' : thread_step e t = Some t' ->
  may e t = true /\ step max_size_ e (q t) = Some (q t') /\
  to_push t' = match e with E_push _ => tail (to_push t) | _ => to_push t end.
Proof using.
  unfold thread_step. destruct (may e t); [|done].
  destruct (step max_size_ e (q t)) as [s|]; [|done]. by intros [= <-].
Qed.

Lemma start_inv frames : t_inv frames (start frames).
Proof using. split; [constructor|]. by split_and!. Qed.

(** The steps of the queue, case by case. *)
Inductive move (s : state) : event -> state -> Prop :=
| M_push f : prod s = P_out -> move s (E_push f) (with_prod (P_lock f) s)
| M_push_sleep f : prod s = P_lock f -> closed s = false -> move s E_push_section (with_prod (P_wait f) s)
| M_push_drop f : prod s = P_lock f -> closed s = true -> move s E_push_section (with_prod P_out s)
| M_push_put f : prod s = P_lock f -> closed s = false ->
    move s E_push_section
      {| queue := queue s ++ [f]; closed := false; prod := P_notify; cons_ := cons_ s; clos := clos s;
         pushed := pushed s ++ [f]; popped := popped s; drained := drained s |}
| M_push_notify : prod s = P_notify ->
    move s E_push_notify (with_prod P_out (with_cons (woken_c (cons_ s)) s))
| M_push_wakes f : prod s = P_wait f -> move s E_push_wakes (with_prod (P_lock f) s)
| M_pop : cons_ s = C_out -> move s E_pop (with_cons C_lock s)
| M_pop_sleep : cons_ s = C_lock -> queue s = [] -> move s E_pop_section (with_cons C_wait s)
| M_pop_false : cons_ s = C_lock -> queue s = [] ->
    move s E_pop_section
      {| queue := []; closed := true; prod := prod s; cons_ := C_out; clos := clos s;
         pushed := pushed s; popped := popped s; drained := true |}
| M_pop_get f k : cons_ s = C_lock -> queue s = f :: k ->
    move s E_pop_section
      {| queue := k; closed := closed s; prod := prod s; cons_ := C_notify; clos := clos s;
         pushed := pushed s; popped := popped s ++ [f]; drained := drained s |}
| M_pop_notify : cons_ s = C_notify -> move s E_pop_notify (with_cons C_out (with_prod (woken_p (prod s)) s))
| M_pop_wakes : cons_ s = C_wait -> move s E_pop_wakes (with_cons C_lock s)
| M_close : clos s = K_out ->
    move s E_close
      {| queue := queue s; closed := true; prod := prod s; cons_ := cons_ s; clos := K_notify_empty;
         pushed := pushed s; popped := popped s; drained := drained s |}
| M_close_empty : clos s = K_notify_empty ->
    move s E_close_notify (with_clos K_notify_full (with_cons (woken_c (cons_ s)) s))
| M_close_full : clos s = K_notify_full ->
    move s E_close_notify (with_clos K_done (with_prod (woken_p (prod s)) s)).

Lemma step_move e s s' : step max_size_ e s = Some s' -> move s e s'.
Proof using.
  intros E. step_cases step E; rewrite ?notify_full_eq, ?notify_empty_eq; 
    try by econstructor.
  - destruct (push_section_cases max_size_ frame s) as [(_ & Hc & ->)|[(Hc & ->)|(_ & Hc & ->)]];
      [by econstructor..|]. by apply M_push_put.
  - destruct (pop_section_cases s) as [(Hq & _ & ->)|[(Hq & _ & ->)|(f & k & Hq & ->)]]; by econstructor.
Qed.

Lemma orderly_step frames e t t' :
  t_inv frames t -> thread_step e t = Some t' -> orderly frames t'.
Proof using.
  intros [Hr (Hk & Hd & Hf)] (Hm & E%step_move & Hp)%thread_step_inv.
  destruct (reachable_inv _ _ Hr) as (_ & _ & [Hcl Hdr] & _). clear Hr.
  destruct t as [[qu cl pr co k pu po dr] tp], t' as [s' tp']. cbn in *. subst tp'.
  destruct E; cbn in *; subst; unfold orderly, pending in *; cbn in *;
    try (split_and!; solve [done|intuition congruence]).
  - apply bool_decide_eq_true in Hm. destruct tp as [|g tp]; [done|]. injection Hm as ->.
    split_and!; [|done..]. intros Hn. by destruct (Hk Hn).
  - rewrite <- app_assoc. split_and!; [|done..]. intros Hn. by destruct (Hk Hn).
  - split_and!; [done| |done]. by intros ->.
  - split_and!; [|done|by destruct pr]. intros Hn. by destruct (Hk Hn) as [-> ->].
  - split_and!; [|done..]. by destruct tp, pr.
  - split_and!; [intros _; by apply Hk| |done]. intros Hn. by rewrite (Hd Hn).
  - split_and!; [|done|by destruct pr]. intros _. by destruct Hk as [-> ->].
Qed.

Lemma t_inv_step frames e t t' : t_inv frames t -> thread_step e t = Some t' -> t_inv frames t'.
Proof using.
  intros Hi E. split; [|by eapply orderly_step]. destruct (thread_step_inv _ _ _ E) as (_ & Es & _).
  eapply reach_step; [apply Hi|exact Es].
Qed.

Lemma t_inv_run frames es : forall t t', t_inv frames t -> run_threads es t = Some t' -> t_inv frames t'.
Proof using.
  induction es as [|e es IH]; cbn; intros t t' Hi; [by intros [= <-]|].
  destruct (thread_step e t) as [t1|] eqn:E; [|done]. apply IH. by eapply t_inv_step.
Qed.

Lemma run_threads_app es es' : forall t, run_threads (es ++ es') t = t' ← run_threads es t; run_threads es' t'.
Proof using.
  induction es as [|e es IH]; intros t; [done|]. cbn [run_threads app].
  destruct (thread_step e t); [apply IH|done].
Qed.

(** ** Termination *)

(** What is still to be done: per frame a push and a pop, and the rest of what each thread is at,
    counting the wakeups it will cause. *)
Definition p_weight (p : producer) : nat :=
  match p with P_out => 0 | P_notify => 2 | P_wait _ => 6 | P_lock _ => 7 end.
Definition c_weight (d : bool) (c : consumer) : nat :=
  match c with C_wait => 0 | C_lock => 1 | C_out => if d then 0 else 2 | C_notify => 4 end.
Definition k_weight (k : closer) : nat :=
  match k with K_done => 0 | K_notify_full => 2 | K_notify_empty => 4 | K_out => 5 end.
Definition weight (t : threads) : nat :=
  8 * length (to_push t) + p_weight (prod (q t)) + 4 * length (queue (q t)) +
  c_weight (drained (q t)) (cons_ (q t)) + k_weight (clos (q t)).

Lemma woken_p_weight p : p_weight (woken_p p) <= S (p_weight p).
Proof using. destruct p; cbn; lia. Qed.
Lemma woken_c_weight d c : c_weight d (woken_c c) <= S (c_weight d c).
Proof using. destruct c, d; cbn; lia. Qed.

Lemma weight_step frames e t t' : t_inv frames t -> thread_step e t = Some t' ->
  if spurious e then weight t' = S (weight t) else weight t' < weight t.
Proof using.
  intros [_ (_ & Hd & _)] (Hm & E%step_move & Hp)%thread_step_inv. unfold weight. rewrite Hp. clear Hp.
  destruct t as [[qu cl pr co k pu po dr] tp], t' as [s' tp']. cbn in *.
  pose proof (woken_p_weight pr). pose proof (woken_c_weight dr co).
  destruct E; cbn in *; subst; rewrite ?length_app; cbn in *; try lia.
  - apply bool_decide_eq_true in Hm. destruct tp as [|g tp]; cbn in *; [done|]. lia.
  - destruct dr; [done|]. lia.
  - destruct dr; lia.
Qed.

Lemma run_bound frames es : forall t t', t_inv frames t -> run_threads es t = Some t' ->
  length es + weight t' <= weight t + 2 * n_spurious es.
Proof using.
  unfold n_spurious. induction es as [|e es IH]; cbn [run_threads]; intros t t' Hi; [intros [= <-]; cbn; lia|].
  destruct (thread_step e t) as [t1|] eqn:E; [|done]. intros Hr.
  specialize (IH t1 t' (t_inv_step _ _ _ _ Hi E) Hr). pose proof (weight_step _ _ _ _ Hi E) as Hw.
  cbn [List.filter length]. destruct (spurious e); cbn [length]; lia.
Qed.

(** ** Progress *)

Definition can_go (t : threads) : Prop := exists e, spurious e = false /\ is_Some (thread_step e t).

Lemma go e t : spurious e = false -> may e t = true -> is_Some (step max_size_ e (q t)) -> can_go t.
Proof using.
  intros Hs Hm [s E]. exists e. split; [done|]. unfold thread_step. rewrite Hm, E. by eexists.
Qed.

(** The main thread can go on, unless it sleeps or has been told false. *)
Lemma main_can_go t : cons_ (q t) <> C_wait -> drained (q t) = false \/ cons_ (q t) <> C_out -> can_go t.
Proof using.
  intros Hw Hd. destruct (cons_ (q t)) eqn:Ec; [| |done|].
  - apply (go E_pop); [done|cbn; destruct Hd as [->|?]; done|]. rewrite step_pop by done. by eexists.
  - apply (go E_pop_section); [done..|]. rewrite step_pop_section by done. by eexists.
  - apply (go E_pop_notify); [done..|]. rewrite step_pop_notify by done. by eexists.
Qed.

Lemma progress frames t : (0 < max_size_)%nat -> t_inv frames t -> can_go t \/ t = finished frames.
Proof using.
  intros Hmax [Hr (Hk & Hd & Hf)].
  destruct (reachable_inv _ _ Hr) as ([Hfi _] & [Hpw Hcw] & [Hcl Hdr] & [Hca _]).
  destruct (prod (q t)) as [|f|f|] eqn:Ep.
  - destruct (to_push t) as [|f fs] eqn:Et.
    2: { left. apply (go (E_push f)); [done|cbn; by rewrite Et, bool_decide_eq_true_2|].
         unfold step. rewrite Ep. by eexists. }
    destruct (clos (q t)) eqn:Ek.
    + left. apply (go E_close); [done|cbn; by rewrite Et, Ep|]. unfold step. rewrite ?Ep, ?Ek. by destruct (cons_ (q t)), (prod (q t)); eexists.
    + left. apply (go E_close_notify); [done..|]. unfold step. rewrite ?Ep, ?Ek. by destruct (cons_ (q t)), (prod (q t)); eexists.
    + left. apply (go E_close_notify); [done..|]. unfold step. rewrite ?Ep, ?Ek. by destruct (cons_ (q t)), (prod (q t)); eexists.
    + assert (cons_ (q t) <> C_wait) as Hw by (apply Hca; by right).
      destruct (drained (q t)) eqn:Ed; [|left; apply main_can_go; auto].
      right. destruct (Hdr eq_refl) as [Hc Hq]. specialize (Hd eq_refl). unfold pending in Hf.
      rewrite Ep, Hq, !app_nil_r in *. cbn in Hf. unfold finished.
      destruct t as [[] tp]; cbn in *. by subst.
  - left. apply (go E_push_section); [done..|]. unfold step. rewrite Ep. by eexists.
  - left. assert (clos (q t) = K_out) as Ek.
    { destruct (clos (q t)) eqn:Ek; [done|..]; by destruct Hk as [_ ?]. }
    assert (drained (q t) = false) as Ed.
    { destruct (drained (q t)); [|done]. destruct Hdr as [Hc _]; [done|]. apply Hcl in Hc. congruence. }
    assert (closed (q t) = false) as Hc by (destruct (closed (q t)); [|done]; apply Hcl in Ek; done).
    apply main_can_go; [|by left]. intros Hw.
    destruct (Hcw Hw) as [[Hq _]|[?|[? _]]]; [|congruence..].
    destruct (Hpw ltac:(by exists f)) as [[Hl _]|[?|[? _]]]; [|congruence..]. rewrite Hq in Hl. cbn in Hl. lia.
  - left. apply (go E_push_notify); [done..|]. unfold step. rewrite Ep. by eexists.
Qed.

(** From anywhere, the threads can get to the end by themselves. *)
Lemma completes frames : (0 < max_size_)%nat -> forall n t, weight t <= n -> t_inv frames t ->
  exists es, n_spurious es = 0 /\ run_threads es t = Some (finished frames).
Proof using.
  intros Hmax n. induction n as [n IH] using lt_wf_ind. intros t Hn Hi.
  destruct (progress frames t Hmax Hi) as [(e & Hs & t1 & E)| ->]; [|by exists []].
  pose proof (weight_step _ _ _ _ Hi E) as Hw. rewrite Hs in Hw.
  destruct (IH (weight t1) ltac:(lia) t1 ltac:(lia) (t_inv_step _ _ _ _ Hi E)) as (es & Hes & Hr).
  exists (e :: es). unfold n_spurious in *. cbn. rewrite Hs, E. by split.
Qed.

(** A schedule that leaves neither thread anything to do. *)
Definition complete (frames : list CapturedFrame) (es : list event) : Prop :=
  exists t, run_threads es (start frames) = Some t /\ ~ can_go t.

Lemma complete_run frames es : (0 < max_size_)%nat -> complete frames es ->
  run_threads es (start frames) = Some (finished frames).
Proof using.
  intros Hmax (t & Hr & Hn). pose proof (t_inv_run _ _ _ _ (start_inv frames) Hr) as Hi.
  by destruct (progress frames t Hmax Hi) as [?| ->].
Qed.

Lemma finished_ends frames : ~ can_go (finished frames).
Proof using. intros (e & Hs & t & E). destruct e; try done. Qed.

Lemma complete_exists frames : (0 < max_size_)%nat -> exists es, complete frames es.
Proof using.
  intros Hmax. destruct (completes frames Hmax _ _ (le_n _) (start_inv frames)) as (es & _ & Hr).
  exists es, (finished frames). split; [done|apply finished_ends].
Qed.
End Threads.

(** ** Properties *)

(** C12: the two threads always come to an end.  However the capture thread (pushing [frames],
    then closing the queue) and the main thread (popping until it gets false) take turns, a
    schedule has at most 8 steps per frame and 7 more, besides the spurious wakeups; as long
    as they are not both done one of them can go on, so there is no deadlock; and where neither
    can, both have returned and the main thread has got exactly the frames, in their order:
    the outcome does not depend on the schedule. *)
Theorem threads_terminate max_size_ frames es t :
  (0 < max_size_)%nat -> run_threads max_size_ es (start frames) = Some t ->
  length es <= 8 * length frames + 7 + 2 * n_spurious es /\
  (can_go max_size_ t \/ t = finished frames) /\
  (exists es', n_spurious es' = 0 /\ run_threads max_size_ (es ++ es') (start frames) = Some (finished frames)).
Proof.
  intros Hmax Hr. pose proof (t_inv_run _ _ _ _ _ (start_inv max_size_ frames) Hr) as Hi. split_and!.
  - pose proof (run_bound _ _ _ _ _ (start_inv max_size_ frames) Hr) as Hb. unfold weight in Hb. cbn in Hb. lia.
  - by apply progress.
  - destruct (completes max_size_ frames Hmax _ t (le_n _) Hi) as (es' & Hs & Hr').
    exists es'. split; [done|]. by rewrite run_threads_app, Hr.
Qed.

(** A schedule in which both threads sleep and one of them wakes for nothing. *)
Definition two_frames : list CapturedFrame := [frame_n 1; frame_n 2].
Definition sleepy_schedule : list event :=
  [E_pop; E_pop_section; E_pop_wakes; E_pop_section; E_push (frame_n 1); E_push_section; E_push_notify;
   E_push (frame_n 2); E_push_section].
Definition sleepy : threads := default (start two_frames) (run_threads 1 sleepy_schedule (start two_frames)).

Example sleepy_state : prod (q sleepy) = P_wait (frame_n 2) /\ queue (q sleepy) = [frame_n 1].
Proof. vm_compute. done. Qed.

Lemma threads_terminate_witness :
  length sleepy_schedule <= 8 * length two_frames + 7 + 2 * n_spurious sleepy_schedule /\
  (can_go 1 sleepy \/ sleepy = finished two_frames) /\
  (exists es', n_spurious es' = 0 /\
     run_threads 1 (sleepy_schedule ++ es') (start two_frames) = Some (finished two_frames)).
Proof. apply (threads_terminate 1); [lia|vm_compute; reflexivity]. Defined.
