(* ===== verification/RawSocket.v ===== *)
(** * The capture socket's ring (src/src/c/raw_socket.c)

    The ring of blocks the kernel and [raw_socket_recv] share.  A block is owned by one
    side at a time (its status word); the kernel fills blocks in ring order and gives
    them to user space, [raw_socket_recv] walks the packets of the current block and
    gives it back.  The kernel's side is part of the model as the documented TPACKET_V3
    protocol: one action of its own between any two turns of the receive loop. *)
From S2P Require Import Prelude.
From stdpp Require Import options.

Local Open Scope Z_scope.

(** ** Shared memory *)

Definition TP_STATUS_KERNEL : Z := 0.
Definition TP_STATUS_USER : Z := 1.
Definition RAW_SOCKET_STOPPED : Z := -2.
Definition RAW_SOCKET_MAX_FRAME : Z := 65536.
Definition RS_RING_BLOCK_SIZE : Z := Z.shiftl 1 20.
Definition RS_RING_BLOCK_NR : Z := 8.
Definition RS_RING_FRAME_SIZE : Z := 2048.

(** What is read of [struct tpacket3_hdr]. *)
Record tpacket3_hdr := {
  tp_next_offset : Z; tp_sec : Z; tp_nsec : Z; tp_snaplen : Z; tp_mac : Z
}.

(** A block: its descriptor, the packet headers by their offset, and its bytes. *)
Record block := {
  block_status : Z;
  num_pkts : Z;
  offset_to_first_pkt : Z;
  hdrs : list (Z * tpacket3_hdr);
  mem : list Z
}.

(** Reading a packet header where the kernel put none is excluded. *)
Definition hdr_at (bd : block) (off : Z) : outcome tpacket3_hdr :=
  match List.find (fun p => fst p =? off) (hdrs bd) with Some (_, h) => Ret h | None => UB end.

Definition set_status (s : Z) (bd : block) : block :=
  {| block_status := s; num_pkts := num_pkts bd; offset_to_first_pkt := offset_to_first_pkt bd;
     hdrs := hdrs bd; mem := mem bd |}.

Definition user_owned (bd : block) : bool := negb (Z.land (block_status bd) TP_STATUS_USER =? 0).

(** The read cursor of [struct raw_socket_ctx]. *)
Record cursor := {
  cur_block : Z; cur_pkt_idx : Z; cur_pkt_offset : Z; cur_num_pkts : Z
}.

(** ** One turn of the receive loop *)

(** What a call returns: the code, and on success the bytes in [buf] and both timestamps. *)
Record recv_result := { ret : Z; frame : option (list Z * Z * Z) }.

(** Ring, cursor and stop flag, as the capture thread sees them. *)
Record sock := { ring : list block; cur : cursor; stop_requested : bool }.

(** Conversion of a [uint32_t] to [int]. *)
Definition to_int (x : Z) : Z := if x <? 2 ^ 31 then x else x - 2 ^ 32.

(** [ctx->ring + index * ctx->block_size]: the ring is its blocks; [None] is past its end. *)
Definition rs_block_at (s : sock) (index : Z) : option block := ring s !! Z.to_nat index.

Section Recv.
Context (block_nr buf_len : Z).

(** [bd->hdr.bh1.block_status = TP_STATUS_KERNEL; cur_block = (cur_block + 1) % block_nr;] *)
Definition hand_back (bd : block) (c : cursor) (s : sock) : sock :=
  {| ring := <[Z.to_nat (cur_block c) := set_status TP_STATUS_KERNEL bd]> (ring s);
     cur := {| cur_block := u32 (cur_block c + 1) mod block_nr; cur_pkt_idx := cur_pkt_idx c;
               cur_pkt_offset := cur_pkt_offset c; cur_num_pkts := cur_num_pkts c |};
     stop_requested := stop_requested s |}.

Definition set_idx (i : Z) (s : sock) : sock :=
  {| ring := ring s;
     cur := {| cur_block := cur_block (cur s); cur_pkt_idx := i;
               cur_pkt_offset := cur_pkt_offset (cur s); cur_num_pkts := cur_num_pkts (cur s) |};
     stop_requested := stop_requested s |}.

(** From the packet header on: copy, timestamps, and on to the next packet or block. *)
Definition take_packet (bd : block) (c : cursor) (s : sock) : outcome (recv_result * sock) :=
  hdr ← hdr_at bd (cur_pkt_offset c);
  let frame_len := tp_snaplen hdr in
  let copy_len := if frame_len <? buf_len then frame_len else buf_len in
  bytes ← rd_bytes (mem bd) (cur_pkt_offset c + tp_mac hdr) copy_len;
  let res := {| ret := to_int copy_len; frame := Some (bytes, tp_sec hdr, tp_nsec hdr / 1000) |} in
  let idx := u32 (cur_pkt_idx c + 1) in
  if cur_num_pkts c <=? idx then Ret (res, set_idx 0 (hand_back bd c s))
  else
    Ret (res, {| ring := ring s;
                 cur := {| cur_block := cur_block c; cur_pkt_idx := idx;
                           cur_pkt_offset := u32 (cur_pkt_offset c + tp_next_offset hdr);
                           cur_num_pkts := cur_num_pkts c |};
                 stop_requested := stop_requested s |}).

(** One turn of [for (;;)]: [inl] is a return, [inr] a [continue].  [poll_ok] is whether
    poll succeeds or is interrupted, when it is called. *)
Definition recv_turn (poll_ok : bool) (s : sock) : outcome (recv_result * sock + sock) :=
  if stop_requested s then Ret (inl ({| ret := RAW_SOCKET_STOPPED; frame := None |}, s))
  else
    match rs_block_at s (cur_block (cur s)) with
    | None => UB
    | Some bd =>
      if cur_pkt_idx (cur s) =? 0 then
        if negb (user_owned bd) then
          if poll_ok then Ret (inr s) else Ret (inl ({| ret := -1; frame := None |}, s))
        else
          let c := {| cur_block := cur_block (cur s); cur_pkt_idx := cur_pkt_idx (cur s);
                      cur_pkt_offset := offset_to_first_pkt bd; cur_num_pkts := num_pkts bd |} in
          if cur_num_pkts c =? 0 then Ret (inr (hand_back bd c s))
          else r ← take_packet bd c s; Ret (inl r)
      else r ← take_packet bd (cur s) s; Ret (inl r)
    end.

(** The whole call with the kernel at rest, one poll outcome per turn; a call that is still
    waiting when they are used up is a [Timeout]. *)
Fixpoint recv_loop (polls : list bool) (s : sock) : outcome (recv_result * sock) :=
  match polls with
  | [] => Timeout
  | poll_ok :: polls =>
    t ← recv_turn poll_ok s;
    match t with inl r => Ret r | inr s => recv_loop polls s end
  end.

(** [ctx] or [buf] may be NULL. *)
Definition raw_socket_recv (ctx : option sock) (buf : out_arg) (polls : list bool)
    : outcome (recv_result * option sock) :=
  match ctx, buf with
  | Some s, Dest => '(r, s) ← recv_loop polls s; Ret (r, Some s)
  | _, _ => Ret ({| ret := -1; frame := None |}, ctx)
  end.

(** ** The kernel's side *)

Record kframe := { k_bytes : list Z; k_sec : Z; k_nsec : Z }.

(** The packets of a block, following the offsets from [off]. *)
Fixpoint packets (bd : block) (n : nat) (off : Z) : outcome (list kframe) :=
  match n with
  | O => Ret []
  | S n =>
    h ← hdr_at bd off;
    bytes ← rd_bytes (mem bd) (off + tp_mac h) (tp_snaplen h);
    rest ← packets bd n (u32 (off + tp_next_offset h));
    Ret ({| k_bytes := bytes; k_sec := tp_sec h; k_nsec := tp_nsec h |} :: rest)
  end.

Definition block_packets (bd : block) : outcome (list kframe) :=
  packets bd (Z.to_nat (num_pkts bd)) (offset_to_first_pkt bd).

(** A block the kernel closes: it belongs to user space, and its packets are laid out in it. *)
Definition closed_block (bd : block) (fs : list kframe) : Prop :=
  user_owned bd = true /\ 0 <= num_pkts bd < 2 ^ 32 /\ block_packets bd = Ret fs.

(** The system: the socket, the block the kernel fills next, and, as a record of the
    whole capture, the frames it closed blocks with and the results returned. *)
Record system := {
  sk : sock;
  k_block : Z;
  arrived : list kframe;
  handed : list (list Z * Z * Z)
}.

Inductive event :=
| E_close_block (bd : block)   (* the kernel closes the block it fills, with these contents *)
| E_stop                       (* raw_socket_request_stop *)
| E_turn (poll_ok : bool).     (* one turn of raw_socket_recv *)

Definition set_sk (s : sock) (y : system) : system :=
  {| sk := s; k_block := k_block y; arrived := arrived y; handed := handed y |}.

Definition push_handed (r : recv_result) (y : system) : system :=
  {| sk := sk y; k_block := k_block y; arrived := arrived y;
     handed := handed y ++ match frame r with Some f => [f] | None => [] end |}.

(** The kernel closes a block only if it owns the next one; its frames are lost otherwise. *)
Definition close_block (bd : block) (fs : list kframe) (y : system) : system :=
  match ring (sk y) !! Z.to_nat (k_block y) with
  | Some old =>
    if user_owned old then y
    else {| sk := {| ring := <[Z.to_nat (k_block y) := bd]> (ring (sk y)); cur := cur (sk y);
                     stop_requested := stop_requested (sk y) |};
            k_block := (k_block y + 1) mod block_nr;
            arrived := arrived y ++ fs; handed := handed y |}
  | None => y
  end.

(** [raw_socket_request_stop] *)
Definition request_stop (s : sock) : sock :=
  {| ring := ring s; cur := cur s; stop_requested := true |}.

Inductive step : event -> system -> system -> Prop :=
| step_close bd fs y : closed_block bd fs -> step (E_close_block bd) y (close_block bd fs y)
| step_stop y : step E_stop y (set_sk (request_stop (sk y)) y)
| step_return poll_ok r s y : recv_turn poll_ok (sk y) = Ret (inl (r, s)) ->
    step (E_turn poll_ok) y (push_handed r (set_sk s y))
| step_continue poll_ok s y : recv_turn poll_ok (sk y) = Ret (inr s) ->
    step (E_turn poll_ok) y (set_sk s y).

(** After [raw_socket_open]: every block belongs to the kernel. *)
Definition opened (s : sock) : Prop :=
  zlen (ring s) = block_nr /\ Forall (fun bd => user_owned bd = false) (ring s) /\
  cur s = {| cur_block := 0; cur_pkt_idx := 0; cur_pkt_offset := 0; cur_num_pkts := 0 |} /\
  stop_requested s = false.

Inductive reachable : system -> Prop :=
| reach_open s : opened s -> reachable {| sk := s; k_block := 0; arrived := []; handed := [] |}
| reach_step e y y' : reachable y -> step e y y' -> reachable y'.

(** ** Rotations of the ring *)

(** The ring, from the current block on. *)
Definition view (s : sock) : list block := rotate (Z.to_nat (cur_block (cur s))) (ring s).

Section Rotation.
Context {A : Type}.
Implicit Types (l k : list A).

Lemma rotate_head n l x k : (n < length l)%nat -> rotate n l = x :: k -> l !! n = Some x.
Proof using.
  intros Hn E. pose proof (lookup_rotate_r l n 0 ltac:(lia)) as H. rewrite E in H.
  by rewrite rotate_nat_add_0 in H by done.
Qed.

Lemma rotate_update n l x k x' : (n < length l)%nat -> rotate n l = x :: k ->
  rotate n (<[n := x']> l) = x' :: k.
Proof using.
  intros Hn E. rewrite <- (rotate_nat_add_0 n (length l)) at 2 by done.
  rewrite rotate_insert_l by lia. by rewrite E.
Qed.

Lemma rotate_next n l x k : (n < length l)%nat -> rotate n l = x :: k ->
  rotate (S n `mod` length l) l = k ++ [x].
Proof using.
  intros Hn E. apply list_eq. intros i.
  assert (length l = S (length k)) as Hl by (apply (f_equal length) in E; by rewrite length_rotate in E).
  destruct (decide (i < length l)%nat) as [Hi|Hi].
  2: { rewrite !lookup_ge_None_2; [done|rewrite length_app; cbn; lia|rewrite length_rotate; lia]. }
  rewrite lookup_rotate_r, <- rotate_nat_add_add_mod by done.
  replace (rotate_nat_add (S n) i (length l)) with (rotate_nat_add n (S i) (length l))
    by (unfold rotate_nat_add; do 2 f_equal; lia).
  destruct (decide (i = length k)) as [->|Hne].
  - rewrite lookup_app_r, Nat.sub_diag by lia. cbn. rewrite <- Hl.
    rewrite <- (rotate_head n l x k) by done. f_equal. unfold rotate_nat_add.
    rewrite <- (Z.add_mod_idemp_r _ (Z.of_nat (length l))), Z_mod_same_full, Z.add_0_r by lia.
    rewrite Z.mod_small by lia. by rewrite Nat2Z.id.
  - rewrite lookup_app_l by lia. rewrite <- lookup_rotate_r by lia. by rewrite E.
Qed.
End Rotation.

(** ** What the ring holds *)

Inductive blocks_hold : list block -> list kframe -> Prop :=
| bh_nil : blocks_hold [] []
| bh_cons bd fs us fs' : closed_block bd fs -> blocks_hold us fs' -> blocks_hold (bd :: us) (fs ++ fs').

(** The packets still to be read: of a block that has been started, and of the others. *)
Inductive holds (c : cursor) : list block -> list kframe -> Prop :=
| holds_fresh us fs : cur_pkt_idx c = 0 -> blocks_hold us fs -> holds c us fs
| holds_started bd us f fs fs' :
    user_owned bd = true -> 0 < cur_pkt_idx c < cur_num_pkts c -> cur_num_pkts c < 2 ^ 32 ->
    packets bd (Z.to_nat (cur_num_pkts c - cur_pkt_idx c)) (cur_pkt_offset c) = Ret (f :: fs) ->
    blocks_hold us fs' -> holds c (bd :: us) (f :: fs ++ fs').

(** From the current block on: [m] blocks with the packets [fs] to read, then the kernel's,
    which fills the first of its own next. *)
Definition represents (m : nat) (s : sock) (kb : Z) (fs : list kframe) : Prop :=
  zlen (ring s) = block_nr /\ 0 <= cur_block (cur s) < block_nr /\
  exists us ks, view s = us ++ ks /\ length us = m /\ holds (cur s) us fs /\
    Forall (fun bd => user_owned bd = false) ks /\
    kb = (cur_block (cur s) + zlen us) mod block_nr.

(** A frame as it is handed out. *)
Definition clip (f : kframe) : list Z * Z * Z :=
  (take (Z.to_nat buf_len) (k_bytes f), k_sec f, k_nsec f / 1000).
Definition result_of (f : kframe) : recv_result :=
  {| ret := to_int (Z.min (zlen (k_bytes f)) buf_len); frame := Some (clip f) |}.

(** ** One packet *)

Context (buf_ok : 0 <= buf_len) (nr_ok : 0 < block_nr < 2 ^ 32).

Lemma packets_S bd n off fs : packets bd (S n) off = Ret fs ->
  exists h bytes rest, hdr_at bd off = Ret h /\
    rd_bytes (mem bd) (off + tp_mac h) (tp_snaplen h) = Ret bytes /\
    packets bd n (u32 (off + tp_next_offset h)) = Ret rest /\
    fs = {| k_bytes := bytes; k_sec := tp_sec h; k_nsec := tp_nsec h |} :: rest.
Proof using.
  cbn [packets]. intros (h & Eh & H)%outcome_bind_inv. apply outcome_bind_inv in H as (bytes & Eb & H).
  apply outcome_bind_inv in H as (rest & Er & H). injection H as <-. eauto 8.
Qed.

(** A shorter copy of what can be read. *)
Lemma rd_bytes_clip data off n bytes : rd_bytes data off n = Ret bytes ->
  zlen bytes = n /\
  rd_bytes data off (if n <? buf_len then n else buf_len) = Ret (take (Z.to_nat buf_len) bytes).
Proof using buf_ok.
  unfold rd_bytes. case_bool_decide as H; [|done]. intros [= <-]. destruct H as (Ho & Hn & Hl).
  assert (zlen (take (Z.to_nat n) (drop (Z.to_nat off) data)) = n) as Hz.
  { unfold zlen in *. rewrite length_take, length_drop. lia. }
  split; [done|]. destruct (Z.ltb_spec n buf_len).
  - rewrite bool_decide_eq_true_2 by done. f_equal. symmetry. apply take_ge. unfold zlen in Hz. lia.
  - rewrite bool_decide_eq_true_2 by lia. f_equal. rewrite take_take. f_equal. lia.
Qed.

Lemma take_packet_run bd c s n f fs :
  packets bd (S n) (cur_pkt_offset c) = Ret (f :: fs) ->
  exists off, packets bd n off = Ret fs /\
    take_packet bd c s = Ret (result_of f,
      if cur_num_pkts c <=? u32 (cur_pkt_idx c + 1) then set_idx 0 (hand_back bd c s)
      else {| ring := ring s;
              cur := {| cur_block := cur_block c; cur_pkt_idx := u32 (cur_pkt_idx c + 1);
                        cur_pkt_offset := off; cur_num_pkts := cur_num_pkts c |};
              stop_requested := stop_requested s |}).
Proof using buf_ok.
  intros (h & bytes & rest & Eh & Eb & Ep & E)%packets_S. injection E as -> ->.
  exists (u32 (cur_pkt_offset c + tp_next_offset h)). split; [done|]. unfold take_packet. rewrite Eh. obind.
  destruct (rd_bytes_clip _ _ _ _ Eb) as [Hz ->]. obind. unfold result_of, clip. cbn [k_bytes k_sec k_nsec].
  rewrite Hz. replace (Z.min (tp_snaplen h) buf_len)
    with (if tp_snaplen h <? buf_len then tp_snaplen h else buf_len)
    by (destruct (Z.ltb_spec (tp_snaplen h) buf_len); lia).
  by destruct (_ <=? _).
Qed.

(** Giving a block back moves the view on by one. *)
Lemma hand_back_view bd r c s :
  zlen (ring s) = block_nr -> 0 <= cur_block (cur s) < block_nr -> cur_block c = cur_block (cur s) ->
  view s = bd :: r ->
  let s' := hand_back bd c s in
  zlen (ring s') = block_nr /\ cur_block (cur s') = (cur_block (cur s) + 1) mod block_nr /\
  view s' = r ++ [set_status TP_STATUS_KERNEL bd].
Proof using nr_ok.
  intros Hl Hc Ec E. unfold view, hand_back, zlen in *. cbn [ring cur cur_block]. rewrite Ec.
  rewrite length_insert, u32_small by lia. split_and!; [done..|].
  set (n := Z.to_nat (cur_block (cur s))) in *.
  apply (rotate_update n _ _ _ (set_status TP_STATUS_KERNEL bd)) in E; [|lia].
  apply rotate_next in E; [|rewrite length_insert; lia]. rewrite length_insert in E.
  rewrite <- E. f_equal.
  rewrite <- Hl, Z2Nat.inj_mod, Nat2Z.id by lia. f_equal. lia.
Qed.

(** The block at the head of the view is given back. *)
Lemma represents_next bd c s us ks fs kb s' :
  zlen (ring s) = block_nr -> 0 <= cur_block (cur s) < block_nr -> cur_block c = cur_block (cur s) ->
  view s = bd :: us ++ ks -> blocks_hold us fs -> Forall (fun bd => user_owned bd = false) ks ->
  kb = (cur_block (cur s) + zlen (bd :: us)) mod block_nr ->
  ring s' = ring (hand_back bd c s) -> cur_block (cur s') = cur_block (cur (hand_back bd c s)) ->
  cur_pkt_idx (cur s') = 0 -> represents (length us) s' kb fs.
Proof using nr_ok.
  intros Hl Hc Ec Ev Hh Hk Hkb Er Eb Ei.
  destruct (hand_back_view bd (us ++ ks) c s Hl Hc Ec Ev) as (Hl' & Hc' & Hv').
  unfold represents. rewrite Er, Eb, Hc'. split; [done|].
  pose proof (Z.mod_pos_bound (cur_block (cur s) + 1) block_nr ltac:(lia)). split; [done|].
  exists us, (ks ++ [set_status TP_STATUS_KERNEL bd]). split_and!.
  - rewrite app_assoc, <- Hv'. unfold view. by rewrite Er, Eb.
  - done.
  - by apply holds_fresh.
  - apply Forall_app. split; [done|]. by repeat constructor.
  - rewrite Hkb, zlen_cons, Z.add_mod_idemp_l by lia. f_equal. lia.
Qed.

(** Reading the first of the packets [f :: fs] left in the block at the head of the view. *)
Lemma take_packet_ok bd c s us ks f fs fs' kb :
  zlen (ring s) = block_nr -> 0 <= cur_block (cur s) < block_nr -> cur_block c = cur_block (cur s) ->
  view s = bd :: us ++ ks -> user_owned bd = true -> 0 <= cur_pkt_idx c < cur_num_pkts c ->
  cur_num_pkts c < 2 ^ 32 ->
  packets bd (Z.to_nat (cur_num_pkts c - cur_pkt_idx c)) (cur_pkt_offset c) = Ret (f :: fs) ->
  blocks_hold us fs' -> Forall (fun bd => user_owned bd = false) ks ->
  kb = (cur_block (cur s) + zlen (bd :: us)) mod block_nr ->
  exists m s', take_packet bd c s = Ret (result_of f, s') /\ represents m s' kb (fs ++ fs') /\
    stop_requested s' = stop_requested s.
Proof using buf_ok nr_ok.
  intros Hl Hc Ec Ev Hu Hi Hn Hp Hh Hk Hkb.
  replace (Z.to_nat (cur_num_pkts c - cur_pkt_idx c))
    with (S (Z.to_nat (cur_num_pkts c - (cur_pkt_idx c + 1)))) in Hp by lia.
  destruct (take_packet_run _ _ s _ _ _ Hp) as (off & Hp' & ->). rewrite u32_small by lia.
  destruct (Z.leb_spec (cur_num_pkts c) (cur_pkt_idx c + 1)) as [Hlast|Hmore].
  - replace (Z.to_nat _) with 0%nat in Hp' by lia. injection Hp' as <-.
    eexists _, _. split; [done|]. split; [|done].
    by apply (represents_next bd c s us ks fs' kb).
  - exists (S (length us)). eexists. split; [done|]. split; [|done]. split_and!; [done|cbn; lia..|].
    exists (bd :: us), ks. cbn [cur cur_block]. split_and!; [unfold view in *; cbn; by rewrite Ec|done| |done|by rewrite Ec].
    destruct fs as [|f' fs].
    { exfalso. replace (Z.to_nat _) with (S (Z.to_nat (cur_num_pkts c - (cur_pkt_idx c + 2)))) in Hp' by lia.
      by apply packets_S in Hp' as (? & ? & ? & _ & _ & _ & [=]). }
    apply holds_started; cbn; done || lia.
Qed.

(** Every turn of the loop: it never leaves the ring's packets, and it stops, complains of
    poll, waits (only when there is nothing to read), skips an empty block, or returns the
    first packet. *)
Lemma turn_ok poll_ok m s kb fs :
  represents m s kb fs ->
  (stop_requested s = true /\
     recv_turn poll_ok s = Ret (inl ({| ret := RAW_SOCKET_STOPPED; frame := None |}, s))) \/
  (stop_requested s = false /\ fs = [] /\ recv_turn poll_ok s =
     if poll_ok then Ret (inr s) else Ret (inl ({| ret := -1; frame := None |}, s))) \/
  (stop_requested s = false /\ exists m' s', recv_turn poll_ok s = Ret (inr s') /\
     represents m' s' kb fs /\ (m' < m)%nat /\ stop_requested s' = false) \/
  (stop_requested s = false /\ exists f fs' m' s', fs = f :: fs' /\
     recv_turn poll_ok s = Ret (inl (result_of f, s')) /\ represents m' s' kb fs' /\
     stop_requested s' = false).
Proof using buf_ok nr_ok.
  intros (Hl & Hc & us & ks & Ev & Hm & Hh & Hk & Hkb). unfold recv_turn, rs_block_at.
  destruct (stop_requested s) eqn:Hst; [by left|right].
  assert (forall bd r, view s = bd :: r -> ring s !! Z.to_nat (cur_block (cur s)) = Some bd) as Hhead.
  { intros bd r E. eapply rotate_head; [|exact E]. unfold zlen in Hl. lia. }
  destruct Hh as [us fs Hi Hh|bd us f fs fs' Hu Hi Hn Hp Hh].
  - rewrite Hi, Z.eqb_refl. destruct Hh as [|bd fs us fs' (Hu & Hn & Hp) Hh].
    + left. destruct ks as [|bd ks].
      { exfalso. unfold view in Ev. apply (f_equal length) in Ev. rewrite length_rotate in Ev.
        unfold zlen in Hl. cbn in Ev. lia. }
      rewrite (Hhead _ _ Ev). apply Forall_cons in Hk as [-> _]. cbn [negb]. by destruct poll_ok.
    + right. rewrite (Hhead _ _ Ev), Hu. cbn [negb cur_num_pkts].
      set (c := {| cur_block := cur_block (cur s); cur_pkt_idx := 0;
                   cur_pkt_offset := offset_to_first_pkt bd; cur_num_pkts := num_pkts bd |}).
      destruct (Z.eqb_spec (num_pkts bd) 0) as [Hz|Hz].
      * left. split; [done|]. unfold block_packets in Hp. rewrite Hz in Hp. injection Hp as <-.
        eexists (length us), _. split; [done|]. split_and!; [|cbn in Hm; lia|done].
        by apply (represents_next bd c s us ks fs' kb).
      * right. split; [done|]. unfold block_packets in Hp.
        replace (Z.to_nat (num_pkts bd)) with (S (Z.to_nat (num_pkts bd - 1))) in Hp by lia.
        destruct fs as [|f fs]; [by apply packets_S in Hp as (? & ? & ? & _ & _ & _ & [=])|].
        destruct (take_packet_ok bd c s us ks f fs fs' kb) as (m' & s' & -> & Hr & Hs); try done; [cbn; lia..| |].
        { cbn. rewrite <- Hp. f_equal. lia. }
        obind. exists f, (fs ++ fs'), m', s'. split_and!; try done. congruence.
  - right. right. split; [done|]. rewrite (Hhead _ _ Ev).
    destruct (Z.eqb_spec (cur_pkt_idx (cur s)) 0) as [Hz|_]; [lia|].
    destruct (take_packet_ok bd (cur s) s us ks f fs fs' kb) as (m' & s' & -> & Hr & Hs); try done; [lia|].
    obind. exists f, (fs ++ fs'), m', s'. split_and!; try done. congruence.
Qed.

(** ** The kernel closes a block *)

Lemma blocks_hold_snoc us fs bd fs2 :
  blocks_hold us fs -> closed_block bd fs2 -> blocks_hold (us ++ [bd]) (fs ++ fs2).
Proof using.
  intros Hh Hb. induction Hh as [|bd' fs us fs' Hb' Hh IH].
  - cbn. rewrite <- (app_nil_r fs2). constructor; [done|constructor].
  - cbn. rewrite <- app_assoc. by constructor.
Qed.

Lemma holds_snoc c us fs bd fs2 :
  holds c us fs -> closed_block bd fs2 -> holds c (us ++ [bd]) (fs ++ fs2).
Proof using.
  intros [us' fs' Hi Hh|bd' us' f fs' fs'' Hu Hi Hn Hp Hh] Hb.
  - apply holds_fresh; [done|by apply blocks_hold_snoc].
  - cbn. rewrite <- app_assoc. apply holds_started; try done. by apply blocks_hold_snoc.
Qed.

Lemma holds_head c bd us fs : holds c (bd :: us) fs -> user_owned bd = true.
Proof using.
  inversion 1 as [us' fs' Hi Hh|]; subst; [|done]. by inversion Hh as [|? ? ? ? [? _]].
Qed.

Lemma close_block_ok bd fs2 m y fs :
  represents m (sk y) (k_block y) fs -> closed_block bd fs2 ->
  exists m' fs', represents m' (sk (close_block bd fs2 y)) (k_block (close_block bd fs2 y)) fs' /\
    handed (close_block bd fs2 y) = handed y /\
    (close_block bd fs2 y = y /\ fs' = fs \/
     arrived (close_block bd fs2 y) = arrived y ++ fs2 /\ fs' = fs ++ fs2).
Proof using nr_ok.
  intros Hr Hb. pose proof Hr as (Hl & Hc & us & ks & Ev & Hm & Hh & Hk & Hkb). unfold close_block.
  set (n := Z.to_nat (cur_block (cur (sk y)))). unfold zlen in Hl.
  assert (length us + length ks = length (ring (sk y)))%nat as Hlen.
  { apply (f_equal length) in Ev. unfold view in Ev. by rewrite length_rotate, length_app in Ev. }
  assert (Z.to_nat (k_block y) = rotate_nat_add n (length us) (length (ring (sk y)))) as Hslot.
  { unfold rotate_nat_add. rewrite Hkb, Hl. unfold zlen, n. by rewrite Z2Nat.id by lia. }
  destruct (ring (sk y) !! Z.to_nat (k_block y)) as [old|] eqn:Eo; [|by exists m, fs; auto].
  destruct (user_owned old) eqn:Hu; [by exists m, fs; auto|].
  destruct ks as [|old' ks].
  { exfalso. destruct us as [|bd0 us]; [cbn in Hlen; lia|]. rewrite app_nil_r in Ev.
    apply rotate_head in Ev as E0; [|lia]. apply holds_head in Hh.
    enough (Z.to_nat (k_block y) = n) as Heq by (rewrite Heq in Eo; unfold n in Eo; congruence). rewrite Hslot. unfold rotate_nat_add.
    change (length []) with 0%nat in Hlen. rewrite Nat.add_0_r in Hlen. rewrite Hlen, <- Z.add_mod_idemp_r, Z_mod_same_full, Z.add_0_r by lia.
    rewrite Z.mod_small by lia. lia. }
  exists (S m), (fs ++ fs2). cbn [sk k_block arrived handed]. split_and!; [|done|by right].
  split; [cbn; unfold zlen; by rewrite length_insert|]. split; [done|]. cbn [ring cur].
  exists (us ++ [bd]), ks. apply Forall_cons in Hk as [_ Hk]. cbn in Hlen. split_and!; try done.
  - unfold view. cbn [ring cur]. fold n. rewrite Hslot, rotate_insert_l by lia.
    unfold view in Ev. fold n in Ev. rewrite Ev, <- app_assoc. by rewrite insert_app_r_alt, Nat.sub_diag by lia.
  - rewrite length_app. cbn. lia.
  - by apply holds_snoc.
  - rewrite Hkb, zlen_app, Z.add_mod_idemp_l by lia. f_equal. cbn. unfold zlen. cbn. lia.
Qed.

(** ** The whole system *)

Definition inv (y : system) : Prop :=
  exists m fs, represents m (sk y) (k_block y) fs /\ map clip (arrived y) = handed y ++ map clip fs.

Lemma inv_open s : opened s -> inv {| sk := s; k_block := 0; arrived := []; handed := [] |}.
Proof using nr_ok.
  intros (Hl & Hk & Hc & _). exists 0%nat, []. split; [|done]. cbn [sk k_block].
  unfold represents, view. rewrite Hc. cbn [cur_block]. split; [done|]. split; [lia|].
  exists [], (ring s). cbn [zlen length app]. split_and!; try done.
  - unfold rotate. rewrite Nat.Div0.mod_0_l, drop_0, take_0. by rewrite app_nil_r.
  - by apply holds_fresh; [|constructor].
Qed.

Lemma inv_step e y y' : inv y -> step e y y' -> inv y'.
Proof using buf_ok nr_ok.
  intros (m & fs & Hr & Ha) Hs. destruct Hs as [bd fs2 y Hb|y|poll_ok r s y E|poll_ok s y E].
  - destruct (close_block_ok bd fs2 m y fs Hr Hb) as (m' & fs' & Hr' & Eh & [[Ey ->]|[Ea ->]]).
    + rewrite Ey. by exists m, fs.
    + exists m', (fs ++ fs2). split; [done|]. by rewrite Ea, Eh, !map_app, Ha, app_assoc.
  - by exists m, fs.
  - destruct (turn_ok poll_ok m (sk y) (k_block y) fs Hr)
      as [(_ & E')|[(_ & -> & E')|[(_ & m' & s' & E' & _)|(_ & f & fs' & m' & s' & -> & E' & Hr' & _)]]];
      rewrite E in E'.
    + injection E' as -> ->. exists m, fs. cbn. by rewrite app_nil_r.
    + destruct poll_ok; [done|]. injection E' as -> ->. exists m, []. cbn. by rewrite app_nil_r.
    + done.
    + injection E' as -> ->. exists m', fs'. split; [done|]. cbn. by rewrite Ha, <- app_assoc.
  - destruct (turn_ok poll_ok m (sk y) (k_block y) fs Hr)
      as [(_ & E')|[(_ & -> & E')|[(_ & m' & s' & E' & Hr' & _)|(_ & f & fs' & m' & s' & _ & E' & _)]]];
      rewrite E in E'; [done| | |done].
    + destruct poll_ok; [|done]. injection E' as ->. by exists m, [].
    + injection E' as ->. by exists m', fs.
Qed.

Lemma ring_inv y : reachable y -> inv y.
Proof using buf_ok nr_ok.
  induction 1 as [s Hs|e y y' _ IH Hs]; [by apply inv_open|by eapply inv_step].
Qed.

Lemma recv_loop_ok polls : forall m s kb f fs,
  represents m s kb (f :: fs) -> stop_requested s = false -> (m < length polls)%nat ->
  exists m' s', recv_loop polls s = Ret (result_of f, s') /\ represents m' s' kb fs.
Proof using buf_ok nr_ok.
  induction polls as [|poll_ok polls IH]; intros m s kb f fs Hr Hs Hm; [cbn in Hm; lia|].
  cbn [recv_loop]. destruct (turn_ok poll_ok m s kb (f :: fs) Hr)
    as [(? & _)|[(_ & [=] & _)|[(_ & m' & s' & -> & Hr' & Hlt & Hs')|(_ & f' & fs' & m' & s' & [= <- <-] & -> & Hr' & _)]]];
    [congruence| |by exists m', s'].
  obind. apply (IH m'); [done..|]. cbn in Hm. lia.
Qed.
End Recv.

Lemma to_int_small x : 0 <= x < 2 ^ 31 -> to_int x = x.
Proof. intros H. unfold to_int. by zcase. Qed.

Lemma ret_length buf_len f : 0 <= buf_len < 2 ^ 31 ->
  ret (result_of buf_len f) = zlen (take (Z.to_nat buf_len) (k_bytes f)).
Proof.
  intros H. cbn [result_of ret]. pose proof (zlen_nonneg (k_bytes f)). rewrite to_int_small by lia.
  unfold zlen in *. rewrite length_take. lia.
Qed.

(** ** Properties *)

(** C7: whatever the kernel and the stop flag do between the turns of the receive loop, what
    [raw_socket_recv] has handed out is an initial part, in order and without loss or
    repetition, of the frames of the blocks the kernel closed, each cut to the buffer; and no
    turn reads outside the packets of a block the kernel has given away. *)
Theorem ring_fifo block_nr buf_len y poll_ok :
  0 <= buf_len -> 0 < block_nr < 2 ^ 32 -> reachable block_nr buf_len y ->
  handed y = take (length (handed y)) (map (clip buf_len) (arrived y)) /\
  exists t, recv_turn block_nr buf_len poll_ok (sk y) = Ret t.
Proof.
  intros Hb Hn Hy. destruct (ring_inv block_nr buf_len Hb Hn y Hy) as (m & fs & Hr & ->).
  split; [by rewrite take_app_length|].
  destruct (turn_ok block_nr buf_len Hb Hn poll_ok m _ _ _ Hr)
    as [(_ & ->)|[(_ & _ & ->)|[(_ & ? & ? & -> & _)|(_ & ? & ? & ? & ? & _ & -> & _)]]];
    [by eexists| |by eexists..]. destruct poll_ok; by eexists.
Qed.

(** C27: a call that finds frames waiting returns the first of them, with its length in the
    buffer and its own timestamp, after at most one turn per block and one more, the kernel being
    at rest meanwhile; a call that finds a stop requested returns [RAW_SOCKET_STOPPED] at once and
    takes no frame. *)
Theorem recv_next_frame block_nr buf_len y polls :
  0 <= buf_len < 2 ^ 31 -> 0 < block_nr < 2 ^ 32 -> reachable block_nr buf_len y ->
  (Z.to_nat block_nr < length polls)%nat ->
  (stop_requested (sk y) = true ->
     raw_socket_recv block_nr buf_len (Some (sk y)) Dest polls =
       Ret ({| ret := RAW_SOCKET_STOPPED; frame := None |}, Some (sk y))) /\
  (forall f, stop_requested (sk y) = false -> arrived y !! length (handed y) = Some f ->
     exists s, raw_socket_recv block_nr buf_len (Some (sk y)) Dest polls =
       Ret ({| ret := zlen (take (Z.to_nat buf_len) (k_bytes f)); frame := Some (clip buf_len f) |}, Some s)).
Proof.
  intros [Hb Hb'] Hn Hy Hp. destruct (ring_inv block_nr buf_len Hb Hn y Hy) as (m & fs & Hr & Ha).
  split.
  - intros Hs. destruct polls; [cbn in Hp; lia|]. cbn. unfold recv_turn, rs_block_at. by rewrite Hs.
  - intros f Hs Hf. destruct fs as [|f' fs].
    + exfalso. rewrite app_nil_r in Ha. apply lookup_lt_Some in Hf. rewrite <- Ha, length_map in Hf. lia.
    + assert (m < length polls)%nat as Hm.
      { destruct Hr as (Hl & _ & us & ks & Ev & Hm & _). apply (f_equal length) in Ev.
        unfold view in Ev. rewrite length_rotate, length_app in Ev. unfold zlen in Hl. lia. }
      destruct (recv_loop_ok block_nr buf_len Hb Hn polls m _ _ _ _ Hr Hs Hm) as (m' & s' & E & _).
      assert (clip buf_len f = clip buf_len f') as Ec.
      { apply (f_equal (fun l => l !! length (handed y))) in Ha.
        rewrite lookup_app_r, Nat.sub_diag, list_lookup_fmap, Hf in Ha by lia. by apply (inj Some) in Ha. }
      exists s'. cbn [raw_socket_recv]. rewrite E. obind. do 2 f_equal.
      injection Ec as Eb Es En. rewrite Eb. rewrite <- ret_length by lia. unfold result_of, clip.
      cbn [ret]. by rewrite Eb, Es, En.
Qed.

(** A ring of two blocks: a block of two packets, an empty block (closed by the timeout), and
    the ring full when the next one is due. *)
Definition hdr_n (n : Z) : tpacket3_hdr :=
  {| tp_next_offset := 64; tp_sec := n; tp_nsec := 5000 * n; tp_snaplen := 4; tp_mac := 32 |}.
Definition block_of (hs : list (Z * tpacket3_hdr)) : block :=
  {| block_status := 33; num_pkts := zlen hs; offset_to_first_pkt := 48; hdrs := hs;
     mem := map Z.of_nat (seq 0 200) |}.
Definition two_packets : block := block_of [(48, hdr_n 1); (112, hdr_n 2)].
Definition no_packets : block := block_of [].
Definition idle : block := set_status TP_STATUS_KERNEL no_packets.
Definition start : sock :=
  {| ring := [idle; idle];
     cur := {| cur_block := 0; cur_pkt_idx := 0; cur_pkt_offset := 0; cur_num_pkts := 0 |};
     stop_requested := false |}.
Definition y0 : system := {| sk := start; k_block := 0; arrived := []; handed := [] |}.
Definition frames_12 : list kframe :=
  [{| k_bytes := [80; 81; 82; 83]; k_sec := 1; k_nsec := 5000 |};
   {| k_bytes := [144; 145; 146; 147]; k_sec := 2; k_nsec := 10000 |}].

(** Two blocks closed, a third refused, and one packet read into a buffer of three bytes. *)
Definition y3 : system :=
  close_block 2 two_packets frames_12 (close_block 2 no_packets [] (close_block 2 two_packets frames_12 y0)).
Definition y4 : system :=
  match recv_turn 2 3 true (sk y3) with
  | Ret (inl (r, s)) => push_handed r (set_sk s y3)
  | _ => y3
  end.

Lemma y4_reachable : reachable 2 3 y4.
Proof.
  assert (closed_block two_packets frames_12 /\ closed_block no_packets []) as [? ?]
    by (split; split_and!; vm_compute; done).
  apply (reach_step _ _ (E_turn true) y3).
  2: { unfold y4. destruct (recv_turn 2 3 true (sk y3)) as [[[r s]|s]| |] eqn:E;
         [by apply step_return|vm_compute in E; discriminate E..]. }
  do 2 (eapply reach_step; [|by apply step_close]). eapply reach_step; [|by apply step_close].
  apply reach_open. split_and!; try done. by repeat constructor.
Qed.

Example y4_handed : handed y4 = [([80; 81; 82], 1, 5)] /\ arrived y4 = frames_12.
Proof. vm_compute. done. Qed.

Lemma ring_fifo_witness :
  handed y4 = take (length (handed y4)) (map (clip 3) (arrived y4)) /\
  exists t, recv_turn 2 3 true (sk y4) = Ret t.
Proof. apply (ring_fifo 2 3); [lia|lia|exact y4_reachable]. Defined.

Lemma recv_next_frame_witness :
  (stop_requested (sk y4) = true ->
     raw_socket_recv 2 3 (Some (sk y4)) Dest [true; true; true] =
       Ret ({| ret := RAW_SOCKET_STOPPED; frame := None |}, Some (sk y4))) /\
  (forall f, stop_requested (sk y4) = false -> arrived y4 !! length (handed y4) = Some f ->
     exists s, raw_socket_recv 2 3 (Some (sk y4)) Dest [true; true; true] =
       Ret ({| ret := zlen (take (Z.to_nat 3) (k_bytes f)); frame := Some (clip 3 f) |}, Some s)).
Proof. apply (recv_next_frame 2 3 y4); [lia|lia|exact y4_reachable|cbn; lia]. Defined.
