(* ===== verification/RawDevice.v ===== *)
(** * Opening and closing the capture socket (src/src/c/raw_socket.c)

    [raw_socket_open] and [raw_socket_close] as sequences of system calls over the
    operating system's resources, every failure path included; the device listing, the
    filter attachment and the statistics read.  The results of the system calls are
    parameters. *)
From S2P Require Import Prelude Bpf RawSocket.
From stdpp Require Import options.

Local Open Scope Z_scope.

Definition RAW_SOCKET_NAME_LEN : Z := 256.
Definition IFNAMSIZ : Z := 16.
Definition IFF_PROMISC : Z := 0x100.

(** [strncpy(dst, src, n - 1); dst[n - 1] = 0;] on a string that may be longer. *)
Definition strncpy (n : Z) (src : text) : text := take (Z.to_nat (n - 1)) src.

(** What a process holds, and the flags of the interfaces by name. *)
Record os := {
  fds : handles;
  maps : handles;
  blocks : handles;
  if_flags : text -> Z
}.

Definition set_fds (h : handles) (o : os) : os :=
  {| fds := h; maps := maps o; blocks := blocks o; if_flags := if_flags o |}.
Definition set_maps (h : handles) (o : os) : os :=
  {| fds := fds o; maps := h; blocks := blocks o; if_flags := if_flags o |}.
Definition set_blocks (h : handles) (o : os) : os :=
  {| fds := fds o; maps := maps o; blocks := h; if_flags := if_flags o |}.
Definition set_flags (name : text) (v : Z) (o : os) : os :=
  {| fds := fds o; maps := maps o; blocks := blocks o;
     if_flags := fun n => if bool_decide (n = name) then v else if_flags o n |}.

Definition close (fd : Z) (o : os) : outcome os := h ← release fd (fds o); Ret (set_fds h o).
Definition munmap (a : Z) (o : os) : outcome os := h ← release a (maps o); Ret (set_maps h o).
Definition free (a : Z) (o : os) : outcome os := h ← release a (blocks o); Ret (set_blocks h o).

(** ** Devices *)

(** The names in [output] are compared with strcmp. *)
Fixpoint devices_loop (addrs : list (option text)) (max_devices : Z) (output : list text) : list text :=
  match addrs with
  | [] => output
  | i :: addrs =>
    if negb (zlen output <? max_devices) then output
    else match i with
         | None => devices_loop addrs max_devices output
         | Some ifa_name =>
           if bool_decide (ifa_name ∈ output) then devices_loop addrs max_devices output
           else devices_loop addrs max_devices (output ++ [strncpy RAW_SOCKET_NAME_LEN ifa_name])
         end
  end.

(** [addr] is what getifaddrs returns ([None]: it fails); the result is the return value and
    the entries written. *)
Definition raw_socket_list_devices (addr : option (list (option text))) (output : out_arg)
    (max_devices : Z) : Z * list text :=
  match output with
  | Null => (-1, [])
  | Dest =>
    if max_devices =? 0 then (-1, [])
    else match addr with
         | None => (-1, [])
         | Some addrs => let out := devices_loop addrs max_devices [] in (zlen out, out)
         end
  end.

(** ** Opening *)

(** What the system calls of [raw_socket_open] return, in their order: a handle or a failure
    for those that return a resource, success or failure for the others. *)
Record open_calls := {
  c_socket : option Z;
  c_bindtodevice : bool;
  c_getflags : bool;
  c_setflags : bool;
  c_version : bool;
  c_rx_ring : bool;
  c_mmap : option Z;
  c_malloc : option Z
}.

Record raw_socket_ctx := {
  self : Z;
  fd : Z;
  device_name : text;
  promisc_set_by_us : bool;
  ring_map : Z;
  ring_size : Z;
  block_size : Z;
  block_nr : Z;
  read_cursor : cursor
}.

Definition fresh_cursor : cursor :=
  {| cur_block := 0; cur_pkt_idx := 0; cur_pkt_offset := 0; cur_num_pkts := 0 |}.

(** The steps after the ring has been asked for. *)
Definition map_ring (k : open_calls) (fd_ : Z) (device : text) (promisc : bool) (o : os)
    : outcome (option raw_socket_ctx * os) :=
  let ring_size_ := RS_RING_BLOCK_SIZE * RS_RING_BLOCK_NR in
  match c_mmap k with
  | None => o ← close fd_ o; Ret (None, o)
  | Some ring_ =>
    let o := set_maps (ring_ :: maps o) o in
    match c_malloc k with
    | None => o ← munmap ring_ o; o ← close fd_ o; Ret (None, o)
    | Some a =>
      Ret (Some {| self := a; fd := fd_; device_name := strncpy RAW_SOCKET_NAME_LEN device;
                   promisc_set_by_us := promisc; ring_map := ring_; ring_size := ring_size_;
                   block_size := RS_RING_BLOCK_SIZE; block_nr := RS_RING_BLOCK_NR;
                   read_cursor := fresh_cursor |},
           set_blocks (a :: blocks o) o)
    end
  end.

Definition raw_socket_open (k : open_calls) (device : option text) (o : os)
    : outcome (option raw_socket_ctx * os) :=
  match device with
  | None => Ret (None, o)
  | Some device =>
    match c_socket k with
    | None => Ret (None, o)
    | Some fd_ =>
      let o := set_fds (fd_ :: fds o) o in
      if negb (c_bindtodevice k) then o ← close fd_ o; Ret (None, o)
      else if negb (c_getflags k) then o ← close fd_ o; Ret (None, o)
      else
        let ifr_name := strncpy IFNAMSIZ device in
        let ifr_flags := if_flags o ifr_name in
        let unset := Z.land ifr_flags IFF_PROMISC =? 0 in
        let promisc := unset && c_setflags k in
        let o := if promisc then set_flags ifr_name (Z.lor ifr_flags IFF_PROMISC) o else o in
        if negb (c_version k) then o ← close fd_ o; Ret (None, o)
        else if negb (c_rx_ring k) then o ← close fd_ o; Ret (None, o)
        else map_ring k fd_ device promisc o
    end
  end.

(** ** Closing *)

(** [getflags] and [setflags] are whether its two ioctl calls succeed. *)
Definition clear_promisc (getflags setflags : bool) (ctx : raw_socket_ctx) (o : os) : os :=
  if promisc_set_by_us ctx && getflags && setflags then
    let ifr_name := strncpy IFNAMSIZ (device_name ctx) in
    set_flags ifr_name (Z.land (if_flags o ifr_name) (Z.lnot IFF_PROMISC)) o
  else o.

Definition raw_socket_close (getflags setflags : bool) (ctx : option raw_socket_ctx) (o : os) : outcome os :=
  match ctx with
  | None => Ret o
  | Some ctx =>
    let o := clear_promisc getflags setflags ctx o in
    o ← munmap (ring_map ctx) o;
    o ← close (fd ctx) o;
    free (self ctx) o
  end.

(** ** Filter and statistics *)

(** The return value and the program the kernel runs from now on. *)
Definition raw_socket_attach_filter (setsockopt_ok : bool) (ctx : option raw_socket_ctx)
    (prog attached : option (list sock_filter)) : Z * option (list sock_filter) :=
  match ctx, prog with
  | Some _, Some prog => if setsockopt_ok then (0, Some prog) else (-1, attached)
  | _, _ => (-1, attached)
  end.

(** [stats] is what the kernel reports ([None]: the call fails). *)
Definition raw_socket_get_stats (stats : option (Z * Z)) (ctx : option raw_socket_ctx)
    (out_packets out_drops : out_arg) : Z * option (Z * Z) :=
  match ctx, out_packets, out_drops with
  | Some _, Dest, Dest => match stats with Some st => (0, Some st) | None => (-1, None) end
  | _, _, _ => (-1, None)
  end.

(** ** Resources: nothing is leaked *)

(** What the system promises: handles it returns are not in use. *)
Definition fresh_calls (k : open_calls) (o : os) : Prop :=
  (forall a, c_socket k = Some a -> a ∉ fds o) /\
  (forall a, c_mmap k = Some a -> a ∉ maps o) /\
  (forall a, c_malloc k = Some a -> a ∉ blocks o).

Definition same_resources (o o' : os) : Prop :=
  fds o' = fds o /\ maps o' = maps o /\ blocks o' = blocks o.

(** What an open socket holds. *)
Definition holds_socket (ctx : raw_socket_ctx) (o o' : os) : Prop :=
  fds o' = fd ctx :: fds o /\ maps o' = ring_map ctx :: maps o /\ blocks o' = self ctx :: blocks o /\
  (fd ctx ∉ fds o) /\ (ring_map ctx ∉ maps o) /\ (self ctx ∉ blocks o).

Lemma close_last fd_ o o0 : fds o = fd_ :: fds o0 -> fd_ ∉ fds o0 -> close fd_ o = Ret (set_fds (fds o0) o).
Proof. intros E Hf. unfold close. by rewrite E, release_fresh. Qed.
Lemma munmap_last a o o0 : maps o = a :: maps o0 -> a ∉ maps o0 -> munmap a o = Ret (set_maps (maps o0) o).
Proof. intros E Hf. unfold munmap. by rewrite E, release_fresh. Qed.
Lemma free_last a o o0 : blocks o = a :: blocks o0 -> a ∉ blocks o0 -> free a o = Ret (set_blocks (blocks o0) o).
Proof. intros E Hf. unfold free. by rewrite E, release_fresh. Qed.

(** What raw_socket_open can end in, from [o], when it had set the flags to [fl]. *)
Inductive open_result (o : os) (fl : text -> Z) (device : text) (promisc : bool)
    : option raw_socket_ctx * os -> Prop :=
| or_fail o' : same_resources o o' -> if_flags o' = fl -> open_result o fl device promisc (None, o')
| or_ok ctx o' : holds_socket ctx o o' -> if_flags o' = fl ->
    device_name ctx = strncpy RAW_SOCKET_NAME_LEN device -> promisc_set_by_us ctx = promisc ->
    block_nr ctx = RS_RING_BLOCK_NR -> read_cursor ctx = fresh_cursor ->
    open_result o fl device promisc (Some ctx, o').

Lemma close_fails o o1 fl fd_ device promisc :
  fds o1 = fd_ :: fds o -> maps o1 = maps o -> blocks o1 = blocks o -> if_flags o1 = fl -> fd_ ∉ fds o ->
  exists r, (o2 ← close fd_ o1; Ret (None, o2)) = Ret r /\ open_result o fl device promisc r.
Proof.
  intros E Em Eb Ef Hf. rewrite (close_last _ _ o) by done. obind. eexists. split; [done|].
  by apply or_fail; [split_and!|].
Qed.

Lemma map_ring_result k o o1 fl fd_ device promisc :
  fds o1 = fd_ :: fds o -> maps o1 = maps o -> blocks o1 = blocks o -> if_flags o1 = fl -> fd_ ∉ fds o ->
  fresh_calls k o ->
  exists r, map_ring k fd_ device promisc o1 = Ret r /\ open_result o fl device promisc r.
Proof.
  intros E Em Eb Ef Hf (_ & Hm & Hb). unfold map_ring. destruct (c_mmap k) as [a|]; [|by apply close_fails].
  specialize (Hm a eq_refl). destruct (c_malloc k) as [b|].
  - specialize (Hb b eq_refl). eexists. split; [done|]. apply or_ok; try done.
    split_and!; cbn; congruence.
  - rewrite (munmap_last _ _ o) by (cbn; congruence). obind. by apply close_fails.
Qed.

(** The flags an attempt leaves behind, and who set them. *)
Definition promisc_attempt (k : open_calls) (device : text) (o : os) : bool :=
  (Z.land (if_flags o (strncpy IFNAMSIZ device)) IFF_PROMISC =? 0) && c_setflags k.
Definition promisc_flags (k : open_calls) (device : text) (o : os) : text -> Z :=
  let name := strncpy IFNAMSIZ device in
  if promisc_attempt k device o
  then if_flags (set_flags name (Z.lor (if_flags o name) IFF_PROMISC) o) else if_flags o.

Lemma open_cases k device o :
  fresh_calls k o ->
  c_socket k = None /\ raw_socket_open k (Some device) o = Ret (None, o) \/
  exists r, raw_socket_open k (Some device) o = Ret r /\
    (c_bindtodevice k && c_getflags k = false /\ open_result o (if_flags o) device false r \/
     c_bindtodevice k && c_getflags k = true /\
     open_result o (promisc_flags k device o) device (promisc_attempt k device o) r).
Proof.
  intros Hfr. pose proof Hfr as (Hs & _ & _). unfold raw_socket_open.
  destruct (c_socket k) as [fd_|]; [|by left]. specialize (Hs fd_ eq_refl). right.
  destruct (c_bindtodevice k); cbn [negb andb].
  2: { destruct (close_fails o (set_fds (fd_ :: fds o) o) (if_flags o) fd_ device false) as (r & -> & Hr); eauto. }
  destruct (c_getflags k); cbn [negb andb].
  2: { destruct (close_fails o (set_fds (fd_ :: fds o) o) (if_flags o) fd_ device false) as (r & -> & Hr); eauto. }
  cbv zeta. change (if_flags (set_fds (fd_ :: fds o) o)) with (if_flags o). fold (promisc_attempt k device o).
  set (o1 := if promisc_attempt k device o then _ else _).
  assert (fds o1 = fd_ :: fds o /\ maps o1 = maps o /\ blocks o1 = blocks o /\
    if_flags o1 = promisc_flags k device o) as (E1 & E2 & E3 & E4)
    by (unfold o1, promisc_flags; by destruct (promisc_attempt k device o)).
  enough (exists r, (if negb (c_version k) then o ← close fd_ o1; Ret (None, o)
    else if negb (c_rx_ring k) then o ← close fd_ o1; Ret (None, o)
    else map_ring k fd_ device (promisc_attempt k device o) o1) = Ret r /\
    open_result o (promisc_flags k device o) device (promisc_attempt k device o) r) as (r & -> & Hr) by eauto.
  destruct (c_version k); [|by apply close_fails]. destruct (c_rx_ring k); [|by apply close_fails].
  by apply map_ring_result.
Qed.

Lemma strncpy_strncpy n m s : n <= m -> strncpy n (strncpy m s) = strncpy n s.
Proof. intros H. unfold strncpy. rewrite take_take. f_equal. lia. Qed.

Lemma clear_set_promisc f : Z.land f IFF_PROMISC = 0 -> Z.land (Z.lor f IFF_PROMISC) (Z.lnot IFF_PROMISC) = f.
Proof.
  intros H. apply Z.bits_inj'. intros n Hn. rewrite Z.land_spec, Z.lor_spec, Z.lnot_spec by done.
  apply (f_equal (fun x => Z.testbit x n)) in H. rewrite Z.land_spec, Z.bits_0 in H.
  by destruct (Z.testbit f n), (Z.testbit IFF_PROMISC n).
Qed.

Lemma close_holds g s ctx o o' : holds_socket ctx o o' ->
  exists o2, raw_socket_close g s (Some ctx) o' = Ret o2 /\ same_resources o o2 /\
    if_flags o2 = if_flags (clear_promisc g s ctx o').
Proof.
  intros (E1 & E2 & E3 & H1 & H2 & H3). unfold raw_socket_close.
  set (o1 := clear_promisc g s ctx o').
  assert (fds o1 = fds o' /\ maps o1 = maps o' /\ blocks o1 = blocks o') as (F1 & F2 & F3)
    by (unfold o1, clear_promisc; by destruct (_ && _)).
  rewrite (munmap_last _ _ o) by (cbn; congruence). obind.
  rewrite (close_last _ _ o) by (cbn; congruence). obind.
  rewrite (free_last _ _ o) by (cbn; congruence). eexists. split; [done|]. by split_and!.
Qed.

(** ** The device listing *)

(** The names in the entries that have one. *)
Definition names_of (addrs : list (option text)) : list text := omap id addrs.

Lemma strncpy_short n s : zlen s < n -> strncpy n s = s.
Proof. intros H. unfold strncpy. apply take_ge. unfold zlen in H. lia. Qed.

Lemma devices_loop_ok addrs max : forall acc,
  Forall (fun s => zlen s < RAW_SOCKET_NAME_LEN) (names_of addrs) -> NoDup acc -> zlen acc <= max ->
  exists ext, devices_loop addrs max acc = acc ++ ext /\ ext `sublist_of` names_of addrs /\
    NoDup (acc ++ ext) /\ zlen (acc ++ ext) <= max /\
    (zlen (acc ++ ext) < max -> Forall (fun x => x ∈ acc ++ ext) (names_of addrs)).
Proof.
  induction addrs as [|i addrs IH]; intros acc Hs Hn Hl; cbn [devices_loop].
  { exists []. rewrite app_nil_r. split_and!; try done. }
  destruct (Z.ltb_spec (zlen acc) max) as [Hlt|Hge]; cbn [negb].
  2: { exists []. rewrite app_nil_r. split_and!; try done; [apply sublist_nil_l|]. intros. lia. }
  destruct i as [x|]; [|by apply IH]. cbn in Hs. apply Forall_cons in Hs as [Hx Hs]. case_bool_decide as Hin.
  - destruct (IH acc Hs Hn Hl) as (ext & -> & Hsub & Hnd & Hle & Hall). exists ext. split_and!; try done.
    + by apply sublist_cons.
    + intros Hlt'. apply Forall_cons. split; [apply elem_of_app; by left|by apply Hall].
  - rewrite strncpy_short by done. destruct (IH (acc ++ [x])) as (ext & -> & Hsub & Hnd & Hle & Hall); [done|..].
    + apply NoDup_app. split_and!; [done| |apply NoDup_singleton].
      intros y Hy ->%list_elem_of_singleton. done.
    + rewrite zlen_app. change (zlen [x]) with 1. lia.
    + rewrite <- app_assoc in *. exists (x :: ext). split_and!; try done; [by apply sublist_skip|].
      intros Hlt'. apply Forall_cons. split; [|by apply Hall].
      apply elem_of_app. right. apply elem_of_cons. by left.
Qed.

(** An attempt to open the socket, for its callers. *)
Lemma open_outcome k device o : fresh_calls k o ->
  exists r o', raw_socket_open k device o = Ret (r, o') /\
    match r with None => same_resources o o' | Some ctx => holds_socket ctx o o' end.
Proof.
  intros Hfr. destruct device as [device|]; [|by eexists None, o].
  destruct (open_cases k device o Hfr) as [(_ & ->)|([r o'] & -> & Hr)]; [by eexists None, o|].
  exists r, o'. split; [done|]. by destruct Hr as [[_ Hr]|[_ Hr]]; inversion Hr.
Qed.

(** ** Properties *)

(** C28: opening never leaks: when it returns NULL, whichever call failed, no descriptor,
    mapping or heap block is left; when it succeeds, closing gives back all three exactly once
    and, if its ioctl calls work, restores the interface flags as they were before. *)
Theorem open_close k device o :
  fresh_calls k o ->
  exists r o', raw_socket_open k device o = Ret (r, o') /\
    match r with
    | None => same_resources o o'
    | Some ctx => holds_socket ctx o o' /\
        forall g s, exists o2, raw_socket_close g s (Some ctx) o' = Ret o2 /\ same_resources o o2 /\
          (g && s = true -> forall name, if_flags o2 name = if_flags o name)
    end.
Proof.
  intros Hfr. destruct device as [device|]; [|by eexists None, o].
  destruct (open_cases k device o Hfr) as [(_ & ->)|([r o'] & -> & Hr)]; [by eexists None, o|].
  exists r, o'. split; [done|]. destruct r as [ctx|].
  2: { by destruct Hr as [[_ Hr]|[_ Hr]]; inversion Hr. }
  assert (exists fl promisc, open_result o fl device promisc (Some ctx, o') /\
    (promisc = false /\ fl = if_flags o \/ promisc = true /\ fl = promisc_flags k device o /\
     promisc_attempt k device o = true)) as (fl & promisc & Hr' & Hfl).
  { destruct Hr as [[_ Hr]|[_ Hr]]; [eauto 8|]. eexists _, _. split; [exact Hr|].
    unfold promisc_flags. destruct (promisc_attempt k device o); auto. }
  inversion Hr' as [|ctx' o2 Hh Ef En Ep Enr Ec]. subst. split; [done|]. intros g s.
  destruct (close_holds g s _ _ _ Hh) as (o2 & -> & Hs & Ecl). exists o2. split_and!; [done..|].
  intros Hgs name. rewrite Ecl. unfold clear_promisc. rewrite <- andb_assoc, Hgs, andb_true_r.
  destruct Hfl as [[Hp Hf]|(Hp & Hf & Ha)]; rewrite Hp; [by rewrite Hf|]. cbn [set_flags if_flags].
  rewrite En, strncpy_strncpy by done. rewrite Hf. unfold promisc_flags. rewrite Ha. cbn [set_flags if_flags].
  apply andb_true_iff in Ha as [Ha%Z.eqb_eq _].
  case_bool_decide as Hn; [|done]. subst name. rewrite bool_decide_eq_true_2 by done.
  by apply clear_set_promisc.
Qed.

(** when the calls that come after promiscuous mode was switched on fail, opening returns
    NULL and leaves the interface promiscuous: nothing will ever switch it off. *)
Theorem open_failure_leaves_promisc k device o :
  fresh_calls k o -> c_socket k <> None -> c_bindtodevice k = true -> c_getflags k = true ->
  c_setflags k = true -> Z.land (if_flags o (strncpy IFNAMSIZ device)) IFF_PROMISC = 0 ->
  c_version k && c_rx_ring k = false \/ c_mmap k = None \/ c_malloc k = None ->
  exists o', raw_socket_open k (Some device) o = Ret (None, o') /\
    Z.land (if_flags o' (strncpy IFNAMSIZ device)) IFF_PROMISC = IFF_PROMISC.
Proof.
  intros Hfr Hs Hb Hg Hset Hun Hfail.
  destruct (open_cases k device o Hfr) as [[? _]|([r o'] & E & Hr)]; [done|].
  assert (r = None) as ->.
  { unfold raw_socket_open, map_ring in E. destruct r as [ctx|]; [exfalso|done].
    destruct (c_socket k) as [fd_|]; [|done]. rewrite Hb, Hg in E. cbn [negb] in E. cbv zeta in E.
    destruct (c_version k), (c_rx_ring k), (c_mmap k) as [a|], (c_malloc k) as [b|]; cbn [negb] in E;
      try (destruct Hfail as [?|[?|?]]; discriminate);
      repeat apply outcome_bind_inv in E as (? & _ & E); discriminate E. }
  exists o'. split; [done|]. rewrite Hb, Hg in Hr. destruct Hr as [[[=] _]|[_ Hr]].
  inversion Hr as [o2 _ Ef|]. rewrite Ef. unfold promisc_flags, promisc_attempt.
  rewrite Hset, Hun. cbn [andb Z.eqb set_flags if_flags]. rewrite bool_decide_eq_true_2 by done.
  by rewrite Z.land_lor_distr_l, Hun, Z.lor_0_l, Z.land_diag.
Qed.

(** the listing returns the number of entries it wrote: names of interfaces without
    repetition, in the system's order, at most [max_devices], and all of them if there is
    room. *)
Theorem list_devices_ok addrs max :
  0 < max -> Forall (fun s => zlen s < RAW_SOCKET_NAME_LEN) (names_of addrs) ->
  exists out, raw_socket_list_devices (Some addrs) Dest max = (zlen out, out) /\
    NoDup out /\ out `sublist_of` names_of addrs /\ zlen out <= max /\
    (zlen out < max -> Forall (fun x => x ∈ out) (names_of addrs)).
Proof.
  intros Hm Hs. destruct (devices_loop_ok addrs max [] Hs) as (out & E & ? & ? & ? & ?);
    [constructor|by rewrite zlen_nil; lia|]. cbn [app] in *.
  exists out. split_and!; try done. unfold raw_socket_list_devices. zcase. by rewrite E.
Qed.

Definition sample_calls : open_calls :=
  {| c_socket := Some 5; c_bindtodevice := true; c_getflags := true; c_setflags := true;
     c_version := true; c_rx_ring := true; c_mmap := Some 4096; c_malloc := Some 77 |}.
Definition sample_os : os :=
  {| fds := [0; 1; 2]; maps := []; blocks := [1]; if_flags := fun _ => 0x1043 |}.

Lemma sample_fresh_calls : fresh_calls sample_calls sample_os.
Proof. split_and!; intros a [= <-]; by apply (bool_decide_unpack _). Qed.

Lemma open_close_witness :
  exists r o', raw_socket_open sample_calls (Some (lit "eth0")) sample_os = Ret (r, o') /\
    match r with
    | None => same_resources sample_os o'
    | Some ctx => holds_socket ctx sample_os o' /\
        forall g s, exists o2, raw_socket_close g s (Some ctx) o' = Ret o2 /\ same_resources sample_os o2 /\
          (g && s = true -> forall name, if_flags o2 name = if_flags sample_os name)
    end.
Proof. apply open_close. exact sample_fresh_calls. Defined.

Definition failing_calls : open_calls :=
  {| c_socket := Some 5; c_bindtodevice := true; c_getflags := true; c_setflags := true;
     c_version := true; c_rx_ring := false; c_mmap := None; c_malloc := None |}.

Lemma open_failure_leaves_promisc_witness :
  exists o', raw_socket_open failing_calls (Some (lit "eth0")) sample_os = Ret (None, o') /\
    Z.land (if_flags o' (strncpy IFNAMSIZ (lit "eth0"))) IFF_PROMISC = IFF_PROMISC.
Proof.
  apply open_failure_leaves_promisc; try reflexivity; [|discriminate|left; reflexivity].
  split_and!; intros a [= <-]. by apply (bool_decide_unpack _).
Defined.

Definition sample_addrs : list (option text) :=
  [Some (lit "lo"); Some (lit "eth0"); None; Some (lit "lo"); Some (lit "eth0"); Some (lit "wlan0")].

Lemma list_devices_ok_witness :
  exists out, raw_socket_list_devices (Some sample_addrs) Dest 32 = (zlen out, out) /\
    NoDup out /\ out `sublist_of` names_of sample_addrs /\ zlen out <= 32 /\
    (zlen out < 32 -> Forall (fun x => x ∈ out) (names_of sample_addrs)).
Proof. apply list_devices_ok; [lia|by repeat constructor]. Defined.
