(* ===== verification/CaptureBackend.v ===== *)
(** * The capture backend (src/src/c/capture_backend_linux.c)

    [run_impl] as a whole: compile and attach the filter, open the socket and the .pcap
    file, install the SIGINT handler, receive until a stop or an error, and undo all of it.
    It calls the models of the filter compiler, of the socket and of the receive loop's
    results; what the C library and the kernel answer is the parameter [env].  The .pcap
    structures are written as a little-endian host lays them out in memory. *)
From S2P Require Import Prelude Text Bpf Literals FilterCore Lexing BoolParser.
From S2P Require Import FrontEnd CapLexer CapParser CapCodegen CapFilter RawSocket RawDevice.
From stdpp Require Import options.

Local Open Scope Z_scope.

(** ** The file format *)

Definition PCAP_MAGIC_MICROSECONDS : Z := 0xa1b2c3d4.
Definition PCAP_LINKTYPE_ETHERNET : Z := 1.

Definition le16 (x : Z) : list Z := [x mod 256; x / 256].
Definition le32 (x : Z) : list Z := [x mod 256; x / 2 ^ 8 mod 256; x / 2 ^ 16 mod 256; x / 2 ^ 24].

Record pcap_global_header_t := {
  magic_number : Z; version_major : Z; version_minor : Z; thiszone : Z; sigfigs : Z;
  snaplen : Z; network : Z
}.
Record pcap_record_header_t := { ts_sec : Z; ts_usec : Z; incl_len : Z; orig_len : Z }.

(** The structures' bytes. *)
Definition global_bytes (h : pcap_global_header_t) : list Z :=
  le32 (magic_number h) ++ le16 (version_major h) ++ le16 (version_minor h) ++ le32 (thiszone h) ++
  le32 (sigfigs h) ++ le32 (snaplen h) ++ le32 (network h).
Definition record_bytes (r : pcap_record_header_t) : list Z :=
  le32 (ts_sec r) ++ le32 (ts_usec r) ++ le32 (incl_len r) ++ le32 (orig_len r).

(** ** The world of a run *)

Inductive handler := SIG_DFL | ON_SIGINT | OTHER_HANDLER (n : Z).

(** The file-scope variables, and the process's SIGINT disposition. *)
Record globals := {
  g_active_ctx : option Z;
  g_last_stats : Z * Z;
  g_last_stats_valid : bool;
  sigint : handler
}.

(** The output file: whether it is open, what has been written, and by how many calls. *)
Record file := { is_open : bool; contents : list Z; n_writes : nat }.

(** [calls] are the frames given to the callback; [attached] is the socket's filter; [stderr] what
    [fprintf] has written there; [progs] are the heap blocks of filter programs. *)
Record world := {
  w_os : os;
  w_glob : globals;
  w_file : file;
  calls : list (list Z * Z * Z);
  attached : option (list sock_filter);
  stderr : text;
  progs : handles
}.

Definition set_os (o : os) (w : world) : world :=
  {| w_os := o; w_glob := w_glob w; w_file := w_file w; calls := calls w; attached := attached w;
     stderr := stderr w; progs := progs w |}.
Definition set_glob (g : globals) (w : world) : world :=
  {| w_os := w_os w; w_glob := g; w_file := w_file w; calls := calls w; attached := attached w;
     stderr := stderr w; progs := progs w |}.
Definition set_file (f : file) (w : world) : world :=
  {| w_os := w_os w; w_glob := w_glob w; w_file := f; calls := calls w; attached := attached w;
     stderr := stderr w; progs := progs w |}.
Definition set_attached (a : option (list sock_filter)) (w : world) : world :=
  {| w_os := w_os w; w_glob := w_glob w; w_file := w_file w; calls := calls w; attached := a;
     stderr := stderr w; progs := progs w |}.
Definition to_stderr (t : text) (w : world) : world :=
  {| w_os := w_os w; w_glob := w_glob w; w_file := w_file w; calls := calls w; attached := attached w;
     stderr := stderr w ++ t; progs := progs w |}.
Definition set_progs (h : handles) (w : world) : world :=
  {| w_os := w_os w; w_glob := w_glob w; w_file := w_file w; calls := calls w; attached := attached w;
     stderr := stderr w; progs := h |}.

(** [cb(buf, n, ts_seconds, ts_microseconds, user_data);] *)
Definition call_back (f : list Z * Z * Z) (w : world) : world :=
  {| w_os := w_os w; w_glob := w_glob w; w_file := w_file w; calls := calls w ++ [f];
     attached := attached w; stderr := stderr w; progs := progs w |}.

(** What the environment answers. *)
Record env := {
  e_malloc : Z -> bool;          (* the filter compiler's malloc *)
  e_prog : Z;                    (* the block it gets for the program *)
  e_stack : text;                (* what [char err[128]] happens to hold *)
  e_open : open_calls;
  e_attach : bool;
  e_fopen : bool;
  e_write : nat -> option nat;   (* the n-th fwrite: all of it, or only so many bytes *)
  e_signal : bool;
  e_recv : list recv_result;     (* what raw_socket_recv returns, call by call *)
  e_fclose : bool;
  e_stats : option (Z * Z);
  e_close_get : bool;
  e_close_set : bool
}.

Section Run.
Context (e : env).

(** ** Writing *)

Definition fwrite (bytes : list Z) (f : file) : bool * file :=
  match e_write e (n_writes f) with
  | None => (true, {| is_open := is_open f; contents := contents f ++ bytes; n_writes := S (n_writes f) |})
  | Some k =>
    (false, {| is_open := is_open f; contents := contents f ++ take k bytes; n_writes := S (n_writes f) |})
  end.

Definition write_pcap_global_header (f : file) : Z * file :=
  let hdr := {| magic_number := PCAP_MAGIC_MICROSECONDS; version_major := 2; version_minor := 4;
                thiszone := 0; sigfigs := 0; snaplen := RAW_SOCKET_MAX_FRAME;
                network := PCAP_LINKTYPE_ETHERNET |} in
  let '(ok, f) := fwrite (global_bytes hdr) f in
  (if ok : bool then 0 else -1, f).

Definition write_pcap_record (data : list Z) (len ts_seconds ts_microseconds : Z) (f : file) : Z * file :=
  let rec := {| ts_sec := ts_seconds; ts_usec := ts_microseconds; incl_len := len; orig_len := len |} in
  let '(ok, f) := fwrite (record_bytes rec) f in
  if negb ok then (-1, f)
  else if 0 <? len then
    let '(ok, f) := fwrite (take (Z.to_nat len) data) f in
    (if ok : bool then 0 else -1, f)
  else (0, f).

(** ** Before the loop *)

(** [fprintf(stderr, ...)] for a filter the compiler rejects. *)
Definition invalid_expression (bpf_filter err : text) : text :=
  ln (lit "error: invalid filter expression " ++ quote ++ bpf_filter ++ quote ++ lit ": " ++ err).

(** [None] is [return -1]. *)
Definition compile_stage (bpf_filter : option text) (w : world) : outcome (option sock_fprog * world) :=
  match bpf_filter with
  | None | Some [] => Ret (Some empty_fprog, w)
  | Some expr =>
    r ← capfilter_compile (e_malloc e) (Some expr) Dest (Some (e_stack e)) 128;
    if negb (rc r =? 0) then Ret (None, to_stderr (invalid_expression expr (default [] (err_buf r))) w)
    else Ret (out r, match out r ≫= filter with Some _ => set_progs (e_prog e :: progs w) w | None => w end)
  end.

(** [capfilter_free(&filter_prog)]; nothing is done for a NULL [filter]. *)
Definition free_filter (filter_prog : sock_fprog) (w : world) : outcome world :=
  match filter filter_prog with
  | None => Ret w
  | Some _ => h ← release (e_prog e) (progs w); Ret (set_progs h w)
  end.

Definition close_socket (ctx : raw_socket_ctx) (w : world) : outcome world :=
  o ← raw_socket_close (e_close_get e) (e_close_set e) (Some ctx) (w_os w); Ret (set_os o w).

(** Whether the capture goes on. *)
Definition attach_stage (filter_prog : sock_fprog) (ctx : raw_socket_ctx) (w : world) : outcome (bool * world) :=
  let '(rc, att) :=
    match filter filter_prog with
    | None => (0, attached w)
    | Some _ => raw_socket_attach_filter (e_attach e) (Some ctx) (program filter_prog) (attached w)
    end in
  if negb (rc =? 0) then w ← free_filter filter_prog w; w ← close_socket ctx w; Ret (false, w)
  else w ← free_filter filter_prog (set_attached att w); Ret (true, w).

Definition file_stage (pcap_output_path : option text) (ctx : raw_socket_ctx) (w : world)
    : outcome (bool * world) :=
  match pcap_output_path with
  | None | Some [] => Ret (true, w)
  | Some _ =>
    if negb (e_fopen e) then w ← close_socket ctx w; Ret (false, w)
    else
      let '(rc, f) := write_pcap_global_header {| is_open := true; contents := []; n_writes := 0 |} in
      if negb (rc =? 0) then
        w ← close_socket ctx (set_file {| is_open := false; contents := contents f; n_writes := n_writes f |} w);
        Ret (false, w)
      else Ret (true, set_file f w)
  end.

(** ** The loop *)

(** What follows a call of raw_socket_recv: [Some result] leaves the loop. *)
Definition after_recv (r : recv_result) (w : world) : outcome (option Z * world) :=
  if ret r =? RAW_SOCKET_STOPPED then Ret (Some 0, w)
  else if ret r <? 0 then Ret (Some (-1), w)
  else
    match frame r with
    | None => UB
    | Some (buf, ts_seconds, ts_microseconds) =>
      let '(rc, f) :=
        if is_open (w_file w) then write_pcap_record buf (ret r) ts_seconds ts_microseconds (w_file w)
        else (0, w_file w) in
      let w := set_file f w in
      if negb (rc =? 0) then Ret (Some (-1), w)
      else Ret (None, call_back (take (Z.to_nat (ret r)) buf, ts_seconds, ts_microseconds) w)
    end.

Fixpoint capture_loop (recvs : list recv_result) (w : world) : outcome (Z * world) :=
  match recvs with
  | [] => Timeout
  | r :: recvs =>
    '(result, w) ← after_recv r w;
    match result with Some result => Ret (result, w) | None => capture_loop recvs w end
  end.

(** ** After the loop *)

(** [signal(SIGINT, on_sigint)]: what is to be restored, SIG_DFL when signal failed. *)
Definition install_handler (w : world) : handler * world :=
  let g := w_glob w in
  (if e_signal e then sigint g else SIG_DFL,
   set_glob {| g_active_ctx := g_active_ctx g; g_last_stats := g_last_stats g;
               g_last_stats_valid := g_last_stats_valid g;
               sigint := if e_signal e then ON_SIGINT else sigint g |} w).

(** [(void)signal(SIGINT, previous_sigint_handler);] *)
Definition restore_handler (previous : handler) (w : world) : world :=
  let g := w_glob w in
  set_glob {| g_active_ctx := g_active_ctx g; g_last_stats := g_last_stats g;
              g_last_stats_valid := g_last_stats_valid g; sigint := previous |} w.

(** [g_active_ctx = ...;] *)
Definition set_active (a : option Z) (w : world) : world :=
  let g := w_glob w in
  set_glob {| g_active_ctx := a; g_last_stats := g_last_stats g;
              g_last_stats_valid := g_last_stats_valid g; sigint := sigint g |} w.

Definition close_file (result : Z) (w : world) : Z * world :=
  let f := w_file w in
  if is_open f then
    (if e_fclose e then result else -1,
     set_file {| is_open := false; contents := contents f; n_writes := n_writes f |} w)
  else (result, w).

Definition read_stats (ctx : raw_socket_ctx) (w : world) : world :=
  let g := w_glob w in
  let '(rc, st) := raw_socket_get_stats (e_stats e) (Some ctx) Dest Dest in
  set_glob {| g_active_ctx := g_active_ctx g;
              g_last_stats := match st with Some st => st | None => g_last_stats g end;
              g_last_stats_valid := rc =? 0; sigint := sigint g |} w.

(** From the installation of the handler to the return. *)
Definition capture_stage (ctx : raw_socket_ctx) (w : world) : outcome (Z * world) :=
  let '(previous, w) := install_handler w in
  let w := set_active (Some (self ctx)) w in
  '(result, w) ← capture_loop (e_recv e) w;
  let w := restore_handler previous w in
  let w := set_active None w in
  let '(result, w) := close_file result w in
  let w := read_stats ctx w in
  w ← close_socket ctx w;
  Ret (result, w).

(** Up to the installation of the handler: the socket with which the capture goes on, or [None]
    for [return -1].  A new socket has no filter. *)
Definition prepare (device_name bpf_filter pcap_output_path : option text) (w : world)
    : outcome (option raw_socket_ctx * world) :=
  '(filter_prog, w) ← compile_stage bpf_filter w;
  match filter_prog with
  | None => Ret (None, w)
  | Some filter_prog =>
    '(ctx, o) ← raw_socket_open (e_open e) device_name (w_os w);
    let w := set_os o w in
    match ctx with
    | None => w ← free_filter filter_prog w; Ret (None, w)
    | Some ctx =>
      '(go, w) ← attach_stage filter_prog ctx (set_attached None w);
      if negb go then Ret (None, w)
      else
        '(go, w) ← file_stage pcap_output_path ctx w;
        Ret (if negb go then None else Some ctx, w)
    end
  end.

Definition run_impl (device_name bpf_filter pcap_output_path : option text) (w : world)
    : outcome (Z * world) :=
  '(ctx, w) ← prepare device_name bpf_filter pcap_output_path w;
  match ctx with None => Ret (-1, w) | Some ctx => capture_stage ctx w end.
End Run.

(** ** The other operations *)

(** [request_stop_impl] reads [g_active_ctx], and then writes into the context it found, if any,
    which must not have been freed.  These are two steps: when another thread runs between them
    (see Interrupt.v) the context may be gone. *)
Definition load_active (w : world) : option Z := g_active_ctx (w_glob w).
Definition store_stop (ctx : Z) (w : world) (s : sock) : outcome sock :=
  if bool_decide (ctx ∈ blocks (w_os w)) then Ret (request_stop s) else UB.

(** A call during which no other thread runs. *)
Definition request_stop_impl (w : world) (s : sock) : outcome sock :=
  match load_active w with Some ctx => store_stop ctx w s | None => Ret s end.

Definition get_last_stats_impl (out : out_arg) (w : world) : Z * option (Z * Z) :=
  match out with
  | Null => (-1, None)
  | Dest => if negb (g_last_stats_valid (w_glob w)) then (-1, None) else (0, Some (g_last_stats (w_glob w)))
  end.

Definition CAPTURE_MAX_DEVICES : Z := 32.
Definition CAPTURE_NAME_LEN : Z := 256.

(** The return value and the names written; every description is empty. *)
Definition list_devices_impl (addr : option (list (option text))) (max_devices : Z) : Z * list text :=
  let max_devices := if CAPTURE_MAX_DEVICES <? max_devices then CAPTURE_MAX_DEVICES else max_devices in
  let '(count, raw_devices) := raw_socket_list_devices addr Dest max_devices in
  if count <? 0 then (-1, [])
  else (count, map (strncpy CAPTURE_NAME_LEN) (take (Z.to_nat count) raw_devices)).

(** ** Specification: reading a .pcap file *)

Definition un_le32 (b0 b1 b2 b3 : Z) : Z := b0 + 2 ^ 8 * b1 + 2 ^ 16 * b2 + 2 ^ 24 * b3.

Lemma un_le32_le32 x : 0 <= x < 2 ^ 32 ->
  un_le32 (x mod 256) (x / 2 ^ 8 mod 256) (x / 2 ^ 16 mod 256) (x / 2 ^ 24) = x.
Proof. intros H. unfold un_le32. Z.div_mod_to_equations. lia. Qed.

Definition file_header : list Z :=
  global_bytes {| magic_number := PCAP_MAGIC_MICROSECONDS; version_major := 2; version_minor := 4;
                  thiszone := 0; sigfigs := 0; snaplen := RAW_SOCKET_MAX_FRAME;
                  network := PCAP_LINKTYPE_ETHERNET |}.

Example file_header_bytes : file_header =
  [0xd4; 0xc3; 0xb2; 0xa1; 2; 0; 4; 0; 0; 0; 0; 0; 0; 0; 0; 0; 0; 0; 1; 0; 1; 0; 0; 0].
Proof. reflexivity. Qed.

(** Records up to the end of the file; each must be whole. *)
Fixpoint decode_records (fuel : nat) (l : list Z) : option (list (list Z * Z * Z)) :=
  match l, fuel with
  | [], _ => Some []
  | s0 :: s1 :: s2 :: s3 :: u0 :: u1 :: u2 :: u3 :: i0 :: i1 :: i2 :: i3 :: o0 :: o1 :: o2 :: o3 :: l, S fuel =>
    let n := Z.to_nat (un_le32 i0 i1 i2 i3) in
    if (length l <? n)%nat then None
    else fs ← decode_records fuel (drop n l);
         Some ((take n l, un_le32 s0 s1 s2 s3, un_le32 u0 u1 u2 u3) :: fs)
  | _, _ => None
  end.

(** The frames of a capture file with their timestamps. *)
Definition pcap_decode (l : list Z) : option (list (list Z * Z * Z)) :=
  if bool_decide (take 24 l = file_header) then decode_records (length l) (drop 24 l) else None.

(** What is written for a frame. *)
Definition frame_bytes (f : list Z * Z * Z) : list Z :=
  let '(data, s, u) := f in
  record_bytes {| ts_sec := s; ts_usec := u; incl_len := zlen data; orig_len := zlen data |} ++ data.

Definition frame_fits (f : list Z * Z * Z) : Prop :=
  let '(data, s, u) := f in zlen data < 2 ^ 31 /\ 0 <= s < 2 ^ 32 /\ 0 <= u < 2 ^ 32.

Lemma decode_frames fs : Forall frame_fits fs -> forall fuel,
  (length fs <= fuel)%nat -> decode_records fuel (concat (map frame_bytes fs)) = Some fs.
Proof.
  induction 1 as [|[[data s] u] fs (Hl & Hs & Hu) Hf IH]; intros fuel Hfu; [by destruct fuel|].
  destruct fuel as [|fuel]; [cbn in Hfu; lia|]. pose proof (zlen_nonneg data).
  cbn [map concat frame_bytes]. unfold record_bytes, le32. cbn [ts_sec ts_usec incl_len orig_len app decode_records].
  rewrite !un_le32_le32 by lia. unfold zlen at 1 2 3. rewrite Nat2Z.id, length_app.
  destruct (Nat.ltb_spec (length data + length (concat (map frame_bytes fs))) (length data)); [lia|].
  rewrite drop_app_length, take_app_length, IH by (cbn in Hfu; lia). done.
Qed.

Lemma length_frames fs : (length fs <= length (concat (map frame_bytes fs)))%nat.
Proof.
  induction fs as [|[[data s] u] fs IH]; [done|]. cbn [map concat length frame_bytes].
  unfold record_bytes, le32. rewrite !length_app. cbn. lia.
Qed.

Lemma pcap_decode_frames fs : Forall frame_fits fs ->
  pcap_decode (file_header ++ concat (map frame_bytes fs)) = Some fs.
Proof.
  intros Hf. unfold pcap_decode. change 24%nat with (length file_header).
  rewrite take_app_length, drop_app_length, bool_decide_eq_true_2 by done.
  apply decode_frames; [done|]. rewrite length_app. pose proof (length_frames fs). lia.
Qed.

(** ** The loop *)

(** What raw_socket_recv can return (see [recv_next_frame]). *)
Definition recv_ok (r : recv_result) : Prop :=
  match frame r with
  | Some f => frame_fits f /\ ret r = zlen (fst (fst f))
  | None => ret r < 0
  end.

(** The frames before the first stop or error. *)
Fixpoint received (recvs : list recv_result) : list (list Z * Z * Z) :=
  match recvs with
  | r :: recvs => match frame r with Some f => f :: received recvs | None => [] end
  | [] => []
  end.

Lemma take_zlen {A} (l : list A) : take (Z.to_nat (zlen l)) l = l.
Proof. unfold zlen. by rewrite Nat2Z.id, firstn_all. Qed.

(** Only the file and the callback's record change. *)
Definition quiet (w w' : world) : Prop :=
  w_os w' = w_os w /\ w_glob w' = w_glob w /\ attached w' = attached w /\ stderr w' = stderr w /\
  progs w' = progs w.

Lemma write_record_spec e data s u f :
  exists rc f', write_pcap_record e data (zlen data) s u f = (rc, f') /\ is_open f' = is_open f /\
    (rc = 0 /\ contents f' = contents f ++ frame_bytes (data, s, u) \/ rc = -1).
Proof.
  unfold write_pcap_record, fwrite. destruct (e_write e (n_writes f)) as [k|]; cbn [negb].
  { eexists _, _. split; [done|]. split; [done|by right]. }
  destruct (Z.ltb_spec 0 (zlen data)) as [Hl|Hl]; cbn [n_writes is_open contents].
  - rewrite take_zlen.
    destruct (e_write e (S (n_writes f))) as [k|]; eexists _, _; (split; [done|]); (split; [done|]);
      [by right|left; split; [done|]]. cbn [contents frame_bytes]. by rewrite <- app_assoc.
  - eexists _, _. split; [done|]. split; [done|]. left. split; [done|]. cbn [contents frame_bytes].
    destruct data; [by rewrite app_nil_r|]. rewrite zlen_cons in Hl. pose proof (zlen_nonneg data). lia.
Qed.

(** A capture ends well exactly when every frame up to the stop was delivered; then, if there is a
    file, it has a record for each. *)
Lemma loop_spec e recvs : Forall recv_ok recvs -> Exists (fun r => ret r < 0) recvs -> forall w,
  exists rc w' fs, capture_loop e recvs w = Ret (rc, w') /\ quiet w w' /\
    is_open (w_file w') = is_open (w_file w) /\ calls w' = calls w ++ fs /\
    fs `prefix_of` received recvs /\
    (rc = 0 /\ fs = received recvs /\ (is_open (w_file w) = true ->
       contents (w_file w') = contents (w_file w) ++ concat (map frame_bytes fs)) \/ rc = -1).
Proof.
  induction 1 as [|r recvs Hr Hrs IH]; [by inversion 1|]. intros He w. cbn [capture_loop received]. unfold after_recv.
  unfold recv_ok in Hr. destruct (frame r) as [[[data s] u]|].
  2: { assert (exists rc, (if ret r =? RAW_SOCKET_STOPPED then Ret (Some 0, w) else Ret (Some (-1), w)) =
         Ret (Some rc, w) /\ (rc = 0 \/ rc = -1)) as (rc & E & Hrc) by (destruct (_ =? _); eauto).
       exists rc, w, []. split; [destruct (Z.ltb_spec (ret r) 0); [by rewrite E|lia]|]. rewrite !app_nil_r.
       split_and!; try done. destruct Hrc as [->| ->]; [left|by right].
       by split_and!. }
  destruct Hr as [Hfit Hlen]. cbn [fst] in Hlen. pose proof (zlen_nonneg data) as Hz.
  assert (Exists (fun r => ret r < 0) recvs) as He' by (inversion He; [lia|done]).
  destruct (Z.eqb_spec (ret r) RAW_SOCKET_STOPPED); [unfold RAW_SOCKET_STOPPED in *; lia|].
  destruct (Z.ltb_spec (ret r) 0); [lia|]. rewrite Hlen, take_zlen.
  assert (exists rc f, (if is_open (w_file w) then write_pcap_record e data (zlen data) s u (w_file w)
      else (0, w_file w)) = (rc, f) /\ is_open f = is_open (w_file w) /\
    (rc = 0 /\ (is_open (w_file w) = true -> contents f = contents (w_file w) ++ frame_bytes (data, s, u)) \/
     rc = -1)) as (rc & f & -> & Ho & Hc).
  { destruct (is_open (w_file w)) eqn:Eo; [|exists 0, (w_file w); split_and!; [done..|by left]].
    destruct (write_record_spec e data s u (w_file w)) as (rc & f & -> & Ho & Hc).
    eexists _, _. split; [done|]. split; [congruence|]. destruct Hc as [[? ?]|?]; auto. }
  destruct Hc as [[-> Hc]| ->]; cbn [negb Z.eqb]; obind.
  - destruct (IH He' (call_back (data, s, u) (set_file f w)))
      as (rc & w' & fs & -> & Hq & Ho' & Hcl & Hp & Hres).
    exists rc, w', ((data, s, u) :: fs). cbn [call_back set_file w_file] in *. split_and!; try done.
    + congruence.
    + rewrite Hcl. cbn [calls call_back set_file]. by rewrite <- app_assoc.
    + by apply prefix_cons.
    + destruct Hres as [(-> & -> & Hcont)| ->]; [left|by right]. split_and!; try done. intros Eo.
      rewrite Hcont, Hc by congruence. cbn [map concat]. by rewrite app_assoc.
  - exists (-1), (set_file f w), []. rewrite !app_nil_r. split_and!; try done; [by apply prefix_nil|by right].
Qed.

(** ** The stages *)

Section Stages.
Context (e : env) (Hrecv : Forall recv_ok (e_recv e)) (Hend : Exists (fun r => ret r < 0) (e_recv e)).

Lemma close_socket_ok ctx o w : holds_socket ctx o (w_os w) ->
  exists o2, close_socket e ctx w = Ret (set_os o2 w) /\ same_resources o o2.
Proof using.
  intros Hh. unfold close_socket.
  destruct (close_holds (e_close_get e) (e_close_set e) ctx o (w_os w) Hh) as (o2 & -> & Hs & _). eauto.
Qed.

(** What a capture that got as far as the loop leaves behind, [o] being the resources before
    the socket was opened and [w] the world when the loop began. *)
Definition ended (o : os) (w : world) (rc : Z) (w' : world) : Prop :=
  same_resources o (w_os w') /\ is_open (w_file w') = false /\ g_active_ctx (w_glob w') = None /\
  sigint (w_glob w') = (if e_signal e then sigint (w_glob w) else SIG_DFL) /\
  attached w' = attached w /\ progs w' = progs w /\
  get_last_stats_impl Dest w' = match e_stats e with Some st => (0, Some st) | None => (-1, None) end /\
  (exists fs, calls w' = calls w ++ fs /\ fs `prefix_of` received (e_recv e)) /\
  (rc = -1 \/ rc = 0 /\ calls w' = calls w ++ received (e_recv e) /\
   (is_open (w_file w) = true -> contents (w_file w') =
      contents (w_file w) ++ concat (map frame_bytes (received (e_recv e))))).

(** The last two steps, from a world in which the loop's results are settled. *)
Lemma finish_ok ctx o w w5 rc fs :
  holds_socket ctx o (w_os w5) -> is_open (w_file w5) = false -> g_active_ctx (w_glob w5) = None ->
  sigint (w_glob w5) = (if e_signal e then sigint (w_glob w) else SIG_DFL) ->
  attached w5 = attached w -> progs w5 = progs w -> calls w5 = calls w ++ fs -> fs `prefix_of` received (e_recv e) ->
  (rc = -1 \/ rc = 0 /\ fs = received (e_recv e) /\ (is_open (w_file w) = true ->
     contents (w_file w5) = contents (w_file w) ++ concat (map frame_bytes fs))) ->
  exists w', (w ← close_socket e ctx (read_stats e ctx w5); Ret (rc, w)) = Ret (rc, w') /\ ended o w rc w'.
Proof using.
  intros Hh Ho Ha Hs Hat Hpr Hc Hp Hres.
  destruct (close_socket_ok ctx o (read_stats e ctx w5)) as (o2 & -> & Hsame).
  { unfold read_stats. by destruct (raw_socket_get_stats _ _ _ _). }
  obind. exists (set_os o2 (read_stats e ctx w5)). split; [done|].
  unfold ended, read_stats, raw_socket_get_stats.
  split_and!; try done; [..|destruct Hres as [?|(? & -> & ?)]; [by left|right]];
    destruct (e_stats e); cbn [set_os set_glob w_glob w_file calls attached progs g_active_ctx sigint w_os];
    rewrite ?Hc; try done; eauto.
Qed.

Lemma capture_stage_ok ctx o w : holds_socket ctx o (w_os w) ->
  exists rc w', capture_stage e ctx w = Ret (rc, w') /\ ended o w rc w'.
Proof using Hrecv Hend.
  intros Hh. unfold capture_stage, install_handler.
  set (w1 := set_active _ _). destruct (loop_spec e _ Hrecv Hend w1)
    as (rc & w2 & fs & -> & (Q1 & Q2 & Q3 & Q4 & Q5) & Ho & Hc & Hp & Hres). obind.
  assert (holds_socket ctx o (w_os w2)) as Hh2 by (by rewrite Q1).
  unfold close_file. cbn [restore_handler set_active set_glob w_file]. destruct (is_open (w_file w2)) eqn:Eo.
  - eexists. apply (finish_ok ctx o w _ _ fs); try done.
    destruct (e_fclose e); [|by left]. destruct Hres as [(-> & -> & ?)| ->]; [right|by left]. by split_and!.
  - eexists. apply (finish_ok ctx o w _ _ fs); try done.
    destruct Hres as [(-> & -> & ?)| ->]; [right|by left]. by split_and!.
Qed.

(** The filter a run is given, and the program the socket runs. *)
Definition filter_attached (bpf_filter : option text) (prog : option (list sock_filter)) : Prop :=
  match bpf_filter with
  | None | Some [] => prog = None
  | Some expr => exists n p, denotes expr n /\ bpf_valid p /\ implements p n /\ prog = Some p
  end.

(** No expression of exactly as many tokens as the lexer's array holds (see [cf_lex_overflow]). *)
Definition filter_fits (bpf_filter : option text) : Prop :=
  forall expr ts, bpf_filter = Some expr -> lexes expr ts -> zlen ts <> CF_MAX_TOKENS.

(** A world in which the program [p] has its block. *)
Definition with_prog (p : sock_fprog) (w : world) : world :=
  match filter p with Some _ => set_progs (e_prog e :: progs w) w | None => w end.

(** A rejected filter is reported with the compiler's message, never with what the stack held. *)
Lemma compile_stage_ok bpf_filter w : filter_fits bpf_filter ->
  (exists expr r msg, bpf_filter = Some expr /\
     capfilter_compile (e_malloc e) (Some expr) Dest (Some (e_stack e)) 128 = Ret r /\ rc r = -1 /\
     err_buf r = Some (snprintf 128 msg) /\
     compile_stage e bpf_filter w = Ret (None, to_stderr (invalid_expression expr (snprintf 128 msg)) w)) \/
  (exists p, compile_stage e bpf_filter w = Ret (Some p, with_prog p w) /\
     match bpf_filter with
     | None | Some [] => filter p = None
     | Some expr => exists n prog, denotes expr n /\ bpf_valid prog /\ implements prog n /\
         p = {| len := zlen prog; filter := Some prog |}
     end).
Proof using.
  intros Hfit. unfold compile_stage. destruct bpf_filter as [[|c expr]|]; [right; by exists empty_fprog| |right; by exists empty_fprog].
  rewrite compile_nonempty by done.
  destruct (compile_outcomes (e_malloc e) (c :: expr) (Some (e_stack e)) 128)
    as [(k & Ek & [_ Hr] & Hf & _)|[(n & prog & Hd & Hv & Hi & _ & ->)|(ts & Hl & Hn & _)]].
  - left. rewrite Hf in Hr. destruct Hr as [msg Hr]. exists (c :: expr). eexists _, msg.
    split; [done|]. split; [rewrite compile_nonempty by done; exact Ek|]. cbn [rc err_buf]. rewrite Hr.
    split_and!; [done..|]. rewrite Ek. unfold reject. obind. cbn [rc negb err_buf Z.eqb]. by rewrite Hr.
  - right. eexists. split; [done|]. eauto 8.
  - by apply (Hfit _ ts eq_refl Hl) in Hn.
Qed.

Lemma free_filter_ok p w o att : e_prog e ∉ progs w ->
  free_filter e p (set_attached att (set_os o (with_prog p w))) = Ret (set_attached att (set_os o w)).
Proof using.
  intros Hf. unfold free_filter, with_prog. destruct (filter p); [|done].
  cbn [set_os set_attached set_progs progs]. by rewrite release_fresh.
Qed.

(** The attachment: the capture goes on with the filter in place, or everything is closed; the
    program's block is given back in both cases. *)
Lemma attach_stage_ok p ctx o w o1 : holds_socket ctx o o1 -> e_prog e ∉ progs w ->
  (exists o2, attach_stage e p ctx (set_os o1 (with_prog p w)) = Ret (false, set_os o2 w) /\ same_resources o o2) \/
  attach_stage e p ctx (set_os o1 (with_prog p w)) =
    Ret (true, set_attached (match filter p with Some _ => program p | None => attached w end) (set_os o1 w)).
Proof using.
  intros Hh Hf. unfold attach_stage.
  replace (attached (set_os o1 (with_prog p w))) with (attached w) by (unfold with_prog; by destruct (filter p)).
  assert (forall att, (w ← free_filter e p (set_attached att (set_os o1 (with_prog p w))); Ret (true, w)) =
    Ret (true, set_attached att (set_os o1 w))) as Hok by (intros; by rewrite free_filter_ok).
  unfold raw_socket_attach_filter, program at 1. destruct (filter p) as [prog|] eqn:Ep; [|right; apply Hok].
  destruct (e_attach e); cbn [negb Z.eqb]; [right; unfold program; rewrite Ep; apply Hok|left].
  replace (set_os o1 (with_prog p w)) with (set_attached (attached w) (set_os o1 (with_prog p w)))
    by (unfold with_prog; by rewrite Ep; destruct w).
  rewrite free_filter_ok by done. obind.
  replace (set_attached (attached w) (set_os o1 w)) with (set_os o1 w) by by destruct w.
  destruct (close_socket_ok ctx o (set_os o1 w) Hh) as (o2 & -> & Hs). obind. eauto.
Qed.

(** The file: none, one that has its header, or everything is closed. *)
Lemma file_stage_ok path ctx o w : holds_socket ctx o (w_os w) -> is_open (w_file w) = false ->
  (exists o2 f, file_stage e path ctx w = Ret (false, set_os o2 (set_file f w)) /\ same_resources o o2 /\
     is_open f = false) \/
  (exists f, file_stage e path ctx w = Ret (true, set_file f w) /\
     match path with
     | None | Some [] => is_open f = false
     | Some _ => is_open f = true /\ contents f = file_header
     end).
Proof using.
  intros Hh Ho. unfold file_stage.
  assert (w = set_file (w_file w) w) as Ew by by destruct w.
  destruct path as [[|c path]|]; [right; by exists (w_file w); rewrite <- Ew| |right; by exists (w_file w); rewrite <- Ew].
  destruct (e_fopen e); cbn [negb].
  2: { left. destruct (close_socket_ok ctx o w Hh) as (o2 & -> & Hs). obind.
       exists o2, (w_file w). by rewrite <- Ew. }
  unfold write_pcap_global_header, fwrite. cbn [n_writes]. destruct (e_write e 0); cbn [negb Z.eqb].
  - left. match goal with |- context [close_socket e ctx ?w2] => destruct (close_socket_ok ctx o w2 Hh) as (o2 & -> & Hs) end.
    obind. eexists o2, _. split; [done|]. by split.
  - right. eexists. split; [done|]. done.
Qed.

(** Either everything is undone before the handler is installed, or the socket is open. *)
Lemma prepare_cases device bpf_filter path w :
  fresh_calls (e_open e) (w_os w) -> e_prog e ∉ progs w -> filter_fits bpf_filter ->
  is_open (w_file w) = false ->
  (exists w', prepare e device bpf_filter path w = Ret (None, w') /\ same_resources (w_os w) (w_os w') /\
     is_open (w_file w') = false /\ w_glob w' = w_glob w /\ calls w' = calls w /\ progs w' = progs w) \/
  (exists ctx w1, prepare e device bpf_filter path w = Ret (Some ctx, w1) /\ holds_socket ctx (w_os w) (w_os w1) /\
     w_glob w1 = w_glob w /\ calls w1 = calls w /\ progs w1 = progs w /\
     filter_attached bpf_filter (attached w1) /\
     match path with
     | None | Some [] => is_open (w_file w1) = false
     | Some _ => is_open (w_file w1) = true /\ contents (w_file w1) = file_header
     end).
Proof using.
  intros Hfr Hfp Hfit Ho. unfold prepare.
  destruct (compile_stage_ok bpf_filter w Hfit) as [(expr & r & msg & _ & _ & _ & _ & ->)|(p & -> & Hp)]; obind.
  { left. by eexists. }
  replace (w_os (with_prog p w)) with (w_os w) by (unfold with_prog; by destruct (filter p)).
  destruct (open_outcome (e_open e) device (w_os w) Hfr) as (r & o & -> & Hr). obind.
  destruct r as [ctx|].
  2: { left. replace (set_os o (with_prog p w)) with (set_attached (attached w) (set_os o (with_prog p w)))
         by (unfold with_prog; by destruct (filter p), w).
       rewrite free_filter_ok by done. obind. by eexists. }
  replace (set_attached None (set_os o (with_prog p w))) with (set_os o (with_prog p (set_attached None w)))
    by (unfold with_prog; by destruct (filter p)).
  destruct (attach_stage_ok p ctx (w_os w) (set_attached None w) o Hr Hfp) as [(o2 & -> & Hs)| ->]; obind.
  { left. by eexists. }
  set (w2 := set_attached _ (set_os _ _)). cbn [negb].
  assert (filter_attached bpf_filter (attached w2)) as Hat.
  { unfold w2. destruct bpf_filter as [[|c expr]|]; cbn [filter_attached]; try by rewrite Hp.
    destruct Hp as (n & prog & Hd & Hv & Hi & ->). cbn [filter].
    exists n, prog. split_and!; try done. unfold program. cbn. by rewrite take_zlen. }
  destruct (file_stage_ok path ctx (w_os w) w2 Hr Ho) as [(o2 & f & -> & Hs & Hf)|(f & -> & Hf)]; obind.
  { left. cbn [negb]. by eexists. }
  right. exists ctx, (set_file f w2). by split_and!.
Qed.

(** The two ways a run ends: before the handler is installed, or after the loop. *)
Lemma run_cases device bpf_filter path w :
  fresh_calls (e_open e) (w_os w) -> e_prog e ∉ progs w -> filter_fits bpf_filter ->
  is_open (w_file w) = false ->
  (exists w', run_impl e device bpf_filter path w = Ret (-1, w') /\ same_resources (w_os w) (w_os w') /\
     is_open (w_file w') = false /\ w_glob w' = w_glob w /\ calls w' = calls w /\ progs w' = progs w) \/
  (exists w1 rc w', run_impl e device bpf_filter path w = Ret (rc, w') /\ ended (w_os w) w1 rc w' /\
     w_glob w1 = w_glob w /\ calls w1 = calls w /\ progs w1 = progs w /\
     filter_attached bpf_filter (attached w1) /\
     match path with
     | None | Some [] => is_open (w_file w1) = false
     | Some _ => is_open (w_file w1) = true /\ contents (w_file w1) = file_header
     end).
Proof using Hrecv Hend.
  intros Hfr Hfp Hfit Ho. unfold run_impl.
  destruct (prepare_cases device bpf_filter path w Hfr Hfp Hfit Ho) as [(w' & -> & H)|(ctx & w1 & -> & Hh & H)]; obind.
  - left. by exists w'.
  - destruct (capture_stage_ok ctx (w_os w) w1 Hh) as (rc & w' & -> & Hw'). right. by exists w1, rc, w'.
Qed.
End Stages.

(** ** Properties *)

(** C17: for a capture filter that is not an expression of exactly 256 tokens (which overruns the
    compiler's token array, C29), whatever fails on the way, a run that gets a stop or an error
    from raw_socket_recv in the end returns 0 or -1 and undoes everything: the socket's
    descriptor, mapping and heap block and the filter program are given back, the file is
    closed, and no context is left for a late signal to use; the SIGINT handler is the one from
    before, or the default action if signal() had failed to install the capture's. *)
Theorem run_impl_cleans_up e device bpf_filter path w :
  Forall recv_ok (e_recv e) -> Exists (fun r => ret r < 0) (e_recv e) ->
  fresh_calls (e_open e) (w_os w) -> e_prog e ∉ progs w -> filter_fits bpf_filter ->
  is_open (w_file w) = false -> g_active_ctx (w_glob w) = None ->
  exists rc w', run_impl e device bpf_filter path w = Ret (rc, w') /\ (rc = 0 \/ rc = -1) /\
    same_resources (w_os w) (w_os w') /\ progs w' = progs w /\ is_open (w_file w') = false /\
    g_active_ctx (w_glob w') = None /\
    (sigint (w_glob w') = sigint (w_glob w) \/ e_signal e = false /\ sigint (w_glob w') = SIG_DFL).
Proof.
  intros Hr He Hfr Hfp Hfit Ho Ha. destruct (run_cases e Hr He device bpf_filter path w Hfr Hfp Hfit Ho)
    as [(w' & -> & Hs & Ho' & Hg & _ & Hp)|
        (w1 & rc & w' & -> & (Hs & Ho' & Ha' & Hsig & _ & Hp & _ & _ & Hrc) & Hg & _ & Hp1 & _)].
  - exists (-1), w'. rewrite Hg. split_and!; auto.
  - exists rc, w'. split_and!; auto; [tauto|congruence|]. rewrite Hsig, Hg. destruct (e_signal e); auto.
Qed.

(** C9: a capture that returns 0 has given every frame received before the stop to the callback,
    and the file it wrote, read back as a .pcap file, holds exactly those frames, in order,
    with their bytes and timestamps. *)
Theorem run_impl_file e device bpf_filter path w w' :
  Forall recv_ok (e_recv e) -> Exists (fun r => ret r < 0) (e_recv e) ->
  fresh_calls (e_open e) (w_os w) -> e_prog e ∉ progs w -> filter_fits bpf_filter ->
  is_open (w_file w) = false -> calls w = [] -> path <> [] ->
  run_impl e device bpf_filter (Some path) w = Ret (0, w') ->
  calls w' = received (e_recv e) /\ pcap_decode (contents (w_file w')) = Some (received (e_recv e)).
Proof.
  intros Hr He Hfr Hfp Hfit Ho Hc Hp E. destruct (run_cases e Hr He device bpf_filter (Some path) w Hfr Hfp Hfit Ho)
    as [(w2 & E' & _)|(w1 & rc & w2 & E' & (_ & _ & _ & _ & _ & _ & _ & _ & Hrc) & _ & Hc1 & _ & _ & Hf)];
    rewrite E in E'; [done|]. injection E' as <- <-. destruct path as [|ch path]; [done|].
  destruct Hf as [Hf1 Hf2]. destruct Hrc as [?|(_ & -> & Hcont)]; [done|].
  rewrite Hc1, Hc. split; [done|]. rewrite Hcont, Hf2 by done. apply pcap_decode_frames.
  clear - Hr. induction Hr as [|r rs Hr _ IH]; [constructor|]. cbn [received]. unfold recv_ok in Hr.
  destruct (frame r); [|constructor]. constructor; [apply Hr|done].
Qed.

(** C19: the capture filter of a run.  (Expressions of exactly 256 tokens apart.)  A capture that
    returns 0 ran with a valid BPF program attached to its socket that computes the filter
    expression it was given, and with none for an empty one; for an expression the compiler
    rejects, as it does every text that is no sentence of the language, the run returns -1 having
    done nothing but write the expression and the very message the compiler left in its buffer
    to standard error. *)
Theorem run_impl_filter e device bpf_filter path w rc w' :
  Forall recv_ok (e_recv e) -> Exists (fun r => ret r < 0) (e_recv e) ->
  fresh_calls (e_open e) (w_os w) -> e_prog e ∉ progs w -> filter_fits bpf_filter -> is_open (w_file w) = false ->
  run_impl e device bpf_filter path w = Ret (rc, w') ->
  (rc = 0 -> filter_attached bpf_filter (attached w')) /\
  (forall expr, bpf_filter = Some expr -> expr <> [] ->
     exists r, capfilter_compile (e_malloc e) (Some expr) Dest (Some (e_stack e)) 128 = Ret r /\
       (CapFilter.rc r <> 0 -> rc = -1 /\
          exists msg, err_buf r = Some (snprintf 128 msg) /\ w' = to_stderr (invalid_expression expr (snprintf 128 msg)) w) /\
       ((forall n, ~ denotes expr n) -> CapFilter.rc r <> 0)).
Proof.
  intros Hr He Hfr Hfp Hfit Ho E. split.
  - intros ->. destruct (run_cases e Hr He device bpf_filter path w Hfr Hfp Hfit Ho)
      as [(w2 & E' & _)|(w1 & rc & w2 & E' & (_ & _ & _ & _ & Hat & _) & _ & _ & _ & Hf & _)];
      rewrite E in E'; [done|]. injection E' as <- <-. by rewrite Hat.
  - intros expr -> Hne. unfold run_impl, prepare in E.
    destruct (compile_stage_ok e (Some expr) w Hfit) as [(x & r & msg & [= <-] & Ec & Hrc & Hm & Es)|(p & Es & Hp)].
    + exists r. rewrite Es in E. obind in E. injection E as <- <-. split_and!; [done|eauto|]. by rewrite Hrc.
    + destruct expr as [|c expr]; [done|]. destruct Hp as (n & prog & Hd & _). unfold compile_stage in Es.
      destruct (capfilter_compile _ _ _ _ _) as [r| |] eqn:Ec; [|done..]. obind in Es. exists r. split; [done|].
      destruct (Z.eqb_spec (CapFilter.rc r) 0) as [Hz|]; [|by obind in Es]. split; [done|].
      intros Hno. by apply Hno in Hd.
Qed.

(** a run that could not open its socket leaves the statistics of an earlier run in place:
    [get_last_stats] then reports them as if they were this run's. *)
Theorem stale_stats e device path w o :
  raw_socket_open (e_open e) device (w_os w) = Ret (None, o) ->
  exists w', run_impl e device None path w = Ret (-1, w') /\
    get_last_stats_impl Dest w' = get_last_stats_impl Dest w.
Proof. intros E. unfold run_impl, prepare. cbn [compile_stage]. obind. rewrite E. obind. by eexists. Qed.

(** A run with a filter and a file: two frames, one of them empty, and a stop. *)
Definition sample_recv : list recv_result :=
  [{| ret := 3; frame := Some ([10; 20; 30], 1700000000, 5) |}; {| ret := 0; frame := Some ([], 1700000001, 999999) |};
   {| ret := RAW_SOCKET_STOPPED; frame := None |}].
Definition sample_env : env :=
  {| e_malloc := fun _ => true; e_prog := 9; e_stack := lit "?"; e_open := sample_calls; e_attach := true; e_fopen := true;
     e_write := fun _ => None; e_signal := true; e_recv := sample_recv; e_fclose := true;
     e_stats := Some (2, 0); e_close_get := true; e_close_set := true |}.
Definition sample_world : world :=
  {| w_os := sample_os;
     w_glob := {| g_active_ctx := None; g_last_stats := (7, 1); g_last_stats_valid := true; sigint := OTHER_HANDLER 4 |};
     w_file := {| is_open := false; contents := []; n_writes := 0 |};
     calls := []; attached := None; stderr := []; progs := [8] |}.
Definition sample_filter : option text := Some (lit "tcp").
Definition sample_run : Z * world :=
  match run_impl sample_env (Some (lit "eth0")) sample_filter (Some (lit "out.pcap")) sample_world with
  | Ret r => r
  | _ => (-1, sample_world)
  end.

Lemma sample_recv_ok : Forall recv_ok sample_recv /\ Exists (fun r => ret r < 0) sample_recv.
Proof.
  split; [by repeat constructor|]. do 2 apply Exists_cons_tl. by apply Exists_cons_hd.
Qed.
Lemma sample_filter_fits : filter_fits sample_filter.
Proof.
  intros expr ts Heq Hl Hn. assert (expr = lit "tcp") as -> by (injection Heq; done).
  assert (lexes (lit "tcp") [TOK_PROTO_TCP]) as Hl' by (apply (lex_iff TOK_END cf_lex_loop tok_at None 0); reflexivity).
  pose proof (lex_overflows TOK_END cf_lex_loop tok_at None 0 _ ts Hl Hn) as E.
  pose proof (lex_accepts TOK_END cf_lex_loop tok_at None 0 _ _ Hl' ltac:(reflexivity)) as E'.
  rewrite E' in E. discriminate E.
Qed.

Lemma run_impl_cleans_up_witness :
  exists rc w', run_impl sample_env (Some (lit "eth0")) sample_filter (Some (lit "out.pcap")) sample_world = Ret (rc, w') /\
    (rc = 0 \/ rc = -1) /\
    same_resources (w_os sample_world) (w_os w') /\ progs w' = progs sample_world /\ is_open (w_file w') = false /\
    g_active_ctx (w_glob w') = None /\
    (sigint (w_glob w') = sigint (w_glob sample_world) \/
     e_signal sample_env = false /\ sigint (w_glob w') = SIG_DFL).
Proof.
  apply run_impl_cleans_up; [apply sample_recv_ok|apply sample_recv_ok|exact sample_fresh_calls|by apply (bool_decide_unpack _)|exact sample_filter_fits|reflexivity..].
Defined.

Lemma run_impl_file_witness :
  calls (snd sample_run) = received sample_recv /\
  pcap_decode (contents (w_file (snd sample_run))) = Some (received sample_recv).
Proof.
  apply (run_impl_file sample_env (Some (lit "eth0")) sample_filter (lit "out.pcap") sample_world);
    [apply sample_recv_ok|apply sample_recv_ok|exact sample_fresh_calls|by apply (bool_decide_unpack _)|exact sample_filter_fits|reflexivity|reflexivity|discriminate|].
  vm_compute. reflexivity.
Defined.

Lemma run_impl_filter_witness :
  (fst sample_run = 0 -> filter_attached sample_filter (attached (snd sample_run))) /\
  (forall expr, sample_filter = Some expr -> expr <> [] ->
     exists r, capfilter_compile (e_malloc sample_env) (Some expr) Dest (Some (e_stack sample_env)) 128 = Ret r /\
       (CapFilter.rc r <> 0 -> fst sample_run = -1 /\
          exists msg, err_buf r = Some (snprintf 128 msg) /\
            snd sample_run = to_stderr (invalid_expression expr (snprintf 128 msg)) sample_world) /\
       ((forall n, ~ denotes expr n) -> CapFilter.rc r <> 0)).
Proof.
  apply (run_impl_filter sample_env (Some (lit "eth0")) sample_filter (Some (lit "out.pcap")) sample_world);
    [apply sample_recv_ok|apply sample_recv_ok|exact sample_fresh_calls|by apply (bool_decide_unpack _)|exact sample_filter_fits|reflexivity|].
  vm_compute. reflexivity.
Defined.

Definition no_socket_env : env :=
  {| e_malloc := fun _ => true; e_prog := 9; e_stack := lit "?";
     e_open := {| c_socket := None; c_bindtodevice := true; c_getflags := true; c_setflags := true;
                  c_version := true; c_rx_ring := true; c_mmap := None; c_malloc := None |};
     e_attach := true; e_fopen := true; e_write := fun _ => None; e_signal := true; e_recv := sample_recv;
     e_fclose := true; e_stats := None; e_close_get := true; e_close_set := true |}.

Lemma stale_stats_witness :
  exists w', run_impl no_socket_env (Some (lit "eth0")) None None sample_world = Ret (-1, w') /\
    get_last_stats_impl Dest w' = get_last_stats_impl Dest sample_world.
Proof. apply (stale_stats no_socket_env (Some (lit "eth0")) None sample_world sample_os). reflexivity. Defined.
