(* ===== verification/Interrupt.v ===== *)
(** * A capture and Ctrl+C (src/src/c/capture_backend_linux.c)

    [run_impl] from the installation of its SIGINT handler to its return, step by step: each
    system call, each access to a file-scope variable and each turn of the receive loop is
    one step.  main.cpp runs it on a thread of its own, and neither thread blocks SIGINT, so
    the handler may run on either: on the capture thread, which waits for it, or on the main
    thread, at the same time as the capture.  Its read of [g_active_ctx] and its write into the
    context are separate steps.  Between any two steps the kernel may close a block of the ring
    and SIGINT may be delivered to either thread, to whatever handler is in place; as signal(2)
    of the C library has it, a thread that is in the handler gets no other SIGINT until it has
    returned.  The capture stage of the capture backend's model is what the capture thread's
    steps add up to. *)
From S2P Require Import Prelude FilterCore RawSocket RawDevice CaptureBackend.
From stdpp Require Import options.

Local Open Scope Z_scope.

(** ** Steps *)

(** What the capture thread does next; [previous] is the handler to restore, [result] the value
    to return. *)
Inductive pc :=
| At_signal                                     (* signal(SIGINT, on_sigint) *)
| At_active (previous : handler)                (* g_active_ctx = ctx *)
| At_recv (previous : handler)                  (* a turn of raw_socket_recv *)
| At_result (previous : handler) (r : recv_result)  (* n is looked at, and the frame passed on *)
| At_restore (previous : handler) (result : Z)  (* signal(SIGINT, previous_sigint_handler) *)
| At_inactive (result : Z)                      (* g_active_ctx = NULL *)
| At_fclose (result : Z)
| At_stats (result : Z)
| At_close (result : Z)                         (* raw_socket_close(ctx) *)
| At_return (result : Z).

(** Where a thread is in [on_sigint]: not in it, about to read [g_active_ctx], or with the pointer
    it has read in hand. *)
Inductive handling := H_out | H_load | H_store (ctx : Z).

Inductive tid := T_main | T_capture.

(** The capture thread, the process, the ring shared with the kernel, a record of what the loop
    has got from raw_socket_recv, and the handler on either thread. *)
Record machine := {
  m_pc : pc; m_world : world; m_sys : system; m_got : list recv_result;
  m_main : handling; m_own : handling
}.

Definition goto (p : pc) (w : world) (m : machine) : machine :=
  {| m_pc := p; m_world := w; m_sys := m_sys m; m_got := m_got m; m_main := m_main m; m_own := m_own m |}.
Definition set_sys (y : system) (m : machine) : machine :=
  {| m_pc := m_pc m; m_world := m_world m; m_sys := y; m_got := m_got m; m_main := m_main m; m_own := m_own m |}.
Definition handling_of (t : tid) (m : machine) : handling := match t with T_main => m_main m | T_capture => m_own m end.
Definition set_handling (t : tid) (h : handling) (m : machine) : machine :=
  {| m_pc := m_pc m; m_world := m_world m; m_sys := m_sys m; m_got := m_got m;
     m_main := match t with T_main => h | T_capture => m_main m end;
     m_own := match t with T_main => m_own m | T_capture => h end |}.

(** The same environment, but for what raw_socket_recv returns. *)
Definition with_recv (recvs : list recv_result) (e : env) : env :=
  {| e_malloc := e_malloc e; e_prog := e_prog e; e_stack := e_stack e; e_open := e_open e;
     e_attach := e_attach e; e_fopen := e_fopen e; e_write := e_write e; e_signal := e_signal e;
     e_recv := recvs; e_fclose := e_fclose e; e_stats := e_stats e; e_close_get := e_close_get e;
     e_close_set := e_close_set e |}.

(** What raw_socket_recv returned for a frame it handed out. *)
Definition returned (f : list Z * Z * Z) : recv_result := {| ret := zlen (fst (fst f)); frame := Some f |}.

Section Machine.
Context (nr : Z) (e : env) (ctx : raw_socket_ctx).

(** The capture thread. *)
Definition thread_step (poll_ok : bool) (m : machine) : outcome machine :=
  let w := m_world m in
  match m_pc m with
  | At_signal => let '(previous, w) := install_handler e w in Ret (goto (At_active previous) w m)
  | At_active previous => Ret (goto (At_recv previous) (set_active (Some (self ctx)) w) m)
  | At_recv previous =>
    t ← recv_turn nr RAW_SOCKET_MAX_FRAME poll_ok (sk (m_sys m));
    match t with
    | inr s => Ret (set_sys (set_sk s (m_sys m)) m)
    | inl (r, s) =>
      Ret {| m_pc := At_result previous r; m_world := w;
             m_sys := push_handed r (set_sk s (m_sys m)); m_got := m_got m ++ [r];
             m_main := m_main m; m_own := m_own m |}
    end
  | At_result previous r =>
    '(result, w) ← after_recv e r w;
    Ret (goto (match result with Some result => At_restore previous result | None => At_recv previous end) w m)
  | At_restore previous result => Ret (goto (At_inactive result) (restore_handler previous w) m)
  | At_inactive result => Ret (goto (At_fclose result) (set_active None w) m)
  | At_fclose result => let '(result, w) := close_file e result w in Ret (goto (At_stats result) w m)
  | At_stats result => Ret (goto (At_close result) (read_stats e ctx w) m)
  | At_close result => w ← close_socket e ctx w; Ret (goto (At_return result) w m)
  | At_return _ => Ret m
  end.

(** The next step of [on_sigint] on thread [t], if it is in it. *)
Definition on_sigint (t : tid) (m : machine) : outcome machine :=
  match handling_of t m with
  | H_out => Ret m
  | H_load =>
    Ret (set_handling t (match load_active (m_world m) with Some ctx => H_store ctx | None => H_out end) m)
  | H_store ctx =>
    s ← store_stop ctx (m_world m) (sk (m_sys m));
    Ret (set_handling t H_out (set_sys (set_sk s (m_sys m)) m))
  end.

(** The next step of the capture thread: of the handler, as long as it is in it. *)
Definition capture_step (poll_ok : bool) (m : machine) : outcome machine :=
  match m_own m with H_out => thread_step poll_ok m | _ => on_sigint T_capture m end.

(** SIGINT on thread [t]: [None] is the end of the process.  A handler that was there before the
    capture leaves the capture alone; a thread in the handler has SIGINT blocked. *)
Definition deliver_sigint (t : tid) (m : machine) : option machine :=
  match handling_of t m with
  | H_out =>
    match sigint (w_glob (m_world m)) with
    | SIG_DFL => None
    | ON_SIGINT => Some (set_handling t H_load m)
    | OTHER_HANDLER _ => Some m
    end
  | _ => Some m
  end.

Inductive act :=
| A_thread (poll_ok : bool)                 (* a step of the capture thread *)
| A_main                                    (* a step of the handler on the main thread *)
| A_kernel (bd : block) (fs : list kframe)  (* a block with these frames is closed *)
| A_sigint (t : tid).

Definition act_ok (a : act) : Prop :=
  match a with A_kernel bd fs => closed_block bd fs | _ => True end.

Definition react (a : act) (m : machine) : outcome (option machine) :=
  match a with
  | A_thread poll_ok => m ← capture_step poll_ok m; Ret (Some m)
  | A_main => m ← on_sigint T_main m; Ret (Some m)
  | A_kernel bd fs => Ret (Some (set_sys (close_block nr bd fs (m_sys m)) m))
  | A_sigint t => Ret (deliver_sigint t m)
  end.

Fixpoint run_acts (acts : list act) (m : machine) : outcome (option machine) :=
  match acts with
  | [] => Ret (Some m)
  | a :: acts => r ← react a m; match r with Some m => run_acts acts m | None => Ret None end
  end.

(** The moment before the handler is installed, with a socket [s] just opened. *)
Definition begin (w : world) (s : sock) : machine :=
  {| m_pc := At_signal; m_world := w; m_sys := {| sk := s; k_block := 0; arrived := []; handed := [] |};
     m_got := []; m_main := H_out; m_own := H_out |}.

(** ** The rest of the capture stage *)

Definition closing (result : Z) (w : world) : outcome (Z * world) :=
  w ← close_socket e ctx (read_stats e ctx w); Ret (result, w).
Definition leaving (previous : handler) (r : Z * world) : outcome (Z * world) :=
  let '(result, w) := r in
  let '(result, w) := close_file e result (set_active None (restore_handler previous w)) in
  closing result w.

(** What [run_impl] returns from here if the loop gets [rest] from raw_socket_recv. *)
Definition remaining (p : pc) (rest : list recv_result) (w : world) : outcome (Z * world) :=
  match p with
  | At_signal => capture_stage (with_recv rest e) ctx w
  | At_active previous => r ← capture_loop e rest (set_active (Some (self ctx)) w); leaving previous r
  | At_recv previous => r ← capture_loop e rest w; leaving previous r
  | At_result previous r => r ← capture_loop e (r :: rest) w; leaving previous r
  | At_restore previous result => leaving previous (result, w)
  | At_inactive result => let '(result, w) := close_file e result (set_active None w) in closing result w
  | At_fclose result => let '(result, w) := close_file e result w in closing result w
  | At_stats result => closing result w
  | At_close result => w ← close_socket e ctx w; Ret (result, w)
  | At_return result => Ret (result, w)
  end.

(** A step of the thread does a part of it. *)
Lemma thread_step_remaining poll_ok m m' : thread_step poll_ok m = Ret m' ->
  exists new, m_got m' = m_got m ++ new /\
    forall rest, remaining (m_pc m) (new ++ rest) (m_world m) = remaining (m_pc m') rest (m_world m').
Proof using.
  unfold thread_step. destruct m as [p w y got hm ho]; cbn [m_pc m_world m_sys m_got].
  destruct p as [|previous|previous|previous r|previous result|result|result|result|result|result].
  3: { intros (t & _ & E)%outcome_bind_inv.
       destruct t as [[r s]|s]; injection E as <-; [by exists [r]|exists []; by rewrite app_nil_r]. }
  all: intros E; exists []; rewrite app_nil_r.
  - by injection E as <-.
  - by injection E as <-.
  - apply outcome_bind_inv in E as ([result w'] & Er & E). injection E as <-. split; [done|].
    intros rest. cbn [remaining app capture_loop m_pc m_world goto]. rewrite Er. obind. by destruct result.
  - by injection E as <-.
  - by injection E as <-.
  - cbn [remaining]. destruct (close_file e result w). by injection E as <-.
  - by injection E as <-.
  - apply outcome_bind_inv in E as (w' & Ew & E). injection E as <-. cbn [remaining m_pc goto m_world].
    by rewrite Ew.
  - by injection E as <-.
Qed.
(** ** The invariant *)

Lemma after_recv_ok r w : (frame r = None -> ret r < 0) ->
  exists result w', after_recv e r w = Ret (result, w') /\ w_os w' = w_os w /\ w_glob w' = w_glob w /\
    (result = None -> frame r <> None) /\ (frame r = None -> calls w' = calls w) /\
    (length (calls w') <= S (length (calls w)))%nat.
Proof using.
  intros Hr. unfold after_recv. destruct (_ =? _); [eexists _, _; split_and!; [done..|lia]|].
  destruct (Z.ltb_spec (ret r) 0); [eexists _, _; split_and!; [done..|lia]|].
  destruct (frame r) as [[[buf ts] tus]|]; [|specialize (Hr eq_refl); lia].
  destruct (if is_open _ then _ else _) as [rc f].
  destruct (negb _); eexists _, _; (split; [done|]); split_and!; try done; cbn; rewrite ?length_app; cbn; lia.
Qed.

Context (Hnr : 0 < nr < 2 ^ 32) (o : os) (w0 : world) (s0 : sock).
Context (Hsock : holds_socket ctx o (w_os w0)) (Hopen : opened nr s0) (Hidle : g_active_ctx (w_glob w0) = None).

(** The handler and [g_active_ctx] at each point. *)
Definition saved : handler := if e_signal e then sigint (w_glob w0) else SIG_DFL.
Definition installed : handler := if e_signal e then ON_SIGINT else sigint (w_glob w0).

Definition globals_ok (p : pc) (g : globals) : Prop :=
  match p with
  | At_signal => g_active_ctx g = None /\ sigint g = sigint (w_glob w0)
  | At_active previous => g_active_ctx g = None /\ sigint g = installed /\ previous = saved
  | At_recv previous | At_result previous _ | At_restore previous _ =>
    g_active_ctx g = Some (self ctx) /\ sigint g = installed /\ previous = saved
  | At_inactive _ => g_active_ctx g = Some (self ctx) /\ sigint g = saved
  | _ => g_active_ctx g = None /\ sigint g = saved
  end.

Definition socket_ok (p : pc) (o' : os) : Prop :=
  match p with At_return _ => same_resources o o' | _ => holds_socket ctx o o' end.

(** A frame is passed on before the next is asked for; a result without a frame is the last. *)
Definition got_ok (m : machine) : Prop :=
  exists tl, m_got m = map returned (handed (m_sys m)) ++ tl /\
    (tl = [] \/ exists r, tl = [r] /\ frame r = None /\ ret r < 0) /\
    match m_pc m with
    | At_signal | At_active _ | At_recv _ => tl = []
    | At_result _ r => (frame r = None -> ret r < 0) /\ (frame r <> None -> tl = [])
    | _ => True
    end.

(** A handler has the capture's context in hand, or none; on the capture thread, which waits for
    it, the context is still the active one. *)
Definition handlers_ok (m : machine) : Prop :=
  (forall c, m_main m = H_store c -> c = self ctx) /\
  (forall c, m_own m = H_store c -> c = self ctx /\ g_active_ctx (w_glob (m_world m)) = Some (self ctx)).

Definition good (m : machine) : Prop :=
  handlers_ok m /\ RawSocket.reachable nr RAW_SOCKET_MAX_FRAME (m_sys m) /\ globals_ok (m_pc m) (w_glob (m_world m)) /\
  socket_ok (m_pc m) (w_os (m_world m)) /\ got_ok m /\
  forall rest, remaining At_signal (m_got m ++ rest) w0 = remaining (m_pc m) rest (m_world m).

Lemma good_begin : good (begin w0 s0).
Proof using Hsock Hopen Hidle.
  split_and!; try done; [by constructor|]. exists []. split_and!; [done|by left|done].
Qed.

(** The capture thread's own steps are not taken inside the handler, and leave the handlers alone. *)
Lemma thread_step_handling poll_ok m m' : thread_step poll_ok m = Ret m' -> m_main m' = m_main m /\ m_own m' = m_own m.
Proof using.
  unfold thread_step. destruct (m_pc m); try (by intros [= <-]).
  - intros (t & _ & E)%outcome_bind_inv. destruct t as [[]|]; by injection E as <-.
  - intros ([] & _ & E)%outcome_bind_inv. by injection E as <-.
  - destruct (close_file _ _ _). by intros [= <-].
  - intros (? & _ & E)%outcome_bind_inv. by injection E as <-.
Qed.

(** What a turn of raw_socket_recv gives. *)
Lemma turn_result poll_ok y : RawSocket.reachable nr RAW_SOCKET_MAX_FRAME y ->
  exists t, recv_turn nr RAW_SOCKET_MAX_FRAME poll_ok (sk y) = Ret t /\
    match t with
    | inl (r, s) =>
      (frame r = None /\ ret r < 0 \/ exists f, frame r = Some f /\ r = returned f) /\
      stop_requested s = stop_requested (sk y) /\
      (stop_requested (sk y) = true -> r = {| ret := RAW_SOCKET_STOPPED; frame := None |})
    | inr s => stop_requested s = stop_requested (sk y) /\ stop_requested (sk y) = false
    end.
Proof using Hnr.
  assert (0 <= RAW_SOCKET_MAX_FRAME) as Hmax by done.
  intros (m & fs & Hr & _)%(RawSocket.ring_inv nr RAW_SOCKET_MAX_FRAME Hmax Hnr).
  destruct (turn_ok nr RAW_SOCKET_MAX_FRAME Hmax Hnr poll_ok m _ _ _ Hr)
    as [(Hs & ->)|[(Hs & _ & ->)|[(Hs & ? & s & -> & _ & _ & Hs')|(Hs & f & ? & ? & s & _ & -> & _ & Hs')]]].
  - eexists. split; [done|]. split_and!; [by left|done..].
  - destruct poll_ok; eexists; (split; [done|]); rewrite Hs; [by split|]. split_and!; [by left|done..].
  - eexists. split; [done|]. by rewrite Hs, Hs'.
  - eexists. split; [done|]. rewrite Hs, Hs'. split_and!; [|done..]. right. eexists. split; [done|].
    unfold returned. cbn [clip fst]. rewrite <- ret_length by done. done.
Qed.

Lemma thread_good poll_ok m : good m -> m_own m = H_out -> exists m', thread_step poll_ok m = Ret m' /\ good m'.
Proof using Hnr.
  intros ([Hm _] & Hr & Hg & Hs & Hgot & Hrem) Hown.
  assert (forall m', thread_step poll_ok m = Ret m' ->
    RawSocket.reachable nr RAW_SOCKET_MAX_FRAME (m_sys m') -> globals_ok (m_pc m') (w_glob (m_world m')) ->
    socket_ok (m_pc m') (w_os (m_world m')) -> got_ok m' ->
    exists m', thread_step poll_ok m = Ret m' /\ good m') as Hdone.
  { intros m' E H1 H2 H3 H4. exists m'. split; [done|]. destruct (thread_step_handling _ _ _ E) as [E1 E2].
    split; [split; intros c; rewrite ?E1, ?E2, ?Hown; [apply Hm|done]|]. split_and!; try done. intros rest.
    destruct (thread_step_remaining _ _ _ E) as (new & -> & Hnew). by rewrite <- app_assoc, Hrem. }
  clear Hm Hown.
  destruct m as [p w y got hm ho]. unfold got_ok in Hgot. cbn [m_pc m_world m_sys m_got] in *.
  destruct p as [|previous|previous|previous r|previous result|result|result|result|result|result].
  - eapply Hdone; [done|done| |done|exact Hgot]. destruct Hg as [Ha Hsig].
    cbn. unfold installed, saved. rewrite Hsig. by split_and!.
  - eapply Hdone; [done|done| |done|exact Hgot]. destruct Hg as (_ & ? & ?). by split.
  - destruct (turn_result poll_ok y Hr) as (t & Et & Ht). unfold thread_step in Hdone |- *.
    cbn [m_pc m_world m_sys m_got] in *. rewrite Et in *. obind. obind in Hdone.
    destruct Hgot as (tl & -> & _ & ->). destruct t as [[r s]|s]; (eapply Hdone; [done| |done|done|]).
    + eapply RawSocket.reach_step; [exact Hr|by eapply RawSocket.step_return].
    + destruct Ht as ([[Hn Hneg]|(f & Hf & ->)] & _).
      * exists [r]. cbn. rewrite Hn, !app_nil_r. split_and!; [done|right; by exists r|done..].
      * exists []. cbn. rewrite !app_nil_r, map_app. split_and!; [done|by left|done..].
    + eapply RawSocket.reach_step; [exact Hr|by eapply RawSocket.step_continue].
    + exists []. split_and!; [done|by left|done].
  - destruct Hgot as (tl & Hgot & Htl & Hneg & Hnil). destruct (after_recv_ok r w Hneg) as (result & w' & Er & Eo & Eg & Hn & _).
    unfold thread_step in Hdone |- *. cbn [m_pc m_world m_sys m_got] in *. rewrite Er in *. obind. obind in Hdone.
    eapply Hdone; [done|done| | |]; cbn [goto m_pc m_world].
    + rewrite Eg. by destruct result.
    + rewrite Eo. by destruct result.
    + exists tl. split_and!; [done|done|]. destruct result as [|]; [done|]. by apply Hnil, Hn.
  - eapply Hdone; [done|done| |done|exact Hgot]. destruct Hg as (? & _ & ->). by split.
  - eapply Hdone; [done|done| |done|exact Hgot]. destruct Hg as (_ & ?). by split.
  - unfold thread_step in Hdone |- *. cbn [m_pc m_world m_sys m_got] in *. unfold close_file in *.
    destruct (is_open (w_file w)); (eapply Hdone; [done|done|exact Hg|exact Hs|exact Hgot]).
  - eapply Hdone; [done|done| | |exact Hgot]; cbn [goto m_pc m_world]; unfold read_stats;
      by destruct (raw_socket_get_stats _ _ _ _).
  - destruct (close_socket_ok e ctx o w Hs) as (o2 & Ec & Ho2).
    unfold thread_step in Hdone |- *. cbn [m_pc m_world m_sys m_got] in *. rewrite Ec in *. obind. obind in Hdone.
    eapply Hdone; [done|done|exact Hg|exact Ho2|exact Hgot].
  - eapply Hdone; [done|done|exact Hg|exact Hs|exact Hgot].
Qed.

(** The handler on the capture thread only ever finds no context, or the one that is open; on the
    main thread, the one that was open when it looked. *)
Lemma store_open m : good m -> (forall result, m_pc m <> At_return result) ->
  store_stop (self ctx) (m_world m) (sk (m_sys m)) = Ret (request_stop (sk (m_sys m))).
Proof using.
  intros (_ & _ & _ & Hs & _) Hp. unfold store_stop.
  assert (holds_socket ctx o (w_os (m_world m))) as (_ & _ & -> & _) by (destruct (m_pc m); done || by destruct (Hp result)).
  by rewrite bool_decide_eq_true_2 by apply list_elem_of_here.
Qed.
Lemma store_freed m result : good m -> m_pc m = At_return result ->
  store_stop (self ctx) (m_world m) (sk (m_sys m)) = UB.
Proof using Hsock.
  intros (_ & _ & _ & Hs & _) Hp. rewrite Hp in Hs. destruct Hs as (_ & _ & Hb), Hsock as (_ & _ & _ & _ & _ & Hself).
  unfold store_stop. by rewrite bool_decide_eq_false_2 by by rewrite Hb.
Qed.

(** Where the handler is the capture's own, or [g_active_ctx] its context. *)
Lemma active_pc p g : globals_ok p g -> g_active_ctx g <> None ->
  g_active_ctx g = Some (self ctx) /\ forall result, p <> At_return result.
Proof using. destruct p; cbn; intros [E _] Ha; try congruence; by split. Qed.

Lemma good_handling t h m : good m ->
  (forall c, h = H_store c -> c = self ctx /\ (t = T_capture -> g_active_ctx (w_glob (m_world m)) = Some (self ctx))) ->
  good (set_handling t h m).
Proof using.
  intros ([Hm Ho] & Hrest) Hh. split; [|done]. unfold handlers_ok. destruct t; cbn; split; try done.
  - intros c E. by apply Hh in E as [? _].
  - intros c E. apply Hh in E as [? Ha]. auto.
Qed.
Lemma good_stop m : good m -> good (set_sys (set_sk (request_stop (sk (m_sys m))) (m_sys m)) m).
Proof using.
  intros (Hh & Hr & Hrest). split; [exact Hh|]. split; [|exact Hrest].
  eapply RawSocket.reach_step; [exact Hr|apply RawSocket.step_stop].
Qed.

(** A step of the handler: it returns, or it is the one on the main thread and comes too late. *)
Lemma handler_good t m : good m ->
  (exists m', on_sigint t m = Ret m' /\ good m' /\ m_pc m' = m_pc m /\ m_world m' = m_world m /\
     (stop_requested (sk (m_sys m)) = true -> stop_requested (sk (m_sys m')) = true) /\
     (forall c, handling_of t m = H_store c -> stop_requested (sk (m_sys m')) = true) /\
     (handling_of t m = H_load ->
        handling_of t m' = match load_active (m_world m) with Some c => H_store c | None => H_out end) /\
     (handling_of t m = H_load \/ handling_of t m' = H_out) /\
     (forall t', t' <> t -> handling_of t' m' = handling_of t' m)) \/
  (on_sigint t m = UB /\ t = T_main /\ m_main m = H_store (self ctx) /\ exists result, m_pc m = At_return result).
Proof using Hsock.
  intros Hgood. pose proof Hgood as (Hh & Hr & Hg & Hs & Hgot & Hrem). unfold on_sigint.
  destruct (handling_of t m) as [| |c] eqn:Et.
  - left. exists m. split_and!; try done. by right.
  - left. eexists. split; [done|]. split; [|split_and!; try done; [by destruct t|by left|by intros [] ?; destruct t]].
    apply good_handling; [done|]. intros c. unfold load_active.
    destruct (g_active_ctx (w_glob (m_world m))) as [a|] eqn:Ea; [|done]. intros [= <-].
    destruct (active_pc _ _ Hg) as [Ea' _]; [by rewrite Ea|]. rewrite Ea in Ea'. by injection Ea' as ->.
  - assert (c = self ctx) as -> by (destruct t; [exact (proj1 Hh c Et)|exact (proj1 (proj2 Hh c Et))]).
    destruct (m_pc m) as [| | | | | | | | |result] eqn:Ep.
    10: { destruct t; [right; rewrite (store_freed m result) by done; by eauto 6|].
          destruct (proj2 Hh _ Et) as [_ Ha]. destruct Hg as [Hg _]. congruence. }
    all: left; rewrite (store_open m Hgood) by (by rewrite Ep); obind; eexists; (split; [done|]);
      (split; [apply good_handling; [by apply good_stop|done]|]);
      split_and!; try done; [right; by destruct t|by intros [] ?; destruct t].
Qed.

Lemma kernel_good bd fs m : closed_block bd fs -> good m ->
  good (set_sys (close_block nr bd fs (m_sys m)) m) /\
  stop_requested (sk (close_block nr bd fs (m_sys m))) = stop_requested (sk (m_sys m)).
Proof using.
  intros Hb (Hh & Hr & Hg & Hs & Hgot & Hrem).
  assert (handed (close_block nr bd fs (m_sys m)) = handed (m_sys m) /\
    stop_requested (sk (close_block nr bd fs (m_sys m))) = stop_requested (sk (m_sys m))) as [Hhd Hst].
  { unfold close_block. destruct (_ !! _); [|done]. by destruct (user_owned _). }
  split; [|done]. split_and!; try done.
  - eapply RawSocket.reach_step; [exact Hr|by apply RawSocket.step_close].
  - destruct Hgot as (tl & E & Htl). exists tl. cbn [set_sys m_got m_sys]. by rewrite Hhd.
Qed.

Lemma thread_keeps_stop poll_ok m m' : good m -> thread_step poll_ok m = Ret m' ->
  stop_requested (sk (m_sys m)) = true -> stop_requested (sk (m_sys m')) = true.
Proof using Hnr.
  intros Hgood E Hs. unfold thread_step in E. destruct (m_pc m) in E; try (by injection E as <-).
  - apply outcome_bind_inv in E as (t & Et & E). destruct (turn_result poll_ok (m_sys m)) as (t' & Et' & Ht);
      [apply Hgood|]. rewrite Et in Et'. injection Et' as <-. destruct t as [[r s]|s]; injection E as <-; cbn;
      [destruct Ht as (_ & -> & _)|destruct Ht as [-> _]]; done.
  - apply outcome_bind_inv in E as ([] & _ & E). by injection E as <-.
  - destruct (close_file _ _ _). by injection E as <-.
  - apply outcome_bind_inv in E as (? & _ & E). by injection E as <-.
Qed.

(** What an act makes of a good machine: a good one; the end of the process, by a SIGINT that
    finds the default action; or a write into the freed context, by the handler on the main
    thread. *)
Definition fatal (a : act) (m : machine) : Prop :=
  exists t, a = A_sigint t /\ handling_of t m = H_out /\ sigint (w_glob (m_world m)) = SIG_DFL.
Definition too_late (a : act) (m : machine) : Prop :=
  a = A_main /\ m_main m = H_store (self ctx) /\ exists result, m_pc m = At_return result.

Lemma react_good a m : act_ok a -> good m ->
  (exists m', react a m = Ret (Some m') /\ good m' /\
     (stop_requested (sk (m_sys m)) = true -> stop_requested (sk (m_sys m')) = true)) \/
  react a m = Ret None /\ fatal a m \/ react a m = UB /\ too_late a m.
Proof using Hnr Hsock.
  intros Ha Hgood. destruct a as [poll_ok| |bd fs|t]; cbn [react].
  - unfold capture_step. destruct (m_own m) eqn:Eo.
    + destruct (thread_good poll_ok m Hgood Eo) as (m' & E & Hg). left. exists m'. rewrite E.
      split_and!; [done..|by eapply thread_keeps_stop].
    + destruct (handler_good T_capture m Hgood) as [(m' & -> & Hg & _ & _ & Hs & _)|(_ & [=] & _)].
      left. exists m'. by split_and!.
    + destruct (handler_good T_capture m Hgood) as [(m' & -> & Hg & _ & _ & Hs & _)|(_ & [=] & _)].
      left. exists m'. by split_and!.
  - destruct (handler_good T_main m Hgood) as [(m' & -> & Hg & _ & _ & Hs & _)|(-> & _ & Hm & Hp)].
    + left. exists m'. by split_and!.
    + by right; right.
  - left. eexists. split; [done|]. destruct (kernel_good bd fs m Ha Hgood) as [Hg Hs]. split; [done|]. cbn. by rewrite Hs.
  - unfold deliver_sigint. destruct (handling_of t m) eqn:Et; [|left; by exists m..].
    destruct (sigint (w_glob (m_world m))) eqn:Es.
    + right. left. split; [done|]. by exists t.
    + left. eexists. split; [done|]. split; [by apply good_handling|done].
    + left. by exists m.
Qed.

(** The capture's handler is not, or no longer, in place. *)
Definition handler_off (p : pc) : bool :=
  match p with At_active _ | At_recv _ | At_result _ _ | At_restore _ _ => false | _ => true end.

(** The process was ended by a SIGINT that found the default action, where the handler was not in
    place. *)
Definition killed (acts : list act) (m : machine) : Prop :=
  exists acts1 t acts2 m1, acts = acts1 ++ A_sigint t :: acts2 /\ run_acts acts1 m = Ret (Some m1) /\
    handling_of t m1 = H_out /\ sigint (w_glob (m_world m1)) = SIG_DFL /\
    (e_signal e = true -> handler_off (m_pc m1) = true).

(** The handler on the main thread wrote into the context it had read from [g_active_ctx], after the
    capture thread had freed it and returned. *)
Definition races (acts : list act) (m : machine) : Prop :=
  exists acts1 acts2 m1 result, acts = acts1 ++ A_main :: acts2 /\ run_acts acts1 m = Ret (Some m1) /\
    m_main m1 = H_store (self ctx) /\ m_pc m1 = At_return result.

Lemma fatal_off t m : good m -> fatal (A_sigint t) m -> e_signal e = true -> handler_off (m_pc m) = true.
Proof using.
  intros (_ & _ & Hg & _) (t' & [= <-] & _ & Hd) Hsig.
  destruct (m_pc m); try done; cbn in Hg; destruct Hg as (_ & Hi & _); unfold installed in Hi; rewrite Hsig in Hi; congruence.
Qed.

Lemma run_good acts : forall m, Forall act_ok acts -> good m ->
  (exists m', run_acts acts m = Ret (Some m') /\ good m') \/
  run_acts acts m = Ret None /\ killed acts m \/ run_acts acts m = UB /\ races acts m.
Proof using Hnr Hsock.
  induction acts as [|a acts IH]; intros m Ha Hg; [left; by eexists|].
  apply Forall_cons in Ha as [Ha Has]. cbn [run_acts].
  destruct (react_good a m Ha Hg) as [(m1 & Er & Hg1 & _)|[(Er & Hf)|(Er & Hl)]]; rewrite Er; obind.
  - destruct (IH m1 Has Hg1) as [?|[(E & acts1 & t & acts2 & m2 & -> & E2 & Hk)|(E & acts1 & acts2 & m2 & result & -> & E2 & Hk)]].
    + by left.
    + right. left. split; [done|]. exists (a :: acts1), t, acts2, m2. split; [done|]. split; [|done].
      cbn [run_acts]. rewrite Er. by obind.
    + right. right. split; [done|]. exists (a :: acts1), acts2, m2, result. split; [done|]. split; [|done].
      cbn [run_acts]. rewrite Er. by obind.
  - right. left. split; [done|]. pose proof Hf as (t & -> & Ht & Hd). exists [], t, acts, m. split_and!; try done.
    by apply (fatal_off t).
  - right. right. split; [done|]. destruct Hl as (-> & Hm & result & Hp). by exists [], acts, m, result.
Qed.

(** Without a SIGINT on the main thread there is no handler on it. *)
Lemma main_stays_out acts : forall m m', m_main m = H_out -> (A_sigint T_main ∉ acts) ->
  run_acts acts m = Ret (Some m') -> m_main m' = H_out.
Proof using.
  induction acts as [|a acts IH]; intros m m' Hm Hin; cbn [run_acts]; [by intros [= <-]|].
  intros (r & Er & E)%outcome_bind_inv. destruct r as [m1|]; [|done]. apply not_elem_of_cons in Hin as [Hne Hin].
  eapply IH; [|exact Hin|exact E]. clear IH E. destruct a as [poll_ok| |bd fs|t]; cbn [react] in Er.
  - apply outcome_bind_inv in Er as (m2 & Et & [= <-]). unfold capture_step in Et.
    destruct (m_own m) eqn:Eo; [by destruct (thread_step_handling _ _ _ Et) as [-> _]|..]; unfold on_sigint in Et;
      cbn [handling_of] in Et; rewrite Eo in Et; [by injection Et as <-|].
    apply outcome_bind_inv in Et as (? & _ & [= <-]). done.
  - apply outcome_bind_inv in Er as (m2 & Et & [= <-]). unfold on_sigint in Et. cbn [handling_of] in Et. rewrite Hm in Et.
    by injection Et as <-.
  - by injection Er as <-.
  - injection Er as Er. destruct t; [done|]. unfold deliver_sigint in Er. repeat case_match; by simplify_eq.
Qed.

Lemma run_acts_app acts acts' : forall m, run_acts (acts ++ acts') m =
  r ← run_acts acts m; match r with Some m => run_acts acts' m | None => Ret None end.
Proof using.
  induction acts as [|a acts IH]; intros m; [done|]. cbn [app run_acts].
  destruct (react a m) as [[m1|]| |]; obind; [apply IH|done..].
Qed.

(** ** After a stop *)

(** The loop has been left, or never will be entered again; it has at least been entered. *)
Definition past_loop (p : pc) : bool :=
  match p with At_signal | At_active _ | At_recv _ | At_result _ _ => false | _ => true end.
Definition begun (p : pc) : bool := match p with At_signal | At_active _ => false | _ => true end.

(** The capture is on its way out: a stop has been requested, or the loop has been left. *)
Definition settled (m : machine) : Prop := stop_requested (sk (m_sys m)) = true \/ past_loop (m_pc m) = true.

(** How many steps of the capture thread are left then, besides those of a handler it is in. *)
Definition steps_left (p : pc) : nat :=
  match p with
  | At_signal => 10 | At_active _ => 9
  | At_result _ r => match frame r with Some _ => 8 | None => 6 end
  | At_recv _ => 7 | At_restore _ _ => 5 | At_inactive _ => 4 | At_fclose _ => 3 | At_stats _ => 2
  | At_close _ => 1 | At_return _ => 0
  end.
Definition handler_left (h : handling) : nat := match h with H_out => 0 | H_store _ => 1 | H_load => 2 end.
Definition capture_left (m : machine) : nat := steps_left (m_pc m) + handler_left (m_own m).

(** The frame the loop has in hand. *)
Definition in_hand (p : pc) : nat :=
  match p with At_result _ r => match frame r with Some _ => 1 | None => 0 end | _ => 0 end.

(** On its way to return 0. *)
Definition to_zero (p : pc) : Prop :=
  match p with
  | At_signal | At_active _ | At_recv _ => True
  | At_result _ r => r = {| ret := RAW_SOCKET_STOPPED; frame := None |}
  | At_restore _ result | At_inactive result | At_fclose result | At_stats result | At_close result
  | At_return result => result = 0
  end.

(** What the rest of a capture may still do: [m'] comes after [m]. *)
Definition winds_down (m m' : machine) : Prop :=
  (length (calls (m_world m')) + in_hand (m_pc m') <= length (calls (m_world m)) + in_hand (m_pc m))%nat /\
  (e_fclose e = true -> to_zero (m_pc m) -> to_zero (m_pc m')).

Lemma thread_stops poll_ok m m' : good m -> settled m -> thread_step poll_ok m = Ret m' ->
  (steps_left (m_pc m') <= Nat.pred (steps_left (m_pc m)))%nat /\ winds_down m m' /\
  (past_loop (m_pc m) = true -> past_loop (m_pc m') = true).
Proof using Hnr.
  intros (_ & Hr & _ & _ & (tl & _ & _ & Hgot) & _) Hs E. unfold settled in Hs.
  destruct m as [p w y got hm ho]. unfold thread_step in E. cbn [m_pc m_world m_sys m_got] in *. unfold winds_down.
  destruct p as [|previous|previous|previous r|previous result|result|result|result|result|result]; cbn in Hgot.
  - injection E as <-. cbn. split_and!; try done; lia.
  - injection E as <-. cbn. split_and!; try done; lia.
  - destruct Hs as [Hs|]; [|done].
    destruct (turn_result poll_ok y Hr) as (t & Et & Ht). rewrite Et in E. obind in E.
    destruct t as [[r s]|s]; [|destruct Ht; congruence].
    destruct Ht as (_ & _ & Hst). specialize (Hst Hs). subst r.
    injection E as <-. cbn. split_and!; try done; lia.
  - destruct (after_recv_ok r w) as (result & w' & Er & _ & _ & Hn & Hc & Hlen); [apply Hgot|].
    rewrite Er in E. obind in E. injection E as <-. cbn [m_pc m_world goto steps_left in_hand].
    split_and!.
    + destruct result, (frame r); cbn; try lia. by destruct Hn.
    + destruct (frame r); [|rewrite (Hc eq_refl)]; destruct result; cbn; lia.
    + intros _ Hz. cbn in Hz. subst r. cbn in Er. by injection Er as <- <-.
    + done.
  - injection E as <-. cbn. split_and!; try done; lia.
  - injection E as <-. cbn. split_and!; try done; lia.
  - unfold close_file in E. destruct (is_open (w_file w)); injection E as <-; cbn; split_and!; try done; try lia.
    by intros ->.
  - injection E as <-. cbn. unfold read_stats. destruct (raw_socket_get_stats _ _ _ _). cbn. split_and!; try done; lia.
  - apply outcome_bind_inv in E as (w' & Ew & E). injection E as <-. cbn. unfold close_socket in Ew.
    apply outcome_bind_inv in Ew as (o2 & _ & Ew). injection Ew as <-. cbn. split_and!; try done; lia.
  - injection E as <-. cbn. split_and!; try done; lia.
Qed.

Definition no_sigint (acts : list act) : Prop := Forall (fun a => forall t, a <> A_sigint t) acts.

(** The steps of a thread among the acts. *)
Definition is_step (t : tid) (a : act) : bool :=
  match t, a with T_main, A_main | T_capture, A_thread _ => true | _, _ => false end.
Definition n_steps (t : tid) (acts : list act) : nat := length (List.filter (is_step t) acts).

Lemma n_steps_cons t a acts : n_steps t (a :: acts) = ((if is_step t a then 1 else 0) + n_steps t acts)%nat.
Proof using. unfold n_steps. cbn. by destruct (is_step t a). Qed.

(** An act other than SIGINT keeps a capture on its way out, and each step of its thread brings it
    closer to its return. *)
Lemma react_stops a m m' : act_ok a -> (forall t, a <> A_sigint t) -> good m -> settled m -> react a m = Ret (Some m') ->
  settled m' /\ winds_down m m' /\
  (capture_left m' <= capture_left m - if is_step T_capture a then 1 else 0)%nat.
Proof using Hnr Hsock.
  intros Ha Hn Hg Hs E. unfold capture_left, settled, winds_down.
  destruct (react_good a m Ha Hg) as [(m1 & E1 & _ & Hst)|[[E1 _]|[E1 _]]]; rewrite E in E1; [|done..].
  injection E1 as <-. destruct a as [poll_ok| |bd fs|t]; cbn [react] in E; [| |injection E as <-|by destruct (Hn t)].
  - apply outcome_bind_inv in E as (m2 & E & [= ->]). unfold capture_step in E. destruct (m_own m) eqn:Eo.
    { destruct (thread_stops poll_ok m m' Hg Hs E) as (H1 & H2 & H3). destruct (thread_step_handling _ _ _ E) as [_ Eo'].
      rewrite Eo', Eo. cbn. split; [destruct Hs; auto|]. split; [done|lia]. }
    all: destruct (handler_good T_capture m Hg) as [(m2 & E2 & _ & Ep & Ew & _ & _ & Hl & Ho & _)|(_ & [=] & _)];
      rewrite E in E2; injection E2 as <-; rewrite Ep, Ew; (split; [destruct Hs; auto|]); (split; [done|]);
      cbn [handling_of is_step] in *; rewrite Eo in *.
    + rewrite Hl by done. destruct (load_active _); cbn; lia.
    + destruct Ho as [|Ho]; [done|]. rewrite Ho. cbn. lia.
  - apply outcome_bind_inv in E as (m2 & E & [= ->]).
    destruct (handler_good T_main m Hg) as [(m2 & E2 & _ & Ep & Ew & _ & _ & _ & _ & Ht)|(E2 & _)]; rewrite E in E2; [|done].
    injection E2 as <-. rewrite Ep, Ew. specialize (Ht T_capture ltac:(done)). cbn in Ht. rewrite Ht. cbn.
    split; [destruct Hs; auto|]. split; [done|lia].
  - destruct Hs as [Hs|Hs]; (split; [auto|]); split; try done; cbn; lia.
Qed.

Lemma stops acts : forall m, Forall act_ok acts -> no_sigint acts -> good m -> settled m ->
  run_acts acts m = UB /\ races acts m \/
  exists m', run_acts acts m = Ret (Some m') /\ good m' /\ settled m' /\ winds_down m m' /\
    (capture_left m' <= capture_left m - n_steps T_capture acts)%nat.
Proof using Hnr Hsock.
  induction acts as [|a acts IH]; intros m Ha Hn Hg Hs.
  { right. exists m. split; [done|]. split; [exact Hg|]. split; [exact Hs|]. split; [by split|]. unfold n_steps. cbn. lia. }
  apply Forall_cons in Ha as [Ha Has]. apply Forall_cons in Hn as [Hn Hns]. cbn [run_acts]. rewrite n_steps_cons.
  destruct (react_good a m Ha Hg) as [(m1 & E & Hg1 & _)|[(_ & t & -> & _)|(E & Hl)]]; [|by destruct (Hn t)|].
  2: { left. rewrite E. split; [done|]. destruct Hl as (-> & Hm & result & Hp). by exists [], acts, m, result. }
  destruct (react_stops a m m1 Ha Hn Hg Hs E) as (Hs1 & [Hw1 Hz1] & Hl1). rewrite E. obind.
  destruct (IH m1 Has Hns Hg1 Hs1) as [(Er & acts1 & acts2 & m2 & result & -> & E2 & Hk)|(m' & -> & Hg' & Hs' & [Hw Hz] & Hl)].
  - left. split; [done|]. exists (a :: acts1), acts2, m2, result. split; [done|]. split; [|done].
    cbn [run_acts]. rewrite E. by obind.
  - right. exists m'. split; [done|]. split; [exact Hg'|]. split; [exact Hs'|]. split; [split; [lia|auto]|lia].
Qed.

(** ** A handler that has been entered *)

Lemma begun_step a m m' : good m -> react a m = Ret (Some m') -> begun (m_pc m) = true -> begun (m_pc m') = true.
Proof using Hsock.
  intros Hg E Hb. destruct a as [poll_ok| |bd fs|t]; cbn [react] in E.
  - apply outcome_bind_inv in E as (m2 & E & [= ->]). unfold capture_step in E. destruct (m_own m).
    { unfold thread_step in E. destruct (m_pc m) eqn:Ep in E, Hb; try done; try (by injection E as <-).
      - apply outcome_bind_inv in E as (r & _ & E). destruct r as [[]|]; injection E as <-; cbn; [done|]. by rewrite Ep.
      - apply outcome_bind_inv in E as ([res] & _ & E). injection E as <-. by destruct res.
      - destruct (close_file _ _ _). by injection E as <-.
      - apply outcome_bind_inv in E as (? & _ & E). by injection E as <-.
      - injection E as <-. by rewrite Ep. }
    all: destruct (handler_good T_capture m Hg) as [(m2 & E2 & _ & Ep & _)|(E2 & _)]; rewrite E in E2; [|done];
      injection E2 as <-; by rewrite Ep.
  - apply outcome_bind_inv in E as (m2 & E & [= ->]).
    destruct (handler_good T_main m Hg) as [(m2 & E2 & _ & Ep & _)|(E2 & _)]; rewrite E in E2; [|done].
    injection E2 as <-. by rewrite Ep.
  - by injection E as <-.
  - injection E as E. unfold deliver_sigint in E. repeat case_match; by simplify_eq.
Qed.

(** The capture is on its way out, or the handler on [t] is about to see to that. *)
Definition settling (t : tid) (m : machine) : Prop :=
  begun (m_pc m) = true /\ (settled m \/ handling_of t m <> H_out).

Lemma settled_keeps a m m' : act_ok a -> (forall t, a <> A_sigint t) -> good m -> settled m -> react a m = Ret (Some m') -> settled m'.
Proof using Hnr Hsock. intros Ha Hn Hg Hs E. by destruct (react_stops a m m' Ha Hn Hg Hs E). Qed.

(** A step of the handler brings it closer to that. *)
Lemma handler_settles t m m' : good m -> begun (m_pc m) = true -> handling_of t m <> H_out -> on_sigint t m = Ret m' ->
  settled m' \/ handling_of t m' <> H_out /\ (handler_left (handling_of t m') <= handler_left (handling_of t m) - 1)%nat.
Proof using Hsock.
  intros Hg Hb Hh E. destruct (handler_good t m Hg) as [(m2 & E2 & _ & Ep & Ew & _ & Hst & Hl & _)|(E2 & _)];
    rewrite E in E2; [|done]. injection E2 as <-. unfold settled. rewrite Ep.
  destruct (handling_of t m) as [| |c] eqn:Et; [done| |left; left; by eapply Hst].
  rewrite Hl by done. unfold load_active. destruct (g_active_ctx (w_glob (m_world m))) as [c|] eqn:Ea; [right; split; [done|cbn; lia]|].
  left. right. destruct Hg as (_ & _ & Hgl & _). destruct (m_pc m); try done; destruct Hgl; congruence.
Qed.

Lemma settling_step t a m m' : act_ok a -> (forall t, a <> A_sigint t) -> good m -> settling t m -> react a m = Ret (Some m') ->
  settling t m' /\ (settled m' \/
    (handler_left (handling_of t m') <= handler_left (handling_of t m) - if is_step t a then 1 else 0)%nat).
Proof using Hnr Hsock.
  intros Ha Hn Hg [Hb Hh] E. pose proof (begun_step a m m' Hg E Hb) as Hb'.
  enough (settled m' \/ handling_of t m' <> H_out /\
    (handler_left (handling_of t m') <= handler_left (handling_of t m) - if is_step t a then 1 else 0)%nat) as H.
  { split; [split; [done|]|]; destruct H as [?|[? ?]]; auto. }
  destruct Hh as [Hs|Hh]; [left; by eapply settled_keeps|].
  destruct a as [poll_ok| |bd fs|t']; cbn [react] in E; [| |injection E as <-|by destruct (Hn t')].
  - apply outcome_bind_inv in E as (m2 & E & [= ->]). unfold capture_step in E. destruct t; cbn [is_step handling_of] in *.
    + right. cbn iota. rewrite Nat.sub_0_r. destruct (m_own m).
      * destruct (thread_step_handling _ _ _ E) as [-> _]. by split.
      * destruct (handler_good T_capture m Hg) as [(m2 & E2 & _ & _ & _ & _ & _ & _ & _ & Ht)|(E2 & _)]; rewrite E in E2; [|done].
        injection E2 as <-. specialize (Ht T_main ltac:(done)). cbn in Ht. by rewrite Ht.
      * destruct (handler_good T_capture m Hg) as [(m2 & E2 & _ & _ & _ & _ & _ & _ & _ & Ht)|(E2 & _)]; rewrite E in E2; [|done].
        injection E2 as <-. specialize (Ht T_main ltac:(done)). cbn in Ht. by rewrite Ht.
    + destruct (m_own m) eqn:Eo; [done|..]; rewrite <- Eo; apply (handler_settles T_capture); try done; cbn; by rewrite Eo.
  - apply outcome_bind_inv in E as (m2 & E & [= ->]). destruct t; cbn [is_step].
    + by apply (handler_settles T_main).
    + right. cbn iota. rewrite Nat.sub_0_r. destruct (handler_good T_main m Hg) as [(m2 & E2 & _ & _ & _ & _ & _ & _ & _ & Ht)|(E2 & _)]; rewrite E in E2; [|done].
      injection E2 as <-. rewrite (Ht T_capture) by done. by split.
  - right. split; [by destruct t|]. destruct t; cbn; lia.
Qed.

(** Two steps of the thread that is in the handler are enough. *)
Lemma settles t acts : forall m m', Forall act_ok acts -> no_sigint acts -> good m -> settling t m ->
  run_acts acts m = Ret (Some m') -> (handler_left (handling_of t m) <= n_steps t acts)%nat -> settled m'.
Proof using Hnr Hsock.
  induction acts as [|a acts IH]; intros m m' Ha Hn Hg [Hb Hh] E Hk.
  { injection E as <-. destruct Hh as [|Hh]; [done|]. cbn in Hk. by destruct (handling_of t m); cbn in Hk; try lia. }
  apply Forall_cons in Ha as [Ha Has]. apply Forall_cons in Hn as [Hn Hns]. cbn [run_acts] in E. rewrite n_steps_cons in Hk.
  apply outcome_bind_inv in E as ([m1|] & E1 & E); [|done].
  destruct (react_good a m Ha Hg) as [(m2 & E2 & Hg1 & _)|[[E2 _]|[E2 _]]]; rewrite E1 in E2; [|done..]. injection E2 as <-.
  destruct (settling_step t a m m1 Ha Hn Hg ltac:(by split) E1) as [[Hb1 Hh1] Hd].
  assert (settled m1 \/ (handler_left (handling_of t m1) <= n_steps t acts)%nat) as [Hs|Hk'] by (destruct Hd; [by left|right; lia]).
  - destruct (stops acts m1 Has Hns Hg1 Hs) as [[E3 _]|(m3 & E3 & _ & Hs3 & _)]; rewrite E in E3; [done|]. by injection E3 as <-.
  - by apply (IH m1 m').
Qed.

Lemma begun_run acts : forall m m', Forall act_ok acts -> good m -> begun (m_pc m) = true ->
  run_acts acts m = Ret (Some m') -> begun (m_pc m') = true.
Proof using Hnr Hsock.
  induction acts as [|a acts IH]; intros m m' Ha Hg Hb E; [by injection E as <-|].
  apply Forall_cons in Ha as [Ha Has]. cbn [run_acts] in E. apply outcome_bind_inv in E as ([m1|] & E1 & E); [|done].
  destruct (react_good a m Ha Hg) as [(m2 & E2 & Hg1 & _)|[[E2 _]|[E2 _]]]; rewrite E1 in E2; [|done..]. injection E2 as <-.
  apply (IH m1 m' Has Hg1); [by apply (begun_step a m m1)|exact E].
Qed.

Lemma settled_returns m : begun (m_pc m) = true -> (capture_left m <= 10)%nat.
Proof using.
  unfold capture_left. intros Hb.
  assert (steps_left (m_pc m) <= 8)%nat by (destruct (m_pc m) as [| | |? r| | | | | |]; cbn in *; try done; try lia; destruct (frame r); lia).
  assert (handler_left (m_own m) <= 2)%nat by (destruct (m_own m); cbn; lia). lia.
Qed.
End Machine.

(** ** Properties *)

(** C8: Ctrl+C at any moment.  However the steps of a capture, of the kernel and of the handler on
    either thread, and deliveries of SIGINT to either thread are interleaved, nothing is ever read
    outside the ring, and exactly one of three things happens.  The machine goes on: and a capture
    that has returned did what the capture stage does with the results its loop got, which are the
    frames the ring handed out and then at most one stop or error.  Or a SIGINT
    ended the process: where it found the default action and, if signal() had not failed, before
    the capture's handler was installed or after it was restored.  Or the handler on the main
    thread, which had read [g_active_ctx] before it was cleared, wrote into the context after the
    capture had freed it; that does not happen in any interleaving in which SIGINT is delivered to
    the capture thread only. *)
Theorem capture_interleaved nr e ctx o w s acts :
  0 < nr < 2 ^ 32 -> holds_socket ctx o (w_os w) -> opened nr s -> g_active_ctx (w_glob w) = None ->
  Forall act_ok acts ->
  ((exists m, run_acts nr e ctx acts (begin w s) = Ret (Some m) /\
      RawSocket.reachable nr RAW_SOCKET_MAX_FRAME (m_sys m) /\
      (forall result, m_pc m = At_return result ->
         (forall rest, capture_stage (with_recv (m_got m ++ rest) e) ctx w = Ret (result, m_world m)) /\
         same_resources o (w_os (m_world m)) /\
         exists tl, m_got m = map returned (handed (m_sys m)) ++ tl /\
           (tl = [] \/ exists r, tl = [r] /\ frame r = None /\ ret r < 0))) \/
   (run_acts nr e ctx acts (begin w s) = Ret None /\ killed nr e ctx acts (begin w s)) \/
   (run_acts nr e ctx acts (begin w s) = UB /\ races nr e ctx acts (begin w s))) /\
  ((A_sigint T_main ∉ acts) -> run_acts nr e ctx acts (begin w s) <> UB).
Proof.
  intros Hnr Hsock Hopen Hidle Ha. pose proof (good_begin nr e ctx o w s Hsock Hopen Hidle) as Hg.
  destruct (run_good nr e ctx Hnr o w Hsock acts _ Ha Hg) as [(m & E & Hr)|[[E Hk]|[E Hk]]]; (split; [|intros Hin]).
  - left. exists m. destruct Hr as (_ & H1 & _ & H3 & (tl & H4 & H5 & _) & H6).
    split; [done|]. split; [done|]. intros result Hp. rewrite Hp in H3. split_and!; [|done|eauto].
    intros rest. specialize (H6 rest). by rewrite Hp in H6.
  - congruence.
  - by right; left.
  - congruence.
  - by right; right.
  - intros _. destruct Hk as (acts1 & acts2 & m1 & result & -> & E1 & Hm & _).
    rewrite not_elem_of_app in Hin. by rewrite (main_stays_out nr e ctx acts1 (begin w s) m1 eq_refl (proj1 Hin) E1) in Hm.
Qed.

(** C18: Ctrl+C stops a capture whose handler signal() has installed.  Let SIGINT be delivered, to
    either thread, while the loop runs, let that thread take its two steps of the handler, the
    capture thread and the kernel doing what they like meanwhile, and let no other SIGINT come.
    Then the capture returns within ten further steps of its own, whatever the kernel does; of
    the frames not passed on by then it passes on at most the one it has in hand, and if it was
    waiting for one it returns 0, provided the file closes well.  The one exception is the race
    of C8: the capture has returned and freed its context before the main thread's handler, which
    holds a pointer to it, writes. *)
Theorem sigint_stops_capture nr e ctx o w s acts t acts1 acts2 m m1 :
  0 < nr < 2 ^ 32 -> holds_socket ctx o (w_os w) -> opened nr s -> g_active_ctx (w_glob w) = None ->
  e_signal e = true -> Forall act_ok acts -> Forall act_ok acts1 -> Forall act_ok acts2 ->
  no_sigint acts1 -> no_sigint acts2 ->
  run_acts nr e ctx acts (begin w s) = Ret (Some m) ->
  (exists previous, m_pc m = At_recv previous \/ exists r, m_pc m = At_result previous r) -> handling_of t m = H_out ->
  run_acts nr e ctx (acts ++ A_sigint t :: acts1) (begin w s) = Ret (Some m1) ->
  (2 <= n_steps t acts1)%nat -> (10 <= n_steps T_capture acts2)%nat ->
  let schedule := acts ++ A_sigint t :: acts1 ++ acts2 in
  (run_acts nr e ctx schedule (begin w s) = UB /\ races nr e ctx schedule (begin w s)) \/
  exists m' result, run_acts nr e ctx schedule (begin w s) = Ret (Some m') /\
    m_pc m' = At_return result /\ same_resources o (w_os (m_world m')) /\
    (length (calls (m_world m')) <= length (calls (m_world m1)) + in_hand (m_pc m1))%nat /\
    ((exists previous, m_pc m1 = At_recv previous) -> e_fclose e = true -> result = 0).
Proof.
  intros Hnr Hsock Hopen Hidle Hsig Ha Ha1 Ha2 Hn1 Hn2 E Hp Ht E1 Hk1 Hk2 schedule.
  pose proof (good_begin nr e ctx o w s Hsock Hopen Hidle) as Hg0.
  assert (good nr e ctx o w m) as Hg.
  { destruct (run_good nr e ctx Hnr o w Hsock acts _ Ha Hg0) as [(m' & E' & H)|[[E' _]|[E' _]]]; rewrite E in E'; [|done..].
    by injection E' as <-. }
  assert (begun (m_pc m) = true) as Hb by (destruct Hp as [previous [->|[r ->]]]; done).
  assert (sigint (w_glob (m_world m)) = ON_SIGINT) as Hh.
  { destruct Hg as (_ & _ & Hgl & _). destruct Hp as [previous [Hp|[r Hp]]]; rewrite Hp in Hgl; destruct Hgl as (_ & Hi & _);
      unfold installed in Hi; by rewrite Hsig in Hi. }
  rewrite run_acts_app, E in E1. obind in E1. cbn [run_acts react] in E1. unfold deliver_sigint in E1. rewrite Ht, Hh in E1.
  obind in E1. set (m0 := set_handling t H_load m) in E1.
  assert (good nr e ctx o w m0) as Hg1 by (by apply good_handling).
  assert (handling_of t m0 = H_load) as Ht0 by by destruct t.
  assert (settled m1) as Hs.
  { eapply (settles nr e ctx Hnr o w Hsock t acts1 m0 m1); try done; [|by rewrite Ht0].
    split; [exact Hb|]. right. by rewrite Ht0. }
  assert (good nr e ctx o w m1) as Hgm1.
  { destruct (run_good nr e ctx Hnr o w Hsock acts1 _ Ha1 Hg1) as [(m' & E' & H)|[[E' _]|[E' _]]]; rewrite E1 in E'; [|done..].
    by injection E' as <-. }
  pose proof (settled_returns m1 (begun_run nr e ctx Hnr o w Hsock acts1 m0 m1 Ha1 Hg1 Hb E1)) as Hleft.
  assert (forall acts3, run_acts nr e ctx (acts ++ A_sigint t :: acts1 ++ acts3) (begin w s) = run_acts nr e ctx acts3 m1) as Hrun.
  { intros acts3. rewrite run_acts_app, E. obind. cbn [run_acts react]. unfold deliver_sigint. rewrite Ht, Hh. obind.
    fold m0. rewrite run_acts_app, E1. by obind. }
  unfold schedule. rewrite Hrun.
  destruct (stops nr e ctx Hnr o w Hsock acts2 m1 Ha2 Hn2 Hgm1 Hs) as [(E2 & a1 & a2 & m2 & result & -> & E3 & Hk)|(m' & E2 & Hg' & _ & [Hw Hz] & Hl)].
  - left. split; [done|]. exists (acts ++ A_sigint t :: acts1 ++ a1), a2, m2, result. rewrite Hrun. split; [|done].
    by rewrite <- app_assoc, <- app_comm_cons, <- app_assoc.
  - right. unfold capture_left in *.
    destruct (m_pc m') as [| | |? r| | | | | |result] eqn:Ep; cbn in Hl; try (destruct (frame r)); try lia.
    exists m', result. split_and!; [done|done| |cbn in Hw; lia|].
    + destruct Hg' as (_ & _ & _ & Hs' & _). by rewrite Ep in Hs'.
    + intros [previous Hq] Hf. apply Hz; [done|]. by rewrite Hq.
Qed.

(** A capture on a ring of two blocks: two frames arrive, the first is passed on, and SIGINT is
    delivered to the main thread with the second in hand. *)
Definition sample_ctx : raw_socket_ctx :=
  {| self := 300; fd := 5; device_name := lit "eth0"; promisc_set_by_us := true; ring_map := 200;
     ring_size := RS_RING_BLOCK_SIZE * RS_RING_BLOCK_NR; block_size := RS_RING_BLOCK_SIZE;
     block_nr := RS_RING_BLOCK_NR; read_cursor := fresh_cursor |}.
Definition capturing_world : world :=
  set_os {| fds := 5 :: fds sample_os; maps := 200 :: maps sample_os; blocks := 300 :: blocks sample_os;
            if_flags := if_flags sample_os |} sample_world.
Definition turns (n : nat) : list act := repeat (A_thread true) n.
Definition sample_acts : list act := turns 3 ++ [A_kernel two_packets frames_12] ++ turns 3.
Definition handler_acts : list act := [A_main; A_thread true; A_main].
Definition after (acts : list act) : machine :=
  match run_acts 2 sample_env sample_ctx acts (begin capturing_world start) with
  | Ret (Some m) => m
  | _ => begin capturing_world start
  end.
Definition sample_machine : machine := after sample_acts.
Definition stopping_machine : machine := after (sample_acts ++ A_sigint T_main :: handler_acts).

Example sample_machine_state :
  in_hand (m_pc sample_machine) = 1%nat /\ calls (m_world sample_machine) = [([80; 81; 82; 83], 1, 5)].
Proof. vm_compute. done. Qed.

Lemma sample_holds : holds_socket sample_ctx sample_os (w_os capturing_world).
Proof. split_and!; try done; by apply (bool_decide_unpack _). Qed.
Lemma sample_opened : opened 2 start.
Proof. split_and!; try done. by repeat constructor. Qed.
Lemma sample_acts_ok : Forall act_ok sample_acts.
Proof. repeat constructor; vm_compute; done. Qed.
Lemma turns_ok n : Forall act_ok (turns n).
Proof. apply Forall_forall. by intros a ->%list_elem_of_In%repeat_spec. Qed.
Lemma turns_no_sigint n : no_sigint (turns n).
Proof. apply Forall_forall. by intros a ->%list_elem_of_In%repeat_spec. Qed.

(** Ctrl+C twice: the first makes the capture leave its loop; the handler of the second reads
    [g_active_ctx] before the capture clears it, and writes after the capture has freed the
    context: a use after free. *)
Definition twice_acts : list act :=
  turns 3 ++ [A_sigint T_main; A_main; A_main; A_sigint T_main; A_main] ++ turns 7 ++ [A_main].

Theorem second_sigint_use_after_free :
  run_acts 2 sample_env sample_ctx twice_acts (begin capturing_world start) = UB.
Proof. vm_compute. reflexivity. Qed.

Lemma capture_interleaved_witness :
  let acts := sample_acts ++ turns 20 in
  ((exists m, run_acts 2 sample_env sample_ctx acts (begin capturing_world start) = Ret (Some m) /\
      RawSocket.reachable 2 RAW_SOCKET_MAX_FRAME (m_sys m) /\
      (forall result, m_pc m = At_return result ->
         (forall rest,
            capture_stage (with_recv (m_got m ++ rest) sample_env) sample_ctx capturing_world = Ret (result, m_world m)) /\
         same_resources sample_os (w_os (m_world m)) /\
         exists tl, m_got m = map returned (handed (m_sys m)) ++ tl /\
           (tl = [] \/ exists r, tl = [r] /\ frame r = None /\ ret r < 0))) \/
   (run_acts 2 sample_env sample_ctx acts (begin capturing_world start) = Ret None /\
    killed 2 sample_env sample_ctx acts (begin capturing_world start)) \/
   (run_acts 2 sample_env sample_ctx acts (begin capturing_world start) = UB /\
    races 2 sample_env sample_ctx acts (begin capturing_world start))) /\
  ((A_sigint T_main ∉ acts) -> run_acts 2 sample_env sample_ctx acts (begin capturing_world start) <> UB).
Proof.
  apply (capture_interleaved 2 sample_env sample_ctx sample_os capturing_world start (sample_acts ++ turns 20));
    [lia|exact sample_holds|exact sample_opened|reflexivity|].
  apply Forall_app. split; [exact sample_acts_ok|apply turns_ok].
Defined.

Lemma sigint_stops_capture_witness :
  let schedule := sample_acts ++ A_sigint T_main :: handler_acts ++ turns 10 in
  (run_acts 2 sample_env sample_ctx schedule (begin capturing_world start) = UB /\
   races 2 sample_env sample_ctx schedule (begin capturing_world start)) \/
  exists m' result,
    run_acts 2 sample_env sample_ctx schedule (begin capturing_world start) = Ret (Some m') /\
    m_pc m' = At_return result /\ same_resources sample_os (w_os (m_world m')) /\
    (length (calls (m_world m')) <= length (calls (m_world stopping_machine)) + in_hand (m_pc stopping_machine))%nat /\
    ((exists previous, m_pc stopping_machine = At_recv previous) -> e_fclose sample_env = true -> result = 0).
Proof.
  apply (sigint_stops_capture 2 sample_env sample_ctx sample_os capturing_world start sample_acts T_main handler_acts
    (turns 10) sample_machine stopping_machine).
  - lia.
  - exact sample_holds.
  - exact sample_opened.
  - reflexivity.
  - reflexivity.
  - exact sample_acts_ok.
  - by repeat constructor.
  - apply turns_ok.
  - by repeat constructor.
  - apply turns_no_sigint.
  - vm_compute. reflexivity.
  - eexists. right. eexists. vm_compute. reflexivity.
  - reflexivity.
  - vm_compute. reflexivity.
  - vm_compute. lia.
  - vm_compute. lia.
Defined.
