(* ===== verification/Backend.v ===== *)
(** * The backend interface (src/src/c/capture_backend.h, src/src/tests/fake_capture_backend.c)

    [capture_backend_t], the table of functions the program captures through, and the wrappers
    that call it; what the program relies on is the class [CaptureBackend].  The Linux backend
    and the replaying backend of the tests are its two instances. *)
From S2P Require Import Prelude FilterCore RawSocket RawDevice CaptureBackend.
From stdpp Require Import options.

Local Open Scope Z_scope.

(** ** The table *)

Abbreviation cb_frame := (list Z * Z * Z)%type.

(** [W] is the state a backend keeps; the calls of the callback are recorded in it. *)
Record capture_backend_t (W : Type) := {
  b_list_devices : Z -> Z * list text;
  b_run : option text -> option text -> option text -> W -> outcome (Z * W);
  b_request_stop : W -> outcome W;
  b_get_last_stats : out_arg -> W -> Z * option (Z * Z)
}.
Arguments b_list_devices {W}.
Arguments b_run {W}.
Arguments b_request_stop {W}.
Arguments b_get_last_stats {W}.

Section Wrappers.
Context {W : Type} (capture_backend_get : capture_backend_t W).

Definition capture_backend_list_devices (max_devices : Z) : Z * list text :=
  b_list_devices capture_backend_get max_devices.
Definition capture_backend_run (device_name bpf_filter pcap_output_path : option text) (w : W) : outcome (Z * W) :=
  b_run capture_backend_get device_name bpf_filter pcap_output_path w.
Definition capture_backend_request_stop (w : W) : outcome W := b_request_stop capture_backend_get w.
Definition capture_backend_get_last_stats (out : out_arg) (w : W) : Z * option (Z * Z) :=
  b_get_last_stats capture_backend_get out w.
End Wrappers.

(** What a client relies on: a run that is [ready] for its arguments returns, having given the
    callback an initial part of the frames on offer, all of them if it returns 0; the list of
    devices has as many names as it says, each within its array; and statistics are only ever
    stored where there is room for them. *)
Class CaptureBackend {W} (b : capture_backend_t W) (ready : option text -> W -> Prop)
    (offered delivered : W -> list cb_frame) : Prop := {
  backend_devices n : 0 < n -> let '(count, names) := b_list_devices b n in
    count <= n /\ count <= zlen names /\ Forall (fun name => zlen name < CAPTURE_NAME_LEN) names;
  backend_run device filter path w : ready filter w ->
    exists rc w' fs, b_run b device filter path w = Ret (rc, w') /\ delivered w' = delivered w ++ fs /\
      fs `prefix_of` offered w /\ (rc = 0 -> fs = offered w);
  backend_stats out w : (fst (b_get_last_stats b out w) = 0 <-> is_Some (snd (b_get_last_stats b out w))) /\
    snd (b_get_last_stats b Null w) = None
}.

(** ** Linux *)

Module Linux.

(** The process and the socket behind [g_active_ctx]; [env] and [addr] are what the C library and
    the kernel answer. *)
Definition g_linux_backend (e : env) (addr : option (list (option text))) : capture_backend_t (world * sock) :=
  {| b_list_devices := list_devices_impl addr;
     b_run := fun device filter path '(w, s) =>
       ('(rc, w) ← run_impl e device filter path w; Ret (rc, (w, s)));
     b_request_stop := fun '(w, s) => (s ← request_stop_impl w s; Ret (w, s));
     b_get_last_stats := fun out '(w, _) => get_last_stats_impl out w |}.

Definition ready (e : env) (filter : option text) (w : world * sock) : Prop :=
  Forall recv_ok (e_recv e) /\ Exists (fun r => ret r < 0) (e_recv e) /\
  fresh_calls (e_open e) (w_os (fst w)) /\ (e_prog e ∉ progs (fst w)) /\ filter_fits filter /\
  is_open (w_file (fst w)) = false.

Lemma devices_loop_bound addrs n : forall out, zlen out <= n -> zlen (devices_loop addrs n out) <= n.
Proof.
  induction addrs as [|[name|] addrs IH]; intros out Hn; [done|..]; cbn [devices_loop];
    destruct (Z.ltb_spec (zlen out) n); cbn [negb]; auto.
  case_bool_decide; [by apply IH|]. apply IH. unfold zlen in *. rewrite length_app. cbn. lia.
Qed.

Lemma strncpy_length n t : 0 < n -> zlen (strncpy n t) < n.
Proof. intros Hn. unfold strncpy, zlen. rewrite length_take. lia. Qed.

#[global] Instance linux_backend e addr :
  CaptureBackend (g_linux_backend e addr) (ready e) (fun _ => received (e_recv e)) (fun w => calls (fst w)).
Proof.
  split.
  - intros n Hn. cbn [b_list_devices g_linux_backend]. unfold list_devices_impl, raw_socket_list_devices.
    assert (exists k, (if CAPTURE_MAX_DEVICES <? n then CAPTURE_MAX_DEVICES else n) = k /\ 0 < k <= n) as (k & -> & Hk).
    { unfold CAPTURE_MAX_DEVICES. destruct (Z.ltb_spec 32 n); eexists; split; try done; lia. }
    destruct (Z.eqb_spec k 0); [lia|].
    destruct addr as [addrs|]; [|cbn; split_and!; [lia|done..]].
    pose proof (devices_loop_bound addrs k [] ltac:(unfold zlen; cbn; lia)). pose proof (zlen_nonneg (devices_loop addrs k [])).
    zcase. rewrite take_zlen. split_and!; [lia|unfold zlen; rewrite length_map; lia|].
    apply Forall_fmap, Forall_true. intros name. by apply strncpy_length.
  - intros device filter path [w s] (Hr & He & Hfr & Hp & Hfit & Ho). cbn [b_run g_linux_backend fst].
    destruct (run_cases e Hr He device filter path w Hfr Hp Hfit Ho)
      as [(w2 & -> & _ & _ & _ & Hc & _)|(w1 & rc & w2 & -> & (_ & _ & _ & _ & _ & _ & _ & (fs & Hc & Hpre) & Hrc) & _ & Hc1 & _)]; obind.
    + exists (-1), (w2, s), []. rewrite app_nil_r. split_and!; [done|done|apply prefix_nil|done].
    + exists rc, (w2, s), fs. cbn [fst]. rewrite Hc, Hc1. split_and!; [done..|]. intros ->.
      destruct Hrc as [?|(_ & Heq & _)]; [done|]. rewrite Hc in Heq. by apply app_inv_head in Heq.
  - intros out [w s]. cbn. unfold get_last_stats_impl. split; [|done].
    destruct out; [destruct (g_last_stats_valid (w_glob w))|]; cbn; split; try done; by intros [? [=]].
Qed.
End Linux.

(** ** The replaying backend of the tests *)

Module Fake.

(** The file-scope variables: the frames installed and the counters; [seen] records the calls. *)
Record fake := { g_frames : list cb_frame; g_delivered : Z; g_stop_requested : bool; seen : list cb_frame }.

(** [fake_capture_backend_set_frames] *)
Definition set_frames (frames : list cb_frame) (k : fake) : fake :=
  {| g_frames := frames; g_delivered := 0; g_stop_requested := false; seen := seen k |}.

(** [fake_list_devices] *)
Definition fake_list_devices (max_devices : Z) : Z * list text :=
  if max_devices <=? 0 then (0, []) else (1, [strncpy CAPTURE_NAME_LEN (lit "fake0")]).

(** The loop; [cb_stops] tells for which frames the callback requests a stop. *)
Fixpoint replay (cb_stops : cb_frame -> bool) (frames : list cb_frame) (k : fake) : fake :=
  match frames with
  | [] => k
  | f :: frames =>
    if g_stop_requested k then k
    else replay cb_stops frames
      {| g_frames := g_frames k; g_delivered := g_delivered k + 1;
         g_stop_requested := cb_stops f; seen := seen k ++ [f] |}
  end.

Definition fake_run (cb_stops : cb_frame -> bool) (k : fake) : Z * fake :=
  let k := replay cb_stops (g_frames k)
    {| g_frames := g_frames k; g_delivered := 0; g_stop_requested := g_stop_requested k; seen := seen k |} in
  (0, {| g_frames := g_frames k; g_delivered := g_delivered k; g_stop_requested := false; seen := seen k |}).

Definition fake_request_stop (k : fake) : fake :=
  {| g_frames := g_frames k; g_delivered := g_delivered k; g_stop_requested := true; seen := seen k |}.

Definition fake_get_last_stats (out : out_arg) (k : fake) : Z * option (Z * Z) := (-1, None).

Definition g_fake_backend : capture_backend_t fake :=
  {| b_list_devices := fake_list_devices;
     b_run := fun _ _ _ k => Ret (fake_run (fun _ => false) k);
     b_request_stop := fun k => Ret (fake_request_stop k);
     b_get_last_stats := fake_get_last_stats |}.

(** The frames up to the one at which the callback requests a stop. *)
Fixpoint until (cb_stops : cb_frame -> bool) (frames : list cb_frame) : list cb_frame :=
  match frames with
  | [] => []
  | f :: frames => f :: if cb_stops f then [] else until cb_stops frames
  end.

Lemma replay_seen cb_stops frames : forall k, g_stop_requested k = false ->
  seen (replay cb_stops frames k) = seen k ++ until cb_stops frames /\
  g_delivered (replay cb_stops frames k) = g_delivered k + zlen (until cb_stops frames).
Proof.
  induction frames as [|f frames IH]; intros k Hk; cbn [replay until]; [rewrite app_nil_r; cbn; by rewrite Z.add_0_r|].
  rewrite Hk. rewrite zlen_cons. destruct (cb_stops f) eqn:Ef.
  - destruct frames; cbn; split; try done; lia.
  - destruct (IH {| g_frames := g_frames k; g_delivered := g_delivered k + 1;
                    g_stop_requested := false; seen := seen k ++ [f] |} eq_refl) as [-> ->].
    cbn [seen g_delivered]. rewrite <- app_assoc. split; [done|lia].
Qed.

Lemma until_all frames : until (fun _ => false) frames = frames.
Proof. induction frames as [|f frames IH]; cbn; congruence. Qed.

Lemma replay_stopped cb_stops frames k : g_stop_requested k = true -> replay cb_stops frames k = k.
Proof. intros Hk. destruct frames; cbn; by rewrite ?Hk. Qed.

#[global] Instance fake_backend :
  CaptureBackend g_fake_backend (fun _ _ => True) (fun k => if g_stop_requested k then [] else g_frames k) seen.
Proof.
  split.
  - intros n Hn. cbn [b_list_devices g_fake_backend]. unfold fake_list_devices. destruct (Z.leb_spec n 0); [lia|].
    split_and!; [lia|done|]. repeat constructor; by apply Linux.strncpy_length.
  - intros device filter path k _. cbn [b_run g_fake_backend]. unfold fake_run.
    destruct (g_stop_requested k) eqn:Ek.
    + rewrite replay_stopped by done. eexists _, _, []. rewrite app_nil_r. split_and!; try done.
    + eexists _, _, _. split_and!; [done| |reflexivity|done]. cbn [seen].
      destruct (replay_seen (fun _ => false) (g_frames k)
        {| g_frames := g_frames k; g_delivered := 0; g_stop_requested := false; seen := seen k |} eq_refl) as [-> _].
      by rewrite until_all.
  - intros out k. split; [|done]. split; [done|by intros [? [=]]].
Qed.
End Fake.
