(* ===== verification/Console.v ===== *)
(** * The console (src/src/main.cpp, lines 15-102)

    How the program is told what to capture: the command line, and the prompts answered on
    standard input.  [std::cin] is modelled with its state bits, since a failed extraction and
    an exhausted stream decide what the later calls do; what is written to [std::cout] and
    [std::cerr] is kept as text. *)
From S2P Require Import Prelude Text RawSocket RawDevice CaptureBackend Backend.
From stdpp Require Import options.

Local Open Scope Z_scope.

(** ** Input streams *)

Record istream := { rest : text; eofbit : bool; failbit : bool }.

Definition cin (typed : text) : istream := {| rest := typed; eofbit := false; failbit := false |}.
Definition setfail (i : istream) : istream := {| rest := rest i; eofbit := eofbit i; failbit := true |}.

(** [isspace] in the C locale. *)
Definition isspace (c : ascii) : bool := bool_decide (c = " "%char) || in_range "009" "013" c.

(** [std::istream::sentry] *)
Definition sentry (noskipws : bool) (i : istream) : bool * istream :=
  if eofbit i || failbit i then (false, setfail i)
  else if noskipws then (true, i)
  else
    match snd (span isspace (rest i)) with
    | [] => (false, {| rest := []; eofbit := true; failbit := true |})
    | r => (true, {| rest := r; eofbit := false; failbit := false |})
    end.

Definition INT_MIN : Z := - 2 ^ 31.
Definition INT_MAX : Z := 2 ^ 31 - 1.

(** The optional sign of a number. *)
Definition read_sign (s : text) : bool * text :=
  match s with "-"%char :: s => (true, s) | "+"%char :: s => (false, s) | s => (false, s) end.

(** [i >> n] into an [int] that held [old]: nothing is stored when there is nothing to read, 0
    when what there is is not a number, the nearest limit when it does not fit. *)
Definition get_int (i : istream) (old : Z) : Z * istream :=
  let '(ok, i) := sentry false i in
  if negb ok then (old, i)
  else
    let '(neg, s) := read_sign (rest i) in
    let '(digits, r) := span is_digit s in
    let i := {| rest := r; eofbit := bool_decide (r = []); failbit := false |} in
    let v := if neg : bool then - dec_value digits else dec_value digits in
    if bool_decide (digits = []) then (0, setfail i)
    else if v <? INT_MIN then (INT_MIN, setfail i)
    else if INT_MAX <? v then (INT_MAX, setfail i)
    else (v, i).

(** [i.ignore()] *)
Definition ignore (i : istream) : istream :=
  let '(ok, i) := sentry true i in
  if negb ok then i
  else
    match rest i with
    | [] => {| rest := []; eofbit := true; failbit := failbit i |}
    | _ :: r => {| rest := r; eofbit := eofbit i; failbit := failbit i |}
    end.

(** [std::getline(i, str)] *)
Definition getline (i : istream) (str : text) : text * istream :=
  let '(ok, i) := sentry true i in
  if negb ok then (str, i)
  else
    match span not_newline (rest i) with
    | (line, []) => (line, {| rest := []; eofbit := true; failbit := failbit i || bool_decide (line = []) |})
    | (line, _ :: r) => (line, {| rest := r; eofbit := eofbit i; failbit := failbit i |})
    end.

(** [str.c_str()] as a C function sees it: up to the first NUL. *)
Definition c_str (str : text) : text := fst (span (fun c => negb (bool_decide (c = "000"%char))) str).

(** ** Output *)

Record streams := { cout : text; cerr : text }.
Definition quiet : streams := {| cout := []; cerr := [] |}.
Definition to_cout (s : text) (io : streams) : streams := {| cout := cout io ++ s; cerr := cerr io |}.
Definition to_cerr (s : text) (io : streams) : streams := {| cout := cout io; cerr := cerr io ++ s |}.

Definition print_usage (argv0 : text) (io : streams) : streams :=
  to_cerr (ln (lit "Usage: " ++ argv0 ++ lit " [-i <iface>] [-f " ++ quote ++ lit "<bpf filter>" ++ quote ++ lit "] [-Y " ++
               quote ++ lit "<display filter>" ++ quote ++ lit "] [-w <out.pcap>]") ++
       ln (lit "  -i  capture device name (skips the interactive interface prompt)") ++
       ln (lit "  -f  capture filter (BPF, kernel-side), e.g. " ++ quote ++ lit "tcp port 443" ++ quote) ++
       ln (lit "  -Y  display filter (parsed-field match, userspace, post-parse), e.g. " ++
               quote ++ lit "tcp.port == 443" ++ quote) ++
       ln (lit "  -w  write captured packets to this .pcap file") ++
       ln (lit "With no -i, falls back to the interactive interface picker.")) io.

(** ** The command line *)

Record cli := {
  cli_iface : text; cli_capture_filter : text; cli_display_filter : text; cli_pcap_path : text;
  have_iface : bool
}.
Definition no_cli : cli :=
  {| cli_iface := []; cli_capture_filter := []; cli_display_filter := []; cli_pcap_path := [];
     have_iface := false |}.

(** [args] are [argv + 1] on; [inr] is the argument that is complained of. *)
Fixpoint parse_args (args : list text) (c : cli) : cli + text :=
  match args with
  | [] => inl c
  | [arg] => inr arg
  | arg :: v :: args =>
    if bool_decide (arg = lit "-i") then
      parse_args args {| cli_iface := v; cli_capture_filter := cli_capture_filter c;
                         cli_display_filter := cli_display_filter c; cli_pcap_path := cli_pcap_path c;
                         have_iface := true |}
    else if bool_decide (arg = lit "-f") then
      parse_args args {| cli_iface := cli_iface c; cli_capture_filter := v;
                         cli_display_filter := cli_display_filter c; cli_pcap_path := cli_pcap_path c;
                         have_iface := have_iface c |}
    else if bool_decide (arg = lit "-Y") then
      parse_args args {| cli_iface := cli_iface c; cli_capture_filter := cli_capture_filter c;
                         cli_display_filter := v; cli_pcap_path := cli_pcap_path c;
                         have_iface := have_iface c |}
    else if bool_decide (arg = lit "-w") then
      parse_args args {| cli_iface := cli_iface c; cli_capture_filter := cli_capture_filter c;
                         cli_display_filter := cli_display_filter c; cli_pcap_path := v;
                         have_iface := have_iface c |}
    else inr arg
  end.

(** ** The prompts *)

Record config := { device_name : text; capture_filter : text; display_filter : text; pcap_path : text }.

(** The list of the interfaces, from index [i]: [n] entries of [devices]. *)
Fixpoint interfaces (n : nat) (i : Z) (devices : list text) : outcome text :=
  match n with
  | O => Ret []
  | S n =>
    match devices !! Z.to_nat i with
    | None => UB
    | Some name => s ← interfaces n (i + 1) devices; Ret (ln (lit "  [" ++ num_text 10 i ++ lit "] " ++ name) ++ s)
    end
  end.

(** Lines 78 to 101: [None] is the return for an invalid choice. *)
Definition prompts (c : cli) (device_count : Z) (devices : list text) (stdin : istream) (io : streams)
    : outcome (option config * streams) :=
  s ← interfaces (Z.to_nat device_count) 0 devices;
  let io := to_cout (ln (lit "Available interfaces : ") ++ s ++ lit "Select interface index : ") io in
  let '(choice, stdin) := get_int stdin (-1) in
  if (choice <? 0) || (device_count <=? choice) then Ret (None, to_cerr (lit "Invalid choice") io)
  else
    match devices !! Z.to_nat choice with
    | None => UB
    | Some name =>
      let io := to_cout (lit "Capture filter, BPF (empty = none): ") io in
      let stdin := ignore stdin in
      let '(capture_filter, stdin) := getline stdin (cli_capture_filter c) in
      let io := to_cout (lit "Display filter, e.g. tcp.port == 443 (empty = none): ") io in
      let '(display_filter, stdin) := getline stdin (cli_display_filter c) in
      let io := to_cout (lit "Save to .pcap file (empty = don't save): ") io in
      let '(pcap_path, stdin) := getline stdin (cli_pcap_path c) in
      Ret (Some {| device_name := name; capture_filter := capture_filter; display_filter := display_filter;
                   pcap_path := pcap_path |}, io)
    end.

Section Configure.
Context {W : Type} (backend : capture_backend_t W).

(** Lines 37 to 102; [None] is [return 1]. *)
Definition configure (argv0 : text) (args : list text) (stdin : istream) (io : streams)
    : outcome (option config * streams) :=
  match parse_args args no_cli with
  | inr arg => Ret (None, print_usage argv0 (to_cerr (ln (lit "Unknown or incomplete argument: " ++ arg)) io))
  | inl c =>
    let '(device_count, devices) := capture_backend_list_devices backend CAPTURE_MAX_DEVICES in
    if device_count <=? 0 then
      Ret (None, to_cerr (ln (lit "No capture devices found. Raw packet capture requires CAP_NET_RAW " ++
                            lit "(run as root, or `sudo setcap cap_net_raw+ep <binary>`).")) io)
    else if have_iface c then
      Ret (Some {| device_name := cli_iface c; capture_filter := cli_capture_filter c;
                   display_filter := cli_display_filter c; pcap_path := cli_pcap_path c |}, io)
    else prompts c device_count devices stdin io
  end.
End Configure.

(** ** What the calls read *)

Lemma getline_line l r str : forallb not_newline l = true -> getline (cin (l ++ newline :: r)) str = (l, cin r).
Proof. intros Hl. unfold getline. cbn. by rewrite span_app. Qed.

Lemma digit_not_space c : is_digit c = true -> isspace c = false.
Proof.
  intros H%in_range_spec. change (code_of "0") with 48 in H. change (code_of "9") with 57 in H.
  apply orb_false_iff. split.
  - apply bool_decide_eq_false. intros ->. change (code_of " ") with 32 in H. lia.
  - apply not_true_is_false. intros Hc%in_range_spec. change (code_of "013") with 13 in Hc. lia.
Qed.

Lemma read_sign_none c r : c <> "-"%char -> c <> "+"%char -> read_sign (c :: r) = (false, c :: r).
Proof. destruct c as [b0 b1 b2 b3 b4 b5 b6 b7]. by destruct b0, b1, b2, b3, b4, b5, b6, b7. Qed.

(** A character that is neither space, sign nor digit; [i >> n] fails on it. *)
Definition wordlike (c : ascii) : bool :=
  negb (isspace c || is_digit c || bool_decide (c = "-"%char) || bool_decide (c = "+"%char)).

Lemma get_int_word c r old : wordlike c = true -> get_int (cin (c :: r)) old = (0, setfail (cin (c :: r))).
Proof.
  intros H%negb_true_iff. apply orb_false_iff in H as [H Hp]. apply orb_false_iff in H as [H Hm].
  apply orb_false_iff in H as [Hs Hd]. unfold get_int, sentry. cbn [rest cin eofbit failbit orb span].
  rewrite Hs. cbn [negb rest snd]. apply bool_decide_eq_false in Hm, Hp.
  rewrite read_sign_none by done. cbn [span]. by rewrite Hd.
Qed.

Lemma get_int_dec n r old : 0 <= n <= INT_MAX ->
  get_int (cin (num_text 10 n ++ newline :: r)) old = (n, cin (newline :: r)).
Proof.
  intros Hn. destruct (dec_text_spec n) as (Hne & Hd & Hv & _); [lia|].
  destruct (num_text 10 n) as [|d ds] eqn:E; [done|]. pose proof Hd as [Hd1 _]%andb_true_iff.
  unfold get_int, sentry. cbn [rest cin eofbit failbit orb app span]. rewrite digit_not_space by done.
  cbn [negb rest snd].
  rewrite read_sign_none by (intros ->; done). change (d :: ds ++ newline :: r) with ((d :: ds) ++ newline :: r).
  rewrite span_app by done. rewrite Hv. unfold INT_MIN, INT_MAX in *. cbn [bool_decide decide_rel].
  rewrite !bool_decide_eq_false_2 by done. repeat zcase. done.
Qed.

Lemma interfaces_listed n : forall i devices, 0 <= i -> i + Z.of_nat n <= zlen devices ->
  exists s, interfaces n i devices = Ret s.
Proof.
  induction n as [|n IH]; intros i devices Hi Hl; [by eexists|]. cbn [interfaces].
  destruct (lookup_lt_is_Some_2 devices (Z.to_nat i)) as [name ->]; [unfold zlen in Hl; lia|].
  destruct (IH (i + 1) devices) as [s ->]; [lia..|]. by eexists.
Qed.

(** ** The prompts, as a dialogue *)

(** What is typed in answer to the four prompts, followed by anything. *)
Definition typed (choice : Z) (capture_filter display_filter pcap_path r : text) : text :=
  num_text 10 choice ++ newline :: capture_filter ++ newline :: display_filter ++ newline :: pcap_path ++ newline :: r.

Lemma prompts_typed c count devices choice name cf df path r io :
  0 <= choice < count -> count <= zlen devices -> count <= INT_MAX -> devices !! Z.to_nat choice = Some name ->
  forallb not_newline cf = true -> forallb not_newline df = true -> forallb not_newline path = true ->
  exists io', prompts c count devices (cin (typed choice cf df path r)) io =
    Ret (Some {| device_name := name; capture_filter := cf; display_filter := df; pcap_path := path |}, io') /\
    cerr io' = cerr io.
Proof.
  intros Hc Hl Hmax Hname Hcf Hdf Hp. unfold prompts, typed.
  destruct (interfaces_listed (Z.to_nat count) 0 devices) as [s ->]; [lia..|]. obind.
  rewrite get_int_dec by lia. destruct (Z.ltb_spec choice 0); [lia|]. destruct (Z.leb_spec count choice); [lia|].
  cbn [orb]. rewrite Hname. change (ignore (cin (newline :: ?r))) with (cin r).
  rewrite !getline_line by done. by eexists.
Qed.

(** An answer that is no number selects the first interface, and the other answers are not read. *)
Lemma prompts_word c count devices name ch r io :
  0 < count -> count <= zlen devices -> devices !! 0%nat = Some name -> wordlike ch = true ->
  exists io', prompts c count devices (cin (ch :: r)) io =
    Ret (Some {| device_name := name; capture_filter := cli_capture_filter c;
                 display_filter := cli_display_filter c; pcap_path := cli_pcap_path c |}, io') /\ cerr io' = cerr io.
Proof.
  intros Hc Hl Hname Hch. unfold prompts.
  destruct (interfaces_listed (Z.to_nat count) 0 devices) as [s ->]; [lia..|]. obind.
  rewrite get_int_word by done. destruct (Z.leb_spec count 0); [lia|]. change (0 <? 0) with false. cbn [orb].
  change (Z.to_nat 0) with 0%nat. rewrite Hname. by eexists.
Qed.

(** Whatever is typed, the dialogue ends with a device that was listed, or with a complaint. *)
Lemma prompts_total c count devices stdin io : 0 < count <= zlen devices ->
  exists r io', prompts c count devices stdin io = Ret (r, io') /\
    match r with
    | Some cfg => device_name cfg ∈ devices /\ cerr io' = cerr io
    | None => cerr io' = cerr io ++ lit "Invalid choice"
    end.
Proof.
  intros Hc. unfold prompts. destruct (interfaces_listed (Z.to_nat count) 0 devices) as [s ->]; [lia..|]. obind.
  destruct (get_int stdin (-1)) as [choice i]. destruct (Z.ltb_spec choice 0); [by eexists _, _|].
  destruct (Z.leb_spec count choice); [by eexists _, _|]. cbn [orb].
  destruct (lookup_lt_is_Some_2 devices (Z.to_nat choice)) as [name Hname]; [unfold zlen in Hc; lia|]. rewrite Hname.
  repeat (case_match; simplify_eq). eexists _, _. split; [done|]. split; [by eapply list_elem_of_lookup_2|done].
Qed.

(** ** Properties *)

Section Client.
Context {W : Type} (backend : capture_backend_t W) (ready : option text -> W -> Prop).
Context (offered delivered : W -> list cb_frame) {Hb : CaptureBackend backend ready offered delivered}.

Lemma devices_ok count devices : capture_backend_list_devices backend CAPTURE_MAX_DEVICES = (count, devices) ->
  count <= zlen devices /\ count <= INT_MAX.
Proof using Hb.
  intros E. pose proof (backend_devices CAPTURE_MAX_DEVICES eq_refl) as H. unfold capture_backend_list_devices in E.
  rewrite E in H. destruct H as (H1 & H2 & _). unfold CAPTURE_MAX_DEVICES, INT_MAX in *. lia.
Qed.

(** Whatever the command line and standard input, [configure] returns. *)
Lemma configure_total argv0 args stdin io :
  exists r io', configure backend argv0 args stdin io = Ret (r, io') /\
    match r with
    | None => exists msg, msg <> [] /\ cerr io' = cerr io ++ msg
    | Some cfg => cerr io' = cerr io /\ exists c, parse_args args no_cli = inl c /\
        if have_iface c then device_name cfg = cli_iface c
        else device_name cfg ∈ snd (capture_backend_list_devices backend CAPTURE_MAX_DEVICES)
    end.
Proof using Hb.
  unfold configure. destruct (parse_args args no_cli) as [c|arg].
  2: { eexists _, _. split; [done|]. eexists. split; [|unfold print_usage, to_cerr; cbn [cerr]; by rewrite <- app_assoc]. done. }
  destruct (capture_backend_list_devices backend CAPTURE_MAX_DEVICES) as [count devices] eqn:Hd.
  destruct (devices_ok count devices Hd) as [Hl _].
  destruct (Z.leb_spec count 0). { eexists _, _. split; [done|]. eexists. split; [|reflexivity]. done. }
  destruct (have_iface c) eqn:Hi. { eexists _, _. split; [done|]. split; [done|]. exists c. by rewrite Hi. }
  destruct (prompts_total c count devices stdin io) as (r & io' & -> & Hr); [lia|]. exists r, io'. split; [done|].
  destruct r as [cfg|]; [|by exists (lit "Invalid choice")]. destruct Hr as [Hr Ho]. split; [done|]. exists c. by rewrite Hi.
Qed.

Lemma configure_typed argv0 args c count devices choice name cf df path r io :
  parse_args args no_cli = inl c -> have_iface c = false ->
  capture_backend_list_devices backend CAPTURE_MAX_DEVICES = (count, devices) -> 0 <= choice < count ->
  devices !! Z.to_nat choice = Some name ->
  forallb not_newline cf = true -> forallb not_newline df = true -> forallb not_newline path = true ->
  exists io', configure backend argv0 args (cin (typed choice cf df path r)) io =
    Ret (Some {| device_name := name; capture_filter := cf; display_filter := df; pcap_path := path |}, io').
Proof using Hb.
  intros Hp Hi Hd Hc Hn H1 H2 H3. destruct (devices_ok count devices Hd) as [Hl Hm]. unfold configure.
  rewrite Hp, Hd, Hi. destruct (Z.leb_spec count 0); [lia|].
  destruct (prompts_typed c count devices choice name cf df path r io) as (io' & -> & _); try done. by eexists.
Qed.
End Client.

(** C30: the program is configured, or says why not, whatever the command line and standard
    input hold: [configure] never reads a device outside the list; it fails with a message on
    standard error, or takes the interface of -i, or one of those listed.  And the dialogue
    reads back what was typed: the number of an interface and three lines, in answer to the
    prompts, configure exactly that interface, capture filter, display filter and file. *)
Theorem configure_correct {W} (backend : capture_backend_t W) ready offered delivered argv0 args io :
  CaptureBackend backend ready offered delivered ->
  (forall stdin, exists r io', configure backend argv0 args stdin io = Ret (r, io') /\
    match r with
    | None => exists msg, msg <> [] /\ cerr io' = cerr io ++ msg
    | Some cfg => cerr io' = cerr io /\ exists c, parse_args args no_cli = inl c /\
        if have_iface c then device_name cfg = cli_iface c
        else device_name cfg ∈ snd (capture_backend_list_devices backend CAPTURE_MAX_DEVICES)
    end) /\
  (forall c count devices choice name cf df path r,
    parse_args args no_cli = inl c -> have_iface c = false ->
    capture_backend_list_devices backend CAPTURE_MAX_DEVICES = (count, devices) -> 0 <= choice < count ->
    devices !! Z.to_nat choice = Some name ->
    forallb not_newline cf = true -> forallb not_newline df = true -> forallb not_newline path = true ->
    exists io', configure backend argv0 args (cin (typed choice cf df path r)) io =
      Ret (Some {| device_name := name; capture_filter := cf; display_filter := df; pcap_path := path |}, io')).
Proof.
  intros Hb. split; [intros stdin; by apply (configure_total backend ready offered delivered)|].
  intros. by eapply (configure_typed backend ready offered delivered).
Qed.

Lemma configure_correct_witness :
  exists io', configure Fake.g_fake_backend (lit "my_wireshark") [lit "-Y"; lit "udp"]
      (cin (typed 0 (lit "tcp") (lit "tcp.port == 80") [] [])) quiet =
    Ret (Some {| device_name := lit "fake0"; capture_filter := lit "tcp"; display_filter := lit "tcp.port == 80";
                 pcap_path := [] |}, io').
Proof.
  destruct (configure_correct Fake.g_fake_backend (fun _ _ => True)
    (fun k => if Fake.g_stop_requested k then [] else Fake.g_frames k) Fake.seen (lit "my_wireshark")
    [lit "-Y"; lit "udp"] quiet Fake.fake_backend) as [_ H].
  eapply H; try reflexivity. cbn. lia.
Defined.

(** Typing the name of an interface instead of its number is taken for interface 0, although
    [choice] starts at -1 so that a failed read would be an invalid choice, and the filters and
    the file are those of the command line. *)
Lemma name_selects_first_interface (args : list text) c :
  parse_args args no_cli = inl c -> have_iface c = false ->
  exists io', configure Fake.g_fake_backend (lit "my_wireshark") args
      (cin (lit "eth1" ++ newline :: lit "tcp" ++ [newline; newline; newline])) quiet =
    Ret (Some {| device_name := lit "fake0"; capture_filter := cli_capture_filter c;
                 display_filter := cli_display_filter c; pcap_path := cli_pcap_path c |}, io') /\ cerr io' = [].
Proof.
  intros Hp Hi. unfold configure. rewrite Hp. cbn -[prompts lit]. rewrite Hi. by apply (prompts_word c 1 [lit "fake0"]).
Qed.
