(* ===== verification/Stats.v ===== *)
(** * The statistics line (src/src/main.cpp, lines 139-158)

    The percentage of frames dropped, the seconds elapsed and the rate, computed in [double]
    and printed with one decimal.  A [double] here is the rational it stands for; every
    operation rounds the exact result to the nearest number with a 53-bit significand, ties to
    even, as IEEE 754 says.  All numbers that occur are 0 or between 2^-64 and 2^64, so neither
    overflow nor underflow is at stake. *)
From Stdlib Require SpecFloat.
From S2P Require Import Prelude Text.
From stdpp Require Import options.

Local Open Scope Z_scope.

(** ** Doubles *)

(** The integer nearest to [n / d], the even one of two. *)
Definition round_even (n d : Z) : Z :=
  let q := n / d in
  let r := n mod d in
  if (2 * r <? d) || ((2 * r =? d) && Z.even q) then q else q + 1.

(** A non-negative number, as a fraction. *)
Record double := { num : Z; den : Z }.

(** [n * 2^k / d] as a fraction, for any [k]. *)
Definition scale (k n d : Z) : Z * Z := (n * 2 ^ Z.max k 0, d * 2 ^ Z.max (- k) 0).

(** The exponent with which [n / d] has a significand of 53 bits. *)
Definition exponent (n d : Z) : Z :=
  let k := Z.log2 n - Z.log2 d - 53 in
  let '(a, b) := scale (- k) n d in
  if a <? 2 ^ 53 * b then k else k + 1.

(** [n / d] in double precision. *)
Definition round_double (n d : Z) : double :=
  if n =? 0 then {| num := 0; den := 1 |}
  else
    let k := exponent n d in
    let '(a, b) := scale (- k) n d in
    let '(n, d) := scale k (round_even a b) 1 in
    {| num := n; den := d |}.

Definition of_int (n : Z) : double := round_double n 1.
Definition mul (x y : double) : double := round_double (num x * num y) (den x * den y).
Definition div (x y : double) : double := round_double (num x * den y) (den x * num y).
Definition positive (x : double) : bool := 0 <? num x.

(** [os << std::fixed << std::setprecision(1) << x] *)
Definition tenths (x : double) : Z := round_even (10 * num x) (den x).
Definition decimal (t : Z) : text := num_text 10 (t / 10) ++ lit "." ++ [digit_char (t mod 10)].
Definition fixed1 (x : double) : text := decimal (tenths x).

(** ** The line *)

Definition zero : double := {| num := 0; den := 1 |}.

(** [std::chrono::duration<double>(now - start).count()] of a count of nanoseconds. *)
Definition elapsed_seconds (ns : Z) : double := div (of_int ns) (of_int 1000000000).
Definition drop_pct (captured dropped : Z) : double :=
  let offered := captured + dropped in
  if 0 <? offered then div (mul (of_int 100) (of_int dropped)) (of_int offered) else zero.
Definition pps (captured : Z) (elapsed : double) : double :=
  if positive elapsed then div (of_int captured) elapsed else zero.

(** [rc] is what [get_last_stats] returned, [stats] what it stored, [ns] the time elapsed. *)
Definition stats_line (rc : Z) (stats : option (Z * Z)) (ns : Z) : text :=
  match stats with
  | Some (captured, dropped) =>
    if rc =? 0 then
      newline :: lit "[stats] captured=" ++ num_text 10 captured ++ lit " dropped=" ++ num_text 10 dropped ++
        lit " (" ++ fixed1 (drop_pct captured dropped) ++ lit "%) elapsed=" ++ fixed1 (elapsed_seconds ns) ++
        lit "s avg=" ++ fixed1 (pps captured (elapsed_seconds ns)) ++ lit " pps" ++ [newline]
    else []
  | None => []
  end.

Example sample_stats :
  stats_line 0 (Some (1999, 1)) 1500000000 =
    newline :: lit "[stats] captured=1999 dropped=1 (0.1%) elapsed=1.5s avg=1332.7 pps" ++ [newline].
Proof. vm_compute. reflexivity. Qed.

(** The same numbers by the standard library's model of binary64. *)
Definition spec_int (n : Z) : SpecFloat.spec_float := SpecFloat.binary_normalize 53 1024 n 0 false.
Definition same_double (x : double) (f : SpecFloat.spec_float) : bool :=
  match f with
  | SpecFloat.S754_zero _ => num x =? 0
  | SpecFloat.S754_finite false m e => num x * 2 ^ Z.max (- e) 0 =? Z.pos m * 2 ^ Z.max e 0 * den x
  | _ => false
  end.
Example agrees_with_binary64 :
  forallb (fun '(a, b) => same_double (div (of_int a) (of_int b)) (SpecFloat.SFdiv 53 1024 (spec_int a) (spec_int b)) &&
                          same_double (mul (of_int a) (of_int b)) (SpecFloat.SFmul 53 1024 (spec_int a) (spec_int b)))
    [(1, 3); (100, 4294967295); (2 ^ 53 + 1, 7); (2 ^ 62 - 3, 10 ^ 9); (10 ^ 18 + 9, 3); (5, 10); (0, 3);
     (1999, 1500000000); (1, 2 ^ 63 - 1); (2 ^ 53 - 1, 2 ^ 53 - 1)] = true.
Proof. vm_compute. reflexivity. Qed.

(** ** Rounding *)

Lemma round_even_err n d : 0 < d -> 0 <= n -> 0 <= round_even n d /\ 2 * Z.abs (round_even n d * d - n) <= d.
Proof.
  intros Hd Hn. unfold round_even. pose proof (Z.div_mod n d ltac:(lia)) as E. pose proof (Z.mod_pos_bound n d Hd) as Hr.
  pose proof (Z.div_pos n d Hn Hd). set (q := n / d) in *. set (r := n mod d) in *. clearbody q r. subst n.
  assert (q * d - (d * q + r) = - r) as E1 by ring. assert ((q + 1) * d - (d * q + r) = d - r) as E2 by ring.
  destruct (Z.ltb_spec (2 * r) d); cbn [orb]; [rewrite E1; lia|].
  destruct (Z.eqb_spec (2 * r) d); [|cbn [andb]; rewrite E2; lia]. destruct (Z.even q); cbn [andb]; rewrite ?E1, ?E2; lia.
Qed.

Lemma round_even_exact q d : 0 < d -> round_even (q * d) d = q.
Proof. intros Hd. unfold round_even. rewrite Z.mod_mul, Z.div_mul by lia. destruct (Z.ltb_spec (2 * 0) d); [done|lia]. Qed.

Section Exponent.
Context (n d : Z) (Hn : 0 < n) (Hd : 0 < d).
Local Abbreviation up k := (2 ^ Z.max k 0).
Local Abbreviation down k := (2 ^ Z.max (- k) 0).

(** Bounds on [n / (d * 2^k)] from the sizes of [n] and [d]. *)
Lemma quotient_low k j : 0 <= j -> Z.log2 d + 1 + j + k <= Z.log2 n -> 2 ^ j * (d * up k) <= n * down k.
Proof using Hn Hd.
  intros Hj H. pose proof (Z.log2_spec n Hn) as [Ln _]. pose proof (Z.log2_spec d Hd) as [_ Ld].
  pose proof (Z.log2_nonneg n). pose proof (Z.log2_nonneg d).
  assert (0 < up k) by (apply Z.pow_pos_nonneg; lia). assert (0 < down k) by (apply Z.pow_pos_nonneg; lia).
  transitivity (2 ^ j * (2 ^ Z.succ (Z.log2 d) * up k)).
  { apply Z.mul_le_mono_nonneg_l; [apply Z.pow_nonneg; lia|]. apply Z.mul_le_mono_nonneg_r; lia. }
  transitivity (2 ^ Z.log2 n * down k); [|apply Z.mul_le_mono_nonneg_r; lia].
  rewrite <- !Z.pow_add_r by lia. apply Z.pow_le_mono_r; lia.
Qed.
Lemma quotient_high k j : 0 <= j -> Z.log2 n + 1 <= Z.log2 d + j + k -> n * down k < 2 ^ j * (d * up k).
Proof using Hn Hd.
  intros Hj H. pose proof (Z.log2_spec n Hn) as [_ Ln]. pose proof (Z.log2_spec d Hd) as [Ld _].
  pose proof (Z.log2_nonneg n). pose proof (Z.log2_nonneg d).
  assert (0 < up k) by (apply Z.pow_pos_nonneg; lia). assert (0 < down k) by (apply Z.pow_pos_nonneg; lia).
  apply Z.lt_le_trans with (2 ^ Z.succ (Z.log2 n) * down k); [apply Z.mul_lt_mono_pos_r; lia|].
  transitivity (2 ^ j * (2 ^ Z.log2 d * up k)).
  { rewrite <- !Z.pow_add_r by lia. apply Z.pow_le_mono_r; lia. }
  apply Z.mul_le_mono_nonneg_l; [apply Z.pow_nonneg; lia|]. apply Z.mul_le_mono_nonneg_r; lia.
Qed.

Lemma up_succ k : 0 <= k -> up (k + 1) = 2 * up k.
Proof. intros Hk. rewrite !Z.max_l by lia. by rewrite Z.pow_add_r, Z.mul_comm by lia. Qed.
Lemma down_succ k : k < 0 -> down k = 2 * down (k + 1).
Proof. intros Hk. rewrite !Z.max_l by lia. rewrite <- Z.pow_succ_r by lia. f_equal. lia. Qed.

(** The significand has 53 bits. *)
Lemma exponent_spec : let k := exponent n d in 2 ^ 52 * (d * up k) <= n * down k < 2 ^ 53 * (d * up k).
Proof using Hn Hd.
  unfold exponent, scale. set (k := Z.log2 n - Z.log2 d - 53). rewrite Z.opp_involutive.
  pose proof (quotient_low k 52 ltac:(lia) ltac:(lia)) as L. pose proof (quotient_high k 54 ltac:(lia) ltac:(lia)) as H.
  destruct (Z.ltb_spec (n * down k) (2 ^ 53 * (d * up k))) as [H'|L']; [by split|]. clear L. clearbody k.
  destruct (Z.lt_ge_cases k 0) as [Hk|Hk].
  - rewrite (down_succ k) in * by done. rewrite !(Z.max_r _ 0) in * by lia. change (2 ^ 0) with 1 in *. lia.
  - rewrite (up_succ k) by done. rewrite !(Z.max_r (- _) 0) in * by lia. change (2 ^ 0) with 1 in *. lia.
Qed.
End Exponent.

(** ** Operations *)

(** Every operation is exact up to one part in 2^53. *)
Lemma round_double_err n d : 0 <= n -> 0 < d -> let x := round_double n d in
  0 <= num x /\ 0 < den x /\ 2 ^ 53 * Z.abs (num x * d - n * den x) <= n * den x.
Proof.
  intros Hn Hd. unfold round_double. destruct (Z.eqb_spec n 0) as [->|Hn0]; [cbn; lia|].
  pose proof (exponent_spec n d ltac:(lia) Hd) as [L _]. set (k := exponent n d) in *. clearbody k.
  unfold scale. rewrite Z.opp_involutive. cbn [num den]. rewrite Z.mul_1_l.
  set (u := 2 ^ Z.max k 0) in *. set (v := 2 ^ Z.max (- k) 0) in *.
  assert (0 < u) by (apply Z.pow_pos_nonneg; lia). assert (0 < v) by (apply Z.pow_pos_nonneg; lia).
  destruct (round_even_err (n * v) (d * u)) as [H1 H2]; [lia..|].
  set (m := round_even (n * v) (d * u)) in *. clearbody m u v. split_and!; [lia|done|].
  replace (m * u * d - n * v) with (m * (d * u) - n * v) by ring. lia.
Qed.

(** Integers of up to 53 bits are exact, whatever the fraction they are given as. *)
Lemma round_double_exact q d : 0 <= q < 2 ^ 53 -> 0 < d -> num (round_double (q * d) d) = q * den (round_double (q * d) d).
Proof.
  intros Hq Hd. unfold round_double. destruct (Z.eqb_spec (q * d) 0) as [E|E]; [cbn; lia|].
  pose proof (exponent_spec (q * d) d ltac:(lia) Hd) as [L _]. set (k := exponent (q * d) d) in *. clearbody k.
  assert (k <= 0) as Hk.
  { apply Z.nlt_ge. intros Hk. rewrite (Z.max_r (- k) 0), Z.pow_0_r, Z.max_l in L by lia.
    assert (2 ^ 1 <= 2 ^ k) by (apply Z.pow_le_mono_r; lia). nia. }
  unfold scale. rewrite Z.opp_involutive. cbn [num den]. rewrite (Z.max_r k 0), Z.pow_0_r by done.
  rewrite !Z.mul_1_r, Z.mul_1_l. replace (q * d * 2 ^ Z.max (- k) 0) with (q * 2 ^ Z.max (- k) 0 * d) by ring.
  by rewrite round_even_exact.
Qed.

(** [x] is the integer [q]. *)
Definition is_int (q : Z) (x : double) : Prop := 0 < den x /\ num x = q * den x.

Lemma of_int_ok q : 0 <= q < 2 ^ 53 -> is_int q (of_int q).
Proof.
  intros Hq. unfold of_int. rewrite <- (Z.mul_1_r q) at 2. split; [|by apply round_double_exact].
  apply round_double_err; lia.
Qed.

Lemma mul_int p q x y : is_int p x -> is_int q y -> 0 <= p -> 0 <= q -> p * q < 2 ^ 53 -> is_int (p * q) (mul x y).
Proof.
  intros [Hx Ex] [Hy Ey] Hp Hq H. unfold mul. rewrite Ex, Ey.
  replace (p * den x * (q * den y)) with (p * q * (den x * den y)) by ring.
  split; [|apply round_double_exact; nia]. apply round_double_err; nia.
Qed.

(** ** What is printed *)

(** [t] tenths are [n / d], rounded to one decimal: off by at most half a tenth, and some parts
    in 2^50 for the arithmetic. *)
Definition rounds_to (t n d : Z) : Prop := 2 ^ 50 * Z.abs (t * d - 10 * n) <= (2 ^ 49 + 1) * d + 10 * n + t * d.

Lemma tenths_err x n d : 0 <= n -> 0 < d -> 0 <= num x -> 0 < den x ->
  2 ^ 53 * Z.abs (num x * d - n * den x) <= n * den x ->
  0 <= tenths x /\ 2 ^ 53 * Z.abs (tenths x * d - 10 * n) <= 2 ^ 52 * d + 10 * n.
Proof.
  intros Hn Hd Hx Hx' H. unfold tenths. destruct (round_even_err (10 * num x) (den x)) as [Ht Ht']; [lia..|].
  set (t := round_even _ _) in *. clearbody t. destruct x as [a b]. cbn in *. split; [done|].
  assert (b * (2 ^ 53 * Z.abs (t * d - 10 * n)) <= b * (2 ^ 52 * d + 10 * n)) as Hb; [|nia].
  assert (Z.abs (t * d - 10 * n) * b <= Z.abs (t * b - 10 * a) * d + 10 * Z.abs (a * d - n * b)) as Habs.
  { rewrite <- (Z.abs_eq b) at 1 by lia. rewrite <- (Z.abs_eq d) at 2 by lia. rewrite <- !Z.abs_mul.
    replace ((t * d - 10 * n) * b) with ((t * b - 10 * a) * d + 10 * (a * d - n * b)) by ring.
    pose proof (Z.abs_triangle ((t * b - 10 * a) * d) (10 * (a * d - n * b))). lia. }
  nia.
Qed.

(** [x] is [n / d] up to one part in 2^53. *)
Definition near (x : double) (n d : Z) : Prop :=
  0 <= num x /\ 0 < den x /\ 2 ^ 53 * Z.abs (num x * d - n * den x) <= n * den x.

Lemma near_cancel x n d c : 0 < c -> near x (n * c) (d * c) -> near x n d.
Proof.
  intros Hc (H1 & H2 & H3). split_and!; [done..|].
  replace (num x * (d * c) - n * c * den x) with ((num x * d - n * den x) * c) in H3 by ring.
  rewrite Z.abs_mul, (Z.abs_eq c) in H3 by lia. nia.
Qed.

Lemma div_int p q x y : is_int p x -> is_int q y -> 0 <= p -> 0 < q -> near (div x y) p q.
Proof.
  intros [Hx Ex] [Hy Ey] Hp Hq. apply (near_cancel _ _ _ (den x * den y)); [nia|]. unfold div. rewrite Ex, Ey.
  replace (p * den x * den y) with (p * (den x * den y)) by ring.
  replace (den x * (q * den y)) with (q * (den x * den y)) by ring. apply round_double_err; nia.
Qed.

Lemma near_rounds x n d : 0 <= n -> 0 < d -> near x n d -> 0 <= tenths x /\ rounds_to (tenths x) n d.
Proof.
  intros Hn Hd (H1 & H2 & H3). destruct (tenths_err x n d Hn Hd H1 H2 H3) as [H H']. split; [done|]. unfold rounds_to. nia.
Qed.

(** A quotient of a quotient: the errors add up. *)
Lemma near_div_rounds c y n d x : 0 <= c -> 0 < n -> 0 < d -> near y n d -> near x (c * den y) (num y) -> 0 < num y ->
  0 <= tenths x /\ rounds_to (tenths x) (c * d) n.
Proof.
  intros Hc Hn Hd (_ & Hy & Ey) (Hx & Hx' & Ex) Hy0.
  destruct (tenths_err x (c * den y) (num y)) as [Ht E]; [nia|done..|]. split; [done|]. unfold rounds_to.
  set (t := tenths x) in *. destruct y as [a b]. cbn [num den] in *. clearbody t. clear Ex Hx Hx'.
  assert (Z.abs (t * n - 10 * (c * d)) * b <= Z.abs (t * a - 10 * (c * b)) * d + t * Z.abs (a * d - n * b)) as Habs.
  { rewrite <- (Z.abs_eq b) at 1 by lia. rewrite <- (Z.abs_eq d) at 2 by lia. rewrite <- (Z.abs_eq t) at 3 by lia.
    rewrite <- !Z.abs_mul.
    replace ((t * n - 10 * (c * d)) * b) with ((t * a - 10 * (c * b)) * d - t * (a * d - n * b)) by ring. lia. }
  assert (a * d * 2 ^ 53 <= (2 ^ 53 + 1) * (n * b)) as Hab by lia.
  assert (2 ^ 53 * (t * Z.abs (a * d - n * b)) <= t * (n * b)) as H1 by nia.
  assert (2 ^ 53 * (Z.abs (t * a - 10 * (c * b)) * d) <= (2 ^ 52 * a + 10 * (c * b)) * d) as H2 by nia.
  assert (b * (2 ^ 50 * Z.abs (t * n - 10 * (c * d))) <= b * ((2 ^ 49 + 1) * n + 10 * (c * d) + t * n)); [|nia].
  assert (0 <= t * (n * b)) by nia. assert (0 <= c * (b * d)) by nia. lia.
Qed.

Lemma drop_pct_near captured dropped : 0 <= captured < 2 ^ 32 -> 0 <= dropped < 2 ^ 32 -> 0 < captured + dropped ->
  near (drop_pct captured dropped) (100 * dropped) (captured + dropped).
Proof.
  intros Hc Hd Ho. unfold drop_pct. destruct (Z.ltb_spec 0 (captured + dropped)); [|lia].
  apply div_int; [apply mul_int; [by apply of_int_ok|apply of_int_ok|..]|apply of_int_ok|..]; lia.
Qed.

Lemma elapsed_near ns : 0 <= ns < 2 ^ 53 -> near (elapsed_seconds ns) ns (10 ^ 9).
Proof. intros H. apply div_int; [by apply of_int_ok|by apply of_int_ok|lia..]. Qed.

Lemma elapsed_positive ns : 0 < ns < 2 ^ 53 -> positive (elapsed_seconds ns) = true.
Proof.
  intros H. destruct (elapsed_near ns) as (H1 & H2 & H3); [lia|]. unfold positive. apply Z.ltb_lt.
  destruct (Z.eq_dec (num (elapsed_seconds ns)) 0) as [E|]; [|lia]. rewrite E in H3. nia.
Qed.

Lemma pps_near captured y : 0 <= captured < 2 ^ 53 -> 0 < num y -> 0 < den y ->
  near (div (of_int captured) y) (captured * den y) (num y).
Proof.
  intros H Hy Hy'. destruct (of_int_ok captured H) as [Hc E]. apply (near_cancel _ _ _ (den (of_int captured))); [done|].
  unfold div. rewrite E. replace (captured * den (of_int captured) * den y) with (captured * den y * den (of_int captured)) by ring.
  rewrite (Z.mul_comm (den (of_int captured))). apply round_double_err; nia.
Qed.

(** A decimal reads back as its tenths. *)
Lemma decimal_read t : 0 <= t -> dec_value (List.filter is_digit (decimal t)) = t.
Proof.
  intros Ht. unfold decimal. destruct (dec_text_spec (t / 10)) as (_ & Hd & Hv & _); [by apply Z.div_pos|].
  pose proof (Z.mod_pos_bound t 10 ltac:(lia)).
  rewrite !List.filter_app. cbn [lit String.list_ascii_of_string List.filter]. change (is_digit ".") with false. cbv iota.
  rewrite digit_char_is_digit by lia. cbn [app].
  replace (List.filter is_digit (num_text 10 (t / 10))) with (num_text 10 (t / 10)).
  - unfold dec_value in *. rewrite fold_left_app, Hv. cbn. rewrite digit_val_char by lia.
    rewrite (Z.div_mod t 10) at 3 by lia. lia.
  - clear - Hd. induction (num_text 10 (t / 10)) as [|c w IH]; [done|]. cbn in *. apply andb_true_iff in Hd as [-> Hw].
    by rewrite <- IH.
Qed.

(** ** Properties *)

(** C32: the statistics printed are right.  For counters of 32 bits, not both 0, and up to 104
    days of capture, the line shows the two counters and three decimals that read back as
    their tenths: the second counter as a percentage of their sum, never above 100.0, the
    seconds elapsed, and the first counter per second, each rounded to one decimal with no
    more than the last bits of double precision lost on the way. *)
Theorem stats_accurate captured dropped ns :
  0 <= captured < 2 ^ 32 -> 0 <= dropped < 2 ^ 32 -> 0 < captured + dropped -> 0 < ns < 2 ^ 53 ->
  exists pct secs rate,
    stats_line 0 (Some (captured, dropped)) ns =
      newline :: lit "[stats] captured=" ++ num_text 10 captured ++ lit " dropped=" ++ num_text 10 dropped ++
        lit " (" ++ decimal pct ++ lit "%) elapsed=" ++ decimal secs ++ lit "s avg=" ++ decimal rate ++ lit " pps" ++
        [newline] /\
    Forall (fun t => 0 <= t /\ dec_value (List.filter is_digit (decimal t)) = t) [pct; secs; rate] /\
    rounds_to pct (100 * dropped) (captured + dropped) /\ pct <= 1000 /\
    rounds_to secs ns (10 ^ 9) /\ rounds_to rate (captured * 10 ^ 9) ns.
Proof.
  intros Hc Hd Ho Hns. pose proof (elapsed_near ns ltac:(lia)) as He.
  pose proof (elapsed_positive ns Hns) as Hp. pose proof Hp as Hp'%Z.ltb_lt.
  pose proof (drop_pct_near captured dropped Hc Hd Ho) as Hdp.
  destruct (near_rounds _ (100 * dropped) _ ltac:(lia) Ho Hdp) as [H1 H1'].
  destruct (near_rounds _ ns (10 ^ 9) ltac:(lia) ltac:(lia) He) as [H2 H2'].
  destruct (near_div_rounds captured (elapsed_seconds ns) ns (10 ^ 9) (pps captured (elapsed_seconds ns)))
    as [H3 H3']; [lia..|done| |done|].
  { unfold pps. rewrite Hp. apply pps_near; [lia|done|apply He]. }
  exists (tenths (drop_pct captured dropped)), (tenths (elapsed_seconds ns)), (tenths (pps captured (elapsed_seconds ns))).
  split_and!; [done|repeat constructor; by try apply decimal_read|done| |done|done].
  unfold rounds_to in H1'. nia.
Qed.

Lemma stats_accurate_witness :
  exists pct secs rate,
    stats_line 0 (Some (1999, 1)) 1500000000 =
      newline :: lit "[stats] captured=" ++ num_text 10 1999 ++ lit " dropped=" ++ num_text 10 1 ++
        lit " (" ++ decimal pct ++ lit "%) elapsed=" ++ decimal secs ++ lit "s avg=" ++ decimal rate ++ lit " pps" ++
        [newline] /\
    Forall (fun t => 0 <= t /\ dec_value (List.filter is_digit (decimal t)) = t) [pct; secs; rate] /\
    rounds_to pct (100 * 1) (1999 + 1) /\ pct <= 1000 /\
    rounds_to secs 1500000000 (10 ^ 9) /\ rounds_to rate (1999 * 10 ^ 9) 1500000000.
Proof. apply stats_accurate; lia. Defined.

(** The kernel's first counter, tp_packets, is the total, dropped frames included (packet(7));
    of [n] frames all dropped the line says half were. *)
Lemma all_dropped_shows_half n : 0 < n < 2 ^ 32 -> fixed1 (drop_pct n n) = lit "50.0".
Proof.
  intros Hn. destruct (near_rounds _ (100 * n) (n + n) ltac:(lia) ltac:(lia) (drop_pct_near n n ltac:(lia) ltac:(lia) ltac:(lia)))
    as [Ht H]. unfold rounds_to in H. unfold fixed1. replace (tenths (drop_pct n n)) with 500; [done|].
  set (t := tenths _) in *. clearbody t.
  replace (t * (n + n) - 10 * (100 * n)) with ((t - 500) * (2 * n)) in H by ring.
  rewrite Z.abs_mul, (Z.abs_eq (2 * n)) in H by lia. nia.
Qed.
