(* ===== verification/Packet.v ===== *)
(** * Packet objects (src/src/cpp/packet.cpp and its derived classes)

    The class hierarchy as one inductive type, with the virtual [protocol_name] and
    [print].  Output to an [std::ostream] is the text appended to it; the stream's
    formatting state matters in one place, the zero-filled microseconds. *)
From S2P Require Import Prelude Text Literals EthParser ArpParser IpParser Ipv6Parser TcpUdpParser IcmpParser.
From stdpp Require Import options.

Local Open Scope Z_scope.

(** ** Streams *)

(** [os << n] of an unsigned integer; [setw] with a fill character is Text's. *)
Definition dec (n : Z) : text := num_text 10 n.


(** The text written when a condition holds. *)
Definition write_if (b : bool) (s : text) : text := if b then s else [].

(** ** The classes *)

(** The members of the base class. *)
Record packet_base := {
  ts_seconds_ : Z;
  ts_microseconds_ : Z;
  capture_length_ : Z;
  eth_ : eth_header_t;
  ip_ : option ip_header_t
}.

Inductive packet :=
| Packet (b : packet_base)
| TCPPacket (b : packet_base) (tcp_ : tcp.tcp_header_t)
| UDPPacket (b : packet_base) (udp_ : udp.udp_header_t)
| IcmpPacket (b : packet_base) (icmp_ : icmp_header_t)
| ArpPacket (b : packet_base) (arp_ : arp_header_t)
| Ipv6Packet (b : packet_base) (ipv6_ : ipv6_header_t) (tcp_ : option tcp.tcp_header_t)
    (udp_ : option udp.udp_header_t) (icmp_ : option icmp_header_t).

(** The constructors; [std::nullopt] is the default of [ip] and of the IPv6 transport headers. *)
Definition new_Packet (ts_seconds ts_microseconds capture_length : Z) (eth : eth_header_t)
    (ip : option ip_header_t) : packet_base :=
  {| ts_seconds_ := ts_seconds; ts_microseconds_ := ts_microseconds; capture_length_ := capture_length;
     eth_ := eth; ip_ := ip |}.
Definition new_TCPPacket (ts_seconds ts_microseconds capture_length : Z) (eth : eth_header_t)
    (ip : ip_header_t) (tcp : tcp.tcp_header_t) : packet :=
  TCPPacket (new_Packet ts_seconds ts_microseconds capture_length eth (Some ip)) tcp.
Definition new_UDPPacket (ts_seconds ts_microseconds capture_length : Z) (eth : eth_header_t)
    (ip : ip_header_t) (udp : udp.udp_header_t) : packet :=
  UDPPacket (new_Packet ts_seconds ts_microseconds capture_length eth (Some ip)) udp.
Definition new_IcmpPacket (ts_seconds ts_microseconds capture_length : Z) (eth : eth_header_t)
    (ip : ip_header_t) (icmp : icmp_header_t) : packet :=
  IcmpPacket (new_Packet ts_seconds ts_microseconds capture_length eth (Some ip)) icmp.
Definition new_ArpPacket (ts_seconds ts_microseconds capture_length : Z) (eth : eth_header_t)
    (arp : arp_header_t) : packet :=
  ArpPacket (new_Packet ts_seconds ts_microseconds capture_length eth None) arp.
Definition new_Ipv6Packet (ts_seconds ts_microseconds capture_length : Z) (eth : eth_header_t)
    (ipv6 : ipv6_header_t) (tcp : option tcp.tcp_header_t) (udp : option udp.udp_header_t)
    (icmp : option icmp_header_t) : packet :=
  Ipv6Packet (new_Packet ts_seconds ts_microseconds capture_length eth None) ipv6 tcp udp icmp.

Definition base_of (p : packet) : packet_base :=
  match p with
  | Packet b | TCPPacket b _ | UDPPacket b _ | IcmpPacket b _ | ArpPacket b _ | Ipv6Packet b _ _ _ _ => b
  end.

Definition has_ip (b : packet_base) : bool := match ip_ b with Some _ => true | None => false end.

Definition protocol_name (p : packet) : text :=
  match p with
  | Packet b => if has_ip b then lit "IP" else lit "ETH"
  | TCPPacket _ _ => lit "TCP"
  | UDPPacket _ _ => lit "UDP"
  | IcmpPacket _ _ => lit "ICMP"
  | ArpPacket _ _ => lit "ARP"
  | Ipv6Packet _ _ (Some _) _ _ => lit "TCP"
  | Ipv6Packet _ _ None (Some _) _ => lit "UDP"
  | Ipv6Packet _ _ None None (Some _) => lit "ICMPv6"
  | Ipv6Packet _ _ None None None => lit "IPv6"
  end.

(** ** Printing *)

(** [Packet::print]; [protocol_name] is the virtual call. *)
Definition Packet_print (p : packet) : text :=
  let b := base_of p in
  dec (ts_seconds_ b) ++ lit "." ++ setw 6 "0" (dec (ts_microseconds_ b)) ++
  lit " len=" ++ dec (capture_length_ b) ++ lit " " ++ eth_mac_to_str (src_mac (eth_ b)) ++
  lit " > " ++ eth_mac_to_str (dst_mac (eth_ b)) ++
  write_if (has_vlan (eth_ b)) (lit " vlan=" ++ dec (ETH_VLAN_ID (vlan_tci (eth_ b)))) ++
  lit " [" ++ protocol_name p ++ lit "]" ++
  match ip_ b with
  | None => []
  | Some hdr =>
    lit " " ++ ip_addr_to_str (IpParser.src_addr hdr) ++ lit " > " ++ ip_addr_to_str (IpParser.dst_addr hdr) ++
    lit " ttl=" ++ dec (ttl hdr) ++ write_if (negb (IpParser.checksum_valid hdr)) (lit " ip_csum=BAD")
  end.

Definition print_flags (flags : Z) : text :=
  let flag m s := write_if (negb (Z.land flags m =? 0)) (lit s) in
  flag TCP_FLAG_SYN "SYN" ++ flag TCP_FLAG_FIN "FIN" ++ flag TCP_FLAG_PSH "PSH" ++
  flag TCP_FLAG_RST "RST" ++ flag TCP_FLAG_URG "URG" ++ flag TCP_FLAG_ACK "ACK".

Definition print_tcp_summary (t : tcp.tcp_header_t) : text :=
  lit " " ++ dec (tcp.src_port t) ++ lit " > " ++ dec (tcp.dst_port t) ++ lit " seq=" ++ dec (tcp.seq_num t) ++
  lit " ack=" ++ dec (tcp.ack_num t) ++ lit " flags=[" ++ print_flags (tcp.flags t) ++ lit "]" ++
  write_if (negb (tcp.checksum_valid t)) (lit " tcp_csum=BAD").

Definition print_udp_summary (u : udp.udp_header_t) (checksum_mandatory : bool) : text :=
  let report_bad :=
    if checksum_mandatory then negb (udp.checksum_valid u)
    else udp.checksum_present u && negb (udp.checksum_valid u) in
  lit " " ++ dec (udp.src_port u) ++ lit " > " ++ dec (udp.dst_port u) ++ lit " len=" ++ dec (udp.length u) ++
  write_if report_bad (lit " udp_csum=BAD").

Definition icmp_type_name (type : Z) (is_icmpv6 : bool) : option text :=
  if is_icmpv6 then
    if type =? ICMPV6_TYPE_DEST_UNREACHABLE then Some (lit "dest-unreachable")
    else if type =? ICMPV6_TYPE_PACKET_TOO_BIG then Some (lit "packet-too-big")
    else if type =? ICMPV6_TYPE_TIME_EXCEEDED then Some (lit "time-exceeded")
    else None
  else
    if type =? ICMPV4_TYPE_DEST_UNREACHABLE then Some (lit "dest-unreachable")
    else if type =? ICMPV4_TYPE_TIME_EXCEEDED then Some (lit "time-exceeded")
    else None.

Definition print_icmp_summary (icmp : icmp_header_t) (is_icmpv6 : bool) : text :=
  (if is_echo icmp then
     let is_request :=
       if is_icmpv6 then type icmp =? ICMPV6_TYPE_ECHO_REQUEST else type icmp =? ICMPV4_TYPE_ECHO_REQUEST in
     lit " " ++ (if is_request : bool then lit "echo-request" else lit "echo-reply") ++
     lit " id=" ++ dec (echo_id icmp) ++ lit " seq=" ++ dec (echo_seq icmp)
   else
     match icmp_type_name (type icmp) is_icmpv6 with
     | Some name => lit " " ++ name ++ lit " code=" ++ dec (code icmp)
     | None => lit " type=" ++ dec (type icmp) ++ lit " code=" ++ dec (code icmp)
     end) ++
  write_if (negb (IcmpParser.checksum_valid icmp)) (lit " icmp_csum=BAD").

Definition TCPPacket_print (p : packet) (tcp_ : tcp.tcp_header_t) : text :=
  Packet_print p ++ print_tcp_summary tcp_.
Definition UDPPacket_print (p : packet) (udp_ : udp.udp_header_t) : text :=
  Packet_print p ++ print_udp_summary udp_ false.
Definition IcmpPacket_print (p : packet) (icmp_ : icmp_header_t) : text :=
  Packet_print p ++ print_icmp_summary icmp_ false.

Definition ArpPacket_print (p : packet) (arp : arp_header_t) : text :=
  Packet_print p ++
  let sender := ip_addr_to_str (sender_ip arp) in
  let target := ip_addr_to_str (target_ip arp) in
  if opcode arp =? ARP_OP_REQUEST then lit " who-has " ++ target ++ lit " tell " ++ sender
  else if opcode arp =? ARP_OP_REPLY then lit " " ++ sender ++ lit " is-at " ++ eth_mac_to_str (sender_mac arp)
  else lit " op=" ++ dec (opcode arp).

Definition next_header_name (next_header : Z) : option text :=
  if next_header =? IP_PROTO_TCP then Some (lit "TCP")
  else if next_header =? IP_PROTO_UDP then Some (lit "UDP")
  else if next_header =? IP_PROTO_ICMPV6 then Some (lit "ICMPv6")
  else None.

Definition Ipv6Packet_print (p : packet) (h : ipv6_header_t) (tcp_ : option tcp.tcp_header_t) (udp_ : option udp.udp_header_t)
    (icmp_ : option icmp_header_t) : text :=
  Packet_print p ++ lit " " ++ ipv6_addr_to_str (Ipv6Parser.src_addr h) ++ lit " > " ++ ipv6_addr_to_str (Ipv6Parser.dst_addr h) ++
  lit " hop=" ++ dec (hop_limit h) ++
  match tcp_, udp_, icmp_ with
  | Some t, _, _ => print_tcp_summary t
  | None, Some u, _ => print_udp_summary u true
  | None, None, Some i => print_icmp_summary i true
  | None, None, None =>
    match next_header_name (next_header h) with
    | Some name => lit " next=" ++ name
    | None => lit " next=" ++ dec (next_header h)
    end
  end.

(** The virtual [print]. *)
Definition print (p : packet) : text :=
  match p with
  | Packet _ => Packet_print p
  | TCPPacket _ t => TCPPacket_print p t
  | UDPPacket _ u => UDPPacket_print p u
  | IcmpPacket _ i => IcmpPacket_print p i
  | ArpPacket _ a => ArpPacket_print p a
  | Ipv6Packet _ h t u i => Ipv6Packet_print p h t u i
  end.
