(* ===== verification/HexDump.v ===== *)
(** * The hex dump (src/src/cpp/packet_printer.cpp, lines 23-45)

    [hex_dump] with its line buffer and positions.  [undump] reads the bytes back from
    the hexadecimal columns of the text. *)
From S2P Require Import Prelude Text Literals Packet.
From stdpp Require Import options.

Local Open Scope Z_scope.
Local Open Scope wire_scope.

(** ** The code *)

Definition LINE_SIZE : Z := 80.

(** The line buffer and [pos].  [pos += snprintf(line + pos, sizeof(line) - pos, ...)] writing
    [s]; the unsigned difference makes a position past the end an overflow. *)
Abbreviation line_buf := (text * Z)%type.
Definition line_printf (s : text) (l : line_buf) : outcome line_buf :=
  let '(line, pos) := l in
  if LINE_SIZE <? pos then UB
  else Ret (if pos =? LINE_SIZE then line else take (Z.to_nat pos) line ++ snprintf (LINE_SIZE - pos) s,
            pos + zlen s).

Definition isprint (b : Z) : bool := (32 <=? b) && (b <=? 126).

(** The bodies of the two inner loops, from [i] on. *)
Fixpoint cells_loop (n : nat) (data : list Z) (offset chunk i : Z) (l : line_buf) : outcome line_buf :=
  match n with
  | O => Ret l
  | S n =>
    l ← (if i <? chunk then b ← data.[offset + i]; line_printf (hex2 b) l else line_printf (lit "  ") l);
    l ← (if i mod 2 =? 1 then line_printf (lit " ") l else Ret l);
    cells_loop n data offset chunk (i + 1) l
  end.
Fixpoint chars_loop (n : nat) (data : list Z) (offset i : Z) : outcome text :=
  match n with
  | O => Ret []
  | S n =>
    b ← data.[offset + i];
    rest ← chars_loop n data offset (i + 1);
    Ret ((if isprint b then ascii_of_N (Z.to_N b) else "."%char) :: rest)
  end.

(** One turn of the outer loop. *)
Definition dump_line (data : list Z) (length offset : Z) : outcome text :=
  let chunk := if u32 (length - offset) <? 16 then u32 (length - offset) else 16 in
  l ← line_printf (lit "  0x" ++ hex4 offset ++ lit ":  ") ([], 0);
  '(line, _) ← cells_loop 16 data offset chunk 0 l;
  chars ← chars_loop (Z.to_nat chunk) data offset 0;
  Ret (line ++ lit " " ++ chars ++ ["010"%char]).

Fixpoint dump_loop (fuel : nat) (data : list Z) (length offset : Z) : outcome text :=
  match fuel with
  | O => Timeout
  | S fuel =>
    if offset <? length then
      s ← dump_line data length offset;
      rest ← dump_loop fuel data length (u32 (offset + 16));
      Ret (s ++ rest)
    else Ret []
  end.

(** A turn per line, and the one that leaves the loop. *)
Definition hex_dump (data : list Z) (length : Z) : outcome text :=
  dump_loop (Z.to_nat (length / 16) + 2) data length 0.

(** ** Specification: reading a dump *)


(** Up to [n] two-digit cells, the first being the [i]-th of its line. *)
Fixpoint read_cells (n : nat) (i : Z) (s : text) : list Z :=
  match n, s with
  | S n, c1 :: c2 :: s =>
    let hi := hex_nibble c1 in
    let lo := hex_nibble c2 in
    if (hi <? 0) || (lo <? 0) then []
    else hi * 16 + lo :: read_cells n (i + 1) (if i mod 2 =? 1 then drop 1 s else s)
  | _, _ => []
  end.

(** Line by line; the cells begin in the twelfth column. *)
Fixpoint undump_lines (fuel : nat) (s : text) : list Z :=
  match fuel, s with
  | S fuel, _ :: _ =>
    let '(line, rest) := span not_newline s in
    read_cells 16 0 (drop 11 line) ++ undump_lines fuel (drop 1 rest)
  | _, _ => []
  end.
Definition undump (s : text) : list Z := undump_lines (length s) s.

(** What a line shows of its bytes. *)
Fixpoint cells (n : nat) (i : Z) (bs : list Z) : text :=
  match n with
  | O => []
  | S n =>
    match bs with b :: _ => hex2 b | [] => lit "  " end ++ (if i mod 2 =? 1 then lit " " else []) ++
    cells n (i + 1) (tail bs)
  end.
Definition shown (b : Z) : ascii := if isprint b then ascii_of_N (Z.to_N b) else "."%char.
Definition line_text (offset : Z) (bs : list Z) : text :=
  (lit "  0x" ++ hex4 offset ++ lit ":  ") ++ cells 16 0 bs ++ lit " " ++ map shown bs.

(** ** The line buffer *)

Lemma line_printf_fits s line :
  zlen line + zlen s < LINE_SIZE -> line_printf s (line, zlen line) = Ret (line ++ s, zlen (line ++ s)).
Proof.
  intros H. pose proof (zlen_nonneg s). unfold line_printf. repeat zcase. rewrite zlen_app. do 2 f_equal.
  unfold snprintf, zlen in *. rewrite Nat2Z.id, firstn_all. rewrite take_ge by lia. done.
Qed.

Lemma drop_tail {A} (l : list A) : tail l = drop 1 l.
Proof. by destruct l. Qed.

Section Line.
Context (data : list Z) (offset chunk : Z).
Context (Ho : 0 <= offset) (Hc : 0 <= chunk) (Hin : offset + chunk <= zlen data).
Local Abbreviation bytes := (take (Z.to_nat chunk) (drop (Z.to_nat offset) data)).

Lemma bytes_at i : 0 <= i < chunk ->
  exists b, drop (Z.to_nat i) bytes = b :: drop (Z.to_nat (i + 1)) bytes /\ rd data (offset + i) = Ret b.
Proof using Ho Hin.
  intros Hi. rewrite rd_in by lia. exists (byte_at data (offset + i)). split; [|done].
  assert (bytes !! Z.to_nat i = Some (byte_at data (offset + i))) as E.
  { rewrite lookup_take_lt by lia. rewrite lookup_drop. unfold byte_at.
    replace (Z.to_nat offset + Z.to_nat i)%nat with (Z.to_nat (offset + i)) by lia.
    destruct (lookup_lt_is_Some_2 data (Z.to_nat (offset + i))) as [b Hb]; [unfold zlen in Hin; lia|].
    by rewrite (nth_lookup_Some _ _ _ _ Hb). }
  rewrite (drop_S _ _ _ E). do 2 f_equal. lia.
Qed.

Lemma bytes_end i : chunk <= i -> drop (Z.to_nat i) bytes = [].
Proof using. intros Hi. apply drop_ge. rewrite length_take. lia. Qed.

Lemma cells_loop_spec n : forall i line, 0 <= i -> zlen line + 3 * Z.of_nat n < LINE_SIZE ->
  exists pos, cells_loop n data offset chunk i (line, zlen line) =
    Ret (line ++ cells n i (drop (Z.to_nat i) bytes), pos).
Proof using Ho Hin.
  induction n as [|n IH]; intros i line Hi Hl; cbn [cells_loop cells]; [exists (zlen line); by rewrite app_nil_r|].
  set (bs := drop (Z.to_nat i) bytes).
  assert (exists c, zlen c = 2 /\ c = match bs with b :: _ => hex2 b | [] => lit "  " end /\
    (if i <? chunk then b ← data.[offset + i]; line_printf (hex2 b) (line, zlen line)
     else line_printf (lit "  ") (line, zlen line)) = Ret (line ++ c, zlen (line ++ c))) as (c & Lc & Ec & ->).
  { unfold bs. destruct (Z.ltb_spec i chunk).
    - destruct (bytes_at i) as (b & -> & ->); [lia|]. exists (hex2 b). split_and!; [done..|].
      obind. apply line_printf_fits. change (zlen (hex2 b)) with 2. lia.
    - rewrite bytes_end by lia. exists (lit "  "). split_and!; [done..|].
      apply line_printf_fits. change (zlen (lit "  ")) with 2. lia. }
  obind. set (s := if i mod 2 =? 1 then lit " " else []).
  assert ((if i mod 2 =? 1 then line_printf (lit " ") (line ++ c, zlen (line ++ c)) else Ret (line ++ c, zlen (line ++ c)))
    = Ret ((line ++ c) ++ s, zlen ((line ++ c) ++ s))) as ->.
  { unfold s. destruct (_ =? 1); [|by rewrite app_nil_r]. apply line_printf_fits.
    rewrite zlen_app. change (zlen (lit " ")) with 1. lia. }
  obind. destruct (IH (i + 1) ((line ++ c) ++ s)) as (pos & E); [lia| |].
  { rewrite !zlen_app. unfold s. destruct (_ =? 1); [change (zlen (lit " ")) with 1|change (zlen (@nil ascii)) with 0]; lia. }
  exists pos. rewrite E, <- Ec. do 2 f_equal. rewrite <- !app_assoc. do 4 f_equal.
  unfold bs. rewrite drop_tail, drop_drop. f_equal. lia.
Qed.

Lemma chars_loop_spec n : forall i, 0 <= i -> i + Z.of_nat n = chunk ->
  chars_loop n data offset i = Ret (map shown (drop (Z.to_nat i) bytes)).
Proof using Ho Hin.
  induction n as [|n IH]; intros i Hi Hn; cbn [chars_loop].
  - by rewrite bytes_end by lia.
  - destruct (bytes_at i) as (b & -> & ->); [lia|]. obind. rewrite IH by lia. obind. done.
Qed.
End Line.

(** ** A line *)

Lemma hex4_spec n : 0 <= n < 2 ^ 32 ->
  Forall (fun c => exists d, 0 <= d < 16 /\ c = digit_char d) (hex4 n) /\ (length (hex4 n) <= 8)%nat /\
  (n < 65536 -> length (hex4 n) = 4%nat).
Proof.
  intros Hn. unfold hex4, setw.
  destruct (num_text_spec 16 ltac:(lia) hex_nibble n hex_nibble_char ltac:(lia)) as (_ & Hd & _ & Hlen).
  specialize (Hlen 7%nat ltac:(lia)) as H8. rewrite length_app, length_replicate.
  split_and!; [|lia|intros H; specialize (Hlen 3%nat ltac:(lia)); lia].
  apply Forall_app. split; [|done]. apply Forall_replicate. by exists 0.
Qed.

Lemma digit_not_newline d : 0 <= d < 16 -> not_newline (digit_char d) = true.
Proof.
  intros Hd. unfold not_newline. rewrite bool_decide_eq_false_2; [done|]. intros E.
  apply (f_equal code_of) in E. rewrite code_of_digit_char in E by done.
  change (code_of newline) with 10 in E. revert E. zcase.
Qed.

Definition clean (s : text) : Prop := forallb not_newline s = true.
Lemma clean_app s t : clean s -> clean t -> clean (s ++ t).
Proof. unfold clean. rewrite forallb_app. intros -> ->. done. Qed.

Lemma clean_cells n i bs : is_bytes bs -> clean (cells n i bs).
Proof.
  revert i bs. induction n as [|n IH]; intros i bs Hb; [done|]. cbn [cells].
  apply clean_app; [|apply clean_app; [by destruct (_ =? 1)|apply IH; destruct Hb; [constructor|done]]].
  destruct Hb as [|b bs Hb _]; [done|]. unfold is_byte in Hb. unfold clean. cbn [forallb hex2].
  rewrite !digit_not_newline by (Z.div_mod_to_equations; lia). done.
Qed.

Lemma clean_shown bs : is_bytes bs -> clean (map shown bs).
Proof.
  induction 1 as [|b bs Hb _ IH]; [done|]. unfold clean in *. cbn [map forallb]. rewrite IH, andb_true_r.
  unfold shown, isprint. destruct (Z.leb_spec 32 b); cbn [andb]; [|done]. destruct (Z.leb_spec b 126); [|done].
  unfold not_newline. rewrite bool_decide_eq_false_2; [done|]. intros E.
  apply (f_equal code_of) in E. rewrite code_of_ascii in E by lia. change (code_of newline) with 10 in E. lia.
Qed.

Lemma clean_line offset bs : 0 <= offset < 2 ^ 32 -> is_bytes bs -> clean (line_text offset bs).
Proof.
  intros Ho Hb. unfold line_text. apply clean_app; [apply clean_app; [done|apply clean_app; [|done]]|].
  - destruct (hex4_spec offset Ho) as (Hd & _). unfold clean. apply forallb_forall. intros c Hc.
    rewrite Forall_forall in Hd. destruct (Hd c) as (d & Hr & ->); [by apply list_elem_of_In|].
    by apply digit_not_newline.
  - apply clean_app; [by apply clean_cells|]. apply clean_app; [done|by apply clean_shown].
Qed.

(** The cells of a line give its bytes back, whatever follows. *)
Lemma read_cells_spec bs : is_bytes bs -> forall n i rest, (length bs <= n)%nat ->
  read_cells n i (cells n i bs ++ " "%char :: rest) = bs.
Proof.
  induction 1 as [|b bs Hb _ IH]; intros n i rest Hn.
  - by destruct n.
  - destruct n as [|n]; [cbn in Hn; lia|]. unfold is_byte in Hb. cbn [cells hex2 app read_cells].
    rewrite !hex_nibble_char by (Z.div_mod_to_equations; lia).
    destruct (Z.ltb_spec (b / 16) 0); [Z.div_mod_to_equations; lia|].
    destruct (Z.ltb_spec (b mod 16) 0); [Z.div_mod_to_equations; lia|]. cbn [orb tail].
    f_equal; [Z.div_mod_to_equations; lia|].
    destruct (i mod 2 =? 1); cbn [app drop]; apply IH; cbn in Hn; lia.
Qed.

Lemma read_line offset bs : 0 <= offset < 65536 -> is_bytes bs -> (length bs <= 16)%nat ->
  read_cells 16 0 (drop 11 (line_text offset bs)) = bs.
Proof.
  intros Ho Hb Hn. unfold line_text.
  assert (length (lit "  0x" ++ hex4 offset ++ lit ":  ") = 11%nat) as Hp.
  { rewrite !length_app. destruct (hex4_spec offset ltac:(lia)) as (_ & _ & ->); [done|lia]. }
  rewrite drop_app_length' by done. by apply read_cells_spec.
Qed.

Lemma dump_line_spec data len offset :
  len <= zlen data -> len < 2 ^ 32 -> 0 <= offset < len ->
  dump_line data len offset =
    Ret (line_text offset (take 16 (drop (Z.to_nat offset) (take (Z.to_nat len) data))) ++ [newline]).
Proof.
  intros Hl H32 Ho. unfold dump_line. rewrite u32_small by lia.
  set (chunk := if len - offset <? 16 then len - offset else 16).
  assert (0 <= chunk /\ chunk = Z.min 16 (len - offset)) as [Hc Ec] by (unfold chunk; zcase).
  assert (take 16 (drop (Z.to_nat offset) (take (Z.to_nat len) data)) =
    take (Z.to_nat chunk) (drop (Z.to_nat offset) data)) as ->.
  { rewrite skipn_firstn_comm, take_take. f_equal. lia. }
  set (p := lit "  0x" ++ hex4 offset ++ lit ":  ").
  assert (zlen p <= 15) as Hp.
  { unfold p, zlen. rewrite !length_app. destruct (hex4_spec offset ltac:(lia)) as (_ & H8 & _). cbn [length lit].
    change (length (lit "  0x")) with 4%nat. change (length (lit ":  ")) with 3%nat. lia. }
  change (@nil ascii, 0) with (@nil ascii, zlen (@nil ascii)).
  rewrite line_printf_fits by (change (zlen (@nil ascii)) with 0; unfold LINE_SIZE; lia). obind. cbn [app].
  destruct (cells_loop_spec data offset chunk ltac:(lia) ltac:(lia) 16 0 p) as (pos & ->); [lia|unfold LINE_SIZE; lia|].
  obind. rewrite (chars_loop_spec data offset chunk) by lia. obind. cbn [Z.to_nat drop].
  unfold line_text. fold p. by rewrite <- !app_assoc.
Qed.

(** ** The whole dump *)

(** The text of [n] lines. *)
Fixpoint dump_text (n : nat) (offset : Z) (bs : list Z) : text :=
  match n with
  | O => []
  | S n => (line_text offset (take 16 bs) ++ [newline]) ++ dump_text n (offset + 16) (drop 16 bs)
  end.

Lemma dump_loop_spec data len n : len <= zlen data -> len <= 2 ^ 32 - 16 -> forall fuel offset,
  0 <= offset -> 16 * (Z.of_nat n - 1) < len - offset <= 16 * Z.of_nat n -> (n < fuel)%nat ->
  dump_loop fuel data len offset = Ret (dump_text n offset (drop (Z.to_nat offset) (take (Z.to_nat len) data))).
Proof.
  intros Hl H32. induction n as [|n IH]; intros fuel offset Ho Hn Hf; destruct fuel as [|fuel]; try lia;
    cbn [dump_loop dump_text].
  - by destruct (Z.ltb_spec offset len); [lia|].
  - destruct (Z.ltb_spec offset len); [|lia]. rewrite dump_line_spec by lia. obind.
    rewrite u32_small by lia. rewrite IH by lia. obind. rewrite drop_drop.
    do 3 f_equal. f_equal. lia.
Qed.

Lemma undump_dump n : forall fuel offset bs, is_bytes bs -> 0 <= offset ->
  offset + 16 * (Z.of_nat n - 1) < 65536 -> Z.of_nat (length bs) <= 16 * Z.of_nat n -> (n <= fuel)%nat ->
  undump_lines fuel (dump_text n offset bs) = bs.
Proof.
  induction n as [|n IH]; intros fuel offset bs Hb Ho Hn Hl Hf; cbn [dump_text].
  - destruct bs; [by destruct fuel|cbn in Hl; lia].
  - destruct fuel as [|fuel]; [lia|].
    set (line := line_text offset (take 16 bs)). set (rest := dump_text n _ _).
    assert (is_bytes (take 16 bs)) as Hb1 by by apply Forall_take.
    assert (span not_newline ((line ++ [newline]) ++ rest) = (line, newline :: rest)) as E.
    { rewrite <- app_assoc. apply span_app; [apply clean_line; [lia|done]|done]. }
    cbn [undump_lines]. destruct ((line ++ [newline]) ++ rest) as [|c s] eqn:Es.
    { apply app_eq_nil in Es as [Es _]. by apply app_eq_nil in Es as [_ [=]]. }
    rewrite E. change (drop 1 (newline :: rest)) with rest. unfold line, rest. rewrite read_line by (done || lia || (rewrite length_take; lia)).
    destruct (decide (Z.of_nat n = 0)) as [Hz|Hz].
    + replace n with 0%nat by lia. rewrite (take_ge bs) by lia. cbn. destruct fuel; by rewrite app_nil_r.
    + rewrite IH; [apply take_drop|by apply Forall_drop|lia|lia|rewrite length_drop; lia|lia].
Qed.

Lemma length_dump n : forall offset bs, (n <= length (dump_text n offset bs))%nat.
Proof.
  induction n as [|n IH]; intros offset bs; [done|]. cbn [dump_text]. rewrite !length_app.
  specialize (IH (offset + 16) (drop 16 bs)). cbn [length]. lia.
Qed.

Lemma hex_dump_spec data len : valid_view data len -> len <= 2 ^ 32 - 16 ->
  hex_dump data len = Ret (dump_text (Z.to_nat ((len + 15) / 16)) 0 (take (Z.to_nat len) data)).
Proof.
  intros (_ & Hl & _) H. unfold hex_dump.
  rewrite (dump_loop_spec data len (Z.to_nat ((len + 15) / 16))); [done|lia|lia|lia| |].
  - rewrite Z2Nat.id by (Z.div_mod_to_equations; lia). Z.div_mod_to_equations. lia.
  - Z.div_mod_to_equations. lia.
Qed.

Lemma undump_spec data len : valid_view data len -> len <= 65536 ->
  undump (dump_text (Z.to_nat ((len + 15) / 16)) 0 (take (Z.to_nat len) data)) = take (Z.to_nat len) data.
Proof.
  intros (Hb & Hl & _) Hs. unfold undump. apply undump_dump.
  - by apply Forall_take.
  - lia.
  - rewrite Z2Nat.id by (Z.div_mod_to_equations; lia). Z.div_mod_to_equations. lia.
  - rewrite length_take. Z.div_mod_to_equations. lia.
  - apply length_dump.
Qed.

(** ** Properties *)

(** C33: the hex dump of a buffer never leaves the buffer nor the line buffer and ends (for up to
    [2^32 - 16] bytes, where the unsigned offset would wrap around), and the bytes of a frame
    of at most 64 KiB can be read back from its columns. *)
Theorem hex_dump_readable data len : valid_view data len -> len <= 2 ^ 32 - 16 ->
  exists out, hex_dump data len = Ret out /\ (len <= 65536 -> undump out = take (Z.to_nat len) data).
Proof.
  intros Hv H. rewrite hex_dump_spec by done. eexists. split; [done|]. by apply undump_spec.
Qed.

Lemma hex_dump_readable_witness :
  exists out, hex_dump (seqZ 0 50) 35 = Ret out /\ (35 <= 65536 -> undump out = take (Z.to_nat 35) (seqZ 0 50)).
Proof. apply hex_dump_readable; [apply (bool_decide_unpack _); vm_compute; exact I|lia]. Defined.
