(* ===== verification/PacketPrinter.v ===== *)
(** * The packet printer (src/src/cpp/packet_printer.cpp)

    [print_packet]: the descent through the layers with the parsers of the other files,
    the display filter's fields filled on the way, the summary line, and the hex dump of
    HexDump.v.
    Every path of the code ends in one call of [finish] or [finish_raw]; [dissect] is the
    descent up to that call and returns its arguments. *)
From S2P Require Import Prelude Text Literals Checksum EthParser ArpParser IpParser.
From S2P Require Import Ipv6Parser TcpUdpParser IcmpParser Packet HexDump DispParser DispFilter RawSocket.
From stdpp Require Import options.

Local Open Scope Z_scope.
Local Open Scope wire_scope.

(** ** The fields of the display filter *)

Definition zero_fields : dispfilter_fields_t :=
  {| eth_src := replicate 6 0; eth_dst := replicate 6 0;
     has_ip := 0; ip_src := replicate 4 0; ip_dst := replicate 4 0;
     has_ipv6 := 0; ipv6_src := replicate 16 0; ipv6_dst := replicate 16 0;
     has_tcp := 0; tcp_src_port := 0; tcp_dst_port := 0;
     has_udp := 0; udp_src_port := 0; udp_dst_port := 0 |}.

Definition set_eth (src dst : list Z) (f : dispfilter_fields_t) : dispfilter_fields_t :=
  {| eth_src := src; eth_dst := dst;
     has_ip := has_ip f; ip_src := ip_src f; ip_dst := ip_dst f;
     has_ipv6 := has_ipv6 f; ipv6_src := ipv6_src f; ipv6_dst := ipv6_dst f;
     has_tcp := has_tcp f; tcp_src_port := tcp_src_port f; tcp_dst_port := tcp_dst_port f;
     has_udp := has_udp f; udp_src_port := udp_src_port f; udp_dst_port := udp_dst_port f |}.
Definition set_ip (src dst : list Z) (f : dispfilter_fields_t) : dispfilter_fields_t :=
  {| eth_src := eth_src f; eth_dst := eth_dst f;
     has_ip := 1; ip_src := src; ip_dst := dst;
     has_ipv6 := has_ipv6 f; ipv6_src := ipv6_src f; ipv6_dst := ipv6_dst f;
     has_tcp := has_tcp f; tcp_src_port := tcp_src_port f; tcp_dst_port := tcp_dst_port f;
     has_udp := has_udp f; udp_src_port := udp_src_port f; udp_dst_port := udp_dst_port f |}.
Definition set_ipv6 (src dst : list Z) (f : dispfilter_fields_t) : dispfilter_fields_t :=
  {| eth_src := eth_src f; eth_dst := eth_dst f;
     has_ip := has_ip f; ip_src := ip_src f; ip_dst := ip_dst f;
     has_ipv6 := 1; ipv6_src := src; ipv6_dst := dst;
     has_tcp := has_tcp f; tcp_src_port := tcp_src_port f; tcp_dst_port := tcp_dst_port f;
     has_udp := has_udp f; udp_src_port := udp_src_port f; udp_dst_port := udp_dst_port f |}.
Definition set_tcp (src dst : Z) (f : dispfilter_fields_t) : dispfilter_fields_t :=
  {| eth_src := eth_src f; eth_dst := eth_dst f;
     has_ip := has_ip f; ip_src := ip_src f; ip_dst := ip_dst f;
     has_ipv6 := has_ipv6 f; ipv6_src := ipv6_src f; ipv6_dst := ipv6_dst f;
     has_tcp := 1; tcp_src_port := src; tcp_dst_port := dst;
     has_udp := has_udp f; udp_src_port := udp_src_port f; udp_dst_port := udp_dst_port f |}.
Definition set_udp (src dst : Z) (f : dispfilter_fields_t) : dispfilter_fields_t :=
  {| eth_src := eth_src f; eth_dst := eth_dst f;
     has_ip := has_ip f; ip_src := ip_src f; ip_dst := ip_dst f;
     has_ipv6 := has_ipv6 f; ipv6_src := ipv6_src f; ipv6_dst := ipv6_dst f;
     has_tcp := has_tcp f; tcp_src_port := tcp_src_port f; tcp_dst_port := tcp_dst_port f;
     has_udp := 1; udp_src_port := src; udp_dst_port := dst |}.

(** [hdr.checksum_valid = (uint8_t)...] *)
Definition tcp_with_valid (v : bool) (t : tcp.tcp_header_t) : tcp.tcp_header_t :=
  {| tcp.src_port := tcp.src_port t; tcp.dst_port := tcp.dst_port t; tcp.seq_num := tcp.seq_num t;
     tcp.ack_num := tcp.ack_num t; tcp.data_offset := tcp.data_offset t; tcp.flags := tcp.flags t;
     tcp.window_size := tcp.window_size t; tcp.checksum := tcp.checksum t;
     tcp.urgent_pointer := tcp.urgent_pointer t; tcp.checksum_valid := v |}.
Definition udp_with_valid (v : bool) (u : udp.udp_header_t) : udp.udp_header_t :=
  {| udp.src_port := udp.src_port u; udp.dst_port := udp.dst_port u; udp.length := udp.length u;
     udp.checksum := udp.checksum u; udp.checksum_present := udp.checksum_present u;
     udp.checksum_valid := v |}.
Definition icmp_with_valid (v : bool) (i : icmp_header_t) : icmp_header_t :=
  {| type := type i; code := code i; IcmpParser.checksum := IcmpParser.checksum i;
     IcmpParser.checksum_valid := v; is_echo := is_echo i; echo_id := echo_id i; echo_seq := echo_seq i |}.

(** ** The descent *)

(** What is handed to [finish_raw] or [finish]. *)
Inductive report :=
| R_raw (message : text)
| R_packet (pkt : packet) (suffix : option text).

Section Print.
Context (frame : list Z) (length ts_seconds ts_microseconds : Z).

Definition base (eth : eth_header_t) (ip : option ip_header_t) : packet_base :=
  new_Packet ts_seconds ts_microseconds length eth ip.

Definition dissect_arp (eth : eth_header_t) (payload : list Z) (len : Z) : outcome report :=
  r ← arp_parse (Some payload) len Dest;
  match r with
  | Some arp => Ret (R_packet (new_ArpPacket ts_seconds ts_microseconds length eth arp) None)
  | None => Ret (R_packet (Packet (base eth None)) (Some (lit " ARP (truncated)")))
  end.

Definition dissect_ipv6 (eth : eth_header_t) (payload : list Z) (len : Z) (f : dispfilter_fields_t)
    : outcome (dispfilter_fields_t * report) :=
  r ← ipv6_parse (Some payload) len Dest;
  match r with
  | None => Ret (f, R_packet (Packet (base eth None)) (Some (lit " IPv6 (truncated)")))
  | Some (ipv6, seg, seg_len) =>
    let src := Ipv6Parser.src_addr ipv6 in
    let dst := Ipv6Parser.dst_addr ipv6 in
    let f := set_ipv6 src dst f in
    let pkt := new_Ipv6Packet ts_seconds ts_microseconds length eth ipv6 in
    if next_header ipv6 =? IP_PROTO_TCP then
      r ← tcp_parse (Some seg) seg_len Dest;
      match r with
      | Some (tcp, _, _) =>
        v ← tcp_verify_checksum_ipv6 (Some seg) seg_len (Some src) (Some dst);
        Ret (set_tcp (tcp.src_port tcp) (tcp.dst_port tcp) f,
             R_packet (pkt (Some (tcp_with_valid v tcp)) None None) None)
      | None => Ret (f, R_packet (pkt None None None) (Some (lit " TCP (truncated)")))
      end
    else if next_header ipv6 =? IP_PROTO_UDP then
      r ← udp_parse (Some seg) seg_len Dest;
      match r with
      | Some (udp, _, _) =>
        v ← udp_verify_checksum_ipv6 (Some seg) seg_len (Some src) (Some dst);
        Ret (set_udp (udp.src_port udp) (udp.dst_port udp) f,
             R_packet (pkt None (Some (udp_with_valid v udp)) None) None)
      | None => Ret (f, R_packet (pkt None None None) (Some (lit " UDP (truncated)")))
      end
    else if next_header ipv6 =? IP_PROTO_ICMPV6 then
      r ← icmp_parse (Some seg) seg_len ICMP_FAMILY_V6 Dest;
      match r with
      | Some icmp =>
        v ← icmpv6_verify_checksum (Some seg) seg_len (Some src) (Some dst);
        Ret (f, R_packet (pkt None None (Some (icmp_with_valid v icmp))) None)
      | None => Ret (f, R_packet (pkt None None None) (Some (lit " ICMPv6 (truncated)")))
      end
    else Ret (f, R_packet (pkt None None None) None)
  end.

Definition dissect_ipv4 (eth : eth_header_t) (payload : list Z) (len : Z) (f : dispfilter_fields_t)
    : outcome (dispfilter_fields_t * report) :=
  r ← ip_parse (Some payload) len Dest;
  match r with
  | None => Ret (f, R_raw (lit "(truncated IPv4 header)"))
  | Some (ip, seg, seg_len) =>
    let src := IpParser.src_addr ip in
    let dst := IpParser.dst_addr ip in
    let f := set_ip src dst f in
    let b := base eth (Some ip) in
    if protocol ip =? IP_PROTO_TCP then
      r ← tcp_parse (Some seg) seg_len Dest;
      match r with
      | Some (tcp, _, _) =>
        v ← tcp_verify_checksum (Some seg) seg_len (Some src) (Some dst);
        Ret (set_tcp (tcp.src_port tcp) (tcp.dst_port tcp) f,
             R_packet (new_TCPPacket ts_seconds ts_microseconds length eth ip (tcp_with_valid v tcp)) None)
      | None => Ret (f, R_packet (Packet b) (Some (lit " TCP (truncated)")))
      end
    else if protocol ip =? IP_PROTO_UDP then
      r ← udp_parse (Some seg) seg_len Dest;
      match r with
      | Some (udp, _, _) =>
        v ← udp_verify_checksum (Some seg) seg_len (Some src) (Some dst);
        Ret (set_udp (udp.src_port udp) (udp.dst_port udp) f,
             R_packet (new_UDPPacket ts_seconds ts_microseconds length eth ip (udp_with_valid v udp)) None)
      | None => Ret (f, R_packet (Packet b) (Some (lit " UDP (truncated)")))
      end
    else if protocol ip =? IP_PROTO_ICMP then
      r ← icmp_parse (Some seg) seg_len ICMP_FAMILY_V4 Dest;
      match r with
      | Some icmp =>
        v ← icmpv4_verify_checksum (Some seg) seg_len;
        Ret (f, R_packet (new_IcmpPacket ts_seconds ts_microseconds length eth ip (icmp_with_valid v icmp)) None)
      | None => Ret (f, R_packet (Packet b) (Some (lit " ICMP (truncated)")))
      end
    else Ret (f, R_packet (Packet b) (Some (snprintf 32 (lit " proto=" ++ dec (protocol ip)))))
  end.

Definition dissect : outcome (dispfilter_fields_t * report) :=
  r ← eth_parse (Some frame) length Dest;
  match r with
  | None => Ret (zero_fields, R_raw (lit "(truncated Ethernet frame)"))
  | Some (eth, payload, len) =>
    let f := set_eth (src_mac eth) (dst_mac eth) zero_fields in
    if ether_type eth =? ETH_TYPE_ARP then r ← dissect_arp eth payload len; Ret (f, r)
    else if ether_type eth =? ETH_TYPE_IPV6 then dissect_ipv6 eth payload len f
    else if negb (ether_type eth =? ETH_TYPE_IPV4) then Ret (f, R_packet (Packet (base eth None)) None)
    else dissect_ipv4 eth payload len f
  end.

(** ** Output *)

Context (packet_number : Z) (filter : filter_ptr).

Definition passes_filter (f : dispfilter_fields_t) : outcome bool :=
  match filter with
  | None => Ret true
  | Some _ => m ← dispfilter_matches filter f; Ret (negb (m =? 0))
  end.

(** The text between the packet number and the newline. *)
Definition summary (r : report) : text :=
  match r with
  | R_raw message => message
  | R_packet pkt suffix => print pkt ++ match suffix with Some s => s | None => [] end
  end.

(** [finish] and [finish_raw] *)
Definition finish (f : dispfilter_fields_t) (r : report) : outcome text :=
  pass ← passes_filter f;
  if negb pass then Ret []
  else
    dump ← hex_dump frame length;
    Ret (lit "[#" ++ dec packet_number ++ lit "] " ++ summary r ++ ["010"%char] ++ dump).

Definition print_packet : outcome text :=
  '(f, r) ← dissect; finish f r.
End Print.

(** ** The callback *)

(** [PacketPrinterContext]: what has been written to [os], and [count]. *)
Record PacketPrinterContext := { os : text; count : Z; ctx_filter : filter_ptr }.

Definition packet_printer_callback (frame : list Z) (length ts_seconds ts_microseconds : Z)
    (ctx : PacketPrinterContext) : outcome PacketPrinterContext :=
  let n := (count ctx + 1) mod 2 ^ 64 in
  s ← print_packet frame length ts_seconds ts_microseconds n (ctx_filter ctx);
  Ret {| os := os ctx ++ s; count := n; ctx_filter := ctx_filter ctx |}.


(** ** Specification: the fields, from the bytes *)

Definition word (data : list Z) (i : Z) : Z := be16 (byte_at data i) (byte_at data (i + 1)).
Definition slice (data : list Z) (i n : Z) : list Z := take (Z.to_nat n) (drop (Z.to_nat i) data).

(** The EtherType and where the payload begins, past a VLAN tag if there is one. *)
Definition link (frame : list Z) (len : Z) : option (Z * Z) :=
  if len <? 14 then None
  else if word frame 12 =? 0x8100 then if len <? 18 then None else Some (word frame 16, 18)
  else Some (word frame 12, 14).

(** A TCP header and its options must be whole, a UDP header too. *)
Definition tcp_whole (seg : list Z) (n : Z) : bool :=
  (20 <=? n) && (5 <=? byte_at seg 12 / 16) && (byte_at seg 12 / 16 * 4 <=? n).
Definition transport_fields (proto : Z) (seg : list Z) (n : Z) (f : dispfilter_fields_t) : dispfilter_fields_t :=
  if proto =? 6 then if tcp_whole seg n then set_tcp (word seg 0) (word seg 2) f else f
  else if proto =? 17 then if 8 <=? n then set_udp (word seg 0) (word seg 2) f else f
  else f.

Definition network_fields (ether_type : Z) (p : list Z) (n : Z) (f : dispfilter_fields_t) : dispfilter_fields_t :=
  let hl := byte_at p 0 mod 16 * 4 in
  if ether_type =? 0x86DD then
    if (40 <=? n) && (byte_at p 0 / 16 =? 6) then
      transport_fields (byte_at p 6) (advance p 40) (n - 40) (set_ipv6 (slice p 8 16) (slice p 24 16) f)
    else f
  else if ether_type =? 0x0800 then
    if (20 <=? n) && (byte_at p 0 / 16 =? 4) && (20 <=? hl) && (hl <=? n) then
      transport_fields (byte_at p 9) (advance p hl) ((if hl <=? word p 2 then Z.min (word p 2) n else n) - hl)
        (set_ip (slice p 12 4) (slice p 16 4) f)
    else f
  else f.

Definition wire_fields (frame : list Z) (len : Z) : dispfilter_fields_t :=
  match link frame len with
  | None => zero_fields
  | Some (ether_type, off) =>
    network_fields ether_type (advance frame off) (len - off) (set_eth (slice frame 6 6) (slice frame 0 6) zero_fields)
  end.

(** The fields, from the object that is printed. *)
Definition transport_of (t : option tcp.tcp_header_t) (u : option udp.udp_header_t) (f : dispfilter_fields_t)
    : dispfilter_fields_t :=
  match t, u with
  | Some t, _ => set_tcp (tcp.src_port t) (tcp.dst_port t) f
  | None, Some u => set_udp (udp.src_port u) (udp.dst_port u) f
  | None, None => f
  end.
Definition packet_fields (p : packet) : dispfilter_fields_t :=
  let f := set_eth (src_mac (eth_ (base_of p))) (dst_mac (eth_ (base_of p))) zero_fields in
  let f := match ip_ (base_of p) with
           | Some ip => set_ip (IpParser.src_addr ip) (IpParser.dst_addr ip) f
           | None => f
           end in
  match p with
  | TCPPacket _ t => transport_of (Some t) None f
  | UDPPacket _ u => transport_of None (Some u) f
  | Ipv6Packet _ h t u _ => transport_of t u (set_ipv6 (Ipv6Parser.src_addr h) (Ipv6Parser.dst_addr h) f)
  | _ => f
  end.

(** An ARP packet of IPv4 over Ethernet. *)
Definition arp_whole (p : list Z) (n : Z) : bool :=
  (28 <=? n) && (word p 0 =? 1) && (word p 2 =? 0x0800) && (byte_at p 4 =? 6) && (byte_at p 5 =? 4).

(** ** What each parser reads *)

Lemma eth_parse_ref frame len : valid_view frame len ->
  match link frame len with
  | None => eth_parse (Some frame) len Dest = Ret None
  | Some (ty, off) => 0 <= off <= len /\ exists h,
      eth_parse (Some frame) len Dest = Ret (Some (h, advance frame off, len - off)) /\ ether_type h = ty /\
      src_mac h = slice frame 6 6 /\ dst_mac h = slice frame 0 6
  end.
Proof.
  intros (Hb & Hl & H32). unfold link, eth_parse, ETH_HEADER_LEN, ETH_VLAN_TAG_LEN, ETH_ADDR_LEN, ETH_TYPE_VLAN.
  destruct (Z.ltb_spec len 14); [done|]. run_reads.
  change (be16 (byte_at frame 12) (byte_at frame 13)) with (word frame 12).
  destruct (word frame 12 =? 0x8100).
  - change (14 + 4) with 18. destruct (Z.ltb_spec len 18); [done|]. run_reads.
    split; [lia|]. eexists. rewrite u32_small by lia. by split_and!.
  - split; [lia|]. eexists. rewrite u32_small by lia. by split_and!.
Qed.

Lemma tcp_parse_ref seg n : valid_view seg n -> exists r, tcp_parse (Some seg) n Dest = Ret r /\
  match r with
  | Some (h, _, _) => tcp_whole seg n = true /\ tcp.src_port h = word seg 0 /\ tcp.dst_port h = word seg 2
  | None => tcp_whole seg n = false
  end.
Proof.
  intros (Hb & Hl & H32). unfold tcp_whole, tcp_parse, TCP_HEADER_MIN_LEN.
  destruct (Z.ltb_spec n 20); destruct (Z.leb_spec 20 n); try lia; [by eexists|]. run_reads. rewrite shiftr_4.
  assert (is_byte (byte_at seg 12)) as B by auto with bytes. unfold is_byte in B.
  rewrite (u32_small (_ * 4)) by (Z.div_mod_to_equations; lia). cbn [andb].
  destruct (Z.ltb_spec (byte_at seg 12 / 16) 5); destruct (Z.leb_spec 5 (byte_at seg 12 / 16)); try lia;
    cbn [orb andb]; [by eexists|].
  destruct (Z.ltb_spec n (byte_at seg 12 / 16 * 4)); destruct (Z.leb_spec (byte_at seg 12 / 16 * 4) n); try lia;
    [by eexists|]. run_reads. eexists. split; [done|]. by split_and!.
Qed.

Lemma udp_parse_ref seg n : valid_view seg n -> exists r, udp_parse (Some seg) n Dest = Ret r /\
  match r with
  | Some (h, _, _) => 8 <= n /\ udp.src_port h = word seg 0 /\ udp.dst_port h = word seg 2
  | None => n < 8
  end.
Proof.
  intros (Hb & Hl & H32). unfold udp_parse, UDP_HEADER_LEN. destruct (Z.ltb_spec n 8); [by eexists|].
  run_reads. eexists. split; [done|]. by split_and!.
Qed.

Lemma ipv6_parse_ref p n : valid_view p n -> exists r, ipv6_parse (Some p) n Dest = Ret r /\
  match r with
  | Some (h, seg, k) => (40 <=? n) && (byte_at p 0 / 16 =? 6) = true /\ seg = advance p 40 /\ k = n - 40 /\
      next_header h = byte_at p 6 /\ Ipv6Parser.src_addr h = slice p 8 16 /\ Ipv6Parser.dst_addr h = slice p 24 16
  | None => (40 <=? n) && (byte_at p 0 / 16 =? 6) = false
  end.
Proof.
  intros (Hb & Hl & H32). unfold ipv6_parse, IPV6_HEADER_LEN, IPV6_ADDR_LEN.
  destruct (Z.ltb_spec n 40); destruct (Z.leb_spec 40 n); try lia; [by eexists|]. run_reads. rewrite shiftr_4.
  destruct (Z.eqb_spec (byte_at p 0 / 16) 6); cbn [negb andb]; [|by eexists]. run_reads.
  eexists. split; [done|]. rewrite (u32_small (n - 40)) by lia. by split_and!.
Qed.

Lemma arp_parse_ref p n : valid_view p n -> exists r, arp_parse (Some p) n Dest = Ret r /\
  arp_whole p n = match r with Some _ => true | None => false end.
Proof.
  intros (Hb & Hl & H32). unfold arp_whole, arp_parse, ARP_HEADER_LEN.
  destruct (Z.ltb_spec n 28); destruct (Z.leb_spec 28 n); try lia; [by eexists|]. run_reads.
  change (be16 (byte_at p 0) (byte_at p 1)) with (word p 0). change (be16 (byte_at p 2) (byte_at p 3)) with (word p 2).
  unfold ARP_HTYPE_ETHERNET, ARP_PTYPE_IPV4. cbn [andb].
  destruct (word p 0 =? 1), (word p 2 =? 2048), (byte_at p 4 =? 6), (byte_at p 5 =? 4); cbn [negb orb andb];
    by eexists.
Qed.

Lemma slice_4 p i : 0 <= i -> i + 4 <= zlen p ->
  slice p i 4 = [byte_at p i; byte_at p (i + 1); byte_at p (i + 2); byte_at p (i + 3)].
Proof.
  intros Hi Hl. unfold slice. fold (advance p i). rewrite <- advance_cons by lia.
  rewrite <- advance_cons by lia. rewrite <- advance_cons by lia. rewrite <- advance_cons by lia.
  replace (i + 1 + 1) with (i + 2) by lia. replace (i + 2 + 1) with (i + 3) by lia. done.
Qed.

Lemma ip_parse_ref p n : valid_view p n ->
  let hl := byte_at p 0 mod 16 * 4 in
  let whole := (20 <=? n) && (byte_at p 0 / 16 =? 4) && (20 <=? hl) && (hl <=? n) in
  exists r, ip_parse (Some p) n Dest = Ret r /\
  match r with
  | Some (h, seg, k) => whole = true /\ seg = advance p hl /\
      k = (if hl <=? word p 2 then Z.min (word p 2) n else n) - hl /\
      protocol h = byte_at p 9 /\ IpParser.src_addr h = slice p 12 4 /\ IpParser.dst_addr h = slice p 16 4 /\
      ihl h = byte_at p 0 mod 16
  | None => whole = false
  end.
Proof.
  intros (Hb & Hl & H32) hl whole. unfold ip_parse, IP_HEADER_MIN_LEN. unfold whole. clear whole.
  destruct (Z.ltb_spec n 20); destruct (Z.leb_spec 20 n); try lia; [by eexists|]. run_reads.
  destruct (nibbles (byte_at p 0)) as [-> ->].
  assert (is_byte (byte_at p 0)) as Hb0 by auto with bytes. unfold is_byte in Hb0.
  rewrite (u32_small (_ * 4)) by (Z.div_mod_to_equations; lia). fold hl.
  destruct (Z.eqb_spec (byte_at p 0 / 16) 4); cbn [negb orb andb]; [|by eexists].
  destruct (Z.ltb_spec (byte_at p 0 mod 16) 5); destruct (Z.leb_spec 20 hl); try (unfold hl in *; lia);
    cbn [orb andb]; [by eexists|].
  destruct (Z.ltb_spec n hl); destruct (Z.leb_spec hl n); try lia; [by eexists|].
  assert (hl <= 60) by (unfold hl; Z.div_mod_to_equations; lia).
  rewrite checksum_verify_whole by (done || unfold max_sum_len; lia). obind. run_reads.
  pose proof (be16_range (byte_at p 2) (byte_at p 3)) as Ht. rewrite payload_clamp by lia.
  eexists. split; [done|]. rewrite !slice_4 by lia. split_and!; try done.
  unfold word. change (2 + 1) with 3. by destruct (hl <=? _).
Qed.

(** ** The descent computes them *)

(** The transport segment of a network-layer payload, and of a frame. *)
Definition network_segment (ether_type : Z) (p : list Z) (n : Z) : list Z * Z :=
  let hl := byte_at p 0 mod 16 * 4 in
  if ether_type =? 0x86DD then (advance p 40, n - 40)
  else (advance p hl, (if hl <=? word p 2 then Z.min (word p 2) n else n) - hl).
Definition segment (frame : list Z) (len : Z) : list Z * Z :=
  match link frame len with
  | None => ([], 0)
  | Some (ether_type, off) => network_segment ether_type (advance frame off) (len - off)
  end.

(** The one's-complement sum of a pseudo-header and a segment is all ones. *)
Definition sums_up (pseudo : list Z) (sg : list Z * Z) : bool :=
  rfc1071_sum (pseudo ++ take (Z.to_nat (snd sg)) (fst sg)) =? 65535.

(** The header of an IPv4 packet, its options included. *)
Definition network_header (p : list Z) : list Z := slice p 0 (byte_at p 0 mod 16 * 4).
Definition ip_header (frame : list Z) (len : Z) : list Z :=
  match link frame len with None => [] | Some (_, off) => network_header (advance frame off) end.

(** The checksum verdicts of a packet object: the one's-complement sum of the IPv4 header, and of
    the pseudo-header with the segment as it was captured, is all ones; over IPv4 a UDP checksum
    field of zero is valid (RFC 768), and of one over IPv6 nothing is said. *)
Definition header_verdict (p : packet) (header : list Z) : Prop :=
  match ip_ (base_of p) with
  | Some ip => IpParser.checksum_valid ip = (rfc1071_sum header =? 65535)
  | None => True
  end.
Definition verdicts_true (p : packet) (sg : list Z * Z) : Prop :=
  match p with
  | TCPPacket b t => exists ip, ip_ b = Some ip /\
      tcp.checksum_valid t =
        sums_up (rfc793_pseudo (IpParser.src_addr ip) (IpParser.dst_addr ip) 6 (snd sg)) sg
  | UDPPacket b u => exists ip, ip_ b = Some ip /\
      udp.checksum_valid u = (word (fst sg) 6 =? 0) ||
        sums_up (rfc793_pseudo (IpParser.src_addr ip) (IpParser.dst_addr ip) 17 (snd sg)) sg
  | IcmpPacket _ i => IcmpParser.checksum_valid i = sums_up [] sg
  | Ipv6Packet _ h (Some t) _ _ => tcp.checksum_valid t =
      sums_up (rfc2460_pseudo (Ipv6Parser.src_addr h) (Ipv6Parser.dst_addr h) 6 (snd sg)) sg
  | Ipv6Packet _ h None (Some u) _ => word (fst sg) 6 <> 0 -> udp.checksum_valid u =
      sums_up (rfc2460_pseudo (Ipv6Parser.src_addr h) (Ipv6Parser.dst_addr h) 17 (snd sg)) sg
  | Ipv6Packet _ h None None (Some i) => IcmpParser.checksum_valid i =
      sums_up (rfc2460_pseudo (Ipv6Parser.src_addr h) (Ipv6Parser.dst_addr h) 58 (snd sg)) sg
  | _ => True
  end.

(** What the summary line is about: a frame that could not be decoded, or a packet under the name
    of its innermost protocol, with a note on what is cut short or unknown. *)
Inductive line := Raw_line (message : text) | Packet_line (protocol : text) (note : option text).

Definition line_of (r : report) : line :=
  match r with R_raw message => Raw_line message | R_packet pkt note => Packet_line (protocol_name pkt) note end.

(** The same from the bytes. *)
Definition transport_line (outer icmp : string) (icmp_proto proto : Z) (seg : list Z) (n : Z)
    (other : option text) : line :=
  let whole_or ok name :=
    if ok : bool then Packet_line (lit name) None
    else Packet_line (lit outer) (Some (lit " " ++ lit name ++ lit " (truncated)")) in
  if proto =? 6 then whole_or (tcp_whole seg n) "TCP"%string
  else if proto =? 17 then whole_or (8 <=? n) "UDP"%string
  else if proto =? icmp_proto then whole_or (8 <=? n) icmp
  else Packet_line (lit outer) other.
Definition network_line (ether_type : Z) (p : list Z) (n : Z) : line :=
  let hl := byte_at p 0 mod 16 * 4 in
  if ether_type =? 0x0806 then
    if arp_whole p n then Packet_line (lit "ARP") None else Packet_line (lit "ETH") (Some (lit " ARP (truncated)"))
  else if ether_type =? 0x86DD then
    if (40 <=? n) && (byte_at p 0 / 16 =? 6) then
      transport_line "IPv6" "ICMPv6" 58 (byte_at p 6) (advance p 40) (n - 40) None
    else Packet_line (lit "ETH") (Some (lit " IPv6 (truncated)"))
  else if ether_type =? 0x0800 then
    if (20 <=? n) && (byte_at p 0 / 16 =? 4) && (20 <=? hl) && (hl <=? n) then
      transport_line "IP" "ICMP" 1 (byte_at p 9) (advance p hl) ((if hl <=? word p 2 then Z.min (word p 2) n else n) - hl)
        (Some (snprintf 32 (lit " proto=" ++ dec (byte_at p 9))))
    else Raw_line (lit "(truncated IPv4 header)")
  else Packet_line (lit "ETH") None.
Definition wire_line (frame : list Z) (len : Z) : line :=
  match link frame len with
  | None => Raw_line (lit "(truncated Ethernet frame)")
  | Some (ether_type, off) => network_line ether_type (advance frame off) (len - off)
  end.

(** What a report is about. *)
Definition report_ok (s u len : Z) (f : dispfilter_fields_t) (l : line) (header : list Z) (sg : list Z * Z)
    (r : report) : Prop :=
  line_of r = l /\
  match r with
  | R_raw _ => True
  | R_packet pkt _ =>
    packet_fields pkt = f /\ header_verdict pkt header /\ verdicts_true pkt sg /\
    capture_length_ (base_of pkt) = len /\ ts_seconds_ (base_of pkt) = s /\ ts_microseconds_ (base_of pkt) = u
  end.
Definition reports (frame : list Z) (len s u : Z) : report -> Prop :=
  report_ok s u len (wire_fields frame len) (wire_line frame len) (ip_header frame len) (segment frame len).

(** The parts of a report, each by computation. *)
Ltac report := repeat first [done|eexists|split].

Section Descent.
Context (len s u : Z) (eth : eth_header_t) (p : list Z) (n : Z) (Hv : valid_view p n) (Hn : n < 65536).
Local Abbreviation f := (set_eth (src_mac eth) (dst_mac eth) zero_fields).

Lemma dissect_ipv4_ok :
  exists r, dissect_ipv4 len s u eth p n f = Ret (network_fields 0x0800 p n f, r) /\
    report_ok s u len (network_fields 0x0800 p n f) (network_line 0x0800 p n) (network_header p)
      (network_segment 0x0800 p n) r.
Proof using Hv Hn.
  unfold dissect_ipv4, network_fields, network_segment, network_line. cbn [Z.eqb].
  destruct (ip_parse_ref p n Hv) as (r & E & Hr). destruct (ip_parse_spec p n Hv) as (r' & E' & Hr').
  rewrite E in E'. injection E' as <-. rewrite E. obind.
  destruct r as [[[ip seg] k]|]; [|rewrite Hr; by eexists].
  destruct Hr as (-> & Hseg & Hk & Hp & Hs & Hd & Hihl). rewrite <- Hseg, <- Hk, <- Hp, <- Hs, <- Hd.
  destruct Hr' as (Hok & _ & _ & _ & Hk' & Hvs & Hsum). rewrite Hihl in Hsum.
  change (take (Z.to_nat (byte_at p 0 mod 16 * 4)) p) with (network_header p) in Hsum. clear E Hseg Hk.
  destruct Hok as (_ & Hi5 & _ & _ & _ & _ & _ & _ & _ & _ & Ls & Bs & Ld & Bd).
  assert (k < 65536) as Hk6 by (subst k; unfold ip_payload_len; zcase; lia). clear Hk'.
  unfold transport_fields, transport_line, IP_PROTO_TCP, IP_PROTO_UDP, IP_PROTO_ICMP.
  destruct (protocol ip =? 6); [|destruct (protocol ip =? 17); [|destruct (protocol ip =? 1)]].
  - destruct (tcp_parse_ref seg k Hvs) as ([[[t ?] ?]|] & -> & Ht); obind; [|rewrite Ht; report].
    destruct Ht as (Hw & Es & Ed). rewrite Hw, <- Es, <- Ed.
    unfold tcp_whole in Hw. rewrite !andb_true_iff in Hw.
    rewrite (tcp_verify_eq seg k) by (done || lia). obind. report.
  - destruct (udp_parse_ref seg k Hvs) as ([[[t ?] ?]|] & -> & Ht); obind.
    2: { destruct (Z.leb_spec 8 k); [lia|]. report. }
    destruct Ht as (Hw & Es & Ed). destruct (Z.leb_spec 8 k); [|lia]. rewrite <- Es, <- Ed.
    rewrite (udp_verify_eq seg k) by (done || lia). obind. report.
  - destruct (icmp_parse_spec ICMP_FAMILY_V4 seg k Hvs) as ([i|] & -> & Hi); obind.
    2: { destruct (Z.leb_spec 8 k); [lia|]. report. }
    destruct Hi as (_ & Hi & _). rewrite icmpv4_verify_eq by (done || unfold max_sum_len; lia). obind.
    destruct (Z.leb_spec 8 k); [|lia]. report.
  - report.
Qed.

Lemma dissect_ipv6_ok :
  exists r, dissect_ipv6 len s u eth p n f = Ret (network_fields 0x86DD p n f, r) /\
    report_ok s u len (network_fields 0x86DD p n f) (network_line 0x86DD p n) (network_header p)
      (network_segment 0x86DD p n) r.
Proof using Hv Hn.
  unfold dissect_ipv6, network_fields, network_segment, network_line. cbn [Z.eqb].
  destruct (ipv6_parse_ref p n Hv) as (r & E & Hr). destruct (ipv6_parse_spec p n Hv) as (r' & E' & Hr').
  rewrite E in E'. injection E' as <-. rewrite E. obind.
  destruct r as [[[h seg] k]|]; [|rewrite Hr; by eexists].
  destruct Hr as (-> & Hseg & Hk & Hp & Hs & Hd). rewrite <- Hseg, <- Hk, <- Hp, <- Hs, <- Hd.
  destruct Hr' as (Hok & _ & Hk' & Hvs). clear E Hseg Hk.
  destruct Hok as (_ & _ & _ & _ & _ & _ & Ls & Bs & Ld & Bd).
  assert (k + 40 <= max_sum_len) as Hk6 by (unfold max_sum_len; lia). clear Hk'.
  unfold transport_fields, transport_line, IP_PROTO_TCP, IP_PROTO_UDP, IP_PROTO_ICMPV6.
  destruct (next_header h =? 6); [|destruct (next_header h =? 17); [|destruct (next_header h =? 58)]].
  - destruct (tcp_parse_ref seg k Hvs) as ([[[t ?] ?]|] & -> & Ht); obind; [|rewrite Ht; report].
    destruct Ht as (Hw & Es & Ed). rewrite Hw, <- Es, <- Ed.
    unfold tcp_whole in Hw. rewrite !andb_true_iff in Hw.
    rewrite (tcp_verify_ipv6_eq seg k) by (done || lia). obind. report.
  - destruct (udp_parse_ref seg k Hvs) as ([[[t ?] ?]|] & -> & Ht); obind.
    2: { destruct (Z.leb_spec 8 k); [lia|]. report. }
    destruct Ht as (Hw & Es & Ed). destruct (Z.leb_spec 8 k); [|lia]. rewrite <- Es, <- Ed.
    rewrite (udp_verify_ipv6_eq seg k) by (done || lia). obind. report.
  - destruct (icmp_parse_spec ICMP_FAMILY_V6 seg k Hvs) as ([i|] & -> & Hi); obind.
    2: { destruct (Z.leb_spec 8 k); [lia|]. report. }
    destruct Hi as (_ & Hi & _). rewrite icmpv6_verify_eq by done. obind.
    destruct (Z.leb_spec 8 k); [|lia]. report.
  - report.
Qed.

Lemma dissect_arp_ok header sg :
  exists r, dissect_arp len s u eth p n = Ret r /\ report_ok s u len f (network_line 0x0806 p n) header sg r.
Proof using Hv.
  unfold dissect_arp, network_line. cbn [Z.eqb]. destruct (arp_parse_ref p n Hv) as ([arp|] & -> & ->); obind; report.
Qed.
End Descent.

Lemma dissect_ok frame len s u : valid_view frame len -> len <= RAW_SOCKET_MAX_FRAME ->
  exists r, dissect frame len s u = Ret (wire_fields frame len, r) /\ reports frame len s u r.
Proof.
  intros Hv Hl. unfold RAW_SOCKET_MAX_FRAME in Hl. unfold dissect, reports, wire_fields, segment, wire_line, ip_header.
  pose proof (eth_parse_ref frame len Hv) as He. destruct (link frame len) as [[ty off]|] eqn:El.
  2: { rewrite He. obind. by eexists. }
  assert (len - off < 65536) as Hn.
  { revert El. unfold link. repeat case_match; intros [= <- <-]; lia. }
  destruct He as (Ho & h & -> & <- & <- & <-). obind.
  assert (valid_view (advance frame off) (len - off)) as Hp by by apply valid_view_advance.
  unfold ETH_TYPE_ARP, ETH_TYPE_IPV6, ETH_TYPE_IPV4.
  destruct (Z.eqb_spec (ether_type h) 0x0806) as [->|H1].
  { destruct (dissect_arp_ok len s u h _ _ Hp (network_header (advance frame off))
      (network_segment 0x0806 (advance frame off) (len - off))) as (r & -> & Hr). obind. by exists r. }
  destruct (Z.eqb_spec (ether_type h) 0x86DD) as [->|H2]; [exact (dissect_ipv6_ok len s u h _ _ Hp Hn)|].
  destruct (Z.eqb_spec (ether_type h) 0x0800) as [->|H3]; cbn [negb]; [exact (dissect_ipv4_ok len s u h _ _ Hp Hn)|].
  eexists. unfold network_fields, network_line. apply Z.eqb_neq in H1, H2, H3. rewrite H1, H2, H3. report.
Qed.

Lemma length_slice data i n : 0 <= i -> 0 <= n -> i + n <= zlen data -> length (slice data i n) = Z.to_nat n.
Proof. apply length_sub. Qed.

Lemma wire_fields_ok frame len : valid_view frame len -> fields_ok (wire_fields frame len).
Proof.
  intros Hv. pose proof Hv as (_ & Hl & _). unfold wire_fields.
  pose proof (eth_parse_ref frame len Hv) as He. destruct (link frame len) as [[ty off]|] eqn:El; [|done].
  destruct He as (Ho & _). assert (14 <= len) as H14.
  { revert El. unfold link. repeat case_match; intros [= <- <-]; lia. }
  assert (zlen (advance frame off) = zlen frame - off) as Hz by (apply zlen_advance; lia).
  set (p := advance frame off) in *.
  assert (forall proto seg n f, fields_ok f -> fields_ok (transport_fields proto seg n f)) as Ht.
  { intros proto seg n f Hf. unfold transport_fields. by repeat case_match. }
  unfold network_fields. repeat case_match; try apply Ht; unfold fields_ok; cbn;
    rewrite ?andb_true_iff in *; split_and!; try done; apply length_slice; lia.
Qed.

(** ** Printing *)

(** A filter as [dispfilter_compile] makes them, and what it decides. *)
Definition filter_ok (filter : filter_ptr) : Prop :=
  match filter with Some (_, {| root := Some n |}) => node_ok n | _ => True end.
Definition verdict (filter : filter_ptr) (f : dispfilter_fields_t) : bool :=
  match filter with Some (_, {| root := Some n |}) => evaluates n f | _ => true end.

Lemma passes_filter_spec filter f : filter_ok filter -> fields_ok f ->
  passes_filter filter f = Ret (verdict filter f).
Proof.
  intros Hf Hok. unfold passes_filter, verdict. destruct filter as [[a [? ? [n|]]]|]; [|done..].
  cbn. rewrite eval_node_spec by done. cbn. by destruct (evaluates n f).
Qed.

(** The text of a packet: a summary line and a dump. *)
Definition printed (number : Z) (r : report) (dump : text) : text :=
  lit "[#" ++ dec number ++ lit "] " ++ summary r ++ ["010"%char] ++ dump.

Lemma print_packet_ok frame len s u number filter :
  valid_view frame len -> len <= RAW_SOCKET_MAX_FRAME -> filter_ok filter ->
  exists r dump, dissect frame len s u = Ret (wire_fields frame len, r) /\
    reports frame len s u r /\
    hex_dump frame len = Ret dump /\ undump dump = take (Z.to_nat len) frame /\
    print_packet frame len s u number filter =
      Ret (if verdict filter (wire_fields frame len) then printed number r dump else []).
Proof.
  intros Hv Hl Hf. destruct (dissect_ok frame len s u Hv Hl) as (r & E & Hr).
  unfold RAW_SOCKET_MAX_FRAME in Hl.
  assert (exists dump, hex_dump frame len = Ret dump /\ undump dump = take (Z.to_nat len) frame) as (dump & Ed & Hu).
  { rewrite hex_dump_spec by (done || lia). eexists. split; [done|]. by apply undump_spec. }
  exists r, dump. split_and!; try done. unfold print_packet. rewrite E. obind. unfold finish.
  rewrite passes_filter_spec by (done || by apply wire_fields_ok). obind.
  destruct (verdict filter _); cbn [negb]; [|done]. rewrite Ed. by obind.
Qed.

(** ** Properties *)

(** C5: every frame of at most 65536 bytes, however malformed, is decoded and printed without
    leaving it.  The line is that of the innermost protocol whose header is whole, with the note
    of what is cut short, and a frame is shown undecoded only if its Ethernet or IPv4 header is
    not whole; the packet object has exactly the addresses and ports found in the bytes; the
    verdict on the IPv4 header's checksum, and on that of the segment as captured with its
    pseudo-header, is whether the one's-complement sum is all ones (a zero UDP field is valid
    over IPv4; over IPv6 nothing is claimed of one); and the frame's bytes can be read back from
    the dump. *)
Theorem print_packet_faithful frame len s u number :
  valid_view frame len -> len <= RAW_SOCKET_MAX_FRAME ->
  exists r dump, print_packet frame len s u number None = Ret (printed number r dump) /\
    dissect frame len s u = Ret (wire_fields frame len, r) /\
    reports frame len s u r /\
    undump dump = take (Z.to_nat len) frame.
Proof.
  intros Hv Hl. destruct (print_packet_ok frame len s u number None Hv Hl I)
    as (r & dump & Ed & Hr & _ & Hu & ->). exists r, dump. by split_and!.
Qed.

(** C16: with the filter [dispfilter_compile] made of a non-empty expression, a packet of at most
    65536 bytes that has the layer of each field the expression compares with [!=] is printed as
    without a filter when the expression holds, as documented, of the addresses and ports in its
    bytes, and not at all otherwise. *)
Theorem print_packet_filtered malloc1 malloc2 h expr err_ err_len_ c frame len s u number :
  fresh malloc1 malloc2 h ->
  dispfilter_compile malloc1 malloc2 h (Some expr) err_ err_len_ = Ret c -> expr <> [] ->
  DispFilter.ret c <> None -> valid_view frame len -> len <= RAW_SOCKET_MAX_FRAME ->
  exists n, denotes expr n /\ (ne_present n (wire_fields frame len) = true ->
    print_packet frame len s u number (DispFilter.ret c) =
      if DispFilter.holds n (wire_fields frame len) then print_packet frame len s u number None else Ret []).
Proof.
  intros Hfresh E Hne Hr Hv Hl.
  destruct (compiled_filter malloc1 malloc2 h expr err_ err_len_ c Hfresh E Hne Hr) as (n & a & k & Hd & Hok & ->).
  exists n. split; [done|]. intros Hp.
  destruct (print_packet_ok frame len s u number (Some (a, {| nodes := Some k; node_count := size n; root := Some n |})) Hv Hl Hok)
    as (r & dump & E1 & _ & E2 & _ & ->). unfold verdict.
  rewrite evaluates_holds by done. destruct (DispFilter.holds n _); [|done].
  destruct (print_packet_ok frame len s u number None Hv Hl I) as (r' & dump' & E1' & _ & E2' & _ & ->).
  rewrite E1 in E1'. rewrite E2 in E2'. by simplify_eq.
Qed.

(** A TCP SYN over IPv4 behind a VLAN tag, with a good checksum, and an ARP request. *)
Definition sample_syn : list Z :=
  [2; 0; 0; 0; 0; 2; 2; 0; 0; 0; 0; 1; 0x81; 0; 0; 42; 8; 0;
   0x45; 0; 0; 40; 0; 1; 0x40; 0; 64; 6; 0x26; 0xcd; 10; 0; 0; 1; 10; 0; 0; 2;
   0xc0; 1; 1; 0xbb; 0; 0; 0; 1; 0; 0; 0; 0; 0x50; 2; 0xff; 0xff; 0xda; 0x22; 0; 0].
Definition sample_arp : list Z :=
  replicate 6 255 ++ [2; 0; 0; 0; 0; 1; 8; 6; 0; 1; 8; 0; 6; 4; 0; 1; 2; 0; 0; 0; 0; 1; 10; 0; 0; 1;
   0; 0; 0; 0; 0; 0; 10; 0; 0; 2].

Example sample_syn_summary :
  match dissect sample_syn 58 12 345 with
  | Ret (_, r) => summary r = lit "12.000345 len=58 02:00:00:00:00:01 > 02:00:00:00:00:02 vlan=42 [TCP] 10.0.0.1 > 10.0.0.2 ttl=64 49153 > 443 seq=1 ack=0 flags=[SYN]"
  | _ => False
  end.
Proof. vm_compute. reflexivity. Qed.
Example sample_arp_printed :
  print_packet sample_arp 42 12 345 7 None = Ret (
    lit "[#7] 12.000345 len=42 02:00:00:00:00:01 > ff:ff:ff:ff:ff:ff [ARP] who-has 10.0.0.2 tell 10.0.0.1" ++
    "010"%char :: lit "  0x0000:  ffff ffff ffff 0200 0000 0001 0806 0001  ................" ++
    "010"%char :: lit "  0x0010:  0800 0604 0001 0200 0000 0001 0a00 0001  ................" ++
    "010"%char :: lit "  0x0020:  0000 0000 0000 0a00 0002                 .........." ++ ["010"%char]).
Proof. vm_compute. reflexivity. Qed.

Lemma sample_syn_view : valid_view sample_syn 58.
Proof. apply (bool_decide_unpack _). vm_compute. exact I. Qed.

Lemma print_packet_faithful_witness :
  exists r dump, print_packet sample_syn 58 12 345 1 None = Ret (printed 1 r dump) /\
    dissect sample_syn 58 12 345 = Ret (wire_fields sample_syn 58, r) /\
    reports sample_syn 58 12 345 r /\
    undump dump = take (Z.to_nat 58) sample_syn.
Proof. apply print_packet_faithful; [exact sample_syn_view|unfold RAW_SOCKET_MAX_FRAME; lia]. Defined.

Lemma print_packet_filtered_witness :
  exists n, denotes sample_expr n /\ (ne_present n (wire_fields sample_syn 58) = true ->
    print_packet sample_syn 58 12 345 1 (DispFilter.ret sample_result) =
      if DispFilter.holds n (wire_fields sample_syn 58) then print_packet sample_syn 58 12 345 1 None else Ret []).
Proof.
  apply (print_packet_filtered (Some 100) (Some 200) [1] sample_expr (Some []) 80);
    [exact DispFilter.sample_fresh|vm_compute; reflexivity|discriminate|vm_compute; discriminate|
     exact sample_syn_view|unfold RAW_SOCKET_MAX_FRAME; lia].
Defined.
