(* ===== verification/Stack.v ===== *)
(** * From the sender to the printer

    Whole frames as a sender builds them, layer by layer with the checksums the RFCs prescribe,
    and the descent of src/src/cpp/packet_printer.cpp on their bytes: the packet object that is
    printed has the sender's headers, and every checksum is accepted. *)
From S2P Require Import Prelude Text Literals Checksum EthParser ArpParser IpParser Ipv6Parser TcpUdpParser IcmpParser.
From S2P Require Import Packet HexDump DispParser DispFilter RawSocket PacketPrinter.
From stdpp Require Import options.

Local Open Scope Z_scope.

(** ** The transport layer *)

(** A segment; for TCP with the bits no header field keeps, for ICMP with the four bytes that are
    an identifier and a sequence number only in an echo. *)
Inductive transport :=
| Tcp (h : tcp.tcp_header_t) (reserved ecn : Z) (options payload : list Z)
| Udp (h : udp.udp_header_t) (payload : list Z)
| Icmp (h : icmp_header_t) (other payload : list Z)
| Other (proto : Z) (bytes : list Z).

Definition icmp_encode (h : icmp_header_t) (other : list Z) : list Z :=
  [type h; code h] ++ enc16 (IcmpParser.checksum h) ++
  (if is_echo h then enc16 (echo_id h) ++ enc16 (echo_seq h) else other).

Definition seg_bytes (t : transport) : list Z :=
  match t with
  | Tcp h reserved ecn options payload => tcp_encode h reserved ecn ++ options ++ payload
  | Udp h payload => udp_encode h ++ payload
  | Icmp h other payload => icmp_encode h other ++ payload
  | Other _ bytes => bytes
  end.

Definition icmp_proto (family : icmp_family_t) : Z :=
  match family with ICMP_FAMILY_V4 => IP_PROTO_ICMP | ICMP_FAMILY_V6 => IP_PROTO_ICMPV6 end.
Definition seg_proto (family : icmp_family_t) (t : transport) : Z :=
  match t with
  | Tcp _ _ _ _ _ => IP_PROTO_TCP
  | Udp _ _ => IP_PROTO_UDP
  | Icmp _ _ _ => icmp_proto family
  | Other proto _ => proto
  end.

Definition seg_ok (family : icmp_family_t) (t : transport) : Prop :=
  match t with
  | Tcp h reserved ecn options payload =>
    tcp_header_ok h /\ 0 <= reserved < 16 /\ 0 <= ecn < 4 /\ is_bytes options /\ is_bytes payload /\
    zlen options = tcp.data_offset h * 4 - 20
  | Udp h payload => udp_header_ok h /\ is_bytes payload
  | Icmp h other payload =>
    icmp_header_ok family h /\ is_bytes other /\ length other = 4%nat /\ is_bytes payload /\
    (is_echo h = false -> echo_id h = 0 /\ echo_seq h = 0)
  | Other proto bytes =>
    is_bytes bytes /\ proto <> IP_PROTO_TCP /\ proto <> IP_PROTO_UDP /\ proto <> icmp_proto family
  end.

(** The checksum field set to [c]. *)
Definition fill (c : Z) (t : transport) : transport :=
  match t with
  | Tcp h reserved ecn options payload =>
    Tcp {| tcp.src_port := tcp.src_port h; tcp.dst_port := tcp.dst_port h; tcp.seq_num := tcp.seq_num h;
           tcp.ack_num := tcp.ack_num h; tcp.data_offset := tcp.data_offset h; tcp.flags := tcp.flags h;
           tcp.window_size := tcp.window_size h; tcp.checksum := c; tcp.urgent_pointer := tcp.urgent_pointer h;
           tcp.checksum_valid := tcp.checksum_valid h |} reserved ecn options payload
  | Udp h payload =>
    Udp {| udp.src_port := udp.src_port h; udp.dst_port := udp.dst_port h; udp.length := udp.length h;
           udp.checksum := c; udp.checksum_present := negb (c =? 0); udp.checksum_valid := udp.checksum_valid h |} payload
  | Icmp h other payload =>
    Icmp {| type := type h; code := code h; IcmpParser.checksum := c;
            IcmpParser.checksum_valid := IcmpParser.checksum_valid h; is_echo := is_echo h;
            echo_id := echo_id h; echo_seq := echo_seq h |} other payload
  | Other _ _ => t
  end.

(** RFC 793, 768, 792, 4443: the complement of the sum with the field zero; a UDP sender sends
    all ones for zero. *)
Definition seal_segment (pseudo : list Z) (t : transport) : transport :=
  let c := rfc1071_checksum (pseudo ++ seg_bytes (fill 0 t)) in
  match t with
  | Udp _ _ => fill (if c =? 0 then 65535 else c) t
  | _ => fill c t
  end.

(** *** Sealed segments add up *)

(** The bytes around the checksum field. *)
Definition around (t : transport) : list Z * list Z :=
  match t with
  | Tcp h reserved ecn options payload =>
    (enc16 (tcp.src_port h) ++ enc16 (tcp.dst_port h) ++ enc32 (tcp.seq_num h) ++ enc32 (tcp.ack_num h) ++
     [tcp.data_offset h * 16 + reserved; ecn * 64 + tcp.flags h] ++ enc16 (tcp.window_size h),
     enc16 (tcp.urgent_pointer h) ++ options ++ payload)
  | Udp h payload =>
    (enc16 (udp.src_port h) ++ enc16 (udp.dst_port h) ++ enc16 (udp.length h), payload)
  | Icmp h other payload =>
    ([type h; code h], (if is_echo h then enc16 (echo_id h) ++ enc16 (echo_seq h) else other) ++ payload)
  | Other _ bytes => ([], bytes)
  end.

Definition is_other (t : transport) : bool := match t with Other _ _ => true | _ => false end.

Lemma fill_bytes c t : is_other t = false ->
  seg_bytes (fill c t) = fst (around t) ++ c / 256 :: c mod 256 :: snd (around t).
Proof.
  destruct t as [h r e o p|h p|h o p|]; [..|done]; intros _; cbn [seg_bytes fill around fst snd];
    unfold tcp_encode, udp_encode, icmp_encode; cbn [tcp.src_port tcp.dst_port tcp.seq_num tcp.ack_num
      tcp.data_offset tcp.flags tcp.window_size tcp.checksum tcp.urgent_pointer udp.src_port udp.dst_port
      udp.length udp.checksum type code IcmpParser.checksum is_echo echo_id echo_seq];
    unfold enc16 at 1 2 3; rewrite <- ?app_assoc; done.
Qed.

Lemma around_ok family t : seg_ok family t -> is_other t = false ->
  is_bytes (fst (around t)) /\ is_bytes (snd (around t)) /\ Nat.even (length (fst (around t))) = true.
Proof.
  destruct t as [h r e o p|h p|h o p|]; [..|done]; cbn [seg_ok around fst snd]; intros H _.
  - destruct H as ((?&?&?&?&?&?&?&?&?&?) & ? & ? & ? & ? & _). split_and!; [solve_bytes..|done].
  - destruct H as ((?&?&?&?&?&?) & ?). split_and!; [solve_bytes..|done].
  - destruct H as ((?&?&?&?&?&?&?) & ? & ? & ? & _). split_and!; [solve_bytes| |done].
    destruct (is_echo h); rewrite <- ?app_assoc; solve_bytes.
Qed.

Lemma rfc1071_checksum_range l : is_bytes l -> 0 <= rfc1071_checksum l < 65536.
Proof. intros Hl. destruct (rfc1071_sum_spec l Hl) as (? & _). unfold rfc1071_checksum. lia. Qed.

(** RFC 768's all ones in place of zero. *)
Lemma rfc1071_sender_ones pre post :
  is_bytes pre -> is_bytes post -> Nat.even (length pre) = true ->
  rfc1071_checksum (pre ++ 0 :: 0 :: post) = 0 -> rfc1071_sum (pre ++ 255 :: 255 :: post) = 65535.
Proof.
  intros Hpre Hpost He Hc. unfold rfc1071_checksum in Hc.
  assert (rfc1071_sum (pre ++ 0 :: 0 :: post) = 65535) as Hs by lia.
  apply rfc1071_ok_iff in Hs as [Hm Hn]; [|solve_bytes]. apply rfc1071_ok_iff; [solve_bytes|].
  destruct (rfc1071_sum_spec (pre ++ 0 :: 0 :: post)) as (_ & _ & _ & Hp); [solve_bytes|].
  assert (words_sum (pre ++ 255 :: 255 :: post) = words_sum (pre ++ 0 :: 0 :: post) + 1 * 65535) as ->.
  { rewrite !words_sum_app by done. unfold words_sum. simpl. lia. }
  rewrite Z_mod_plus_full. split; [done|lia].
Qed.

Lemma seal_segment_sums family pseudo t : seg_ok family t -> is_other t = false ->
  is_bytes pseudo -> Nat.even (length pseudo) = true ->
  rfc1071_sum (pseudo ++ seg_bytes (seal_segment pseudo t)) = 65535.
Proof.
  intros Hok Ho Hp He. destruct (around_ok family t Hok Ho) as (H1 & H2 & H3). unfold seal_segment.
  rewrite (fill_bytes 0) by done. change (0 / 256) with 0. change (0 mod 256) with 0.
  rewrite !app_assoc. set (pre := pseudo ++ fst (around t)).
  assert (is_bytes pre /\ Nat.even (length pre) = true) as [Hpre Hpe].
  { subst pre. split; [by apply Forall_app|]. rewrite length_app, Nat.even_add, He, H3. done. }
  assert (forall c, pseudo ++ seg_bytes (fill c t) = pre ++ c / 256 :: c mod 256 :: snd (around t)) as Hfill.
  { intros c. rewrite fill_bytes by done. subst pre. by rewrite app_assoc. }
  pose proof (rfc1071_checksum_range (pre ++ 0 :: 0 :: snd (around t)) ltac:(solve_bytes)) as Hr.
  set (c := rfc1071_checksum (pre ++ 0 :: 0 :: snd (around t))) in *.
  assert (rfc1071_sum (pre ++ c / 256 :: c mod 256 :: snd (around t)) = 65535) as Hmain.
  { apply rfc1071_sender; try done; [|solve_byte..]. fold c. Z.div_mod_to_equations. lia. }
  destruct t; try done; rewrite Hfill; [done| |done].
  destruct (Z.eqb_spec c 0) as [Hz|_]; [|done].
  change (65535 / 256) with 255. change (65535 mod 256) with 255. by apply rfc1071_sender_ones.
Qed.

Lemma fill_ok family c t : 0 <= c < 65536 -> seg_ok family t -> seg_ok family (fill c t).
Proof.
  intros Hc. destruct t as [h r e o p|h p|h o p|]; cbn [seg_ok fill]; [..|done].
  - intros ((?&?&?&?&?&?&?&?&?&?) & ?). split; [unfold tcp_header_ok; cbn; split_and!; done || lia|done].
  - intros ((?&?&?&?&?&?) & ?). split; [unfold udp_header_ok; cbn; split_and!; done || lia|done].
  - intros ((?&?&?&?&?&?&?) & ?). split; [unfold icmp_header_ok; cbn; split_and!; done || lia|done].
Qed.

Lemma length_fill c t : length (seg_bytes (fill c t)) = length (seg_bytes t).
Proof. by destruct t; cbn [seg_bytes fill]; rewrite ?length_app. Qed.

Lemma seal_segment_fill family pseudo t : seg_ok family t -> is_bytes pseudo ->
  exists c, 0 <= c < 65536 /\ seal_segment pseudo t = fill c t.
Proof.
  intros Hok Hp. unfold seal_segment. set (c := rfc1071_checksum _).
  assert (0 <= c < 65536) as Hc.
  { apply rfc1071_checksum_range, Forall_app. split; [done|].
    pose proof (fill_ok family 0 t ltac:(lia) Hok) as Hok0. destruct (is_other t) eqn:Eo.
    - destruct t; try done. apply Hok.
    - destruct (around_ok family t Hok Eo) as (? & ? & _). rewrite fill_bytes by done. solve_bytes. }
  destruct t; try by exists c. exists (if c =? 0 then 65535 else c). split; [destruct (c =? 0); lia|done].
Qed.

(** *** The parsers on what was encoded *)

Lemma tcp_parse_encode h r e rest len :
  tcp_header_ok h -> 0 <= r < 16 -> 0 <= e < 4 -> valid_view (tcp_encode h r e ++ rest) len ->
  20 <= len -> tcp.data_offset h * 4 <= len ->
  exists p n, tcp_parse (Some (tcp_encode h r e ++ rest)) len Dest = Ret (Some (h, p, n)).
Proof.
  intros Hok Hr He Hv H20 Hlen. set (data := tcp_encode h r e ++ rest) in *.
  assert (byte_at data 12 = tcp.data_offset h * 16 + r) as E12 by reflexivity.
  assert (byte_at data 13 = e * 64 + tcp.flags h) as E13 by reflexivity.
  pose proof Hok as (_ & _ & _ & _ & Ho & Hf & _).
  destruct (tcp_parse_spec data len Hv) as (res & -> & Hres). destruct res as [[[h' p] n]|].
  - destruct Hres as (Hok' & Hd & _). subst data. apply app_inj_1 in Hd as [Hd _]; [|done].
    exists p, n. do 4 f_equal. eapply tcp_encode_inj; [done|done| | | | |symmetry; exact Hd];
      try done; rewrite ?E12, ?E13; Z.div_mod_to_equations; lia.
  - exfalso. rewrite E12 in Hres. Z.div_mod_to_equations. lia.
Qed.

Lemma udp_parse_encode h rest len :
  udp_header_ok h -> valid_view (udp_encode h ++ rest) len -> 8 <= len ->
  exists p n, udp_parse (Some (udp_encode h ++ rest)) len Dest = Ret (Some (h, p, n)).
Proof.
  intros Hok Hv H8. destruct (udp_parse_spec _ _ Hv) as (res & -> & Hres). destruct res as [[[h' p] n]|]; [|lia].
  destruct Hres as (Hok' & Hd & _). apply app_inj_1 in Hd as [Hd _]; [|done]. exists p, n. do 4 f_equal.
  destruct h as [sp dp l c pr cv], h' as [sp' dp' l' c' pr' cv']. unfold udp_header_ok, udp_encode in *.
  cbn [udp.src_port udp.dst_port udp.length udp.checksum udp.checksum_present udp.checksum_valid] in *.
  destruct Hok as (?&?&?&?&->&->), Hok' as (?&?&?&?&->&->). do 3 peel_app Hd.
  repeat match goal with E : enc16 _ = enc16 _ |- _ => apply enc16_inj in E; [|lia..] end. by subst.
Qed.

Lemma icmp_parse_encode family h other rest len :
  icmp_header_ok family h -> (is_echo h = false -> echo_id h = 0 /\ echo_seq h = 0) -> length other = 4%nat ->
  valid_view (icmp_encode h other ++ rest) len -> 8 <= len ->
  icmp_parse (Some (icmp_encode h other ++ rest)) len family Dest = Ret (Some h).
Proof.
  intros Hok Hz Ho Hv H8. set (data := icmp_encode h other ++ rest) in *.
  assert (byte_at data 0 = type h /\ byte_at data 1 = code h /\ byte_at data 2 = IcmpParser.checksum h / 256 /\
    byte_at data 3 = IcmpParser.checksum h mod 256) as (E0 & E1 & E2 & E3) by done.
  assert (is_echo h = true -> byte_at data 4 = echo_id h / 256 /\ byte_at data 5 = echo_id h mod 256 /\
    byte_at data 6 = echo_seq h / 256 /\ byte_at data 7 = echo_seq h mod 256) as E4
    by (intros E; unfold data, icmp_encode; by rewrite E).
  clearbody data. destruct (icmp_parse_spec family data len Hv) as (res & -> & Hres). destruct res as [h'|]; [|lia].
  destruct Hres as (Hok' & _ & Ht & Hc & Hs & Hi & Hq). rewrite E0 in Ht. rewrite E1 in Hc. rewrite E2, E3 in Hs. do 2 f_equal.
  destruct h as [ty co ck cv ec id sq], h' as [ty' co' ck' cv' ec' id' sq'].
  unfold icmp_header_ok in *. cbn [type code IcmpParser.checksum IcmpParser.checksum_valid is_echo echo_id echo_seq] in *.
  destruct Hok as (?&?&?&->&He&?&?), Hok' as (?&?&?&->&He'&?&?). subst ty' co'. rewrite <- He in He'. subst ec'.
  assert (ck' = ck) as -> by (rewrite Hs; apply be16_enc16; lia).
  destruct ec.
  - destruct (E4 eq_refl) as (F4 & F5 & F6 & F7). rewrite F4, F5 in Hi. rewrite F6, F7 in Hq.
    rewrite be16_enc16 in Hi, Hq by lia. by subst.
  - destruct (Hz eq_refl) as [-> ->]. by subst.
Qed.

Lemma ipv6_parse_encode h payload :
  ipv6_header_ok h -> is_bytes payload -> zlen (ipv6_encode h ++ payload) < 2 ^ 32 ->
  ipv6_parse (Some (ipv6_encode h ++ payload)) (zlen (ipv6_encode h ++ payload)) Dest =
    Ret (Some (h, payload, zlen payload)).
Proof.
  intros Hok Hp H32. pose proof (length_ipv6_encode h Hok) as L40. pose proof (zlen_nonneg payload).
  assert (zlen (ipv6_encode h ++ payload) = 40 + zlen payload) as El by (rewrite zlen_app; unfold zlen at 1; lia).
  assert (is_bytes (ipv6_encode h)) as He.
  { unfold ipv6_encode. destruct Hok as (->&Ht&?&?&?&?&Ls&?&Ld&?). unfold is_byte in Ht. solve_bytes. }
  assert (valid_view (ipv6_encode h ++ payload) (zlen (ipv6_encode h ++ payload))) as Hv
    by (split; [by apply Forall_app|lia]).
  destruct (ipv6_parse_spec _ _ Hv) as (r & -> & Hr). f_equal. destruct r as [[[h' p] n]|].
  - destruct Hr as (Hok' & Hd & -> & _). pose proof (length_ipv6_encode h' Hok').
    apply app_inj_1 in Hd as [Hd1 ->]; [|congruence]. apply ipv6_encode_inj in Hd1 as ->; [|done..].
    do 2 f_equal. lia.
  - exfalso. destruct Hr as [?|Hr]; [lia|]. destruct Hok as (Hver & Ht & _). unfold is_byte in Ht.
    assert (byte_at (ipv6_encode h ++ payload) 0 = version h * 16 + traffic_class h / 16) as E0 by done.
    rewrite E0, Hver in Hr. Z.div_mod_to_equations. lia.
Qed.

(** ** The network layer and the frame *)

Inductive network :=
| Arp (h : arp_header_t) (trailer : list Z)
| Ipv4 (h : ip_header_t) (options : list Z) (t : transport) (padding : list Z)
| Ipv6 (h : ipv6_header_t) (t : transport).

Definition net_type (n : network) : Z :=
  match n with Arp _ _ => ETH_TYPE_ARP | Ipv4 _ _ _ _ => ETH_TYPE_IPV4 | Ipv6 _ _ => ETH_TYPE_IPV6 end.

Definition net_bytes (n : network) : list Z :=
  match n with
  | Arp h trailer => arp_encode h ++ trailer
  | Ipv4 h options t padding => ip_encode h ++ options ++ seg_bytes t ++ padding
  | Ipv6 h t => ipv6_encode h ++ seg_bytes t
  end.

(** The headers agree with what they carry; Ethernet padding may follow an IPv4 datagram. *)
Definition net_ok (n : network) : Prop :=
  match n with
  | Arp h trailer => arp_header_ok h /\ is_bytes trailer
  | Ipv4 h options t padding =>
    ip_header_ok h /\ seg_ok ICMP_FAMILY_V4 t /\ protocol h = seg_proto ICMP_FAMILY_V4 t /\
    is_bytes options /\ zlen options = ihl h * 4 - 20 /\ is_bytes padding /\
    total_length h = ihl h * 4 + zlen (seg_bytes t)
  | Ipv6 h t =>
    ipv6_header_ok h /\ seg_ok ICMP_FAMILY_V6 t /\ next_header h = seg_proto ICMP_FAMILY_V6 t
  end.

(** The pseudo-header a segment is summed with. *)
Definition pseudo4 (h : ip_header_t) (t : transport) : list Z :=
  match t with
  | Icmp _ _ _ => []
  | _ => rfc793_pseudo (IpParser.src_addr h) (IpParser.dst_addr h) (seg_proto ICMP_FAMILY_V4 t) (zlen (seg_bytes t))
  end.
Definition pseudo6 (h : ipv6_header_t) (t : transport) : list Z :=
  rfc2460_pseudo (Ipv6Parser.src_addr h) (Ipv6Parser.dst_addr h) (seg_proto ICMP_FAMILY_V6 t) (zlen (seg_bytes t)).

(** An IPv4 header with its checksum, RFC 791. *)
Definition ip_fill (c : Z) (h : ip_header_t) : ip_header_t :=
  {| IpParser.version := IpParser.version h; ihl := ihl h; tos := tos h; total_length := total_length h;
     identification := identification h; IpParser.flags := IpParser.flags h; fragment_offset := fragment_offset h;
     ttl := ttl h; protocol := protocol h; IpParser.checksum := c; IpParser.src_addr := IpParser.src_addr h;
     IpParser.dst_addr := IpParser.dst_addr h; IpParser.checksum_valid := IpParser.checksum_valid h |}.

Definition seal (n : network) : network :=
  match n with
  | Arp h trailer => Arp h trailer
  | Ipv4 h options t padding =>
    Ipv4 (ip_fill (rfc1071_checksum (ip_encode (ip_fill 0 h) ++ options)) h) options (seal_segment (pseudo4 h t) t) padding
  | Ipv6 h t => Ipv6 h (seal_segment (pseudo6 h t) t)
  end.

(** The packet object a printer should show for it, every checksum accepted, and the remark after it. *)
Definition shown (b : option ip_header_t -> packet_base) (n : network) : packet * option text :=
  match n with
  | Arp h _ => (ArpPacket (b None) h, None)
  | Ipv4 h _ t _ =>
    let b := b (Some (set_checksum_valid true h)) in
    match t with
    | Tcp h _ _ _ _ => (TCPPacket b (tcp_with_valid true h), None)
    | Udp h _ => (UDPPacket b (udp_with_valid true h), None)
    | Icmp h _ _ => (IcmpPacket b (icmp_with_valid true h), None)
    | Other proto _ => (Packet b, Some (snprintf 32 (lit " proto=" ++ dec proto)))
    end
  | Ipv6 h t =>
    let pkt := Ipv6Packet (b None) h in
    (match t with
     | Tcp h _ _ _ _ => pkt (Some (tcp_with_valid true h)) None None
     | Udp h _ => pkt None (Some (udp_with_valid true h)) None
     | Icmp h _ _ => pkt None None (Some (icmp_with_valid true h))
     | Other _ _ => pkt None None None
     end, None)
  end.

(** *** Bytes *)

Lemma tcp_encode_bytes h r e : tcp_header_ok h -> 0 <= r < 16 -> 0 <= e < 4 -> is_bytes (tcp_encode h r e).
Proof. intros (?&?&?&?&?&?&?&?&?&?) ??. unfold tcp_encode. solve_bytes. Qed.

Lemma seg_bytes_ok family t : seg_ok family t -> is_bytes (seg_bytes t).
Proof.
  destruct t as [h r e o p|h p|h o p|]; cbn [seg_ok seg_bytes].
  - intros (Hh & ? & ? & ? & ? & _). apply Forall_app; split; [by apply tcp_encode_bytes|by apply Forall_app].
  - intros ((?&?&?&?&?&?) & ?). unfold udp_encode. rewrite <- !app_assoc. solve_bytes.
  - intros ((?&?&?&?&?&?&?) & ? & ? & ? & _). unfold icmp_encode. rewrite <- !app_assoc.
    destruct (is_echo h); rewrite <- ?app_assoc; solve_bytes.
  - intros H. apply H.
Qed.

Lemma take_seg (seg padding : list Z) : take (Z.to_nat (zlen seg)) (seg ++ padding) = seg.
Proof. unfold zlen. by rewrite Nat2Z.id, take_app_length. Qed.

Lemma seg_view seg padding : is_bytes seg -> is_bytes padding -> zlen (seg ++ padding) < 2 ^ 32 ->
  valid_view (seg ++ padding) (zlen seg).
Proof.
  intros Hs Hp H. split; [by apply Forall_app|]. rewrite zlen_app in *. pose proof (zlen_nonneg seg).
  pose proof (zlen_nonneg padding). lia.
Qed.

(** Headers fit into their segments. *)
Lemma seg_sizes family t : seg_ok family t ->
  match t with
  | Tcp h _ _ _ _ => 20 <= zlen (seg_bytes t) /\ tcp.data_offset h * 4 <= zlen (seg_bytes t)
  | Udp _ _ | Icmp _ _ _ => 8 <= zlen (seg_bytes t)
  | Other _ _ => True
  end.
Proof.
  destruct t as [h r e o p|h p|h o p|]; cbn [seg_ok seg_bytes]; [..|done].
  - intros (Hh & _ & _ & _ & _ & Hl). pose proof (zlen_nonneg p). pose proof (zlen_nonneg o).
    assert (zlen (tcp_encode h r e) = 20) as E by done. rewrite !zlen_app. lia.
  - intros _. pose proof (zlen_nonneg p). assert (zlen (udp_encode h) = 8) as E by done. rewrite zlen_app. lia.
  - intros (_ & _ & Ho & _). pose proof (zlen_nonneg p). assert (zlen (icmp_encode h o) = 8) as E.
    { unfold icmp_encode, zlen. rewrite !length_app. destruct (is_echo h); [done|]. by rewrite Ho. }
    rewrite zlen_app. lia.
Qed.

(** *** The descent *)

(** A segment whose checksum is the sender's. *)
Definition summed (pseudo : transport -> list Z) (t : transport) : Prop :=
  is_other t = false -> rfc1071_sum (pseudo t ++ seg_bytes t) = 65535.

Lemma seal_segment_ok family pseudo t : seg_ok family t ->
  (forall c, pseudo (fill c t) = pseudo t) -> is_bytes (pseudo t) -> Nat.even (length (pseudo t)) = true ->
  exists t', seal_segment (pseudo t) t = t' /\ seg_ok family t' /\ summed pseudo t' /\
    zlen (seg_bytes t') = zlen (seg_bytes t) /\ seg_proto family t' = seg_proto family t.
Proof.
  intros Hok Hf Hb He. destruct (seal_segment_fill family (pseudo t) t Hok Hb) as (c & Hc & E).
  exists (fill c t). split; [done|]. split_and!; [by apply fill_ok| |unfold zlen; by rewrite length_fill|by destruct t].
  intros Ho. rewrite Hf, <- E. apply (seal_segment_sums family); try done. by destruct t.
Qed.

Lemma pseudo4_fill h c t : pseudo4 h (fill c t) = pseudo4 h t.
Proof. unfold pseudo4, zlen. rewrite length_fill. by destruct t. Qed.
Lemma pseudo6_fill h c t : pseudo6 h (fill c t) = pseudo6 h t.
Proof. unfold pseudo6, zlen. rewrite length_fill. by destruct t. Qed.

Section Verdicts.
Context (t : transport) (padding : list Z) (Hpad : is_bytes padding) (Hsize : zlen (seg_bytes t ++ padding) < 65536).

Lemma verdict4 h : ip_header_ok h -> seg_ok ICMP_FAMILY_V4 t -> summed (pseudo4 h) t ->
  let seg := Some (seg_bytes t ++ padding) in
  let n := zlen (seg_bytes t) in
  let src := Some (IpParser.src_addr h) in
  let dst := Some (IpParser.dst_addr h) in
  match t with
  | Tcp _ _ _ _ _ => tcp_verify_checksum seg n src dst = Ret true
  | Udp _ _ => udp_verify_checksum seg n src dst = Ret true
  | Icmp _ _ _ => icmpv4_verify_checksum seg n = Ret true
  | Other _ _ => True
  end.
Proof using Hpad Hsize.
  intros (_&_&_&_&_&_&_&_&_&_&Ls&Hs&Ld&Hd) Hok Hsum.
  pose proof (seg_view _ padding (seg_bytes_ok _ t Hok) Hpad ltac:(lia)) as Hv.
  pose proof (seg_sizes _ t Hok) as Hz. rewrite zlen_app in Hsize. pose proof (zlen_nonneg padding).
  unfold summed in Hsum. destruct t; cbn [is_other pseudo4 seg_proto] in *; [..|done]; specialize (Hsum eq_refl).
  - rewrite (tcp_verify_eq _ _ Hv), take_seg by (done || lia). unfold IP_PROTO_TCP in Hsum. by rewrite Hsum.
  - rewrite (udp_verify_eq _ _ Hv), take_seg by (done || lia). unfold IP_PROTO_UDP in Hsum.
    by rewrite Hsum, orb_true_r.
  - rewrite (icmpv4_verify_eq _ _ Hv), take_seg by (unfold max_sum_len; lia). cbn [app] in Hsum. rewrite Hsum.
    by destruct (Z.leb_spec 8 (zlen (seg_bytes (Icmp h0 other payload)))); [|lia].
Qed.

Lemma verdict6 h : ipv6_header_ok h -> seg_ok ICMP_FAMILY_V6 t -> summed (pseudo6 h) t ->
  let seg := Some (seg_bytes t ++ padding) in
  let n := zlen (seg_bytes t) in
  let src := Some (Ipv6Parser.src_addr h) in
  let dst := Some (Ipv6Parser.dst_addr h) in
  match t with
  | Tcp _ _ _ _ _ => tcp_verify_checksum_ipv6 seg n src dst = Ret true
  | Udp _ _ => udp_verify_checksum_ipv6 seg n src dst = Ret true
  | Icmp _ _ _ => icmpv6_verify_checksum seg n src dst = Ret true
  | Other _ _ => True
  end.
Proof using Hpad Hsize.
  intros (_&_&_&_&_&_&Ls&Hs&Ld&Hd) Hok Hsum.
  pose proof (seg_view _ padding (seg_bytes_ok _ t Hok) Hpad ltac:(lia)) as Hv.
  pose proof (seg_sizes _ t Hok) as Hz. rewrite zlen_app in Hsize. pose proof (zlen_nonneg padding).
  unfold summed in Hsum. destruct t; cbn [is_other pseudo6 seg_proto] in *; [..|done]; specialize (Hsum eq_refl);
    unfold pseudo6 in Hsum; cbn [seg_proto icmp_proto] in Hsum.
  - rewrite (tcp_verify_ipv6_eq _ _ Hv), take_seg by (done || unfold max_sum_len; lia). unfold IP_PROTO_TCP in Hsum. by rewrite Hsum.
  - rewrite (udp_verify_ipv6_eq _ _ Hv), take_seg by (done || unfold max_sum_len; lia). unfold IP_PROTO_UDP in Hsum. by rewrite Hsum.
  - rewrite (icmpv6_verify_eq _ _ _ _ Hv), take_seg by (done || unfold max_sum_len; lia). unfold IP_PROTO_ICMPV6 in Hsum. rewrite Hsum.
    by destruct (Z.leb_spec 8 (zlen (seg_bytes (Icmp h0 other payload)))); [|lia].
Qed.

(** Each parser finds its header in front of the rest of the segment. *)
Lemma parsed family : seg_ok family t ->
  let seg := Some (seg_bytes t ++ padding) in
  let n := zlen (seg_bytes t) in
  match t with
  | Tcp h _ _ _ _ => exists p k, tcp_parse seg n Dest = Ret (Some (h, p, k))
  | Udp h _ => exists p k, udp_parse seg n Dest = Ret (Some (h, p, k))
  | Icmp h _ _ => icmp_parse seg n family Dest = Ret (Some h)
  | Other _ _ => True
  end.
Proof using Hpad Hsize.
  intros Hok. pose proof (seg_view _ padding (seg_bytes_ok _ t Hok) Hpad ltac:(lia)) as Hv.
  pose proof (seg_sizes _ t Hok) as Hz. destruct t as [h r e o p|h p|h o p|]; [..|done]; cbn [seg_bytes seg_ok] in *;
    rewrite <- !app_assoc in *.
  - destruct Hok as (? & ? & ? & _). apply tcp_parse_encode; tauto.
  - destruct Hok as (? & _). by apply udp_parse_encode.
  - destruct Hok as (? & _ & ? & _ & ?). by apply icmp_parse_encode.
Qed.
End Verdicts.

(** IPv4 headers: the sealed one is well formed and adds up. *)
Lemma ip_fill_ok c h : 0 <= c < 65536 -> ip_header_ok h -> ip_header_ok (ip_fill c h).
Proof.
  intros Hc (?&?&?&?&?&?&?&?&?&?&?&?&?&?). unfold ip_header_ok, ip_fill.
  cbn [IpParser.version ihl tos total_length identification IpParser.flags fragment_offset ttl protocol
    IpParser.checksum IpParser.src_addr IpParser.dst_addr]. split_and!; done || lia.
Qed.

Lemma ip_sealed h options : ip_header_ok h -> is_bytes options ->
  let c := rfc1071_checksum (ip_encode (ip_fill 0 h) ++ options) in
  0 <= c < 65536 /\ rfc1071_sum (ip_encode (ip_fill c h) ++ options) = 65535.
Proof.
  intros Hok Ho. destruct Hok as (Hv&?&?&?&?&?&?&?&?&?&?&?&?&?).
  set (pre := [IpParser.version h * 16 + ihl h; tos h] ++ enc16 (total_length h) ++ enc16 (identification h) ++
    enc16 (IpParser.flags h * 2 ^ 13 + fragment_offset h) ++ [ttl h; protocol h]).
  set (post := (IpParser.src_addr h ++ IpParser.dst_addr h) ++ options).
  assert (forall c, ip_encode (ip_fill c h) ++ options = pre ++ c / 256 :: c mod 256 :: post) as E.
  { intros c. unfold ip_encode, pre, post, enc16. cbn [ip_fill IpParser.version ihl tos total_length identification
      IpParser.flags fragment_offset ttl protocol IpParser.checksum IpParser.src_addr IpParser.dst_addr].
    rewrite <- !app_assoc. done. }
  rewrite (E 0). change (0 / 256) with 0. change (0 mod 256) with 0.
  assert (is_bytes pre /\ is_bytes post) as [Hpre Hpost] by (subst pre post; rewrite <- ?app_assoc; split; solve_bytes).
  pose proof (rfc1071_checksum_range (pre ++ 0 :: 0 :: post) ltac:(solve_bytes)) as Hc. split; [done|].
  rewrite E. apply rfc1071_sender; try done; [|solve_byte..]. Z.div_mod_to_equations. lia.
Qed.

Section Frame.
Context (len s u : Z) (eth : eth_header_t).
Local Abbreviation f := (set_eth (src_mac eth) (dst_mac eth) zero_fields).
Local Abbreviation b := (base len s u eth).

Lemma ipv4_descends h options t padding :
  net_ok (Ipv4 h options t padding) -> summed (pseudo4 h) t -> rfc1071_sum (ip_encode h ++ options) = 65535 ->
  let n := Ipv4 h options t padding in
  zlen (net_bytes n) < 65536 ->
  dissect_ipv4 len s u eth (net_bytes n) (zlen (net_bytes n)) f =
    Ret (packet_fields (fst (shown b n)), R_packet (fst (shown b n)) (snd (shown b n))).
Proof.
  intros (Hh & Ht & Hproto & Ho & Hol & Hpad & Htot) Hsum Hip n Hn. subst n. cbn [net_bytes] in *.
  pose proof (seg_bytes_ok _ t Ht) as Hseg. pose proof (zlen_nonneg (seg_bytes t)). pose proof (zlen_nonneg padding).
  assert (zlen (ip_encode h ++ options ++ seg_bytes t ++ padding) =
    ihl h * 4 + zlen (seg_bytes t) + zlen padding) as El.
  { rewrite !zlen_app, Hol. unfold zlen at 1. rewrite length_ip_encode by done. lia. }
  assert (zlen (seg_bytes t ++ padding) < 65536) as Hz by (rewrite zlen_app; destruct Hh as (_ & ? & _); lia).
  unfold dissect_ipv4. rewrite ip_parse_encode; [|done|done|by apply Forall_app|done|lia]. obind.
  assert (ip_payload_len h (zlen (ip_encode h ++ options ++ seg_bytes t ++ padding)) = zlen (seg_bytes t)) as ->.
  { unfold ip_payload_len. rewrite El. zcase. }
  rewrite Hip, Z.eqb_refl. cbn [set_checksum_valid protocol IpParser.src_addr IpParser.dst_addr]. rewrite Hproto.
  pose proof (verdict4 t padding Hpad Hz h Hh Ht Hsum) as Hver. pose proof (parsed t padding Hpad Hz _ Ht) as Hpar.
  destruct t as [th r e o p|uh p|ih o p|proto bytes]; cbn [seg_proto icmp_proto Z.eqb Pos.eqb IP_PROTO_TCP IP_PROTO_UDP IP_PROTO_ICMP] in *.
  - destruct Hpar as (? & ? & ->). obind. rewrite Hver. by obind.
  - destruct Hpar as (? & ? & ->). obind. rewrite Hver. by obind.
  - rewrite Hpar. obind. rewrite Hver. by obind.
  - destruct Ht as (_ & H1 & H2 & H3). cbn [icmp_proto] in H3.
    apply Z.eqb_neq in H1, H2, H3. by rewrite H1, H2, H3.
Qed.

Lemma ipv6_descends h t :
  net_ok (Ipv6 h t) -> summed (pseudo6 h) t ->
  let n := Ipv6 h t in
  zlen (net_bytes n) < 65536 ->
  dissect_ipv6 len s u eth (net_bytes n) (zlen (net_bytes n)) f =
    Ret (packet_fields (fst (shown b n)), R_packet (fst (shown b n)) (snd (shown b n))).
Proof.
  intros (Hh & Ht & Hproto) Hsum n Hn. subst n. cbn [net_bytes] in *.
  pose proof (seg_bytes_ok _ t Ht) as Hseg. pose proof (zlen_nonneg (ipv6_encode h)).
  assert (zlen (seg_bytes t ++ []) < 65536) as Hz by (rewrite app_nil_r; rewrite zlen_app in Hn; lia).
  unfold dissect_ipv6. rewrite ipv6_parse_encode by (done || lia). obind. rewrite Hproto.
  pose proof (verdict6 t [] (Forall_nil_2 _) Hz h Hh Ht Hsum) as Hver.
  pose proof (parsed t [] (Forall_nil_2 _) Hz _ Ht) as Hpar. rewrite app_nil_r in Hver, Hpar.
  destruct t as [th r e o p|uh p|ih o p|proto bytes];
    cbn [seg_proto icmp_proto Z.eqb Pos.eqb IP_PROTO_TCP IP_PROTO_UDP IP_PROTO_ICMPV6] in *.
  - destruct Hpar as (? & ? & ->). obind. rewrite Hver. by obind.
  - destruct Hpar as (? & ? & ->). obind. rewrite Hver. by obind.
  - rewrite Hpar. obind. rewrite Hver. by obind.
  - destruct Ht as (_ & H1 & H2 & H3). cbn [icmp_proto] in H3.
    apply Z.eqb_neq in H1, H2, H3. by rewrite H1, H2, H3.
Qed.
End Frame.

Lemma net_descends len s u eth n :
  net_ok n -> zlen (net_bytes (seal n)) < 65536 ->
  let f := set_eth (src_mac eth) (dst_mac eth) zero_fields in
  let r := shown (base len s u eth) (seal n) in
  match n with
  | Arp _ _ => dissect_arp len s u eth (net_bytes (seal n)) (zlen (net_bytes (seal n))) = Ret (R_packet (fst r) (snd r)) /\
      packet_fields (fst r) = f
  | Ipv4 _ _ _ _ => dissect_ipv4 len s u eth (net_bytes (seal n)) (zlen (net_bytes (seal n))) f =
      Ret (packet_fields (fst r), R_packet (fst r) (snd r))
  | Ipv6 _ _ => dissect_ipv6 len s u eth (net_bytes (seal n)) (zlen (net_bytes (seal n))) f =
      Ret (packet_fields (fst r), R_packet (fst r) (snd r))
  end.
Proof.
  intros Hok Hz. destruct n as [h trailer|h options t padding|h t].
  - destruct Hok as [Hh Ht]. split; [|done]. cbn [seal net_bytes] in *. unfold dissect_arp.
    rewrite arp_parse_encode by (done || lia). by obind.
  - destruct Hok as (Hh & Ht & Hp & Ho & Hol & Hpad & Htot). cbn [seal] in *.
    pose proof Hh as (_&_&_&_&_&_&_&_&_&_&Ls&Hs&Ld&Hd).
    assert (is_bytes (pseudo4 h t) /\ Nat.even (length (pseudo4 h t)) = true) as [Hpb Hpe].
    { pose proof (zlen_nonneg (seg_bytes t)). assert (zlen (seg_bytes t) < 65536) by (destruct Hh as (_ & ? & _ & ? & _); lia).
      assert (is_byte (seg_proto ICMP_FAMILY_V4 t)) by (rewrite <- Hp; apply Hh).
      unfold pseudo4, rfc793_pseudo. destruct t; try (by split; [constructor|]);
        (split; [solve_bytes|by rewrite !length_app, Ls, Ld]). }
    destruct (seal_segment_ok ICMP_FAMILY_V4 (pseudo4 h) t Ht (fun c => pseudo4_fill h c t) Hpb Hpe)
      as (t' & Et & Ht' & Hsum & Hlen & Hpr). rewrite Et in *.
    destruct (ip_sealed h options Hh Ho) as [Hc Hip]. set (c := rfc1071_checksum _) in *.
    apply ipv4_descends; try done. split_and!; try done; [by apply ip_fill_ok|by rewrite Hpr|by rewrite Hlen].
  - destruct Hok as (Hh & Ht & Hp). cbn [seal] in *. pose proof Hh as (_&_&_&_&Hnh&_&Ls&Hs&Ld&Hd).
    assert (zlen (seg_bytes t) < 65536) as Hl.
    { cbn [net_bytes] in Hz. rewrite zlen_app in Hz. pose proof (zlen_nonneg (ipv6_encode h)).
      unfold seal_segment, zlen in *. destruct t; rewrite length_fill in Hz; lia. }
    assert (is_bytes (pseudo6 h t) /\ Nat.even (length (pseudo6 h t)) = true) as [Hpb Hpe].
    { pose proof (zlen_nonneg (seg_bytes t)). rewrite Hp in Hnh. unfold pseudo6, rfc2460_pseudo.
      split; [solve_bytes|by rewrite !length_app, Ls, Ld]. }
    destruct (seal_segment_ok ICMP_FAMILY_V6 (pseudo6 h) t Ht (fun c => pseudo6_fill h c t) Hpb Hpe)
      as (t' & Et & Ht' & Hsum & Hlen & Hpr). rewrite Et in *.
    apply ipv6_descends; try done. split_and!; try done. by rewrite Hpr.
Qed.

(** ** Properties *)

(** A frame on the wire, its checksums those of the RFCs. *)
Definition sent (eth : eth_header_t) (n : network) : list Z := eth_encode eth ++ net_bytes (seal n).

(** C6: what a sender put on the wire is what is printed.  Any frame of well-formed headers (with
    or without a VLAN tag; ARP, or IPv4 with options and Ethernet padding, or IPv6; TCP with
    options, UDP, ICMP or another protocol) whose checksums a sender filled as the RFCs say is
    taken apart into a packet object with exactly the sender's headers, every checksum verdict
    true, and the display filter's fields are those of that object. *)
Theorem sent_is_shown eth n s u :
  eth_header_ok eth -> ether_type eth = net_type n -> net_ok n ->
  zlen (sent eth n) <= RAW_SOCKET_MAX_FRAME ->
  let r := shown (base (zlen (sent eth n)) s u eth) (seal n) in
  dissect (sent eth n) (zlen (sent eth n)) s u = Ret (packet_fields (fst r), R_packet (fst r) (snd r)).
Proof.
  intros He Hty Hn Hlen r. subst r. unfold RAW_SOCKET_MAX_FRAME in Hlen.
  assert (zlen (net_bytes (seal n)) < 65536) as Hz.
  { unfold sent in Hlen. rewrite zlen_app in Hlen. enough (0 < zlen (eth_encode eth)) by lia.
    unfold zlen, eth_encode. rewrite !length_app. destruct He as (-> & _). lia. }
  pose proof (net_descends (zlen (sent eth n)) s u eth n Hn Hz) as Hd. cbv zeta in Hd. unfold dissect.
  assert (eth_parse (Some (sent eth n)) (zlen (sent eth n)) Dest =
    Ret (Some (eth, net_bytes (seal n), zlen (net_bytes (seal n))))) as ->
    by (apply eth_parse_encode; [done|fold (sent eth n); lia]).
  obind. rewrite Hty.
  destruct n as [h trailer|h options t padding|h t]; cbn [net_type]; unfold ETH_TYPE_ARP, ETH_TYPE_IPV6, ETH_TYPE_IPV4;
    cbn [Z.eqb Pos.eqb negb]; [|exact Hd..].
  destruct Hd as [-> ->]. by obind.
Qed.

(** A SYN over IPv4 in a tagged frame with padding. *)
Definition wire_eth : eth_header_t :=
  {| dst_mac := [1; 2; 3; 4; 5; 6]; src_mac := [7; 8; 9; 10; 11; 12]; ether_type := ETH_TYPE_IPV4;
     has_vlan := true; vlan_tci := 100 |}.
Definition wire_tcp : transport :=
  Tcp {| tcp.src_port := 8080; tcp.dst_port := 80; tcp.seq_num := 1; tcp.ack_num := 0; tcp.data_offset := 6;
         tcp.flags := TCP_FLAG_SYN; tcp.window_size := 8192; tcp.checksum := 0; tcp.urgent_pointer := 0;
         tcp.checksum_valid := false |} 0 0 [2; 4; 5; 180] [104; 105].
Definition wire_ip : network :=
  Ipv4 {| IpParser.version := 4; ihl := 5; tos := 0; total_length := 46; identification := 7; IpParser.flags := 2;
          fragment_offset := 0; ttl := 64; protocol := IP_PROTO_TCP; IpParser.checksum := 0;
          IpParser.src_addr := [10; 0; 0; 1]; IpParser.dst_addr := [10; 0; 0; 2];
          IpParser.checksum_valid := false |} [] wire_tcp [0; 0; 0].

Lemma sent_is_shown_witness :
  dissect (sent wire_eth wire_ip) 67 1700000000 5 =
    Ret (packet_fields (fst (shown (base 67 1700000000 5 wire_eth) (seal wire_ip))),
         R_packet (fst (shown (base 67 1700000000 5 wire_eth) (seal wire_ip)))
                  (snd (shown (base 67 1700000000 5 wire_eth) (seal wire_ip)))).
Proof.
  apply (sent_is_shown wire_eth wire_ip 1700000000 5).
  - split_and!; try done; apply (bool_decide_unpack _); vm_compute; exact I.
  - reflexivity.
  - split_and!; try done; apply (bool_decide_unpack _); vm_compute; exact I.
  - vm_compute. discriminate.
Defined.
