(* ===== verification/FiltersAgree.v ===== *)
(** * The two filter languages on the same frame

    A capture filter runs in the kernel on raw offsets (capfilter.c), a display filter on
    the fields the parsers found (dispfilter.c, packet_printer.cpp).  On untagged IPv4
    frames that the analyzer decodes, the primitives both languages have mean the same, and so
    do the expressions made of them: the compiled program and the compiled display filter, run
    on the frame and on what is dissected from it, give the same answer. *)
From S2P Require Import Prelude Bpf FilterCore FrontEnd CapLexer CapParser CapCodegen CapFilter.
From S2P Require Import DispLexer DispParser DispFilter RawSocket PacketPrinter.
From stdpp Require Import options.

Local Open Scope Z_scope.

(** ** Big-endian numbers *)

Lemma be_bytes_inj a b : is_bytes a -> is_bytes b -> length a = length b -> be_bytes a = be_bytes b -> a = b.
Proof.
  intros Ha. revert b. induction Ha as [|x a Hx Ha IH]; intros [|y b] Hb Hl E; try done.
  apply Forall_cons in Hb as [Hy Hb]. cbn in Hl. cbn [be_bytes] in E.
  pose proof (be_bytes_range a Ha) as Ra. pose proof (be_bytes_range b Hb) as Rb.
  assert (zlen b = zlen a) as Hz by (unfold zlen; lia). rewrite Hz in *.
  assert (x = y) as -> by nia. f_equal. apply IH; [done|lia|lia].
Qed.

(** A load that is inside the frame. *)
Lemma pkt_load_slice pkt off n : 0 <= off -> off + Z.of_nat n <= zlen pkt ->
  pkt_load pkt off n = Some (be_bytes (slice pkt off (Z.of_nat n))).
Proof.
  intros Ho Hl. unfold pkt_load, slice. destruct (Z.leb_spec (off + Z.of_nat n) (zlen pkt)); [|lia].
  by rewrite Nat2Z.id.
Qed.

Lemma pkt_load_word pkt off : is_bytes pkt -> 0 <= off -> off + 2 <= zlen pkt ->
  pkt_load pkt off 2 = Some (word pkt off).
Proof.
  intros Hb Ho Hl. rewrite pkt_load_slice by lia. f_equal. unfold slice, word. fold (advance pkt off).
  rewrite <- advance_cons by lia. rewrite <- (advance_cons pkt (off + 1)) by lia.
  rewrite be16_val, Nat2Z.id by auto with bytes. cbn [take be_bytes]. rewrite take_0. cbn [be_bytes].
  change (zlen [byte_at pkt (off + 1)]) with 1. change (zlen (@nil Z)) with 0. lia.
Qed.

Lemma pkt_load_byte pkt off : 0 <= off < zlen pkt -> pkt_load pkt off 1 = Some (byte_at pkt off).
Proof.
  intros Ho. rewrite pkt_load_slice by lia. f_equal. unfold slice. fold (advance pkt off).
  rewrite <- advance_cons, Nat2Z.id by lia. cbn [take be_bytes]. rewrite take_0. cbn [be_bytes].
  change (zlen (@nil Z)) with 0. lia.
Qed.

Lemma addr_eqb pkt off a : is_bytes pkt -> 0 <= off -> off + 4 <= zlen pkt -> is_bytes a -> length a = 4%nat ->
  (be_bytes (slice pkt off 4) =? be_bytes a) = bool_decide (V_ipv4 a = V_ipv4 (slice pkt off 4)).
Proof.
  intros Hb Ho Hl Ha La. destruct (Z.eqb_spec (be_bytes (slice pkt off 4)) (be_bytes a)) as [E|E].
  - symmetry. apply bool_decide_eq_true_2. f_equal. symmetry.
    apply be_bytes_inj; [by apply is_bytes_sub|done| |done]. rewrite La. by rewrite length_slice by lia.
  - symmetry. apply bool_decide_eq_false_2. intros [= H]. by rewrite <- H in E.
Qed.

Lemma port_eqb p k : (p =? k) = bool_decide (V_port k = V_port p).
Proof.
  destruct (Z.eqb_spec p k) as [->|Hne]; [by rewrite bool_decide_eq_true_2|].
  rewrite bool_decide_eq_false_2; [done|]. congruence.
Qed.

(** ** Frames the analyzer decodes *)

(** An untagged IPv4 frame whose IP header, and TCP or UDP header if it is one, are whole. *)
Definition decoded_ipv4 (frame : list Z) : Prop :=
  let f := wire_fields frame (zlen frame) in
  14 <= zlen frame /\ word frame 12 = 0x0800 /\ DispFilter.has_ip f = 1 /\
  (byte_at frame 23 = 6 -> has_tcp f = 1) /\ (byte_at frame 23 = 17 -> has_udp f = 1).

(** What the fields of such a frame are. *)
Record ipv4_layout (frame : list Z) (f : dispfilter_fields_t) : Prop := {
  lay_len : 34 <= zlen frame;
  lay_ip : DispFilter.has_ip f = 1;
  lay_src : ip_src f = slice frame 26 4;
  lay_dst : ip_dst f = slice frame 30 4;
  lay_tcp : byte_at frame 23 = 6 -> has_udp f = 0 /\ has_tcp f = 1 /\
    18 + 4 * (byte_at frame 14 mod 16) <= zlen frame /\
    tcp_src_port f = word frame (14 + 4 * (byte_at frame 14 mod 16)) /\
    tcp_dst_port f = word frame (14 + 4 * (byte_at frame 14 mod 16) + 2);
  lay_udp : byte_at frame 23 = 17 -> has_tcp f = 0 /\ has_udp f = 1 /\
    18 + 4 * (byte_at frame 14 mod 16) <= zlen frame /\
    udp_src_port f = word frame (14 + 4 * (byte_at frame 14 mod 16)) /\
    udp_dst_port f = word frame (14 + 4 * (byte_at frame 14 mod 16) + 2);
  lay_other : byte_at frame 23 <> 6 -> byte_at frame 23 <> 17 -> has_tcp f = 0 /\ has_udp f = 0
}.

Lemma word_advance frame n i : 0 <= n -> 0 <= i -> word (advance frame n) i = word frame (n + i).
Proof. intros. unfold word. rewrite !byte_at_advance by lia. by rewrite Z.add_assoc. Qed.
Lemma slice_advance frame n i k : 0 <= n -> 0 <= i -> slice (advance frame n) i k = slice frame (n + i) k.
Proof. intros. unfold slice, advance. rewrite drop_drop. do 2 f_equal. lia. Qed.
Lemma advance_advance frame n i : 0 <= n -> 0 <= i -> advance (advance frame n) i = advance frame (n + i).
Proof. intros. unfold advance. rewrite drop_drop. f_equal. lia. Qed.

Lemma decoded_layout frame : is_bytes frame -> decoded_ipv4 frame ->
  ipv4_layout frame (wire_fields frame (zlen frame)).
Proof.
  intros Hb (H14 & Hty & Hip & Htcp & Hudp). revert Hip Htcp Hudp. unfold wire_fields, link.
  destruct (Z.ltb_spec (zlen frame) 14); [lia|]. rewrite Hty. change (0x0800 =? 0x8100) with false. cbv iota beta.
  unfold network_fields. change (0x0800 =? 0x86DD) with false. change (0x0800 =? 0x0800) with true. cbv iota zeta.
  rewrite !byte_at_advance, !word_advance, !slice_advance by lia.
  change (14 + 0) with 14. change (14 + 2) with 16. change (14 + 9) with 23. change (14 + 12) with 26. change (14 + 16) with 30.
  destruct (_ && _ && _ && _) eqn:Hw; [|by intros [=]]. rewrite !andb_true_iff in Hw.
  set (hl := byte_at frame 14 mod 16 * 4) in *. rewrite advance_advance by lia.
  set (n := (if _ <=? _ then _ else _) - hl). intros _ Htcp Hudp.
  assert (n <= zlen frame - 14 - hl) as Hn by (unfold n; zcase; lia).
  assert (4 * (byte_at frame 14 mod 16) = hl) as Ehl by lia.
  revert Htcp Hudp. unfold transport_fields.
  destruct (Z.eqb_spec (byte_at frame 23) 6) as [E6|E6]; [|destruct (Z.eqb_spec (byte_at frame 23) 17) as [E17|E17]].
  - unfold tcp_whole. destruct (_ && _ && _) eqn:Ht; [|intros Htcp; by specialize (Htcp E6)].
    rewrite !andb_true_iff in Ht. intros _ _. split; cbn; try done; try (intros; lia).
    intros _. rewrite Ehl, !word_advance, Z.add_0_r by lia. split_and!; try done. lia.
  - destruct (Z.leb_spec 8 n); [|intros _ Hudp; by specialize (Hudp E17)]. intros _ _.
    split; cbn; try done; try (intros; lia).
    intros _. rewrite Ehl, !word_advance, Z.add_0_r by lia. split_and!; try done. lia.
  - intros _ _. split; cbn; try done; intros; lia.
Qed.

(** ** The primitives *)

Definition ip_field (dir : option dir_t) : df_field_t :=
  match dir with None => FIELD_IP_ADDR | Some DIR_SRC => FIELD_IP_SRC | Some DIR_DST => FIELD_IP_DST end.
Definition tcp_field (dir : option dir_t) : df_field_t :=
  match dir with None => FIELD_TCP_PORT | Some DIR_SRC => FIELD_TCP_SRCPORT | Some DIR_DST => FIELD_TCP_DSTPORT end.
Definition udp_field (dir : option dir_t) : df_field_t :=
  match dir with None => FIELD_UDP_PORT | Some DIR_SRC => FIELD_UDP_SRCPORT | Some DIR_DST => FIELD_UDP_DSTPORT end.

(** [ip.src == a] and the like; a port of either transport. *)
Definition df_host (dir : option dir_t) (a : list Z) : df_node_t := DispParser.N_CMP (ip_field dir) CMP_EQ (V_ipv4 a).
Definition df_port (dir : option dir_t) (k : Z) : df_node_t :=
  DispParser.N_OR (DispParser.N_CMP (tcp_field dir) CMP_EQ (V_port k))
    (DispParser.N_CMP (udp_field dir) CMP_EQ (V_port k)).

(** Expressions of the two languages that ask for the same. *)
Inductive same : node_t -> df_node_t -> Prop :=
| same_host dir a : is_bytes a -> length a = 4%nat -> same (host_node dir a) (df_host dir a)
| same_port dir k : same (port_node dir k) (df_port dir k)
| same_not n d : same n d -> same (CapParser.N_NOT n) (DispParser.N_NOT d)
| same_and n1 d1 n2 d2 : same n1 d1 -> same n2 d2 -> same (CapParser.N_AND n1 n2) (DispParser.N_AND d1 d2)
| same_or n1 d1 n2 d2 : same n1 d1 -> same n2 d2 -> same (CapParser.N_OR n1 n2) (DispParser.N_OR d1 d2).

Section Agree.
Context (frame : list Z) (Hb : is_bytes frame) (Hd : decoded_ipv4 frame).
Local Abbreviation f := (wire_fields frame (zlen frame)).

Lemma eval_ipv4_and n : eval (CapParser.N_AND (N_ETHERTYPE ETHERTYPE_IPV4) n) frame = eval n frame.
Proof using Hb Hd.
  destruct Hd as (H14 & Hty & _). cbn [eval]. rewrite pkt_load_word by (done || lia). cbn. by rewrite Hty.
Qed.

(** A primitive with a direction is a membership test. *)
Lemma eval_dir dir (mk : dir_t -> node_t) (v s d : df_value_t) :
  eval (mk DIR_SRC) frame = Some (bool_decide (v = s)) -> eval (mk DIR_DST) frame = Some (bool_decide (v = d)) ->
  eval (dir_node dir mk) frame =
    Some (bool_decide (v ∈ match dir with None => [s; d] | Some DIR_SRC => [s] | Some DIR_DST => [d] end)).
Proof using.
  intros Es Ed. destruct dir as [[]|]; cbn [dir_node]; [by rewrite in_one..|].
  cbn [eval]. rewrite in_two, Es, Ed. cbn. by destruct (bool_decide (v = s)).
Qed.

Lemma eval_host dir a : is_bytes a -> length a = 4%nat ->
  eval (host_node dir a) frame = Some (DispFilter.holds (df_host dir a) f).
Proof using Hb Hd.
  intros Ha La. pose proof (decoded_layout frame Hb Hd) as [Hlen Hip Hs Hdst _ _ _].
  unfold host_node. rewrite eval_ipv4_and.
  rewrite (eval_dir dir _ (V_ipv4 a) (V_ipv4 (ip_src f)) (V_ipv4 (ip_dst f))).
  - cbn. unfold values. rewrite Hip. by destruct dir as [[]|].
  - cbn [eval]. rewrite pkt_load_slice, Hs by lia. cbn [mbind option_bind]. f_equal. apply addr_eqb; done || lia.
  - cbn [eval]. rewrite pkt_load_slice, Hdst by lia. cbn [mbind option_bind]. f_equal. apply addr_eqb; done || lia.
Qed.

Lemma eval_ports dir k s d :
  18 + 4 * (byte_at frame 14 mod 16) <= zlen frame ->
  s = word frame (14 + 4 * (byte_at frame 14 mod 16)) ->
  d = word frame (14 + 4 * (byte_at frame 14 mod 16) + 2) ->
  eval (dir_node dir (fun x => N_PORT x k)) frame =
    Some (bool_decide (V_port k ∈ match dir with None => [V_port s; V_port d] | Some DIR_SRC => [V_port s]
                                                | Some DIR_DST => [V_port d] end)).
Proof using Hb Hd.
  intros Hl -> ->. assert (0 <= byte_at frame 14 mod 16) by (apply Z.mod_pos_bound; lia).
  assert (34 <= zlen frame) by apply (lay_len _ _ (decoded_layout frame Hb Hd)).
  apply eval_dir; cbn [eval]; rewrite pkt_load_byte by lia; cbn [mbind option_bind];
    rewrite ?Z.add_0_r, pkt_load_word by (done || lia); cbn [mbind option_bind]; f_equal; apply port_eqb.
Qed.

Lemma eval_port dir k : eval (port_node dir k) frame = Some (DispFilter.holds (df_port dir k) f).
Proof using Hb Hd.
  pose proof (decoded_layout frame Hb Hd) as [Hlen _ _ _ Ht Hu Ho].
  unfold port_node. rewrite eval_ipv4_and. cbn [eval].
  rewrite pkt_load_byte by lia. cbn [mbind option_bind]. unfold IPPROTO_TCP_, IPPROTO_UDP_.
  destruct (Z.eqb_spec (byte_at frame 23) 6) as [E6|E6]; [|destruct (Z.eqb_spec (byte_at frame 23) 17) as [E17|E17]].
  - destruct (Ht E6) as (Hnu & Ht1 & Hl & Hs & Hdst). rewrite (eval_ports dir k _ _ Hl Hs Hdst).
    cbn. unfold values. rewrite Ht1, Hnu. destruct dir as [[]|]; cbn; by rewrite orb_false_r.
  - destruct (Hu E17) as (Hnt & Hu1 & Hl & Hs & Hdst). rewrite (eval_ports dir k _ _ Hl Hs Hdst).
    cbn. unfold values. rewrite Hnt, Hu1. by destruct dir as [[]|].
  - destruct (Ho E6 E17) as [Hnt Hnu]. cbn. unfold values. rewrite Hnt, Hnu. by destruct dir as [[]|].
Qed.

(** And the expressions made of them. *)
Lemma eval_same n d : same n d -> eval n frame = Some (DispFilter.holds d f) /\ ne_present d f = true.
Proof using Hb Hd.
  induction 1 as [dir a Ha La|dir k|n d _ [IH P]|n1 d1 n2 d2 _ [IH1 P1] _ [IH2 P2]|n1 d1 n2 d2 _ [IH1 P1] _ [IH2 P2]].
  - split; [by apply eval_host|done].
  - split; [apply eval_port|done].
  - cbn [eval ne_present]. by rewrite IH.
  - cbn [eval ne_present]. rewrite IH1, IH2, P1, P2. cbn. by destruct (DispFilter.holds d1 f).
  - cbn [eval ne_present]. rewrite IH1, IH2, P1, P2. cbn. by destruct (DispFilter.holds d1 f).
Qed.
End Agree.

(** ** Properties *)

(** C15: the two filters agree.  Take a capture filter and a display filter that compile, whose
    expressions have the same connectives over the primitives [host], [src host] or [dst host] in
    the one and [ip.addr], [ip.src] or [ip.dst] [==] that address in the other, [port], [src port]
    or [dst port] in the one and the TCP or the UDP comparison in the other.  On every untagged
    IPv4 frame of at most 65536 bytes whose IP header, and TCP or UDP header if it is one, are
    whole, the compiled program accepts exactly if [dispfilter_matches], on the fields that
    [dissect] finds in the frame, returns 1. *)
Theorem filters_agree frame s u malloc cexpr n err_ err_len_ r malloc1 malloc2 h dexpr d derr derr_len c :
  frame_ok frame -> zlen frame <= RAW_SOCKET_MAX_FRAME -> decoded_ipv4 frame -> same n d ->
  CapFilter.denotes cexpr n -> cexpr <> [] ->
  capfilter_compile malloc (Some cexpr) Dest err_ err_len_ = Ret r -> rc r = 0 ->
  DispFilter.denotes dexpr d -> dexpr <> [] -> fresh malloc1 malloc2 h ->
  dispfilter_compile malloc1 malloc2 h (Some dexpr) derr derr_len = Ret c -> DispFilter.ret c <> None ->
  exists prog fields rep m,
    out r = Some {| CapFilter.len := zlen prog; filter := Some prog |} /\
    dissect frame (zlen frame) s u = Ret (fields, rep) /\
    dispfilter_matches (DispFilter.ret c) fields = Ret m /\ (m = 0 \/ m = 1) /\
    bpf_interp_run (Some prog) frame (zlen frame) = Ret (if m =? 1 then CF_ACCEPT_LEN else 0).
Proof.
  intros Hf Hl Hdec Hsame Hdn Hne Ec Hrc Hdd Hned Hfr Ed Hret. pose proof Hf as [Hb H32].
  assert (valid_view frame (zlen frame)) as Hv by (pose proof (zlen_nonneg frame); split_and!; [done|lia..]).
  destruct (compile_accepts malloc cexpr err_ err_len_ r Ec Hne Hrc) as (n' & prog & Hdn' & Hout & _ & Hrun).
  rewrite (cf_denotes_unique _ _ _ Hdn' Hdn) in Hrun.
  destruct (compiled_filter _ _ _ _ _ _ _ Hfr Ed Hned Hret) as (d' & self & arena & Hdd' & Hok & ->).
  rewrite (df_denotes_unique _ _ _ Hdd' Hdd) in Hok |- *.
  destruct (dissect_ok frame (zlen frame) s u Hv Hl) as (rep & Edis & _).
  destruct (eval_same frame Hb Hdec n d Hsame) as [Hev Hne'].
  eexists prog, _, rep, _. split_and!; [done|exact Edis| | |].
  - cbn [dispfilter_matches root]. rewrite eval_node_spec, evaluates_holds by (done || by apply wire_fields_ok). done.
  - destruct (DispFilter.holds d _); auto.
  - rewrite (Hrun frame Hf). unfold CapFilter.verdict. rewrite Hev. by destruct (DispFilter.holds d _).
Qed.

(** The frame of [sample_syn] without its tag, and an expression in both languages. *)
Definition plain_syn : list Z := take 12 sample_syn ++ drop 16 sample_syn.
Definition cf_agree : text := lit "port 443 and not src host 10.0.0.9".
Definition df_agree : text := lit "(tcp.port == 443 or udp.port == 443) and not ip.src == 10.0.0.9".
Definition cf_agree_result : compile_result :=
  match run_compile "port 443 and not src host 10.0.0.9" with
  | Ret r => r
  | _ => {| rc := -1; out := None; CapFilter.err_buf := None |}
  end.
Definition df_agree_result : df_result :=
  match dispfilter_compile (Some 100) (Some 200) [1] (Some df_agree) (Some []) 80 with
  | Ret c => c
  | _ => {| DispFilter.ret := None; live := []; DispFilter.err_buf := None |}
  end.
Definition cf_agree_node : node_t :=
  CapParser.N_AND (port_node None 443) (CapParser.N_NOT (host_node (Some DIR_SRC) [10; 0; 0; 9])).
Definition df_agree_node : df_node_t :=
  DispParser.N_AND (df_port None 443) (DispParser.N_NOT (df_host (Some DIR_SRC) [10; 0; 0; 9])).

Lemma cf_agree_denotes : CapFilter.denotes cf_agree cf_agree_node.
Proof.
  eapply cf_denote_spec; [|vm_compute; reflexivity].
  instantiate (1 := [CapLexer.TOK_PORT; CapLexer.TOK_NUMBER 443; CapLexer.TOK_AND; CapLexer.TOK_NOT; CapLexer.TOK_SRC;
    CapLexer.TOK_HOST; CapLexer.TOK_IPV4 [10; 0; 0; 9]]). vm_compute. reflexivity.
Qed.
Lemma df_agree_denotes : DispFilter.denotes df_agree df_agree_node.
Proof.
  eapply df_denote_spec; [|vm_compute; reflexivity].
  instantiate (1 := [DispLexer.TOK_LPAREN; DispLexer.TOK_FIELD FIELD_TCP_PORT; DispLexer.TOK_EQ; DispLexer.TOK_NUMBER 443; DispLexer.TOK_OR;
    DispLexer.TOK_FIELD FIELD_UDP_PORT; DispLexer.TOK_EQ; DispLexer.TOK_NUMBER 443; DispLexer.TOK_RPAREN; DispLexer.TOK_AND; DispLexer.TOK_NOT;
    DispLexer.TOK_FIELD FIELD_IP_SRC; DispLexer.TOK_EQ; DispLexer.TOK_IPV4 [10; 0; 0; 9]]). vm_compute. reflexivity.
Qed.

Lemma filters_agree_witness :
  exists prog fields rep m,
    out cf_agree_result = Some {| CapFilter.len := zlen prog; filter := Some prog |} /\
    dissect plain_syn (zlen plain_syn) 1 2 = Ret (fields, rep) /\
    dispfilter_matches (DispFilter.ret df_agree_result) fields = Ret m /\ (m = 0 \/ m = 1) /\
    bpf_interp_run (Some prog) plain_syn (zlen plain_syn) = Ret (if m =? 1 then CF_ACCEPT_LEN else 0).
Proof.
  apply (filters_agree plain_syn 1 2 (fun _ => true) cf_agree cf_agree_node (Some []) 80 cf_agree_result
    (Some 100) (Some 200) [1] df_agree df_agree_node (Some []) 80 df_agree_result).
  - split; [apply (bool_decide_unpack _); vm_compute; exact I|vm_compute; reflexivity].
  - apply (bool_decide_unpack _). vm_compute. exact I.
  - unfold decoded_ipv4. split_and!; vm_compute; done || congruence.
  - constructor; [constructor|]. constructor. constructor; [apply (bool_decide_unpack _); vm_compute; exact I|reflexivity].
  - exact cf_agree_denotes.
  - discriminate.
  - vm_compute. reflexivity.
  - vm_compute. reflexivity.
  - exact df_agree_denotes.
  - discriminate.
  - exact DispFilter.sample_fresh.
  - vm_compute. reflexivity.
  - vm_compute. discriminate.
Defined.

(** Behind a VLAN tag the capture filter [tcp] does not see the segment the analyzer shows. *)
Theorem tagged_tcp_missed :
  eval (l4_proto IPPROTO_TCP_) sample_syn = Some false /\ has_tcp (wire_fields sample_syn 58) = 1.
Proof. by vm_compute. Qed.
