(* ===== verification/Main.v ===== *)
(** * The program (src/src/main.cpp)

    [main], from the configuration (Console) on: the display filter is compiled, the capture
    thread runs the backend's [run_impl] with a callback that pushes into the packet queue and
    closes the queue at the end, and the main thread pops frames and prints them.  The two
    threads, the kernel and Ctrl+C are interleaved by a schedule of turns: the capture thread's
    steps are those of Interrupt.v and, inside [push] and [close], those of PacketQueue.v; the
    main thread's are those of [pop], the printing of the frame popped, and the steps of a signal
    handler it is in. *)
From S2P Require Import Prelude Text FilterCore FrontEnd CapLexer CapFilter DispParser.
From S2P Require Import DispFilter PacketQueue Pipeline RawSocket RawDevice CaptureBackend Interrupt Backend Console Stats.
From S2P Require Import Packet HexDump PacketPrinter.
From stdpp Require Import options.

Local Open Scope Z_scope.

(** ** Frames *)

(** [frame.data.assign(data, data + length)] and the timestamps, as [queue_push_callback] pushes them. *)
Definition captured (f : list Z * Z * Z) : CapturedFrame :=
  let '(bytes, s, u) := f in {| data := bytes; ts_seconds := s; ts_microseconds := u |}.

(** [PacketQueue queue;] *)
Definition queue_max_size : nat := Z.to_nat 4096.

(** [packet_printer_callback(frame.data.data(), ...);] *)
Definition print_frame (frame : CapturedFrame) (ctx : PacketPrinterContext) : outcome PacketPrinterContext :=
  packet_printer_callback (data frame) (u32 (zlen (data frame))) (ts_seconds frame) (ts_microseconds frame) ctx.

(** The printing of several frames, one after the other. *)
Fixpoint printing_loop (frames : list CapturedFrame) (ctx : PacketPrinterContext) : outcome PacketPrinterContext :=
  match frames with
  | [] => Ret ctx
  | frame :: frames => ctx ← print_frame frame ctx; printing_loop frames ctx
  end.

(** ** The two threads *)

(** The capture with both threads' signal handlers, the queue with where either thread is in its
    methods, and the printer of the main thread. *)
Record program := { p_capture : machine; p_queue : PacketQueue.state; p_ctx : PacketPrinterContext }.

Definition set_capture (m : machine) (p : program) : program :=
  {| p_capture := m; p_queue := p_queue p; p_ctx := p_ctx p |}.
Definition queue_step (ev : PacketQueue.event) (p : program) : program :=
  match PacketQueue.step queue_max_size ev (p_queue p) with
  | Some q => {| p_capture := p_capture p; p_queue := q; p_ctx := p_ctx p |}
  | None => p
  end.
Definition set_ctx (ctx : PacketPrinterContext) (p : program) : program :=
  {| p_capture := p_capture p; p_queue := p_queue p; p_ctx := ctx |}.

(** The frame the callback was given in the step from [m] to [m'], if it was called. *)
Definition new_call (m m' : machine) : option (list Z * Z * Z) :=
  head (drop (length (calls (m_world m))) (calls (m_world m'))).

Section Threads.
Context (nr : Z) (e : env) (ctx : raw_socket_ctx).

(** A turn of the capture thread: it is in the handler or in [run_impl], in [queue.push], called by
    the callback, or in [queue.close], after [run_impl] has returned. *)
Definition capture_turn (poll_ok : bool) (p : program) : outcome program :=
  let m := p_capture p in
  match m_own m, prod (p_queue p), m_pc m with
  | H_out, P_lock _, _ => Ret (queue_step E_push_section p)
  | H_out, P_notify, _ => Ret (queue_step E_push_notify p)
  | H_out, P_wait _, _ => Ret p
  | H_out, P_out, At_return _ =>
    match clos (p_queue p) with
    | K_out => Ret (queue_step E_close p)
    | K_done => Ret p
    | _ => Ret (queue_step E_close_notify p)
    end
  | _, _, _ =>
    m' ← capture_step nr e ctx poll_ok m;
    Ret (match new_call m m' with
         | Some f => queue_step (E_push (captured f)) (set_capture m' p)
         | None => set_capture m' p
         end)
  end.

(** A turn of the main thread: it is in the handler, in [queue.pop], or between two calls of it,
    where it prints the frame it got. *)
Definition main_turn (p : program) : outcome program :=
  match m_main (p_capture p), cons_ (p_queue p) with
  | H_out, C_out => Ret (if drained (p_queue p) then p else queue_step E_pop p)
  | H_out, C_lock => Ret (queue_step E_pop_section p)
  | H_out, C_wait => Ret p
  | H_out, C_notify =>
    match last (popped (p_queue p)) with
    | Some frame => ctx ← print_frame frame (p_ctx p); Ret (set_ctx ctx (queue_step E_pop_notify p))
    | None => UB
    end
  | _, _ => m ← on_sigint T_main (p_capture p); Ret (set_capture m p)
  end.

Inductive turn :=
| U_capture (poll_ok : bool)                (* the capture thread goes on; a poll may fail *)
| U_main                                    (* the main thread goes on *)
| U_kernel (bd : block) (fs : list kframe)  (* a block with these frames is closed *)
| U_sigint (t : tid)
| U_wakes (t : tid).                        (* a spurious wakeup *)

(** [None] is the end of the process by a signal. *)
Definition take_turn (u : turn) (p : program) : outcome (option program) :=
  match u with
  | U_capture poll_ok => p ← capture_turn poll_ok p; Ret (Some p)
  | U_main => p ← main_turn p; Ret (Some p)
  | U_kernel bd fs =>
    Ret (Some (set_capture (Interrupt.set_sys (close_block nr bd fs (m_sys (p_capture p))) (p_capture p)) p))
  | U_sigint t => Ret (m ← deliver_sigint t (p_capture p); Some (set_capture m p))
  | U_wakes T_capture => Ret (Some (queue_step E_push_wakes p))
  | U_wakes T_main => Ret (Some (queue_step E_pop_wakes p))
  end.

Fixpoint run_program (schedule : list turn) (p : program) : outcome (option program) :=
  match schedule with
  | [] => Ret (Some p)
  | u :: schedule => r ← take_turn u p; match r with Some p => run_program schedule p | None => Ret None end
  end.
End Threads.

(** The capture thread is about to install its handler on a socket just opened, and the main
    thread about to pop. *)
Definition launch (filter : filter_ptr) (w : world) (s : sock) : program :=
  {| p_capture := begin w s; p_queue := PacketQueue.init;
     p_ctx := {| os := []; count := 0; ctx_filter := filter |} |}.

(** Both threads have nothing left to do: [capture_thread.join()] returns. *)
Definition over (p : program) : bool :=
  match m_pc (p_capture p), m_main (p_capture p), m_own (p_capture p) with
  | At_return _, H_out, H_out =>
    match clos (p_queue p), cons_ (p_queue p) with K_done, C_out => drained (p_queue p) | _, _ => false end
  | _, _, _ => false
  end.

(** ** What [main] itself writes *)

Definition invalid_filter (display_filter filter_err : text) : text :=
  ln (lit "error: invalid display filter " ++ quote ++ display_filter ++ quote ++ lit ": " ++ filter_err).
Definition capturing_on (device_name : text) : text :=
  ln (lit "Capturing on " ++ device_name ++ lit " (Ctrl+C to stop)...").
Definition capturing_failed (capture_result : Z) : text :=
  if negb (capture_result =? 0) then ln (lit "Capturing failed") else [].

(** What a session leaves behind: the exit code, what [main] wrote to standard output and
    standard error, the process's state and the heap of the display filter. *)
Record session_end := { exit_code : Z; s_io : streams; s_world : world; s_heap : heap }.

(** ** The session *)

Section Session.
Context (nr : Z) (e : env) (addr : option (list (option text))).

(** After the join: the statistics ([ns] is the time between the two readings of the clock), the
    display filter's end, and the exit code. *)
Definition wrap_up (ns : Z) (filter : filter_ptr) (io : streams) (h : heap) (capture_result : Z) (w : world)
    : outcome session_end :=
  let '(rc, stats) := get_last_stats_impl Dest w in
  let io := to_cerr (stats_line rc stats ns) io in
  h ← dispfilter_free filter h;
  Ret {| exit_code := if negb (capture_result =? 0) then 1 else 0;
         s_io := to_cerr (capturing_failed capture_result) io; s_world := w; s_heap := h |}.

(** Lines 104 to 166.  [malloc1] and [malloc2] are the display filter's allocations, [stack] what
    [filter_err] holds, [s] the ring as the socket is opened, [schedule] how the threads, the
    kernel and the signals take turns: [None] is the end by a signal, and a schedule that ends
    before the threads do is [Timeout].  A capture that fails before its handler is installed
    pushes nothing: the queue is closed and the first [pop] returns false. *)
Definition session (malloc1 malloc2 : option Z) (stack : text) (schedule : list turn) (ns : Z)
    (cfg : config) (io : streams) (w : world) (s : sock) (h : heap) : outcome (option session_end) :=
  c ← dispfilter_compile malloc1 malloc2 h (Some (c_str (display_filter cfg))) (Some stack) 128;
  match DispFilter.ret c with
  | None =>
    Ret (Some {| exit_code := 1; s_io := to_cerr (invalid_filter (display_filter cfg) (default [] (DispFilter.err_buf c))) io;
                 s_world := w; s_heap := live c |})
  | Some filter =>
    let io := to_cout (capturing_on (device_name cfg)) io in
    '(ctx, w) ← prepare e (Some (c_str (device_name cfg))) (Some (c_str (capture_filter cfg))) (Some (c_str (pcap_path cfg))) w;
    match ctx with
    | None => r ← wrap_up ns (Some filter) io (live c) (-1) w; Ret (Some r)
    | Some ctx =>
      p ← run_program nr e ctx schedule (launch (Some filter) w s);
      match p with
      | None => Ret None
      | Some p =>
        match m_pc (p_capture p) with
        | At_return capture_result =>
          if over p then
            r ← wrap_up ns (Some filter) (to_cout (os (p_ctx p)) io) (live c) capture_result (m_world (p_capture p));
            Ret (Some r)
          else Timeout
        | _ => Timeout
        end
      end
    end
  end.

Definition main (malloc1 malloc2 : option Z) (stack : text) (schedule : list turn) (ns : Z)
    (argv0 : text) (args : list text) (stdin : istream) (w : world) (s : sock) (h : heap) : outcome (option session_end) :=
  '(cfg, io) ← configure (Linux.g_linux_backend e addr) argv0 args stdin quiet;
  match cfg with
  | None => Ret (Some {| exit_code := 1; s_io := io; s_world := w; s_heap := h |})
  | Some cfg => session malloc1 malloc2 stack schedule ns cfg io w s h
  end.
End Session.

(** ** The printing loop *)

(** What is printed for a frame: its block, or nothing if the display filter does not let it pass. *)
Definition shows (filter : filter_ptr) (number : Z) (f : list Z * Z * Z) (t : text) : Prop :=
  let '(bytes, s, u) := f in
  let fields := wire_fields bytes (zlen bytes) in
  exists r dump pass, dissect bytes (zlen bytes) s u = Ret (fields, r) /\ reports bytes (zlen bytes) s u r /\
    undump dump = bytes /\ passes_filter filter fields = Ret pass /\
    t = if pass : bool then printed number r dump else [].

Definition frame_valid (f : list Z * Z * Z) : Prop :=
  is_bytes (fst (fst f)) /\ zlen (fst (fst f)) <= RAW_SOCKET_MAX_FRAME.

Lemma printing_loop_ok filter fs : filter_ok filter -> Forall frame_valid fs -> forall os_ n,
  0 <= n -> n + zlen fs < 2 ^ 64 ->
  exists blocks,
    printing_loop (map captured fs) {| os := os_; count := n; ctx_filter := filter |} =
      Ret {| os := os_ ++ concat blocks; count := n + zlen fs; ctx_filter := filter |} /\
    length blocks = length fs /\
    forall i f, fs !! i = Some f -> exists t, blocks !! i = Some t /\ shows filter (n + 1 + Z.of_nat i) f t.
Proof.
  intros Hok. induction 1 as [|[[bytes s] u] fs [Hb Hl] Hfs IH]; intros os_ n Hn H64.
  - exists []. cbn. rewrite app_nil_r, Z.add_0_r. by split_and!.
  - cbn [fst] in *. pose proof (zlen_nonneg bytes). pose proof (zlen_nonneg fs). unfold RAW_SOCKET_MAX_FRAME in *.
    rewrite zlen_cons in H64.
    assert (valid_view bytes (zlen bytes)) as Hv by (split_and!; [done|lia..]).
    destruct (print_packet_ok bytes (zlen bytes) s u (n + 1) filter Hv Hl Hok) as (r & dump & Ed & Hr & _ & Hu & Ep).
    cbn [map captured printing_loop data ts_seconds ts_microseconds]. unfold print_frame, packet_printer_callback. cbn [data ts_seconds ts_microseconds count ctx_filter os].
    rewrite u32_small, (Z.mod_small (n + 1)), Ep by lia. obind.
    match goal with |- context [os_ ++ ?x] => set (t := x) end.
    destruct (IH (os_ ++ t) (n + 1)) as (blocks & -> & Hlen & Hall); [lia|lia|].
    exists (t :: blocks). cbn [concat]. rewrite app_assoc, zlen_cons. split_and!; [do 2 f_equal; lia|cbn; lia|].
    intros [|i] f Hi; cbn in Hi.
    + injection Hi as <-. exists t. split; [done|]. rewrite Z.add_0_r. exists r, dump, (verdict filter (wire_fields bytes (zlen bytes))).
      split_and!; try done; [rewrite Hu; unfold zlen; by rewrite Nat2Z.id, firstn_all|].
      apply passes_filter_spec; [done|by apply wire_fields_ok].
    + destruct (Hall i f Hi) as (t' & Ht & Hs). exists t'. split; [done|].
      replace (n + 1 + Z.of_nat (S i)) with (n + 1 + 1 + Z.of_nat i) by lia. done.
Qed.

(** ** Frames and filters *)

(** A frame as the kernel delivers it: bytes, and 32-bit times. *)
Definition kframe_ok (f : kframe) : Prop :=
  is_bytes (k_bytes f) /\ 0 <= k_sec f < 2 ^ 32 /\ 0 <= k_nsec f < 2 ^ 32.

Lemma clip_valid f : kframe_ok f ->
  frame_valid (clip RAW_SOCKET_MAX_FRAME f) /\ frame_fits (clip RAW_SOCKET_MAX_FRAME f).
Proof.
  intros (Hb & Hs & Hu). unfold frame_valid, frame_fits, clip, RAW_SOCKET_MAX_FRAME. cbn [fst].
  assert (zlen (take (Z.to_nat 65536) (k_bytes f)) <= 65536) by (unfold zlen; rewrite length_take; lia).
  split_and!; [by apply Forall_take|lia..|Z.div_mod_to_equations; lia|Z.div_mod_to_equations; lia].
Qed.

(** A display filter that was compiled, from an empty expression too. *)
Lemma compiled_any malloc1 malloc2 h expr err_ err_len_ c : fresh malloc1 malloc2 h ->
  dispfilter_compile malloc1 malloc2 h expr err_ err_len_ = Ret c -> DispFilter.ret c <> None ->
  filter_ok (DispFilter.ret c) /\ dispfilter_free (DispFilter.ret c) (live c) = Ret h.
Proof.
  intros Hfresh E Hr. destruct (df_outcomes malloc1 malloc2 h expr err_ err_len_ Hfresh)
    as [(msg & Ec & _)|[(self & arena & n & k & E1 & E2 & Ec & Hn)|(x & ts & _ & _ & _ & Ec)]];
    rewrite E in Ec; [by simplify_eq| |done].
  injection Ec as ->. cbn [DispFilter.ret live]. destruct (Hfresh _ E1) as [Hs Ha]. specialize (Ha _ E2).
  split; [|by apply dispfilter_free_fresh]. cbn. destruct n as [n|]; [|done].
  destruct Hn as (_ & x & _ & Hd). by eapply df_denotes_node_ok.
Qed.

