(* ===== verification/Session.v ===== *)
(** * The whole program, under every schedule (src/src/main.cpp)

    An invariant of the two threads, the kernel and the signals of Main.v: the capture is as
    Interrupt.v has it, the queue as Pipeline.v has it with the frames given to the callback so
    far, and the main thread has printed what it has popped.  With it, what a session comes to,
    and that it does come to its end once the capture is on its way out. *)
From S2P Require Import Prelude Text FilterCore FrontEnd CapLexer CapFilter DispParser.
From S2P Require Import DispFilter PacketQueue Pipeline RawSocket RawDevice CaptureBackend Interrupt Backend Console Stats.
From S2P Require Import Packet HexDump PacketPrinter Main.
From stdpp Require Import options.

Local Open Scope Z_scope.

(** ** The callback *)

Definition of_result (r : recv_result) : list (list Z * Z * Z) :=
  match frame r with Some f => [f] | None => [] end.

(** The callback has been given the frames handed out by the ring, but for the one in hand, or one
    that could not be written to the file. *)
Definition calls_ok (m : machine) : Prop :=
  let given := calls (m_world m) in
  match m_pc m with
  | At_signal | At_active _ | At_recv _ => given = handed (m_sys m)
  | At_result _ r => handed (m_sys m) = given ++ of_result r /\ forall f, frame r = Some f -> r = returned f
  | _ => given `prefix_of` handed (m_sys m)
  end.

Lemma after_recv_calls e r w result w' : (frame r = None -> ret r < 0) -> (forall f, frame r = Some f -> r = returned f) ->
  after_recv e r w = Ret (result, w') ->
  (result = None /\ exists f, frame r = Some f /\ calls w' = calls w ++ [f]) \/ (result <> None /\ calls w' = calls w).
Proof.
  intros Hn Hr. unfold after_recv. destruct (frame r) as [[[buf s] u]|] eqn:Ef.
  2: { specialize (Hn eq_refl). destruct (_ =? _); [intros [= <- <-]; by right|].
       destruct (Z.ltb_spec (ret r) 0); [|lia]. intros [= <- <-]. by right. }
  specialize (Hr _ eq_refl). rewrite Hr. cbn [returned RawSocket.ret fst]. pose proof (zlen_nonneg buf).
  destruct (Z.eqb_spec (zlen buf) RAW_SOCKET_STOPPED); [unfold RAW_SOCKET_STOPPED in *; lia|].
  destruct (Z.ltb_spec (zlen buf) 0); [lia|]. destruct (if is_open _ then _ else _) as [rc f].
  destruct (negb _); intros [= <- <-]; [by right|left]. split; [done|]. eexists. split; [done|].
  cbn [call_back calls set_file]. by rewrite take_zlen.
Qed.

Section Steps.
Context (nr : Z) (e : env) (ctx : raw_socket_ctx) (Hnr : 0 < nr < 2 ^ 32).

(** A step of [run_impl]: the callback is called at most once, in a step that goes on with the loop. *)
Lemma thread_step_calls poll_ok m m' :
  RawSocket.reachable nr RAW_SOCKET_MAX_FRAME (m_sys m) -> calls_ok m ->
  (forall p r, m_pc m = At_result p r -> frame r = None -> ret r < 0) ->
  thread_step nr e ctx poll_ok m = Ret m' ->
  calls_ok m' /\ arrived (m_sys m') = arrived (m_sys m) /\
  (calls (m_world m') = calls (m_world m) \/
   exists f, calls (m_world m') = calls (m_world m) ++ [f] /\ (forall result, m_pc m <> At_return result)).
Proof using Hnr.
  intros Hr Hc Hneg E. unfold thread_step in E. unfold calls_ok in *.
  destruct (m_pc m) as [|previous|previous|previous r|previous result|result|result|result|result|result] eqn:Ep;
    cbn in Hc.
  - injection E as <-. cbn. auto.
  - injection E as <-. cbn. auto.
  - destruct (turn_result nr Hnr poll_ok (m_sys m) Hr) as (t & Et & Ht). rewrite Et in E. obind in E.
    destruct t as [[r s]|s]; injection E as <-; cbn; rewrite ?Ep; [|by split_and!; auto].
    split_and!; [by rewrite Hc| |done|by left].
    intros f Ef. destruct Ht as ([[Hn _]|(f' & Ef' & ->)] & _); [congruence|]. rewrite Ef' in Ef. by injection Ef as <-.
  - destruct Hc as [Hh Hret]. apply outcome_bind_inv in E as ([result w'] & Er & E). injection E as <-.
    destruct (after_recv_calls e r (m_world m) result w' (Hneg _ _ eq_refl) Hret Er) as [(-> & f & Hf & Hc)|[Hn Hc]];
      cbn [goto m_pc m_world m_sys]; rewrite Hc.
    + unfold of_result in Hh. rewrite Hf in Hh. rewrite Hh. split_and!; [done..|]. right. by exists f.
    + destruct result as [result|]; [|done]. cbn. rewrite Hh. split_and!; [by apply prefix_app_r|done|by left].
  - injection E as <-. cbn. auto.
  - injection E as <-. cbn. auto.
  - unfold close_file in E. destruct (is_open _); injection E as <-; cbn; auto.
  - injection E as <-. cbn. unfold read_stats. destruct (raw_socket_get_stats _ _ _ _). cbn. auto.
  - apply outcome_bind_inv in E as (w' & Ew & E). injection E as <-. unfold close_socket in Ew.
    apply outcome_bind_inv in Ew as (o2 & _ & Ew). injection Ew as <-. cbn. auto.
  - injection E as <-. cbn. rewrite Ep. auto.
Qed.
End Steps.

(** ** The queue and the printer *)

(** The frames printed are the frames popped, but for the one [pop] is about to return. *)
Definition pops (shown : list CapturedFrame) (s : PacketQueue.state) : Prop :=
  exists tl, popped s = shown ++ tl /\ match cons_ s with C_notify => exists f, tl = [f] | _ => tl = [] end.

Lemma pops_move s ev s' shown : move s ev s' -> ev <> E_pop_notify -> pops shown s -> pops shown s'.
Proof.
  intros Hm Hne (tl & Ep & Htl).
  destruct Hm; try done; cbn in *; try (exists tl; split; [done|]; first [done|congruence]).
  - exists tl. split; [done|]. by destruct (cons_ s).
  - exists tl. split; [done|]. cbn. by rewrite H in Htl.
  - exists tl. split; [done|]. cbn. by rewrite H in Htl.
  - exists tl. split; [done|]. cbn. by rewrite H in Htl.
  - rewrite H in Htl. subst tl. exists [f]. cbn. rewrite Ep, app_nil_r. eauto.
  - exists tl. split; [done|]. cbn. by rewrite H in Htl.
  - exists tl. split; [done|]. by destruct (cons_ s).
Qed.

Lemma printing_loop_app fs gs c : printing_loop (fs ++ gs) c = c ← printing_loop fs c; printing_loop gs c.
Proof.
  revert c. induction fs as [|f fs IH]; intros c; [done|]. cbn [app printing_loop].
  destruct (print_frame f c); [|done..]. cbn. apply IH.
Qed.

Lemma print_frame_ok f c : filter_ok (ctx_filter c) -> frame_valid f ->
  exists c', print_frame (captured f) c = Ret c' /\ ctx_filter c' = ctx_filter c.
Proof.
  destruct f as [[bytes s] u]. intros Hok [Hb Hl]. cbn [fst] in *. pose proof (zlen_nonneg bytes).
  unfold RAW_SOCKET_MAX_FRAME in *. assert (valid_view bytes (zlen bytes)) as Hv by (split_and!; [done|lia..]).
  destruct (print_packet_ok bytes (zlen bytes) s u ((count c + 1) mod 2 ^ 64) (ctx_filter c) Hv Hl Hok)
    as (r & dump & _ & _ & _ & _ & Ep).
  unfold print_frame, packet_printer_callback. cbn [captured data ts_seconds ts_microseconds].
  rewrite u32_small, Ep by lia. obind. by eexists.
Qed.

(** ** The invariant *)

Section Invariant.
Context (nr : Z) (e : env) (ctx : raw_socket_ctx) (o : RawDevice.os) (w0 : world) (s0 : sock) (filter : filter_ptr).
Context (Hnr : 0 < nr < 2 ^ 32) (Hsock : holds_socket ctx o (w_os w0)) (Hopen : opened nr s0).
Context (Hidle : g_active_ctx (w_glob w0) = None) (Hcalls : calls w0 = []) (Hfilter : filter_ok filter).
Local Abbreviation good := (good nr e ctx o w0).

(** The frames given to the callback so far. *)
Definition given (p : program) : list (list Z * Z * Z) := calls (m_world (p_capture p)).
Definition queue_of (p : program) : threads := {| q := p_queue p; to_push := [] |}.

Definition p_inv (p : program) : Prop :=
  good (p_capture p) /\ calls_ok (p_capture p) /\ Forall kframe_ok (arrived (m_sys (p_capture p))) /\
  t_inv queue_max_size (map captured (given p)) (queue_of p) /\
  (clos (p_queue p) <> K_out -> exists result, m_pc (p_capture p) = At_return result) /\
  ctx_filter (p_ctx p) = filter /\
  exists shown, pops shown (p_queue p) /\
    printing_loop shown {| os := []; count := 0; ctx_filter := filter |} = Ret (p_ctx p).

Lemma launch_inv : p_inv (launch filter w0 s0).
Proof using Hsock Hopen Hidle Hcalls.
  split; [by apply good_begin|]. split; [exact Hcalls|]. split; [constructor|]. split.
  - unfold given. cbn. rewrite Hcalls. apply start_inv.
  - split; [done|]. split; [done|]. exists []. split; [by exists []|done].
Qed.

Lemma given_prefix p : p_inv p -> given p `prefix_of` map (clip RAW_SOCKET_MAX_FRAME) (arrived (m_sys (p_capture p))).
Proof using Hnr.
  intros ((_ & Hr & _) & Hc & _). assert (0 <= RAW_SOCKET_MAX_FRAME) as Hmax by done.
  destruct (RawSocket.ring_inv nr RAW_SOCKET_MAX_FRAME Hmax Hnr _ Hr) as (k & fs & _ & ->).
  etrans; [|by eexists]. unfold calls_ok in Hc. unfold given.
  destruct (m_pc (p_capture p)); try (by rewrite Hc); try done. destruct Hc as [-> _]. by eexists.
Qed.

Lemma given_valid p : p_inv p -> Forall frame_valid (given p) /\ Forall frame_fits (given p).
Proof using Hnr.
  intros Hp. destruct (given_prefix p Hp) as [k E]. destruct Hp as (_ & _ & Hk & _). apply Forall_and.
  assert (Forall (fun f => frame_valid f /\ frame_fits f) (map (clip RAW_SOCKET_MAX_FRAME) (arrived (m_sys (p_capture p))))) as H.
  { apply Forall_fmap. eapply Forall_impl; [exact Hk|]. apply clip_valid. }
  rewrite E in H. by apply Forall_app in H as [H _].
Qed.

(** A step of the queue, other than a call of [push] or the return from [pop]. *)
Lemma queue_inv ev p : p_inv p -> Pipeline.may ev (queue_of p) = true -> ev <> E_pop_notify ->
  (ev = E_close -> exists result, m_pc (p_capture p) = At_return result) -> p_inv (queue_step ev p).
Proof using.
  intros Hp Hmay Hne Hclose. unfold queue_step. destruct (PacketQueue.step _ ev (p_queue p)) as [s|] eqn:E; [|done].
  destruct Hp as (H1 & H2 & H3 & H4 & H5 & H6 & shown & H7 & H8). split_and!; try done.
  - eapply t_inv_step; [exact H4|]. unfold Pipeline.thread_step. rewrite Hmay. cbn [queue_of q]. rewrite E. cbn.
    by destruct ev.
  - cbn. apply step_move in E. intros Hk. destruct E; cbn in Hk; try (by apply H5); try (by apply Hclose);
      apply H5; congruence.
  - exists shown. split; [|done]. by eapply pops_move; [eapply step_move|..].
Qed.

(** A step of the capture that calls no callback. *)
Lemma capture_inv m p : p_inv p -> good m -> calls_ok m -> Forall kframe_ok (arrived (m_sys m)) ->
  calls (m_world m) = given p -> (clos (p_queue p) <> K_out -> exists result, m_pc m = At_return result) ->
  p_inv (set_capture m p).
Proof using.
  intros (_ & _ & _ & H4 & _ & H6 & H7) Hg Hc Hk Hgiven Hclos. unfold p_inv, given, queue_of in *. cbn. rewrite Hgiven.
  by split_and!.
Qed.

(** And one that does. *)
Lemma push_inv m f p : p_inv p -> good m -> calls_ok m -> Forall kframe_ok (arrived (m_sys m)) ->
  calls (m_world m) = given p ++ [f] -> prod (p_queue p) = P_out -> clos (p_queue p) = K_out ->
  p_inv (queue_step (E_push (captured f)) (set_capture m p)).
Proof using.
  intros (_ & _ & _ & [Hr (_ & Hd & Hf)] & _ & H6 & shown & H7 & H8) Hg Hc Hk Hgiven Hprod Hclos.
  unfold queue_step. cbn [set_capture p_queue p_capture p_ctx]. unfold queue_of in *. cbn [q to_push] in *.
  assert (PacketQueue.step queue_max_size (E_push (captured f)) (p_queue p) = Some (with_prod (P_lock (captured f)) (p_queue p))) as E
    by (unfold PacketQueue.step; by rewrite Hprod).
  rewrite E. unfold p_inv, given. cbn. rewrite Hgiven. split_and!; try done.
  - split; [by eapply PacketQueue.reach_step|]. unfold orderly; cbn; split_and!; [by rewrite Hclos|done|]. cbn.
    unfold pending in *. cbn. rewrite Hprod in Hf. rewrite map_app, <- Hf. cbn. by rewrite !app_nil_r.
  - exists shown. split; [|done]. exact H7.
Qed.

(** The return from [pop], and the printing of the frame. *)
Lemma print_inv p : p_inv p -> cons_ (p_queue p) = C_notify ->
  exists frame c, last (popped (p_queue p)) = Some frame /\ print_frame frame (p_ctx p) = Ret c /\
    p_inv (set_ctx c (queue_step E_pop_notify p)).
Proof using Hnr Hfilter.
  intros Hp Hcons. destruct (given_valid p Hp) as [Hv _].
  destruct Hp as (H1 & H2 & H3 & H4 & H5 & H6 & shown & (tl & Ep & Htl) & H8).
  rewrite Hcons in Htl. destruct Htl as [f ->].
  pose proof H4 as [Hr (_ & _ & Hf)]. destruct (reachable_inv _ _ Hr) as ([Hfi _] & _). cbn [queue_of q] in *.
  assert (f ∈ map captured (given p)) as (g & -> & Hg)%list_elem_of_fmap.
  { rewrite <- Hf, Hfi, Ep. rewrite !elem_of_app, list_elem_of_singleton. auto. }
  rewrite Forall_forall in Hv. destruct (print_frame_ok g (p_ctx p)) as (c & Ec & Hc); [by rewrite H6|by apply Hv|].
  exists (captured g), c. rewrite Ep, last_snoc. split_and!; [done..|].
  unfold queue_step. destruct (PacketQueue.step _ E_pop_notify (p_queue p)) as [s|] eqn:E;
    [|unfold PacketQueue.step in E; by rewrite Hcons in E; destruct (prod (p_queue p))].
  assert (Hm := step_move _ _ _ _ E). unfold p_inv, given. cbn. split_and!; try done.
  - eapply t_inv_step; [exact H4|]. unfold Pipeline.thread_step. cbn. by rewrite E.
  - by inversion Hm; subst.
  - by rewrite Hc.
  - exists (shown ++ [captured g]). split; [exists []; rewrite app_nil_r; by inversion Hm; subst|].
    rewrite printing_loop_app, H8. obind. cbn [printing_loop]. rewrite Ec. by obind.
Qed.

(** ** How much is left to do *)

(** Once the capture is on its way out: the capture thread's steps, the handlers', and the queue's,
    with a push for the frame in hand. *)
Definition work_left (p : program) : nat :=
  8 * in_hand (m_pc (p_capture p)) + capture_left (p_capture p) + handler_left (m_main (p_capture p)) +
  Pipeline.weight (queue_of p).

(** A thread that is not asleep and has not ended. *)
Definition enabled (t : tid) (p : program) : bool :=
  match t with
  | T_capture =>
    match m_own (p_capture p), prod (p_queue p), m_pc (p_capture p), clos (p_queue p) with
    | H_out, P_wait _, _, _ | H_out, P_out, At_return _, K_done => false
    | _, _, _, _ => true
    end
  | T_main =>
    match m_main (p_capture p), cons_ (p_queue p) with
    | H_out, C_wait => false
    | H_out, C_out => negb (drained (p_queue p))
    | _, _ => true
    end
  end.

#[local] Instance tid_eq_dec : EqDecision tid.
Proof. solve_decision. Defined.

(** The thread that takes a step of the queue. *)
Definition side (ev : PacketQueue.event) : tid :=
  match ev with E_pop | E_pop_section | E_pop_notify | E_pop_wakes => T_main | _ => T_capture end.

(** A step of one thread does not put the other to sleep. *)
Lemma move_side s ev s' : move s ev s' ->
  match side ev with
  | T_capture => (cons_ s' = cons_ s \/ cons_ s = C_wait) /\ drained s' = drained s
  | T_main => (prod s' = prod s \/ exists f, prod s = P_wait f) /\ clos s' = clos s
  end.
Proof using. destruct 1; cbn; split; auto; [destruct (cons_ s)|destruct (prod s)|destruct (cons_ s)]; cbn; eauto. Qed.

Lemma enabled_other ev t p : t <> side ev -> enabled t p = true -> enabled t (queue_step ev p) = true.
Proof using.
  intros Ht He. unfold queue_step. destruct (PacketQueue.step _ ev (p_queue p)) as [s|] eqn:E; [|done].
  apply step_move, move_side in E. destruct t, (side ev); try done; cbn in *.
  - destruct E as [E ->]. destruct (m_main (p_capture p)); [|done..].
    destruct E as [->|E]; [done|by rewrite E in He].
  - destruct E as [E ->]. destruct (m_own (p_capture p)); [|done..].
    destruct E as [->|[f E]]; [done|by rewrite E in He].
Qed.

Lemma queue_left ev p s : p_inv p -> Pipeline.may ev (queue_of p) = true ->
  PacketQueue.step queue_max_size ev (p_queue p) = Some s ->
  if spurious ev then work_left (queue_step ev p) = S (work_left p) else (work_left (queue_step ev p) < work_left p)%nat.
Proof using.
  intros (_ & _ & _ & H4 & _) Hmay E.
  assert (Pipeline.thread_step queue_max_size ev (queue_of p) = Some {| q := s; to_push := [] |}) as Et.
  { unfold Pipeline.thread_step. rewrite Hmay. cbn. rewrite E. cbn. by destruct ev. }
  apply (weight_step _ _ _ _ _ H4) in Et. unfold work_left, queue_step. rewrite E. cbn [p_capture queue_of p_queue] in *.
  unfold queue_of in *. cbn [p_queue] in *. destruct (spurious ev); lia.
Qed.

(** What a turn other than a SIGINT does to a session on its way out. *)
Definition own_turn (t : tid) (u : turn) : bool :=
  match t, u with T_capture, U_capture _ | T_main, U_main => true | _, _ => false end.
Definition wakes (u : turn) : nat := match u with U_wakes _ => 1 | _ => 0 end.
Definition works (u : turn) (p : program) : nat :=
  if own_turn T_capture u && enabled T_capture p || own_turn T_main u && enabled T_main p then 1 else 0.

Lemma works_le u p : (works u p <= 1)%nat.
Proof using. unfold works. destruct (_ || _); lia. Qed.

Definition winds (u : turn) (p p' : program) : Prop :=
  settled (p_capture p) -> settled (p_capture p') /\ (work_left p' + works u p <= work_left p + wakes u)%nat /\
    forall t, own_turn t u = false -> enabled t p = true -> enabled t p' = true.

(** A step of the queue as the turn of a thread. *)
Lemma queue_winds u ev p : p_inv p -> Pipeline.may ev (queue_of p) = true -> own_turn (side ev) u = true ->
  spurious ev = false -> is_Some (PacketQueue.step queue_max_size ev (p_queue p)) -> winds u p (queue_step ev p).
Proof using.
  intros Hp Hmay Hu Hs [s E] Hset. pose proof (queue_left ev p s Hp Hmay E) as Hl. rewrite Hs in Hl. split_and!.
  - unfold queue_step. by rewrite E.
  - pose proof (works_le u p). lia.
  - intros t Ht. apply enabled_other. intros ->. congruence.
Qed.

(** The turn of a thread with nothing to do. *)
Lemma idle_winds u p : works u p = 0%nat -> winds u p p.
Proof using. intros Hw Hs. split_and!; [done|lia|done]. Qed.

(** ** The turns *)

(** A step of the queue that the thread's place in it allows. *)
Ltac can_step := unfold PacketQueue.step; repeat case_match; simplify_eq; by eexists.

Lemma new_call_none m m' : calls (m_world m') = calls (m_world m) -> new_call m m' = None.
Proof using. unfold new_call. intros ->. by rewrite drop_all. Qed.
Lemma new_call_some m m' f : calls (m_world m') = calls (m_world m) ++ [f] -> new_call m m' = Some f.
Proof using. unfold new_call. intros ->. by rewrite drop_app_length. Qed.

Lemma on_sigint_keeps t m m' : on_sigint t m = Ret m' ->
  arrived (m_sys m') = arrived (m_sys m) /\ handed (m_sys m') = handed (m_sys m).
Proof using.
  unfold on_sigint. destruct (handling_of t m); [by intros [= <-]..|]. intros (s & _ & [= <-])%outcome_bind_inv. done.
Qed.
Lemma calls_ok_sys m m' : m_pc m' = m_pc m -> m_world m' = m_world m -> handed (m_sys m') = handed (m_sys m) ->
  calls_ok m -> calls_ok m'.
Proof using. unfold calls_ok. by intros -> -> ->. Qed.

(** A step of the handler on [t], which is in it. *)
Lemma handler_turn t u p : p_inv p -> handling_of t (p_capture p) <> H_out -> own_turn t u = true ->
  (exists m, on_sigint t (p_capture p) = Ret m /\ p_inv (set_capture m p) /\
     arrived (m_sys m) = arrived (m_sys (p_capture p)) /\ calls (m_world m) = given p /\
     winds u p (set_capture m p)) \/
  on_sigint t (p_capture p) = UB /\ t = T_main /\ m_main (p_capture p) = H_store (self ctx) /\
    exists result, m_pc (p_capture p) = At_return result.
Proof using Hsock.
  intros Hp Hh Hu. pose proof Hp as (Hg & Hc & Hk & H4 & H5 & _).
  destruct (handler_good nr e ctx o w0 Hsock t _ Hg) as [(m & E & Hg' & Epc & Ew & Hst & _ & Hl & Ho & Ht)|H]; [|by right].
  left. exists m. destruct (on_sigint_keeps _ _ _ E) as [Ea Eh]. split_and!; [done| |done|by rewrite Ew|].
  - apply capture_inv; [done..| | | |]; [by eapply calls_ok_sys|by rewrite Ea|by rewrite Ew|by rewrite Epc].
  - intros Hset. assert (handler_left (handling_of t m) < handler_left (handling_of t (p_capture p)))%nat as Hlt.
    { destruct (handling_of t (p_capture p)) eqn:Et; [done| |].
      - rewrite Hl by done. destruct (load_active _); cbn; lia.
      - destruct Ho as [|Ho]; [done|]. rewrite Ho. cbn. lia. }
    unfold work_left, capture_left, settled, queue_of. cbn [set_capture p_capture p_queue]. rewrite Epc. split_and!.
    + destruct Hset; auto.
    + pose proof (works_le u p). destruct t; cbn [handling_of] in *;
        [pose proof (Ht T_capture ltac:(done)) as Ht'|pose proof (Ht T_main ltac:(done)) as Ht']; cbn in Ht'; rewrite Ht'; lia.
    + intros t' Ht'. assert (t' <> t) as Hne by congruence. specialize (Ht t' Hne).
      destruct t'; cbn in *; by rewrite Ht, ?Epc.
Qed.

Lemma result_negative m : good m -> forall previous r, m_pc m = At_result previous r -> frame r = None -> ret r < 0.
Proof using. intros (_ & _ & _ & _ & (tl & _ & _ & H) & _) previous r E. rewrite E in H. by destruct H. Qed.

(** A step of [run_impl]. *)
Lemma thread_turn poll_ok p : p_inv p -> m_own (p_capture p) = H_out -> prod (p_queue p) = P_out ->
  (forall result, m_pc (p_capture p) <> At_return result) ->
  exists m, Interrupt.thread_step nr e ctx poll_ok (p_capture p) = Ret m /\
    arrived (m_sys m) = arrived (m_sys (p_capture p)) /\
    let p' := match new_call (p_capture p) m with
              | Some f => queue_step (E_push (captured f)) (set_capture m p)
              | None => set_capture m p
              end in
    p_inv p' /\ m_sys (p_capture p') = m_sys m /\ winds (U_capture poll_ok) p p'.
Proof using Hnr.
  intros Hp Hown Hprod Hpc. pose proof Hp as (Hg & Hc & Hk & H4 & H5 & _).
  assert (clos (p_queue p) = K_out) as Hclos.
  { destruct (clos (p_queue p)) eqn:E; [done|..]; destruct H5 as [result H]; try done; by destruct (Hpc result). }
  destruct (thread_good nr e ctx Hnr o w0 poll_ok _ Hg Hown) as (m & E & Hg'). exists m. split; [done|].
  destruct (thread_step_calls nr e ctx Hnr poll_ok _ m (proj1 (proj2 Hg)) Hc (result_negative _ Hg) E) as (Hc' & Ea & Hcalls').
  split; [done|]. destruct (thread_step_handling nr e ctx poll_ok _ _ E) as [Em Eo].
  assert (settled (p_capture p) -> settled m /\ (capture_left m + 1 <= capture_left (p_capture p))%nat /\
    (length (calls (m_world m)) + in_hand (m_pc m) <= length (given p) + in_hand (m_pc (p_capture p)))%nat) as Hset.
  { intros Hs. destruct (thread_stops nr e ctx Hnr o w0 poll_ok _ m Hg Hs E) as (Hl & [Hw _] & Hpast). split_and!; [|..|done].
    - destruct Hs as [Hs|Hs]; [left; by apply (thread_keeps_stop nr e ctx Hnr o w0 poll_ok (p_capture p))|right; auto].
    - unfold capture_left. rewrite Eo. assert (0 < steps_left (m_pc (p_capture p)))%nat; [|lia].
      destruct (m_pc (p_capture p)) as [| | |? r| | | | | |result]; cbn; try lia; [destruct (frame r); lia|by destruct (Hpc result)]. }
  assert (forall t, own_turn t (U_capture poll_ok) = false -> enabled t p = true -> enabled t (set_capture m p) = true) as Hen.
  { intros [] ?; [|done]. cbn. by rewrite Em. }
  destruct Hcalls' as [Hsame|(f & Hf & _)].
  - rewrite new_call_none by done. cbn zeta. split_and!; [by apply capture_inv; rewrite ?Ea, ?Hclos|done|].
    intros (Hs & Hl & Hw)%Hset. rewrite Hsame in Hw. unfold given in Hw. split_and!; [done| |exact Hen].
    pose proof (works_le (U_capture poll_ok) p). unfold work_left, queue_of in *. cbn [set_capture p_capture p_queue]. rewrite Em. lia.
  - rewrite (new_call_some _ _ f) by done. cbn zeta.
    assert (PacketQueue.step queue_max_size (E_push (captured f)) (p_queue p) = Some (with_prod (P_lock (captured f)) (p_queue p))) as Eq
      by (unfold PacketQueue.step; by rewrite Hprod).
    split_and!; [apply push_inv; try done; by rewrite Ea|unfold queue_step; cbn [set_capture p_queue]; by rewrite Eq|].
    intros (Hs & Hl & Hw)%Hset. rewrite Hf, length_app in Hw. cbn [length] in Hw. unfold given in Hw. split_and!.
    + unfold queue_step. cbn [set_capture p_queue]. by rewrite Eq.
    + pose proof (works_le (U_capture poll_ok) p). unfold work_left, queue_step, queue_of in *.
      cbn [set_capture p_capture p_queue]. rewrite Eq. cbn [p_capture p_queue]. rewrite Em.
      unfold weight. cbn [q to_push with_prod prod queue drained cons_ clos p_weight]. rewrite Hprod. cbn [p_weight]. lia.
    + intros t Ht He. apply enabled_other; [by destruct t|]. by apply Hen.
Qed.

Lemma capture_turn_ok poll_ok p : p_inv p ->
  exists p', capture_turn nr e ctx poll_ok p = Ret p' /\ p_inv p' /\
    arrived (m_sys (p_capture p')) = arrived (m_sys (p_capture p)) /\ winds (U_capture poll_ok) p p'.
Proof using Hnr Hsock.
  intros Hp. unfold capture_turn.
  assert (forall ev, Pipeline.may ev (queue_of p) = true -> side ev = T_capture -> spurious ev = false ->
    is_Some (PacketQueue.step queue_max_size ev (p_queue p)) ->
    (ev = E_close -> exists result, m_pc (p_capture p) = At_return result) ->
    exists p', Ret (queue_step ev p) = Ret p' /\ p_inv p' /\
      arrived (m_sys (p_capture p')) = arrived (m_sys (p_capture p)) /\ winds (U_capture poll_ok) p p') as Hq.
  { intros ev Hmay Hside Hsp Hsome Hclose. eexists. split; [done|].
    split_and!; [by apply queue_inv; [..|intros ->|]|unfold queue_step; by destruct (PacketQueue.step _ _ _)|].
    apply queue_winds; try done. by rewrite Hside. }
  assert (forall h, m_own (p_capture p) = h -> h <> H_out ->
    exists p', (m ← capture_step nr e ctx poll_ok (p_capture p);
                Ret (match new_call (p_capture p) m with
                     | Some f => queue_step (E_push (captured f)) (set_capture m p) | None => set_capture m p end)) = Ret p' /\
      p_inv p' /\ arrived (m_sys (p_capture p')) = arrived (m_sys (p_capture p)) /\ winds (U_capture poll_ok) p p') as Hh.
  { intros h Eh Hne. unfold capture_step. rewrite Eh. rewrite <- Eh in Hne.
    destruct (handler_turn T_capture (U_capture poll_ok) p Hp Hne eq_refl) as [(m & E & Hi & Ea & Ec & Hw)|(_ & [=] & _)].
    destruct h; [done|..]; rewrite E; obind; rewrite new_call_none by done; by eexists. }
  destruct (m_own (p_capture p)) as [| |a] eqn:Eo; [|by apply (Hh H_load)|by apply (Hh (H_store a))].
  destruct (prod (p_queue p)) eqn:Epr.
  - assert ((exists result, m_pc (p_capture p) = At_return result) \/ forall result, m_pc (p_capture p) <> At_return result) as [[result Epc]|Hpc]
      by (destruct (m_pc (p_capture p)); eauto; right; done).
    + rewrite Epc. destruct (clos (p_queue p)) eqn:Ek.
      * apply Hq; try done; [cbn; by rewrite Epr|can_step|eauto].
      * apply Hq; try done. can_step.
      * apply Hq; try done. can_step.
      * eexists. split_and!; [done..|]. apply idle_winds. unfold works. cbn. by rewrite Eo, Epr, Epc, Ek.
    + destruct (thread_turn poll_ok p Hp Eo Epr Hpc) as (m & E & Ea & Hi & Es & Hw).
      eexists. split; [|split_and!; [exact Hi|by rewrite Es|exact Hw]].
      unfold capture_step. rewrite Eo, E. obind. destruct (m_pc (p_capture p)); try done. by destruct (Hpc result).
  - apply Hq; try done. can_step.
  - eexists. split_and!; [done..|]. apply idle_winds. unfold works. cbn. by rewrite Eo, Epr.
  - apply Hq; try done. can_step.
Qed.

Lemma main_turn_ok p : p_inv p ->
  (exists p', main_turn p = Ret p' /\ p_inv p' /\
     arrived (m_sys (p_capture p')) = arrived (m_sys (p_capture p)) /\ winds U_main p p') \/
  main_turn p = UB /\ m_main (p_capture p) = H_store (self ctx) /\ exists result, m_pc (p_capture p) = At_return result.
Proof using Hnr Hsock Hfilter.
  intros Hp. unfold main_turn.
  assert (forall ev, Pipeline.may ev (queue_of p) = true -> ev <> E_close -> ev <> E_pop_notify -> side ev = T_main ->
    spurious ev = false -> is_Some (PacketQueue.step queue_max_size ev (p_queue p)) ->
    p_inv (queue_step ev p) /\ arrived (m_sys (p_capture (queue_step ev p))) = arrived (m_sys (p_capture p)) /\
    winds U_main p (queue_step ev p)) as Hq.
  { intros ev Hmay Hcl Hno Hside Hsp Hsome.
    split_and!; [by apply queue_inv|unfold queue_step; by destruct (PacketQueue.step _ _ _)|].
    apply queue_winds; try done. by rewrite Hside. }
  destruct (m_main (p_capture p)) as [| |a] eqn:Em.
  2,3: destruct (handler_turn T_main U_main p Hp) as [(m & -> & Hi & Ea & _ & Hw)|(-> & _ & H & Hr)];
    [cbn; by rewrite Em|done|left; obind; by eexists|right; rewrite Em in H; by split_and!].
  left. destruct (cons_ (p_queue p)) eqn:Ec.
  - destruct (drained (p_queue p)) eqn:Ed; eexists; (split; [done|]).
    + split_and!; [done..|]. apply idle_winds. unfold works. cbn. by rewrite Em, Ec, Ed.
    + apply Hq; try done; [cbn; by rewrite Ed|]. can_step.
  - eexists. split; [done|]. apply Hq; try done. can_step.
  - eexists. split_and!; [done..|]. apply idle_winds. unfold works. cbn. by rewrite Em, Ec.
  - destruct (print_inv p Hp Ec) as (f & c & -> & -> & Hi). obind. eexists. split; [done|]. split_and!; [done| |].
    + unfold queue_step. by destruct (PacketQueue.step _ _ _).
    + apply (queue_winds U_main E_pop_notify p Hp); try done. can_step.
Qed.

(** What the kernel delivers is bytes with 32-bit times. *)
Definition turn_ok (u : turn) : Prop :=
  match u with U_kernel bd fs => closed_block bd fs /\ Forall kframe_ok fs | _ => True end.
Definition frames_of (u : turn) : list kframe := match u with U_kernel _ fs => fs | _ => [] end.

Lemma close_block_keeps bd fs y : handed (close_block nr bd fs y) = handed y /\
  exists k, arrived (close_block nr bd fs y) = arrived y ++ k /\ k `sublist_of` fs.
Proof using.
  unfold close_block. destruct (_ !! _); [destruct (user_owned _)|]; (split; [done|]).
  - exists []. rewrite app_nil_r. split; [done|apply sublist_nil_l].
  - by exists fs.
  - exists []. rewrite app_nil_r. split; [done|apply sublist_nil_l].
Qed.

(** A spurious wakeup. *)
Definition wakeup (t : tid) : PacketQueue.event := match t with T_main => E_pop_wakes | T_capture => E_push_wakes end.

Lemma wakes_turn t p : p_inv p ->
  p_inv (queue_step (wakeup t) p) /\
  arrived (m_sys (p_capture (queue_step (wakeup t) p))) = arrived (m_sys (p_capture p)) /\
  winds (U_wakes t) p (queue_step (wakeup t) p).
Proof using.
  intros Hp. split_and!; [by apply queue_inv; destruct t|unfold queue_step; by destruct (PacketQueue.step _ _ _)|].
  intros Hs. split_and!.
  - unfold queue_step. by destruct (PacketQueue.step _ _ _).
  - unfold works. cbn [own_turn andb orb wakes]. destruct (PacketQueue.step queue_max_size (wakeup t) (p_queue p)) as [s|] eqn:E.
    + pose proof (queue_left (wakeup t) p s Hp ltac:(by destruct t) E) as Hl. destruct t; cbn [wakeup spurious] in *; lia.
    + unfold queue_step. rewrite E. lia.
  - intros t' _ He. destruct (decide (t' = side (wakeup t))) as [->|Hne]; [|by apply enabled_other].
    unfold queue_step. destruct (PacketQueue.step _ _ _) as [s|] eqn:E; [|done]. apply step_move in E.
    destruct t; inversion E; subst; cbn in *; repeat case_match; done.
Qed.

(** A turn: the session goes on; a SIGINT that found the default action has ended it; or the main
    thread's handler wrote into the freed context. *)
Lemma take_turn_ok u p : turn_ok u -> p_inv p ->
  (exists p', take_turn nr e ctx u p = Ret (Some p') /\ p_inv p' /\
     (exists k, arrived (m_sys (p_capture p')) = arrived (m_sys (p_capture p)) ++ k /\ k `sublist_of` frames_of u) /\
     ((forall t, u <> U_sigint t) -> winds u p p')) \/
  (exists t, take_turn nr e ctx u p = Ret None /\ u = U_sigint t /\ handling_of t (p_capture p) = H_out /\
     sigint (w_glob (m_world (p_capture p))) = SIG_DFL /\
     (e_signal e = true -> handler_off (m_pc (p_capture p)) = true)) \/
  take_turn nr e ctx u p = UB /\ u = U_main /\ m_main (p_capture p) = H_store (self ctx) /\
    exists result, m_pc (p_capture p) = At_return result.
Proof using Hnr Hsock Hfilter.
  intros Hu Hp. pose proof Hp as (Hg & Hc & Hk & _ & H5 & _).
  assert (forall p', p_inv p' -> arrived (m_sys (p_capture p')) = arrived (m_sys (p_capture p)) -> 
    ((forall t, u <> U_sigint t) -> winds u p p') -> p_inv p' /\
    (exists k, arrived (m_sys (p_capture p')) = arrived (m_sys (p_capture p)) ++ k /\ k `sublist_of` frames_of u) /\
    ((forall t, u <> U_sigint t) -> winds u p p')) as Hdone.
  { intros p' Hi Ea Hw. split_and!; [done| |done]. exists []. rewrite app_nil_r. split; [done|apply sublist_nil_l]. }
  destruct u as [poll_ok| |bd fs|t|t]; cbn [take_turn].
  - destruct (capture_turn_ok poll_ok p Hp) as (p' & -> & Hi & Ea & Hw). left. obind. eexists. split; [done|]. by apply Hdone.
  - destruct (main_turn_ok p Hp) as [(p' & -> & Hi & Ea & Hw)|(-> & Hr)].
    + left. obind. eexists. split; [done|]. by apply Hdone.
    + by right; right.
  - left. eexists. split; [done|]. destruct Hu as [Hb Hfs].
    destruct (kernel_good nr e ctx o w0 bd fs _ Hb Hg) as [Hg' Hst].
    destruct (close_block_keeps bd fs (m_sys (p_capture p))) as (Eh & k & Ea & Hsub). split_and!.
    + apply capture_inv; try done; [by eapply (calls_ok_sys (p_capture p))|]. cbn. rewrite Ea. apply Forall_app. split; [done|].
      rewrite Forall_forall in *. intros f Hf. apply Hfs. by eapply elem_of_sublist.
    + by exists k.
    + intros _ Hs. split_and!; [|change (work_left p + 0 <= work_left p + 0)%nat; lia|by intros []].
      destruct Hs as [Hs|Hs]; [left; cbn; by rewrite Hst|by right].
  - destruct (deliver_sigint t (p_capture p)) as [m|] eqn:E; unfold deliver_sigint in E.
    + left. eexists. split; [done|].
      assert (m = p_capture p \/ m = set_handling t H_load (p_capture p)) as [->| ->]
        by (repeat case_match; simplify_eq; auto).
      * apply Hdone; [|done|]; [by apply capture_inv|by intros H; destruct (H t)].
      * apply Hdone; [|done|]; [|by intros H; destruct (H t)]. apply capture_inv; try done. by apply good_handling.
    + right. left. exists t. repeat case_match; simplify_eq. split_and!; try done.
      apply (fatal_off nr e ctx o w0 t); [done|]. by exists t.
  - left. destruct (wakes_turn t p Hp) as (Hi & Ea & Hw). exists (queue_step (wakeup t) p). split; [by destruct t|]. by apply Hdone.
Qed.

(** ** Schedules *)

(** As [killed] and [races] of Interrupt.v, of the whole program. *)
Definition p_killed (schedule : list turn) (p : program) : Prop :=
  exists us1 t us2 p1, schedule = us1 ++ U_sigint t :: us2 /\ run_program nr e ctx us1 p = Ret (Some p1) /\
    handling_of t (p_capture p1) = H_out /\ sigint (w_glob (m_world (p_capture p1))) = SIG_DFL /\
    (e_signal e = true -> handler_off (m_pc (p_capture p1)) = true).
Definition p_races (schedule : list turn) (p : program) : Prop :=
  exists us1 us2 p1 result, schedule = us1 ++ U_main :: us2 /\ run_program nr e ctx us1 p = Ret (Some p1) /\
    m_main (p_capture p1) = H_store (self ctx) /\ m_pc (p_capture p1) = At_return result.

Lemma run_program_app us us' : forall p, run_program nr e ctx (us ++ us') p =
  r ← run_program nr e ctx us p; match r with Some p => run_program nr e ctx us' p | None => Ret None end.
Proof using.
  induction us as [|u us IH]; intros p; [done|]. cbn [app run_program].
  destruct (take_turn nr e ctx u p) as [[p1|]| |]; obind; [apply IH|done..].
Qed.

Lemma p_races_app us us' p p1 : run_program nr e ctx us p = Ret (Some p1) -> p_races us' p1 -> p_races (us ++ us') p.
Proof using.
  intros E (us1 & us2 & p2 & result & -> & E2 & H). exists (us ++ us1), us2, p2, result.
  rewrite run_program_app, E, <- app_assoc. by obind.
Qed.

Lemma run_program_ok us : forall p, Forall turn_ok us -> p_inv p ->
  (exists p', run_program nr e ctx us p = Ret (Some p') /\ p_inv p' /\
     exists k, arrived (m_sys (p_capture p')) = arrived (m_sys (p_capture p)) ++ k /\ k `sublist_of` concat (map frames_of us)) \/
  run_program nr e ctx us p = Ret None /\ p_killed us p \/
  run_program nr e ctx us p = UB /\ p_races us p.
Proof using Hnr Hsock Hfilter.
  induction us as [|u us IH]; intros p Hus Hp.
  { left. exists p. split_and!; [done..|]. exists []. by rewrite app_nil_r. }
  apply Forall_cons in Hus as [Hu Hus]. cbn [run_program].
  destruct (take_turn_ok u p Hu Hp) as [(p1 & E1 & Hp1 & (k1 & Ek1 & Hk1) & _)|[(t & E1 & -> & H)|(E1 & -> & H & result & Hr)]].
  - destruct (IH p1 Hus Hp1) as [(p' & E & Hp' & k & Ek & Hk)|[(E & us1 & t & us2 & p2 & -> & E2 & H)|(E & H)]]; rewrite E1; obind.
    + left. exists p'. split_and!; [done..|]. exists (k1 ++ k). rewrite Ek, Ek1, app_assoc. split; [done|].
      cbn [map concat]. by apply sublist_app.
    + right. left. split; [done|]. exists (u :: us1), t, us2, p2. cbn [run_program app]. rewrite E1. by obind.
    + right. right. split; [done|]. apply (p_races_app [u] us p p1); [cbn; rewrite E1; by obind|done].
  - right. left. rewrite E1. split; [done|]. by exists [], t, us, p.
  - right. right. rewrite E1. split; [done|]. by exists [], us, p, result.
Qed.

(** ** The end *)

Definition quiet_turns (us : list turn) : Prop := Forall (fun u => forall t, u <> U_sigint t) us.
Definition n_wakes (us : list turn) : nat := list_sum (map wakes us).

(** Turns of a session on its way out: each thread that can do something and has its turn brings it
    closer to the end. *)
Lemma wind_up us : forall p, Forall turn_ok us -> quiet_turns us -> p_inv p -> settled (p_capture p) ->
  (exists p', run_program nr e ctx us p = Ret (Some p') /\ p_inv p' /\ settled (p_capture p') /\
     (work_left p' <= work_left p + n_wakes us)%nat /\
     forall t, enabled t p = true -> existsb (own_turn t) us = true -> (work_left p' < work_left p + n_wakes us)%nat) \/
  run_program nr e ctx us p = UB /\ p_races us p.
Proof using Hnr Hsock Hfilter.
  induction us as [|u us IH]; intros p Hus Hq Hp Hs.
  { left. exists p. split_and!; [done..| |done]. unfold n_wakes. cbn [map list_sum fold_right]. lia. }
  apply Forall_cons in Hus as [Hu Hus]. apply Forall_cons in Hq as [Hn Hq]. cbn [run_program].
  destruct (take_turn_ok u p Hu Hp) as [(p1 & E1 & Hp1 & _ & Hw)|[(t & _ & -> & _)|(E1 & -> & H & result & Hr)]].
  2: by destruct (Hn t).
  2: { right. rewrite E1. split; [done|]. by exists [], us, p, result. }
  destruct (Hw Hn Hs) as (Hs1 & Hl1 & Hen). clear Hw.
  destruct (IH p1 Hus Hq Hp1 Hs1) as [(p' & E & Hp' & Hs' & Hl)|(E & H)]; rewrite E1; obind.
  - destruct Hl as [Hl Hlt]. left. exists p'. assert (n_wakes (u :: us) = wakes u + n_wakes us)%nat as -> by done.
    split_and!; [done..|lia|]. intros t He. cbn [existsb]. destruct (own_turn t u) eqn:Eo; cbn [orb]; intros Ht.
    + assert (works u p = 1)%nat; [|lia]. unfold works. destruct t; rewrite Eo, He; [|done]. cbn. by rewrite orb_true_r.
    + specialize (Hlt t (Hen t Eo He) Ht). lia.
  - right. split; [done|]. apply (p_races_app [u] us p p1); [cbn; rewrite E1; by obind|done].
Qed.

(** As long as the session is not over one of the threads can do something. *)
Lemma p_progress p : p_inv p -> over p = true \/ exists t, enabled t p = true.
Proof using.
  intros (_ & _ & _ & H4 & H5 & _). assert (0 < queue_max_size)%nat as Hmax by (unfold queue_max_size; lia).
  destruct (m_own (p_capture p)) eqn:Eo; [|right; exists T_capture; cbn; by rewrite Eo..].
  destruct (m_main (p_capture p)) eqn:Em; [|right; exists T_main; cbn; by rewrite Em..].
  pose proof H4 as [_ (Hk & _)]. cbn [queue_of q to_push] in Hk.
  destruct (progress _ _ _ Hmax H4) as [(ev & Hsp & t & Et)|Hfin].
  - right. apply thread_step_inv in Et as (Hmay & Et & _). apply step_move in Et. exists (side ev).
    cbn [queue_of q] in *. inversion Et; subst; try done; cbn in Hmay |- *; rewrite ?Eo, ?Em; simplify_eq;
      repeat match goal with H : _ = _ |- _ => rewrite H end; try done.
    + by destruct (prod (p_queue p)), (m_pc (p_capture p)).
    + destruct Hk as [_ ->]; [congruence|]. by destruct (m_pc (p_capture p)).
    + destruct Hk as [_ ->]; [congruence|]. by destruct (m_pc (p_capture p)).
  - left. assert (p_queue p = q (finished (map captured (given p)))) as Eq by by rewrite <- Hfin.
    rewrite Eq in H5. destruct H5 as [result Epc]; [done|]. unfold over. by rewrite Eo, Em, Epc, Eq.
Qed.

(** What is over stays so. *)
Lemma over_turn u p p' : p_inv p -> over p = true -> (forall t, u <> U_sigint t) ->
  take_turn nr e ctx u p = Ret (Some p') -> over p' = true.
Proof using.
  intros (_ & _ & _ & [_ (Hk & _)] & _) Hov Hu E. pose proof Hov as Hov'. unfold over in Hov'.
  destruct (m_pc (p_capture p)) eqn:Epc; try done. destruct (m_main (p_capture p)) eqn:Em; try done.
  destruct (m_own (p_capture p)) eqn:Eo; try done. destruct (clos (p_queue p)) eqn:Ek; try done.
  destruct (cons_ (p_queue p)) eqn:Ec; try done. cbn [queue_of q] in Hk. destruct Hk as [_ Hprod]; [by rewrite Ek|].
  destruct u as [poll_ok| |bd fs|t|t]; cbn [take_turn] in E.
  - unfold capture_turn in E. rewrite Eo, Hprod, Epc, Ek in E. by injection E as <-.
  - unfold main_turn in E. rewrite Em, Ec, Hov' in E. by injection E as <-.
  - by injection E as <-.
  - by destruct (Hu t).
  - unfold queue_step, PacketQueue.step in E. destruct t; rewrite ?Hprod, ?Ec in E; by injection E as <-.
Qed.

Lemma over_run us : forall p p', Forall turn_ok us -> quiet_turns us -> p_inv p -> over p = true ->
  run_program nr e ctx us p = Ret (Some p') -> over p' = true.
Proof using Hnr Hsock Hfilter.
  induction us as [|u us IH]; intros p p' Hus Hq Hp Hov E; [by injection E as <-|].
  apply Forall_cons in Hus as [Hu Hus]. apply Forall_cons in Hq as [Hn Hq]. cbn [run_program] in E.
  destruct (take_turn_ok u p Hu Hp) as [(p1 & E1 & Hp1 & _)|[(t & E1 & _)|(E1 & _)]]; rewrite E1 in E; obind in E; try done.
  apply (IH p1 p'); try done. by apply (over_turn u p).
Qed.

(** There is never more to do than this. *)
Definition most_work : Z := 16422.

Lemma work_bound p : p_inv p -> Z.of_nat (work_left p) <= most_work.
Proof using.
  intros (_ & _ & _ & [Hr _] & _). destruct (reachable_inv _ _ Hr) as ([_ Hl] & _). cbn [queue_of q] in Hl.
  unfold work_left, most_work, capture_left, weight. cbn [queue_of q to_push length].
  assert (in_hand (m_pc (p_capture p)) <= 1)%nat by (destruct (m_pc _) as [| | |? r| | | | | |]; cbn; try lia; destruct (frame r); lia).
  assert (steps_left (m_pc (p_capture p)) <= 10)%nat by (destruct (m_pc _) as [| | |? r| | | | | |]; cbn; try lia; destruct (frame r); lia).
  assert (forall h, handler_left h <= 2)%nat as Hh by (intros []; cbn; lia).
  pose proof (Hh (m_own (p_capture p))). pose proof (Hh (m_main (p_capture p))).
  assert (p_weight (prod (p_queue p)) <= 7)%nat by (destruct (prod _); cbn; lia).
  assert (c_weight (drained (p_queue p)) (cons_ (p_queue p)) <= 4)%nat by (destruct (drained _), (cons_ _); cbn; lia).
  assert (k_weight (clos (p_queue p)) <= 5)%nat by (destruct (clos _); cbn; lia).
  unfold queue_max_size in Hl. lia.
Qed.

(** A round: both threads have a turn at least, and no SIGINT comes. *)
Definition fair_round (us : list turn) : Prop :=
  quiet_turns us /\ Forall turn_ok us /\ existsb (own_turn T_main) us = true /\ existsb (own_turn T_capture) us = true.

Lemma rounds_wind_up rounds : forall p, Forall fair_round rounds -> p_inv p -> settled (p_capture p) ->
  (exists p', run_program nr e ctx (concat rounds) p = Ret (Some p') /\ p_inv p' /\
     (over p' = true \/ (work_left p' + length rounds <= work_left p + n_wakes (concat rounds))%nat)) \/
  run_program nr e ctx (concat rounds) p = UB /\ p_races (concat rounds) p.
Proof using Hnr Hsock Hfilter.
  induction rounds as [|us rounds IH]; intros p Hr Hp Hs.
  { left. exists p. split_and!; [done..|]. right. unfold n_wakes. cbn [concat map list_sum fold_right length]. lia. }
  apply Forall_cons in Hr as [(Hq & Hus & Hm & Hc) Hr]. cbn [concat]. rewrite run_program_app.
  destruct (wind_up us p Hus Hq Hp Hs) as [(p1 & E1 & Hp1 & Hs1 & _ & Hl)|(E1 & H1)]; rewrite E1; obind.
  2: { right. split; [done|]. destruct H1 as (us1 & us2 & p1 & result & -> & H1). exists us1, (us2 ++ concat rounds), p1, result.
       by rewrite <- app_assoc. }
  destruct (IH p1 Hr Hp1 Hs1) as [(p' & E & Hp' & H)|(E & H)]; [|right; split; [done|by eapply p_races_app]].
  left. exists p'. split_and!; [done..|]. assert (Forall turn_ok (concat rounds) /\ quiet_turns (concat rounds)) as [Hrok Hrq].
  { split; apply Forall_concat; eapply Forall_impl; try exact Hr; by intros us' (? & ? & _). }
  destruct (p_progress p Hp) as [Hov|[t Ht]].
  - left. apply (over_run (concat rounds) p1); [done..| |done]. by apply (over_run us p).
  - destruct H as [?|H]; [by left|right]. unfold n_wakes in *. rewrite map_app, list_sum_app. cbn [length].
    specialize (Hl t Ht ltac:(by destruct t)). lia.
Qed.

(** So many rounds bring a session on its way out to its end, spurious wakeups apart. *)
Lemma session_ends rounds p : Forall fair_round rounds -> p_inv p -> settled (p_capture p) ->
  most_work + Z.of_nat (n_wakes (concat rounds)) < zlen rounds ->
  (exists p', run_program nr e ctx (concat rounds) p = Ret (Some p') /\ p_inv p' /\ over p' = true) \/
  run_program nr e ctx (concat rounds) p = UB /\ p_races (concat rounds) p.
Proof using Hnr Hsock Hfilter.
  intros Hr Hp Hs Hn. pose proof (work_bound p Hp) as Hb.
  destruct (rounds_wind_up rounds p Hr Hp Hs) as [(p' & E & Hp' & [Hov|Hl])|H]; [|unfold zlen in *; lia|by right].
  left. by exists p'.
Qed.

(** ** Ctrl+C *)

(** A handler entered while the loop runs will see to that. *)
Definition on_its_way (m : machine) : Prop := settled m \/ exists t, begun (m_pc m) = true /\ handling_of t m <> H_out.

(** What a turn does to the capture: nothing, or what Interrupt.v has for it. *)
Lemma turn_act u p p' : (forall t, u <> U_sigint t) -> turn_ok u -> p_inv p -> take_turn nr e ctx u p = Ret (Some p') ->
  (p_capture p' = p_capture p /\ forall t, own_turn t u = true -> handling_of t (p_capture p) = H_out) \/
  exists a, act_ok a /\ (forall t, a <> A_sigint t) /\ react nr e ctx a (p_capture p) = Ret (Some (p_capture p')) /\
    forall t, is_step t a = own_turn t u.
Proof using.
  intros Hn Hu Hp E. assert (forall ev p, p_capture (queue_step ev p) = p_capture p) as Hq
    by (intros; unfold queue_step; by destruct (PacketQueue.step _ _ _)).
  destruct u as [poll_ok| |bd fs|t|t]; cbn [take_turn] in E.
  - apply outcome_bind_inv in E as (p1 & E & [= ->]). unfold capture_turn in E.
    repeat case_match; try (injection E as <-; left; rewrite ?Hq; split; [done|by intros []]);
      apply outcome_bind_inv in E as (m' & Em & [= <-]); right; exists (A_thread poll_ok); cbn [react]; rewrite Em; obind;
      (split_and!; [done..| |by intros []]); case_match; by rewrite ?Hq.
  - apply outcome_bind_inv in E as (p1 & E & [= ->]). unfold main_turn in E.
    repeat case_match; try done; try (injection E as <-; left; rewrite ?Hq; split; [done|by intros []]);
      apply outcome_bind_inv in E as (m' & Em & [= <-]).
    + left. cbn. rewrite Hq. split; [done|by intros []].
    + right. exists A_main. cbn [react]. rewrite Em. obind. split_and!; [done..|by intros []].
    + right. exists A_main. cbn [react]. rewrite Em. obind. split_and!; [done..|by intros []].
  - injection E as <-. right. exists (A_kernel bd fs). destruct Hu. split_and!; [done..|by intros []].
  - by destruct (Hn t).
  - left. split; [|by intros []]. destruct t; injection E as <-; by rewrite Hq.
Qed.

Lemma settling_turn t u p p' : (forall t, u <> U_sigint t) -> turn_ok u -> p_inv p -> settling t (p_capture p) ->
  take_turn nr e ctx u p = Ret (Some p') ->
  settling t (p_capture p') /\ (settled (p_capture p') \/
    (handler_left (handling_of t (p_capture p')) <= handler_left (handling_of t (p_capture p)) - if own_turn t u then 1 else 0)%nat).
Proof using Hnr Hsock.
  intros Hn Hu Hp Hs E. destruct (turn_act u p p' Hn Hu Hp E) as [[-> Ho]|(a & Ha & Hna & Er & Eo)].
  - split; [done|]. destruct (own_turn t u) eqn:Et; [|right; lia]. left. destruct Hs as [_ [?|Hh]]; [done|].
    by rewrite (Ho t Et) in Hh.
  - destruct Hp as (Hg & _). destruct (settling_step nr e ctx Hnr o w0 Hsock t a _ _ Ha Hna Hg Hs Er) as [H1 H2].
    by rewrite Eo in H2.
Qed.

(** A round takes a handler a step further. *)
Lemma settling_run t us : forall p, Forall turn_ok us -> quiet_turns us -> p_inv p -> settling t (p_capture p) ->
  (exists p', run_program nr e ctx us p = Ret (Some p') /\ p_inv p' /\ settling t (p_capture p') /\
     (settled (p_capture p') \/ (handler_left (handling_of t (p_capture p')) <=
        handler_left (handling_of t (p_capture p)) - if existsb (own_turn t) us then 1 else 0)%nat)) \/
  run_program nr e ctx us p = UB /\ p_races us p.
Proof using Hnr Hsock Hfilter.
  induction us as [|u us IH]; intros p Hus Hq Hp Hs.
  { left. exists p. split_and!; [done..|]. right. cbn. lia. }
  apply Forall_cons in Hus as [Hu Hus]. pose proof Hq as [Hn Hq']%Forall_cons. cbn [run_program].
  destruct (take_turn_ok u p Hu Hp) as [(p1 & E1 & Hp1 & _ & Hw)|[(t' & _ & -> & _)|(E1 & -> & H & result & Hr)]].
  2: by destruct (Hn t').
  2: { right. rewrite E1. split; [done|]. by exists [], us, p, result. }
  destruct (settling_turn t u p p1 Hn Hu Hp Hs E1) as [Hs1 Hl1].
  destruct (IH p1 Hus Hq' Hp1 Hs1) as [(p' & E & Hp' & Hs' & Hl)|(E & H)]; rewrite E1; obind.
  2: { right. split; [done|]. apply (p_races_app [u] us p p1); [cbn; rewrite E1; by obind|done]. }
  left. exists p'. split_and!; [done..|]. destruct Hl1 as [Hl1|Hl1].
  - left. destruct (wind_up us p1 Hus Hq' Hp1 Hl1) as [(p2 & E2 & _ & ? & _)|(E2 & _)]; rewrite E in E2; [|done].
    by injection E2 as <-.
  - destruct Hl as [?|Hl]; [by left|right]. cbn [existsb]. destruct (own_turn t u), (existsb (own_turn t) us); cbn [orb] in *; lia.
Qed.

(** Two rounds for the handler, and the rest as above. *)
Lemma ctrl_c_ends rounds p : Forall fair_round rounds -> p_inv p -> on_its_way (p_capture p) ->
  most_work + 2 + Z.of_nat (n_wakes (concat rounds)) < zlen rounds ->
  (exists p', run_program nr e ctx (concat rounds) p = Ret (Some p') /\ p_inv p' /\ over p' = true) \/
  run_program nr e ctx (concat rounds) p = UB /\ p_races (concat rounds) p.
Proof using Hnr Hsock Hfilter.
  intros Hr Hp [Hs|(t & Hb & Hh)] Hn; [by apply session_ends; [..|lia]|].
  destruct rounds as [|us1 [|us2 rounds]]; [unfold most_work, zlen in Hn; cbn [length] in Hn; lia..|].
  apply Forall_cons in Hr as [(Hq1 & Hu1 & Hm1 & Hc1) Hr]. apply Forall_cons in Hr as [(Hq2 & Hu2 & Hm2 & Hc2) Hr].
  assert (settling t (p_capture p)) as Hst by (split; auto).
  assert (most_work + Z.of_nat (n_wakes (concat rounds)) < zlen rounds) as Hn'.
  { rewrite !zlen_cons in Hn. unfold n_wakes in *. cbn [concat] in Hn. rewrite !map_app, !list_sum_app in Hn. lia. }
  cbn [concat]. rewrite run_program_app.
  destruct (settling_run t us1 p Hu1 Hq1 Hp Hst) as [(p1 & E1 & Hp1 & Hst1 & Hl1)|(E1 & us3 & us4 & p3 & result & -> & H1)].
  2: { right. rewrite E1. split; [done|]. exists us3, (us4 ++ us2 ++ concat rounds), p3, result. by rewrite <- app_assoc. }
  rewrite E1. obind. rewrite run_program_app.
  destruct (settling_run t us2 p1 Hu2 Hq2 Hp1 Hst1) as [(p2 & E2 & Hp2 & [Hb2 Hst2] & Hl2)|(E2 & us3 & us4 & p3 & result & -> & H2)].
  2: { right. rewrite E2. split; [done|]. apply (p_races_app us1 _ p p1 E1).
       exists us3, (us4 ++ concat rounds), p3, result. by rewrite <- app_assoc. }
  rewrite E2. obind. assert (settled (p_capture p2)) as Hs2.
  { destruct Hst2 as [?|Hh2]; [done|]. destruct Hl2 as [?|Hl2]; [done|]. destruct Hl1 as [Hl1|Hl1].
    - destruct (wind_up us2 p1 Hu2 Hq2 Hp1 Hl1) as [(p3 & E3 & _ & ? & _)|(E3 & _)]; rewrite E2 in E3; [|done]. by injection E3 as <-.
    - assert (existsb (own_turn t) us1 = true /\ existsb (own_turn t) us2 = true) as [Et1 Et2] by by destruct t.
      rewrite Et1 in Hl1. rewrite Et2 in Hl2. destruct (handling_of t (p_capture p)), (handling_of t (p_capture p2)); cbn in *; try done; lia. }
  destruct (session_ends rounds p2 Hr Hp2 Hs2 Hn') as [?|(E & H)]; [by left|right]. split; [done|].
  apply (p_races_app us1 _ p p1 E1). by apply (p_races_app us2 _ p1 p2 E2).
Qed.

(** ** What a session that is over has done *)

Definition stopped : recv_result := {| ret := RAW_SOCKET_STOPPED; frame := None |}.

Lemma handed_ok p : p_inv p -> Forall frame_fits (handed (m_sys (p_capture p))).
Proof using Hnr.
  intros ((_ & Hr & _) & _ & Hk & _). assert (0 <= RAW_SOCKET_MAX_FRAME) as Hmax by done.
  destruct (RawSocket.ring_inv nr RAW_SOCKET_MAX_FRAME Hmax Hnr _ Hr) as (k & fs & _ & E).
  assert (Forall frame_fits (map (clip RAW_SOCKET_MAX_FRAME) (arrived (m_sys (p_capture p))))) as H.
  { apply Forall_fmap. eapply Forall_impl; [exact Hk|]. intros f Hf. apply (clip_valid f Hf). }
  rewrite E in H. by apply Forall_app in H as [H _].
Qed.

(** The results its loop got, as the capture stage takes them: the frames handed out, and a last
    one without a frame. *)
Lemma got_results p : p_inv p ->
  let recvs := m_got (p_capture p) ++ [stopped] in
  Forall recv_ok recvs /\ Exists (fun r => ret r < 0) recvs /\ received recvs = handed (m_sys (p_capture p)).
Proof using Hnr.
  intros Hp. pose proof (handed_ok p Hp) as Hh. destruct Hp as ((_ & _ & _ & _ & (tl & -> & Htl & _) & _) & _).
  cbn zeta. rewrite <- app_assoc.
  assert (exists r tl', tl ++ [stopped] = r :: tl' /\ frame r = None /\ Forall (fun r => frame r = None /\ ret r < 0) (r :: tl'))
    as (r & tl' & -> & Hr & Hall).
  { destruct Htl as [->|(r & -> & Hr & Hneg)]; [by exists stopped, []; repeat constructor|].
    exists r, [stopped]. by repeat constructor. }
  split_and!.
  - apply Forall_app. split; [apply Forall_fmap; eapply Forall_impl; [exact Hh|]; intros f Hf; by split|].
    eapply Forall_impl; [exact Hall|]. intros r' [E Hneg]. unfold recv_ok. by rewrite E.
  - apply Exists_app. right. apply Exists_cons_hd. by apply Forall_cons in Hall as [[_ ?] _].
  - clear - Hr. induction (handed _) as [|f fs IH]; cbn; [by rewrite Hr|by rewrite IH].
Qed.

Lemma capture_ended p result : p_inv p -> m_pc (p_capture p) = At_return result ->
  let e' := with_recv (m_got (p_capture p) ++ [stopped]) e in
  capture_stage e' ctx w0 = Ret (result, m_world (p_capture p)) /\
  ended e' o w0 result (m_world (p_capture p)) /\
  received (e_recv e') = handed (m_sys (p_capture p)).
Proof using Hnr Hsock.
  intros Hp Epc e'. destruct (got_results p Hp) as (Hok & Hex & Hrec).
  assert (capture_stage e' ctx w0 = Ret (result, m_world (p_capture p))) as E.
  { destruct Hp as ((_ & _ & _ & _ & _ & Hrem) & _). specialize (Hrem [stopped]). by rewrite Epc in Hrem. }
  split_and!; [done| |done].
  destruct (capture_stage_ok e' Hok Hex ctx o w0 Hsock) as (rc & w' & E' & H). rewrite E in E'. by injection E' as <- <-.
Qed.

Lemma over_printed p : p_inv p -> over p = true -> zlen (given p) < 2 ^ 64 ->
  exists blocks, os (p_ctx p) = concat blocks /\ length blocks = length (given p) /\
    forall i f, given p !! i = Some f -> exists t, blocks !! i = Some t /\ shows filter (1 + Z.of_nat i) f t.
Proof using Hnr Hfilter.
  intros Hp Hov H64. destruct (given_valid p Hp) as [Hv _].
  destruct Hp as (_ & _ & _ & [Hr (Hk & _ & Hf)] & _ & _ & shown & (tl & Ep & Htl) & Hprint). unfold over in Hov.
  destruct (reachable_inv _ _ Hr) as ([Hfi _] & _ & [_ Hdr] & _). cbn [queue_of q to_push] in *.
  destruct (m_pc (p_capture p)); try done. destruct (m_main (p_capture p)); try done. destruct (m_own (p_capture p)); try done.
  destruct (clos (p_queue p)) eqn:Ek; try done. destruct (cons_ (p_queue p)) eqn:Ec; try done. subst tl.
  destruct (Hdr Hov) as [_ Hq]. destruct Hk as [_ Hprod]; [done|]. unfold pending in Hf.
  rewrite Hprod, Hq, !app_nil_r in *. cbn [app] in Hf.
  assert (shown = map captured (given p)) as -> by congruence.
  destruct (printing_loop_ok filter (given p) Hfilter Hv [] 0) as (blocks & E & Hlen & Hsh); [lia..|].
  rewrite E in Hprint. injection Hprint as Hprint. rewrite <- Hprint. by exists blocks.
Qed.
End Invariant.

(** ** The whole program *)

(** What the program has written when it is over, its two threads having ended in [p]: a block for
    each frame given to the callback, numbered from 1, and the kernel's statistics. *)
Definition wrote (e : env) (ns : Z) (cfg : config) (io : streams) (h : heap) (filter : filter_ptr) (p : program)
    (result : Z) (r : session_end) : Prop :=
  exists blocks,
    r = {| exit_code := if result =? 0 then 0 else 1;
           s_io := {| cout := cout io ++ capturing_on (Console.device_name cfg) ++ concat blocks;
                      cerr := cerr io ++ stats_line 0 (e_stats e) ns ++ capturing_failed result |};
           s_world := m_world (p_capture p); s_heap := h |} /\
    length blocks = length (given p) /\
    forall i f, given p !! i = Some f -> exists t, blocks !! i = Some t /\ shows filter (1 + Z.of_nat i) f t.

(** What it has captured: an initial part of the frames that arrived, which are among those the
    kernel had for it; with a result of 0, all that were handed out, in the file too. *)
Definition captures_all (schedule : list turn) (cfg : config) (p : program) (result : Z) : Prop :=
  given p `prefix_of` map (clip RAW_SOCKET_MAX_FRAME) (arrived (m_sys (p_capture p))) /\
  arrived (m_sys (p_capture p)) `sublist_of` concat (map frames_of schedule) /\
  (result = 0 -> given p = handed (m_sys (p_capture p)) /\
     (c_str (pcap_path cfg) <> [] -> pcap_decode (contents (w_file (m_world (p_capture p)))) = Some (given p))).

Section Whole.
Context (nr : Z) (e : env) (addr : option (list (option text))) (ns : Z).
Context (malloc1 malloc2 : option Z) (stack : text) (argv0 : text) (args : list text) (stdin : istream).
Context (cfg : config) (io : streams) (w : world) (s : sock) (h : heap) (c : df_result).
Context (Hnr : 0 < nr < 2 ^ 32) (Hopen : opened nr s) (Hfr : fresh_calls (e_open e) (w_os w)) (Hp : e_prog e ∉ progs w).
Context (Hcfg : configure (Linux.g_linux_backend e addr) argv0 args stdin quiet = Ret (Some cfg, io)).
Context (Hfit : filter_fits (Some (c_str (capture_filter cfg)))) (Ho : is_open (w_file w) = false) (Hc : calls w = []).
Context (Hidle : g_active_ctx (w_glob w) = None) (Hfresh : fresh malloc1 malloc2 h).
Context (Hcomp : dispfilter_compile malloc1 malloc2 h (Some (c_str (display_filter cfg))) (Some stack) 128 = Ret c).
Context (Hret : DispFilter.ret c <> None).

Definition prepared : outcome (option raw_socket_ctx * world) :=
  prepare e (Some (c_str (Console.device_name cfg))) (Some (c_str (capture_filter cfg))) (Some (c_str (pcap_path cfg))) w.
Definition program_run (schedule : list turn) : outcome (option session_end) :=
  main nr e addr malloc1 malloc2 stack schedule ns argv0 args stdin w s h.

(** The program from the display filter on. *)
Lemma program_run_eq schedule : exists filter, DispFilter.ret c = Some filter /\
  program_run schedule =
    '(ctx, w1) ← prepared;
    let io := to_cout (capturing_on (Console.device_name cfg)) io in
    match ctx with
    | None => r ← wrap_up ns (Some filter) io (live c) (-1) w1; Ret (Some r)
    | Some ctx =>
      p ← run_program nr e ctx schedule (launch (Some filter) w1 s);
      match p with
      | None => Ret None
      | Some p =>
        match m_pc (p_capture p) with
        | At_return capture_result =>
          if over p then
            r ← wrap_up ns (Some filter) (to_cout (os (p_ctx p)) io) (live c) capture_result (m_world (p_capture p));
            Ret (Some r)
          else Timeout
        | _ => Timeout
        end
      end
    end.
Proof using Hcfg Hcomp Hret.
  destruct (DispFilter.ret c) as [filter|] eqn:Er; [|done]. exists filter. split; [done|].
  unfold program_run, main, prepared. rewrite Hcfg. obind. unfold session. rewrite Hcomp. obind. by rewrite Er.
Qed.

(** The capture did not get as far as its loop. *)
Lemma unprepared schedule w1 : prepared = Ret (None, w1) ->
  exists r, program_run schedule = Ret (Some r) /\ exit_code r = 1 /\
    cout (s_io r) = cout io ++ capturing_on (Console.device_name cfg) /\
    (exists k, cerr (s_io r) = k ++ capturing_failed (-1)) /\ s_world r = w1 /\ s_heap r = h.
Proof using Hcfg Hcomp Hret Hfresh.
  intros E. destruct (program_run_eq schedule) as (filter & Er & ->). rewrite E. obind.
  destruct (compiled_any _ _ _ _ _ _ _ Hfresh Hcomp Hret) as [_ Hfree]. rewrite Er in Hfree.
  unfold wrap_up. destruct (get_last_stats_impl Dest w1) as [rc st]. rewrite Hfree. obind.
  eexists. split; [done|]. split_and!; try done. eexists. done.
Qed.

(** It did. *)
Lemma prepared_inv ctx w1 : prepared = Ret (Some ctx, w1) ->
  holds_socket ctx (w_os w) (w_os w1) /\ g_active_ctx (w_glob w1) = None /\ calls w1 = [] /\
  filter_attached (Some (c_str (capture_filter cfg))) (attached w1) /\
  (c_str (pcap_path cfg) <> [] -> is_open (w_file w1) = true /\ contents (w_file w1) = file_header).
Proof using Hfr Hp Hfit Ho Hc Hidle.
  intros E. unfold prepared in E.
  destruct (prepare_cases e (Some (c_str (Console.device_name cfg))) _ (Some (c_str (pcap_path cfg))) w Hfr Hp Hfit Ho)
    as [(w' & E' & _)|(ctx' & w' & E' & Hh & Hg & Hcl & _ & Ha & Hf)]; rewrite E in E'; [done|].
  injection E' as <- <-. split_and!; [done|by rewrite Hg|by rewrite Hcl|done|].
  intros Hne. by destruct (c_str (pcap_path cfg)).
Qed.

Section Prepared.
Context (ctx : raw_socket_ctx) (w1 : world) (Hprep : prepared = Ret (Some ctx, w1)).
Local Abbreviation p_inv := (p_inv nr e ctx (w_os w) w1 (DispFilter.ret c)).
Local Abbreviation p0 := (launch (DispFilter.ret c) w1 s).

Lemma p0_inv : p_inv p0.
Proof using Hopen Hfr Hp Hfit Ho Hc Hidle Hprep. destruct (prepared_inv ctx w1 Hprep) as (? & ? & ? & _). by apply launch_inv. Qed.

(** A program that is over returns, whatever its capture's result. *)
Lemma over_result p : over p = true -> exists result, m_pc (p_capture p) = At_return result.
Proof using. unfold over. destruct (m_pc (p_capture p)); try done. by eexists. Qed.

Lemma program_over schedule p : run_program nr e ctx schedule p0 = Ret (Some p) -> p_inv p -> over p = true ->
  exists result, m_pc (p_capture p) = At_return result /\
    program_run schedule = Ret (Some
      {| exit_code := if result =? 0 then 0 else 1;
         s_io := {| cout := cout io ++ capturing_on (Console.device_name cfg) ++ os (p_ctx p);
                    cerr := cerr io ++ stats_line 0 (e_stats e) ns ++ capturing_failed result |};
         s_world := m_world (p_capture p); s_heap := h |}).
Proof using Hnr Hfr Hp Hcfg Hfit Ho Hc Hidle Hfresh Hcomp Hret Hprep.
  intros E Hi Hov. destruct (over_result p Hov) as [result Epc]. exists result. split; [done|].
  destruct (prepared_inv ctx w1 Hprep) as (Hsock & _). destruct (program_run_eq schedule) as (filter & Er & ->).
  destruct (capture_ended nr e ctx (w_os w) w1 _ Hnr Hsock p result Hi Epc) as (_ & (_ & _ & _ & _ & _ & _ & Hst & _) & _).
  destruct (compiled_any _ _ _ _ _ _ _ Hfresh Hcomp Hret) as [_ Hfree].
  rewrite Er in *. rewrite Hprep. obind. rewrite E. obind. rewrite Epc, Hov. unfold wrap_up. rewrite Hst. cbn [e_stats with_recv].
  rewrite Hfree. destruct (e_stats e) as [st|]; obind; unfold to_cout, to_cerr; cbn [cout cerr];
    rewrite <- !app_assoc; by destruct (result =? 0).
Qed.

Lemma program_wrote schedule p : Forall turn_ok schedule -> zlen (concat (map frames_of schedule)) < 2 ^ 64 ->
  run_program nr e ctx schedule p0 = Ret (Some p) -> over p = true ->
  exists result r, m_pc (p_capture p) = At_return result /\ program_run schedule = Ret (Some r) /\
    run_impl (with_recv (m_got (p_capture p) ++ [stopped]) e) (Some (c_str (Console.device_name cfg)))
      (Some (c_str (capture_filter cfg))) (Some (c_str (pcap_path cfg))) w = Ret (result, m_world (p_capture p)) /\
    wrote e ns cfg io h (DispFilter.ret c) p result r /\ captures_all schedule cfg p result.
Proof using Hnr Hopen Hfr Hp Hcfg Hfit Ho Hc Hidle Hfresh Hcomp Hret Hprep.
  intros Hus H64 E Hov. destruct (compiled_any _ _ _ _ _ _ _ Hfresh Hcomp Hret) as [Hok _].
  destruct (prepared_inv ctx w1 Hprep) as (Hsock & _ & Hcalls & _ & Hfile).
  destruct (run_program_ok nr e ctx (w_os w) w1 _ Hnr Hsock Hok schedule p0 Hus p0_inv) as [(p' & E' & Hi & k & Ek & Hk)|[[E' _]|[E' _]]];
    rewrite E in E'; [|done..]. injection E' as <-. cbn [launch p_capture begin m_sys arrived app] in Ek. subst k.
  destruct (program_over schedule p E Hi Hov) as (result & Epc & Er). eexists result, _. split; [done|]. split; [done|].
  destruct (capture_ended nr e ctx (w_os w) w1 _ Hnr Hsock p result Hi Epc) as (Estage & (_ & _ & _ & _ & _ & _ & _ & _ & Hrc) & Hrec).
  pose proof (given_prefix nr e ctx (w_os w) w1 _ Hnr p Hi) as Hpre. split_and!.
  - unfold run_impl. change (prepare (with_recv _ e)) with (prepare e). fold prepared. rewrite Hprep. by obind.
  - destruct (over_printed nr e ctx (w_os w) w1 _ Hnr Hok p Hi Hov) as (blocks & -> & Hlen & Hsh); [|by exists blocks].
    apply prefix_length in Hpre. apply sublist_length in Hk. rewrite length_map in Hpre. unfold zlen in *. lia.
  - split_and!; [done..|]. intros ->. destruct Hrc as [?|(_ & Hg & Hcont)]; [done|]. rewrite Hcalls, Hrec in Hg. cbn [app] in Hg.
    split; [done|]. intros [Hopen' Hhdr]%Hfile. rewrite Hcont, Hhdr, Hrec by done. unfold given. rewrite Hg.
    by apply pcap_decode_frames, (handed_ok nr e ctx (w_os w) w1 (DispFilter.ret c)).
Qed.

(** The socket had the capture filter's program, and the frames are frames. *)
Lemma program_filtered schedule p : Forall turn_ok schedule ->
  run_program nr e ctx schedule p0 = Ret (Some p) -> over p = true ->
  filter_attached (Some (c_str (capture_filter cfg))) (attached (m_world (p_capture p))) /\ Forall frame_valid (given p).
Proof using Hnr Hopen Hfr Hp Hfit Ho Hc Hidle Hfresh Hcomp Hret Hprep.
  intros Hus E Hov. destruct (compiled_any _ _ _ _ _ _ _ Hfresh Hcomp Hret) as [Hok _].
  destruct (prepared_inv ctx w1 Hprep) as (Hsock & _ & _ & Hat & _). destruct (over_result p Hov) as [result Epc].
  destruct (run_program_ok nr e ctx (w_os w) w1 _ Hnr Hsock Hok schedule p0 Hus p0_inv) as [(p' & E' & Hi & _)|[[E' _]|[E' _]]];
    rewrite E in E'; [|done..]. injection E' as <-.
  destruct (capture_ended nr e ctx (w_os w) w1 _ Hnr Hsock p result Hi Epc) as (_ & (_ & _ & _ & _ & Ha & _) & _).
  rewrite Ha. split; [done|]. apply (given_valid nr e ctx (w_os w) w1 _ Hnr p Hi).
Qed.

(** A program whose schedule ended before its threads did. *)
Lemma program_unfinished schedule p : run_program nr e ctx schedule p0 = Ret (Some p) -> over p = false ->
  program_run schedule = Timeout.
Proof using Hcfg Hcomp Hret Hprep.
  intros E Hov. destruct (program_run_eq schedule) as (filter & Er & ->). rewrite Er, Hprep in *. obind. rewrite E. obind.
  destruct (m_pc (p_capture p)); try done. by rewrite Hov.
Qed.

(** Ctrl+C brings it to its end. *)
Lemma program_comes_to_end schedule p rounds : run_program nr e ctx schedule p0 = Ret (Some p) -> p_inv p ->
  on_its_way (p_capture p) -> Forall fair_round rounds ->
  most_work + 2 + Z.of_nat (n_wakes (concat rounds)) < zlen rounds ->
  (exists r, program_run (schedule ++ concat rounds) = Ret (Some r)) \/
  program_run (schedule ++ concat rounds) = UB /\ p_races nr e ctx (schedule ++ concat rounds) p0.
Proof using Hnr Hfr Hp Hcfg Hfit Ho Hc Hidle Hfresh Hcomp Hret Hprep.
  intros E Hi Hs Hr Hn. destruct (compiled_any _ _ _ _ _ _ _ Hfresh Hcomp Hret) as [Hok _].
  destruct (prepared_inv ctx w1 Hprep) as (Hsock & _).
  assert (run_program nr e ctx (schedule ++ concat rounds) p0 = run_program nr e ctx (concat rounds) p) as Er
    by (rewrite run_program_app, E; by obind).
  destruct (ctrl_c_ends nr e ctx (w_os w) w1 _ Hnr Hsock Hok rounds p Hr Hi Hs Hn) as [(p' & E' & Hi' & Hov)|(E' & H)];
    rewrite E' in Er.
  - left. destruct (program_over _ p' Er Hi' Hov) as (result & _ & H). by eexists.
  - right. split; [|by eapply p_races_app]. destruct (program_run_eq (schedule ++ concat rounds)) as (filter & Ef & ->).
    rewrite Ef, Hprep in *. obind. by rewrite Er.
Qed.
End Prepared.
End Whole.

(** ** Properties *)

(** C1: end to end.  A program run with arguments that configure it, a display filter that compiles
    and a capture filter that is not an expression of exactly 256 tokens, its two threads, the
    kernel (closing well-formed blocks of the ring, with fewer than 2^64 frames in all) and SIGINT
    taking turns in any order, is in one of these cases.  The capture does not
    get as far as its loop: the program prints no frame and exits with 1.  A SIGINT ends the
    process: it found the default action and, if signal() had not failed, came before the capture's
    handler was installed or after it was restored.  The handler on the main thread writes into
    the context after the capture has freed it (the race of C8).  The threads have not ended yet:
    then, if Ctrl+C was taken by the handler while the loop ran, or the loop has been left, any
    16425 further rounds in which both threads have a turn and no SIGINT comes (and one more per
    spurious wakeup) bring the program to its end, but for that race.  Or it has ended: the capture
    thread has done what [run_impl] does with the results its loop got; standard output has, in
    order and numbered from 1, the block of every frame given to the callback that the display
    filter lets pass; these frames are an initial part of those that arrived, themselves among
    those the kernel had; standard error has the kernel's statistics; the exit code is the
    capture's, and the display filter is freed; and when the capture returns 0 no frame handed
    out is missing, and the .pcap file, if there is one, holds the same frames. *)
Theorem session_end_to_end nr e addr ns malloc1 malloc2 stack schedule argv0 args stdin cfg io w s h c :
  0 < nr < 2 ^ 32 -> opened nr s -> Forall turn_ok schedule -> zlen (concat (map frames_of schedule)) < 2 ^ 64 ->
  fresh_calls (e_open e) (w_os w) -> e_prog e ∉ progs w ->
  configure (Linux.g_linux_backend e addr) argv0 args stdin quiet = Ret (Some cfg, io) ->
  filter_fits (Some (c_str (capture_filter cfg))) ->
  is_open (w_file w) = false -> calls w = [] -> g_active_ctx (w_glob w) = None -> fresh malloc1 malloc2 h ->
  dispfilter_compile malloc1 malloc2 h (Some (c_str (display_filter cfg))) (Some stack) 128 = Ret c ->
  DispFilter.ret c <> None ->
  let program schedule := main nr e addr malloc1 malloc2 stack schedule ns argv0 args stdin w s h in
  let device := Some (c_str (Console.device_name cfg)) in
  let bpf_filter := Some (c_str (capture_filter cfg)) in
  let path := Some (c_str (pcap_path cfg)) in
  (exists w1 r, prepare e device bpf_filter path w = Ret (None, w1) /\ program schedule = Ret (Some r) /\
     exit_code r = 1 /\ cout (s_io r) = cout io ++ capturing_on (Console.device_name cfg) /\
     (exists k, cerr (s_io r) = k ++ capturing_failed (-1)) /\ s_world r = w1 /\ s_heap r = h) \/
  (exists ctx w1, prepare e device bpf_filter path w = Ret (Some ctx, w1) /\
     let p0 := launch (DispFilter.ret c) w1 s in
     (program schedule = Ret None /\ p_killed nr e ctx schedule p0 \/
      program schedule = UB /\ p_races nr e ctx schedule p0 \/
      exists p, run_program nr e ctx schedule p0 = Ret (Some p) /\
        if over p then
          exists result r, m_pc (p_capture p) = At_return result /\ program schedule = Ret (Some r) /\
            run_impl (with_recv (m_got (p_capture p) ++ [stopped]) e) device bpf_filter path w =
              Ret (result, m_world (p_capture p)) /\
            wrote e ns cfg io h (DispFilter.ret c) p result r /\ captures_all schedule cfg p result
        else
          program schedule = Timeout /\
          (on_its_way (p_capture p) -> forall rounds, Forall fair_round rounds ->
             most_work + 2 + Z.of_nat (n_wakes (concat rounds)) < zlen rounds ->
             (exists r, program (schedule ++ concat rounds) = Ret (Some r)) \/
             program (schedule ++ concat rounds) = UB /\ p_races nr e ctx (schedule ++ concat rounds) p0))).
Proof.
  intros Hnr Hopen Hus H64 Hfr Hp Hcfg Hfit Ho Hc Hidle Hfresh Hcomp Hret program device bpf_filter path.
  destruct (prepare_cases e device bpf_filter path w Hfr Hp Hfit Ho) as [(w1 & E & _)|(ctx & w1 & E & _)].
  { left. destruct (unprepared nr e addr ns malloc1 malloc2 stack argv0 args stdin cfg io w s h c Hcfg Hfresh Hcomp Hret schedule w1 E)
      as (r & H). by exists w1, r. }
  right. exists ctx, w1. split; [done|]. intros p0.
  destruct (compiled_any _ _ _ _ _ _ _ Hfresh Hcomp Hret) as [Hok _].
  destruct (prepared_inv e cfg w Hfr Hp Hfit Ho Hc Hidle ctx w1 E) as (Hsock & Hi0 & Hc0 & _).
  destruct (program_run_eq nr e addr ns malloc1 malloc2 stack argv0 args stdin cfg io w s h c Hcfg Hcomp Hret schedule)
    as (filter & Ef & Erun). unfold program_run in Erun.
  destruct (run_program_ok nr e ctx (w_os w) w1 _ Hnr Hsock Hok schedule p0 Hus) as [(p & Ep & Hi & _)|[(Ep & Hk)|(Ep & Hk)]].
  - by apply launch_inv.
  - right. right. exists p. split; [done|]. destruct (over p) eqn:Hov.
    + by eapply (program_wrote nr e addr ns malloc1 malloc2 stack argv0 args stdin cfg io w s h c).
    + split; [by eapply (program_unfinished nr e addr ns malloc1 malloc2 stack argv0 args stdin cfg io w s h c)|].
      intros Hs rounds Hr Hn. by eapply (program_comes_to_end nr e addr ns malloc1 malloc2 stack argv0 args stdin cfg io w s h c).
  - left. split; [|done]. unfold program. rewrite Erun. change (prepared e cfg w) with (prepare e device bpf_filter path w). rewrite E. obind.
    rewrite <- Ef. fold p0. rewrite Ep. by obind.
  - right. left. split; [|done]. unfold program. rewrite Erun. change (prepared e cfg w) with (prepare e device bpf_filter path w). rewrite E. obind.
    rewrite <- Ef. fold p0. rewrite Ep. by obind.
Qed.

(** A capture of two frames that Ctrl+C, on the main thread, ends while it waits for a third. *)
Definition both (n : nat) : list turn := concat (repeat [U_capture true; U_main] n).
Definition session_schedule : list turn :=
  both 3 ++ [U_kernel two_packets frames_12] ++ both 12 ++ [U_sigint T_main] ++ both 20.
Definition session_cfg : config :=
  {| Console.device_name := lit "eth0"; capture_filter := lit "tcp"; display_filter := sample_expr; pcap_path := lit "out.pcap" |}.
Definition session_args : list text :=
  [lit "-i"; lit "eth0"; lit "-f"; lit "tcp"; lit "-Y"; sample_expr; lit "-w"; lit "out.pcap"].
Definition session_ns : Z := 1500000000.
Definition session_compiled : df_result :=
  match dispfilter_compile (Some 100) (Some 200) [1] (Some sample_expr) (Some (lit "?")) 128 with
  | Ret c => c
  | _ => {| DispFilter.ret := None; live := []; DispFilter.err_buf := None |}
  end.
Definition session_main (schedule : list turn) : outcome (option session_end) :=
  main 2 sample_env (Some [Some (lit "eth0")]) (Some 100) (Some 200) (lit "?") schedule session_ns (lit "my_wireshark")
    session_args (cin []) sample_world start [1].

Example session_main_end : exists r, session_main session_schedule = Ret (Some r) /\ exit_code r = 0 /\
  calls (s_world r) = [([80; 81; 82; 83], 1, 5); ([144; 145; 146; 147], 2, 10)].
Proof. vm_compute. eexists. done. Qed.

(** The same as far as the handler's first step: the threads have not ended, but Ctrl+C is on its
    way to the capture. *)
Definition short_schedule : list turn := take 32 session_schedule.

Example session_interrupted : session_main short_schedule = Timeout /\
  exists ctx w1 p,
    prepare sample_env (Some (lit "eth0")) (Some (lit "tcp")) (Some (lit "out.pcap")) sample_world = Ret (Some ctx, w1) /\
    run_program 2 sample_env ctx short_schedule (launch (DispFilter.ret session_compiled) w1 start) = Ret (Some p) /\
    on_its_way (p_capture p).
Proof.
  split; [vm_compute; reflexivity|]. eexists _, _, _. split; [vm_compute; reflexivity|].
  split; [vm_compute; reflexivity|]. right. exists T_main. vm_compute. done.
Qed.

Lemma schedule_ok schedule : Forall (fun u => match u with U_kernel bd fs => bd = two_packets /\ fs = frames_12 | _ => True end) schedule ->
  Forall turn_ok schedule.
Proof.
  intros H. eapply Forall_impl; [exact H|]. intros [| |bd fs| |]; try done. intros [-> ->].
  split; [split_and!; vm_compute; done|]. repeat constructor; apply (bool_decide_unpack _); vm_compute; exact I.
Qed.

Lemma session_end_to_end_witness :
  exists ctx w1 p result r,
    prepare sample_env (Some (lit "eth0")) (Some (lit "tcp")) (Some (lit "out.pcap")) sample_world = Ret (Some ctx, w1) /\
    run_program 2 sample_env ctx session_schedule (launch (DispFilter.ret session_compiled) w1 start) = Ret (Some p) /\
    over p = true /\ m_pc (p_capture p) = At_return result /\ session_main session_schedule = Ret (Some r) /\
    wrote sample_env session_ns session_cfg quiet [1] (DispFilter.ret session_compiled) p result r /\
    captures_all session_schedule session_cfg p result.
Proof.
  destruct (session_end_to_end 2 sample_env (Some [Some (lit "eth0")]) session_ns (Some 100) (Some 200) (lit "?")
    session_schedule (lit "my_wireshark") session_args (cin []) session_cfg quiet sample_world start [1] session_compiled)
    as [(w1 & r & E & _)|(ctx & w1 & E & [[E1 _]|[[E1 _]|(p & E1 & H)]])].
  - lia.
  - exact sample_opened.
  - apply schedule_ok. repeat constructor.
  - vm_compute. reflexivity.
  - exact sample_fresh_calls.
  - by apply (bool_decide_unpack _).
  - vm_compute. reflexivity.
  - exact sample_filter_fits.
  - reflexivity.
  - reflexivity.
  - reflexivity.
  - exact DispFilter.sample_fresh.
  - vm_compute. reflexivity.
  - vm_compute. discriminate.
  - exfalso. vm_compute in E. discriminate.
  - exfalso. vm_compute in E1. discriminate.
  - exfalso. vm_compute in E1. discriminate.
  - destruct (over p) eqn:Hov; [|exfalso; destruct H as [H _]; vm_compute in H; discriminate].
    destruct H as (result & r & H1 & H2 & _ & H3 & H4). exists ctx, w1, p, result, r. split_and!; assumption.
Defined.
