(* ===== verification/Traffic.v ===== *)
(** * From the wire to the screen: both filters at work

    The capture filter runs in the kernel, on the traffic; the display filter in the program,
    on what is left.  The kernel's part is stated here as documented: once a program is
    attached to the socket (SO_ATTACH_FILTER) it is run on every frame, which is dropped when
    the program returns 0 and otherwise kept up to as many bytes as it returns; frames for
    which the ring has no room are lost.  Frames that reached the ring between
    [raw_socket_open] and [raw_socket_attach_filter] have met no program. *)
From S2P Require Import Prelude Text Bpf FrontEnd CapCodegen CapFilter DispParser DispFilter PacketQueue.
From S2P Require Import Pipeline RawSocket RawDevice CaptureBackend Interrupt Backend Console Stats.
From S2P Require Import Packet HexDump PacketPrinter Main Session.
From stdpp Require Import options.

Local Open Scope Z_scope.

(** ** What the expressions ask for *)

(** The frames a capture filter lets through; an empty one, all. *)
Definition captures (expr : text) (bytes : list Z) : Prop :=
  expr = [] \/ exists n, CapFilter.denotes expr n /\ CapCodegen.eval n bytes = Some true.

(** The packets a display filter shows, as dispfilter.h has it; an empty one, all. *)
Definition displays (expr : text) (fields : dispfilter_fields_t) : Prop :=
  expr = [] \/ exists n, DispFilter.denotes expr n /\ DispFilter.holds n fields = true.

(** The expression does not compare a field of a layer the packet does not have with [!=], where
    the code goes its own way ([absent_field_ne]). *)
Definition no_absent_ne (expr : text) (fields : dispfilter_fields_t) : Prop :=
  forall n, DispFilter.denotes expr n -> DispFilter.ne_present n fields = true.

Definition keep (n : Z) (g : kframe) : kframe :=
  {| k_bytes := take (Z.to_nat n) (k_bytes g); k_sec := k_sec g; k_nsec := k_nsec g |}.

(** What is kept of a frame: the programs of the compiler return CF_ACCEPT_LEN. *)
Definition kept (expr : text) (g : kframe) : kframe :=
  match expr with [] => g | _ => keep CF_ACCEPT_LEN g end.

Section Kernel.
(** The kernel's BPF machine: on a valid program it returns what the tests' interpreter, written
    after it, returns. *)
Context (kernel_bpf : list sock_filter -> list Z -> Z).
Context (kernel_runs_bpf : forall prog pkt v, bpf_valid prog -> frame_ok pkt ->
  bpf_interp_run (Some prog) pkt (zlen pkt) = Ret v -> kernel_bpf prog pkt = v).

(** What becomes of a frame at a socket with this program. *)
Definition let_in (prog : option (list sock_filter)) (g : kframe) : option kframe :=
  match prog with
  | None => Some g
  | Some p => let n := kernel_bpf p (k_bytes g) in if n =? 0 then None else Some (keep n g)
  end.

(** What the ring has got: [early] before the program was attached, then some of the traffic
    that it admits, in order. *)
Definition through (prog : option (list sock_filter)) (early traffic arrived : list kframe) : Prop :=
  exists late, arrived = early ++ late /\ late `sublist_of` omap (let_in prog) traffic.

(** A socket with the program of a filter expression admits what the expression asks for. *)
Lemma let_in_captures expr prog g g' :
  filter_attached (Some expr) prog -> frame_ok (k_bytes g) -> let_in prog g = Some g' ->
  captures expr (k_bytes g) /\ g' = kept expr g.
Proof using kernel_runs_bpf.
  intros Ha Hg E. unfold captures, kept. destruct expr as [|ch expr]; cbn [filter_attached] in Ha.
  - subst prog. injection E as <-. auto.
  - destruct Ha as (n & p & Hd & Hv & Hi & ->). cbn [let_in] in E. specialize (Hi _ Hg).
    rewrite (kernel_runs_bpf p _ _ Hv Hg Hi) in E. unfold CapFilter.verdict in E.
    destruct (bool_decide_reflect (CapCodegen.eval n (k_bytes g) = Some true)); [|done].
    injection E as <-. split; [right; by exists n|done].
Qed.

(** And the frames given to the callback are what is kept of them, those that came early apart. *)
Lemma through_captures expr prog early traffic arrived calls :
  filter_attached (Some expr) prog -> Forall (fun g => frame_ok (k_bytes g)) traffic ->
  through prog early traffic arrived -> calls `prefix_of` map (clip RAW_SOCKET_MAX_FRAME) arrived ->
  Forall (fun f => exists g, g ∈ traffic /\ captures expr (k_bytes g) /\ f = clip RAW_SOCKET_MAX_FRAME (kept expr g))
    (drop (length early) calls).
Proof using kernel_runs_bpf.
  intros Ha Hok (late & -> & Hl) [rest E]. rewrite map_app in E.
  assert (Forall (fun f => exists g, g ∈ traffic /\ captures expr (k_bytes g) /\ f = clip RAW_SOCKET_MAX_FRAME (kept expr g))
    (map (clip RAW_SOCKET_MAX_FRAME) late)) as Hall.
  { apply Forall_fmap, Forall_forall. intros g' Hin. cbn. eapply elem_of_sublist in Hin; [|exact Hl].
    apply list_elem_of_omap in Hin as (g & Hg & Eg). rewrite Forall_forall in Hok.
    destruct (let_in_captures expr prog g g' Ha (Hok g Hg) Eg) as [Hc ->]. by exists g. }
  apply (f_equal (drop (length early))) in E. rewrite drop_app_length' in E by by rewrite length_map.
  rewrite E in Hall. rewrite drop_app in Hall. by apply Forall_app in Hall as [Hall _].
Qed.
End Kernel.

(** ** The whole program *)

(** A frame's block is empty exactly when the display filter does not want it. *)
Lemma shows_displays malloc1 malloc2 h expr err_ err_len_ c number f t : fresh malloc1 malloc2 h ->
  dispfilter_compile malloc1 malloc2 h (Some expr) err_ err_len_ = Ret c -> DispFilter.ret c <> None ->
  frame_valid f -> shows (DispFilter.ret c) number f t ->
  let fields := wire_fields (fst (fst f)) (zlen (fst (fst f))) in
  no_absent_ne expr fields -> t <> [] <-> displays expr fields.
Proof.
  intros Hfresh E Hr. destruct f as [[bytes s] u]. cbn [fst]. intros [Hb Hl] (r & dump & pass & _ & _ & _ & Hpass & ->).
  set (fields := wire_fields _ _) in *. intros Hne.
  destruct (compiled_any _ _ _ _ _ _ _ Hfresh E Hr) as [Hok _]. pose proof (zlen_nonneg bytes) as Hz.
  cbn [fst] in *. unfold RAW_SOCKET_MAX_FRAME in Hl. assert (valid_view bytes (zlen bytes)) as Hv by (split_and!; [done|lia..]).
  rewrite passes_filter_spec in Hpass by (try done; by apply wire_fields_ok). injection Hpass as <-.
  assert (PacketPrinter.verdict (DispFilter.ret c) fields = true <-> displays expr fields) as <-.
  2: { destruct (PacketPrinter.verdict _ _); split; try done. }
  unfold displays. destruct expr as [|ch expr].
  - destruct malloc1, malloc2; cbn in E; try (injection E as <-; done).
    + injection E as <-. split; [by left|done].
    + apply outcome_bind_inv in E as (h1 & _ & E). injection E as <-. done.
  - destruct (DispFilter.compiled_filter _ _ _ _ _ _ _ Hfresh E ltac:(done) Hr) as (n & self & arena & Hd & _ & ->).
    cbn. rewrite (DispFilter.evaluates_holds n fields) by (by apply Hne). split; [intros H; right; by exists n|].
    intros [?|(n' & Hd' & H)]; [done|]. by rewrite (DispFilter.df_denotes_unique _ _ _ Hd Hd').
Qed.

(** ** Properties *)

Section Whole.
Context (kernel_bpf : list sock_filter -> list Z -> Z).
Context (kernel_runs_bpf : forall prog pkt v, bpf_valid prog -> frame_ok pkt ->
  bpf_interp_run (Some prog) pkt (zlen pkt) = Ret v -> kernel_bpf prog pkt = v).
Context (nr : Z) (e : env) (addr : option (list (option text))) (ns : Z) (schedule : list turn).
Context (malloc1 malloc2 : option Z) (stack : text) (argv0 : text) (args : list text) (stdin : istream).
Context (cfg : config) (io : streams) (w : world) (s : sock) (h : heap) (c : df_result).
Context (Hnr : 0 < nr < 2 ^ 32) (Hopen : opened nr s) (Hus : Forall turn_ok schedule).
Context (H64 : zlen (concat (map frames_of schedule)) < 2 ^ 64).
Context (Hfr : fresh_calls (e_open e) (w_os w)) (Hp : e_prog e ∉ progs w).
Context (Hcfg : configure (Linux.g_linux_backend e addr) argv0 args stdin quiet = Ret (Some cfg, io)).
Context (Hfit : filter_fits (Some (c_str (capture_filter cfg)))) (Ho : is_open (w_file w) = false).
Context (Hc : calls w = []) (Hidle : g_active_ctx (w_glob w) = None) (Hfresh : fresh malloc1 malloc2 h).
Context (Hcomp : dispfilter_compile malloc1 malloc2 h (Some (c_str (display_filter cfg))) (Some stack) 128 = Ret c).
Context (Hret : DispFilter.ret c <> None).

(** C2: both filters, from the wire to the screen, in a program whose capture filter is not an
    expression of exactly 256 tokens, whose display filter compiles, and whose two threads have
    ended, the turns having come in any order (with fewer than 2^64 frames in all).  Of the
    traffic that met the program attached to the socket, it has been handed only frames the
    capture filter's expression asks for, each as it was sent (up to the 65535 bytes the program asks the kernel to keep); the frames that
    reached the ring before the program was attached are the only others.  And what is printed
    has one block for each frame handed over, which, for a frame that has the layers the display
    filter's expression compares with [!=], is empty exactly when the expression, read as
    dispfilter.h documents it, does not hold of the addresses and ports in the frame's bytes. *)
Theorem both_filters ctx w1 p :
  prepare e (Some (c_str (Console.device_name cfg))) (Some (c_str (capture_filter cfg))) (Some (c_str (pcap_path cfg))) w =
    Ret (Some ctx, w1) ->
  run_program nr e ctx schedule (launch (DispFilter.ret c) w1 s) = Ret (Some p) -> over p = true ->
  exists r blocks,
    main nr e addr malloc1 malloc2 stack schedule ns argv0 args stdin w s h = Ret (Some r) /\
    (forall early traffic, Forall (fun g => frame_ok (k_bytes g)) traffic ->
       through kernel_bpf (attached (s_world r)) early traffic (arrived (m_sys (p_capture p))) ->
       Forall (fun f => exists g, g ∈ traffic /\ captures (c_str (capture_filter cfg)) (k_bytes g) /\
                 f = clip RAW_SOCKET_MAX_FRAME (kept (c_str (capture_filter cfg)) g))
         (drop (length early) (calls (s_world r)))) /\
    cout (s_io r) = cout io ++ capturing_on (Console.device_name cfg) ++ concat blocks /\
    length blocks = length (calls (s_world r)) /\
    forall i f t, calls (s_world r) !! i = Some f -> blocks !! i = Some t ->
      let fields := wire_fields (fst (fst f)) (zlen (fst (fst f))) in
      no_absent_ne (c_str (display_filter cfg)) fields -> t <> [] <-> displays (c_str (display_filter cfg)) fields.
Proof using All.
  intros Eprep Erun Hov.
  destruct (program_wrote nr e addr ns malloc1 malloc2 stack argv0 args stdin cfg io w s h c Hnr Hopen Hfr Hp Hcfg Hfit Ho Hc
    Hidle Hfresh Hcomp Hret ctx w1 Eprep schedule p Hus H64 Erun Hov)
    as (result & r & _ & Er & _ & (blocks & -> & Hlen & Hsh) & Hpre & Hsub & _).
  destruct (program_filtered nr e malloc1 malloc2 stack cfg w s h c Hnr Hopen Hfr Hp Hfit Ho Hc Hidle Hfresh Hcomp Hret ctx w1
    Eprep schedule p Hus Erun Hov) as [Hat Hval].
  eexists _, blocks. split; [exact Er|]. cbn [s_world s_io cout]. split_and!; [|done..|].
  - intros early traffic Htr Hth. by eapply (through_captures kernel_bpf kernel_runs_bpf).
  - intros i f t Hf Ht. destruct (Hsh i f Hf) as (t' & Ht' & H). rewrite Ht in Ht'. injection Ht' as <-.
    rewrite Forall_lookup in Hval. intros Hne. eapply shows_displays; [exact Hfresh|exact Hcomp|exact Hret|exact (Hval i f Hf)|exact H|exact Hne].
Qed.
End Whole.

(** A session with an ARP request in the ring before the program of "tcp" was attached, and a
    SYN to port 443 after it; the display filter asks for port 443. *)
Definition interp_bpf (prog : list sock_filter) (pkt : list Z) : Z :=
  match bpf_interp_run (Some prog) pkt (zlen pkt) with Ret v => v | _ => 0 end.

Definition syn : kframe :=
  {| k_bytes := [0x11; 0x22; 0x33; 0x44; 0x55; 0x66; 0xaa; 0xbb; 0xcc; 0xdd; 0xee; 0xff; 0x08; 0x00;
       0x45; 0; 0; 40; 0; 0; 0; 0; 64; 6; 0x66; 0xce; 10; 0; 0; 1; 10; 0; 0; 2;
       0xc0; 1; 1; 0xbb; 0; 0; 0; 1; 0; 0; 0; 0; 0x50; 2; 0x20; 0; 0; 0; 0; 0];
     k_sec := 2; k_nsec := 5000 |}.
Definition who_has : kframe := {| k_bytes := sample_arp; k_sec := 1; k_nsec := 5000 |}.

(** A block with these frames, 128 bytes apart. *)
Definition slot (g : kframe) : list Z := replicate 32 0 ++ k_bytes g ++ replicate (96 - length (k_bytes g)) 0.
Definition slot_hdr (i : nat) (g : kframe) : Z * tpacket3_hdr :=
  (48 + 128 * Z.of_nat i, {| tp_next_offset := 128; tp_sec := k_sec g; tp_nsec := k_nsec g;
                             tp_snaplen := zlen (k_bytes g); tp_mac := 32 |}).
Definition traffic_block (gs : list kframe) : block :=
  {| block_status := 33; num_pkts := zlen gs; offset_to_first_pkt := 48; hdrs := imap slot_hdr gs;
     mem := replicate 48 0 ++ concat (map slot gs) |}.

Definition traffic_schedule : list turn :=
  both 3 ++ [U_kernel (traffic_block [who_has; syn]) [who_has; syn]] ++ both 12 ++ [U_sigint T_main] ++ both 20.
Definition traffic_args : list text := [lit "-i"; lit "eth0"; lit "-f"; lit "tcp"; lit "-Y"; lit "tcp.port == 443"].
Definition traffic_cfg : config :=
  {| Console.device_name := lit "eth0"; capture_filter := lit "tcp"; display_filter := lit "tcp.port == 443"; pcap_path := [] |}.
Definition traffic_compiled : df_result :=
  match dispfilter_compile (Some 100) (Some 200) [1] (Some (lit "tcp.port == 443")) (Some (lit "?")) 128 with
  | Ret c => c
  | _ => {| DispFilter.ret := None; live := []; DispFilter.err_buf := None |}
  end.
Definition traffic_prepared : raw_socket_ctx * world :=
  match prepare sample_env (Some (lit "eth0")) (Some (lit "tcp")) (Some []) sample_world with
  | Ret (Some ctx, w1) => (ctx, w1)
  | _ => (sample_ctx, sample_world)
  end.
Definition traffic_program : program :=
  let p0 := launch (DispFilter.ret traffic_compiled) (snd traffic_prepared) start in
  match run_program 2 sample_env (fst traffic_prepared) traffic_schedule p0 with Ret (Some p) => p | _ => p0 end.
Definition traffic_main : outcome (option session_end) :=
  main 2 sample_env (Some [Some (lit "eth0")]) (Some 100) (Some 200) (lit "?") traffic_schedule session_ns
    (lit "my_wireshark") traffic_args (cin []) sample_world start [1].

(** The ARP request is handed to the callback although the attached program rejects it. *)
Lemma early_frame_unfiltered :
  match traffic_main with
  | Ret (Some r) =>
    exit_code r = 0 /\ calls (s_world r) = map (clip RAW_SOCKET_MAX_FRAME) [who_has; syn] /\
    (fun prog => interp_bpf prog (k_bytes who_has)) <$> attached (s_world r) = Some 0
  | _ => False
  end.
Proof. vm_compute. done. Qed.

(** The ring holds the early frame and then what the kernel let in. *)
Lemma traffic_through :
  through interp_bpf (attached (m_world (p_capture traffic_program))) [who_has] [who_has; syn]
    (arrived (m_sys (p_capture traffic_program))).
Proof. exists [syn]. split; vm_compute; [reflexivity|]. repeat constructor. Qed.

Lemma both_filters_witness :
  exists r blocks,
    traffic_main = Ret (Some r) /\
    (forall early traffic, Forall (fun g => frame_ok (k_bytes g)) traffic ->
       through interp_bpf (attached (s_world r)) early traffic (arrived (m_sys (p_capture traffic_program))) ->
       Forall (fun f => exists g, g ∈ traffic /\ captures (lit "tcp") (k_bytes g) /\
                 f = clip RAW_SOCKET_MAX_FRAME (kept (lit "tcp") g)) (drop (length early) (calls (s_world r)))) /\
    cout (s_io r) = [] ++ capturing_on (lit "eth0") ++ concat blocks /\
    length blocks = length (calls (s_world r)) /\
    forall i f t, calls (s_world r) !! i = Some f -> blocks !! i = Some t ->
      let fields := wire_fields (fst (fst f)) (zlen (fst (fst f))) in
      no_absent_ne (lit "tcp.port == 443") fields -> t <> [] <-> displays (lit "tcp.port == 443") fields.
Proof.
  apply (both_filters interp_bpf) with (nr := 2) (cfg := traffic_cfg) (io := quiet) (c := traffic_compiled)
    (ctx := fst traffic_prepared) (w1 := snd traffic_prepared) (p := traffic_program).
  - intros prog pkt v _ _ E. unfold interp_bpf. by rewrite E.
  - lia.
  - exact sample_opened.
  - repeat constructor; try (vm_compute; done); apply (bool_decide_unpack _); vm_compute; exact I.
  - vm_compute. reflexivity.
  - exact sample_fresh_calls.
  - by apply (bool_decide_unpack _).
  - vm_compute. reflexivity.
  - exact sample_filter_fits.
  - reflexivity.
  - reflexivity.
  - reflexivity.
  - exact DispFilter.sample_fresh.
  - vm_compute. reflexivity.
  - vm_compute. discriminate.
  - vm_compute. reflexivity.
  - vm_compute. reflexivity.
  - vm_compute. reflexivity.
Defined.
