(* ===== verification/TestSuite.v ===== *)
(** * The repository's own tests, run on the model (src/src/tests)

    Every assertion of the unit tests that the model can express, evaluated: the filters on the
    frames of test_capfilter.c (through the BPF interpreter the tests use) and on the fields of
    test_dispfilter.c, the parsers and checksums on their sample packets, the queue's scenarios
    as schedules, and the pipeline test with the replaying backend, down to the printed text.
    Each [Example] has the name of the test, with its file's subject first. *)
From S2P Require Import Prelude Text Bpf Literals Checksum EthParser ArpParser IpParser Ipv6Parser.
From S2P Require Import TcpUdpParser IcmpParser FilterCore CapFilter DispParser DispFilter PacketQueue.
From S2P Require Import RawSocket RawDevice CaptureBackend Backend Packet HexDump PacketPrinter Main.
From stdpp Require Import options.

Local Open Scope Z_scope.

(** [data[i] = v] *)
Definition put (i : nat) (v : Z) (data : list Z) : list Z := <[i := v]> data.
Definition u16_bytes (v : Z) : list Z := [v / 256; v mod 256].

(** ** test_util.h *)

(** [test_failures] and what the macros write to standard error. *)
Record harness := { test_failures : Z; log : text }.

Definition TEST_ASSERT (file : string) (line : Z) (cond : string) (holds : bool) (st : harness) : harness :=
  if negb holds then
    {| test_failures := test_failures st + 1;
       log := log st ++ lit "FAIL " ++ lit file ++ lit ":" ++ num_text 10 line ++ lit ": " ++ lit cond ++ [newline] |}
  else st.
Definition TEST_RUN (fn : string) (body : harness -> harness) (st : harness) : harness :=
  body {| test_failures := test_failures st; log := log st ++ lit "-- " ++ lit fn ++ [newline] |}.
Definition TEST_MAIN_END (st : harness) : Z := if test_failures st =? 0 then 0 else 1.

(** A test program: its functions, each with the line, text and value of its assertions. *)
Abbreviation assertion := (Z * string * bool)%type.
Definition test_body (file : string) (l : list assertion) (st : harness) : harness :=
  fold_left (fun st '(line, cond, holds) => TEST_ASSERT file line cond holds st) l st.
Definition test_run (file : string) (tests : list (string * list assertion)) (st : harness) : harness :=
  fold_left (fun st '(fn, l) => TEST_RUN fn (test_body file l) st) tests st.
Definition test_main (file : string) (tests : list (string * list assertion)) : Z :=
  TEST_MAIN_END (test_run file tests {| test_failures := 0; log := [] |}).

Definition failing (l : list assertion) : Z := zlen (List.filter (fun '(_, _, holds) => negb holds) l).

Lemma test_body_failures file l : forall st, test_failures (test_body file l st) = test_failures st + failing l.
Proof.
  unfold failing, test_body. induction l as [|[[line cond] holds] l IH]; intros st; cbn [fold_left List.filter]; [by rewrite Z.add_0_r|].
  rewrite IH. unfold TEST_ASSERT. destruct holds; cbn [negb test_failures]; [done|]. rewrite zlen_cons. lia.
Qed.

Lemma test_run_failures file tests : forall st,
  test_failures (test_run file tests st) = test_failures st + failing (concat (map snd tests)).
Proof.
  induction tests as [|[fn l] tests IH]; intros st; cbn [test_run fold_left map concat snd]; [by rewrite Z.add_0_r|].
  unfold test_run in IH. rewrite IH. unfold TEST_RUN. rewrite test_body_failures. cbn [test_failures].
  unfold failing. rewrite List.filter_app, zlen_app. lia.
Qed.

(** A test program exits with 0 exactly when every assertion of every function holds. *)
Theorem test_main_verdict file tests :
  test_main file tests = 0 <-> Forall (fun '(_, _, holds) => holds = true) (concat (map snd tests)).
Proof.
  unfold test_main, TEST_MAIN_END. rewrite test_run_failures. cbn [test_failures]. rewrite Z.add_0_l.
  unfold failing. induction (concat (map snd tests)) as [|[[line cond] holds] l IH]; [done|]. cbn [List.filter].
  rewrite Forall_cons. destruct holds; cbn [negb]; [rewrite IH; naive_solver|].
  rewrite zlen_cons. pose proof (zlen_nonneg (List.filter (fun '(_, _, holds) => negb holds) l)).
  destruct (Z.eqb_spec (1 + zlen (List.filter (fun '(_, _, holds) => negb holds) l)) 0); [lia|]. naive_solver.
Qed.

(** ** test_capfilter.c *)

(** [build_frame] and [build_arp_frame] *)
Definition build_frame (ip_proto : Z) (src_ip dst_ip : list Z) (src_port dst_port : Z) : list Z :=
  replicate 12 0 ++ u16_bytes 0x0800 ++ [0x45] ++ replicate 8 0 ++ [ip_proto; 0; 0] ++ src_ip ++ dst_ip ++
  u16_bytes src_port ++ u16_bytes dst_port.
Definition build_arp_frame : list Z := replicate 12 0 ++ u16_bytes 0x0806.

Definition IP_A : list Z := [10; 0; 0; 5].
Definition IP_B : list Z := [10; 0; 1; 7].
Definition IP_C : list Z := [192; 168; 1; 1].

Definition cap_compile (expr : string) : outcome compile_result :=
  capfilter_compile (fun _ => true) (Some (lit expr)) Dest (Some []) 128.

(** [accepts]; [None] when the expression does not compile. *)
Definition accepts (expr : string) (pkt : list Z) : option bool :=
  match cap_compile expr with
  | Ret r =>
    if rc r =? 0 then
      match bpf_interp_run (out r ≫= CapFilter.filter) pkt (zlen pkt) with Ret v => Some (negb (v =? 0)) | _ => None end
    else None
  | _ => None
  end.
Definition all_accept (l : list (string * list Z)) : Prop := Forall (fun '(expr, pkt) => accepts expr pkt = Some true) l.
Definition none_accept (l : list (string * list Z)) : Prop := Forall (fun '(expr, pkt) => accepts expr pkt = Some false) l.
Definition cap_fails (expr : string) : Prop :=
  match cap_compile expr with Ret r => rc r = -1 /\ CapFilter.err_buf r <> Some [] | _ => False end.

Ltac run_tests := repeat constructor; vm_compute; solve [reflexivity | repeat split; discriminate || reflexivity].

Example capfilter_empty_expression_accepts_everything :
  capfilter_compile (fun _ => true) None Dest None 0 = Ret {| rc := 0; out := Some empty_fprog; CapFilter.err_buf := None |} /\
  capfilter_compile (fun _ => true) (Some []) Dest None 0 = Ret {| rc := 0; out := Some empty_fprog; CapFilter.err_buf := None |}.
Proof. done. Qed.

Example capfilter_tcp_matches_only_tcp_over_ipv4 :
  let tcp_pkt := build_frame 6 IP_A IP_B 1234 80 in
  let udp_pkt := build_frame 17 IP_A IP_B 1234 80 in
  all_accept [("tcp", tcp_pkt); ("udp", udp_pkt); ("arp", build_arp_frame)] /\
  none_accept [("tcp", udp_pkt); ("tcp", build_arp_frame); ("arp", tcp_pkt)].
Proof. run_tests. Qed.

Example capfilter_port_matches_either_direction_on_tcp_or_udp :
  let pkt := build_frame 6 IP_A IP_B 12345 443 in
  let icmp_pkt := build_frame 1 IP_A IP_B 443 443 in
  all_accept [("port 443", pkt); ("dst port 443", pkt); ("src port 12345", pkt)] /\
  none_accept [("src port 443", pkt); ("port 22", pkt); ("port 443", icmp_pkt)].
Proof. run_tests. Qed.

Example capfilter_host_and_net_match_ip_addresses :
  let pkt := build_frame 6 IP_A IP_C 1 1 in
  all_accept [("host 10.0.0.5", pkt); ("host 192.168.1.1", pkt); ("src host 10.0.0.5", pkt);
              ("net 10.0.0.0/24", pkt); ("dst net 192.168.1.0/24", pkt)] /\
  none_accept [("host 10.0.1.7", pkt); ("dst host 10.0.0.5", pkt); ("net 10.0.1.0/24", pkt)].
Proof. run_tests. Qed.

Example capfilter_boolean_combinators_compose :
  let tcp_443 := build_frame 6 IP_A IP_B 5000 443 in
  let tcp_22 := build_frame 6 IP_A IP_B 5000 22 in
  let udp_443 := build_frame 17 IP_A IP_B 5000 443 in
  all_accept [("tcp and (port 80 or port 443)", tcp_443); ("not tcp", udp_443); ("ip or arp", tcp_443);
              ("ip or arp", build_arp_frame)] /\
  none_accept [("tcp and (port 80 or port 443)", tcp_22); ("tcp and (port 80 or port 443)", udp_443);
               ("not tcp", tcp_443); ("ip and arp", build_arp_frame)].
Proof. run_tests. Qed.

Example capfilter_compile_error_cases_report_failure :
  Forall cap_fails ["tcp and"; "bogus_keyword"; "port 70000"; "net 10.0.0.0/33"; "host 999.1.1.1"; "(tcp"; "src tcp"].
Proof. run_tests. Qed.

(** ** test_dispfilter.c *)

Definition disp_compile (expr : string) : outcome df_result :=
  dispfilter_compile (Some 100) (Some 200) [] (Some (lit expr)) (Some []) 128.
(** [dispfilter_matches]; [None] when the expression does not compile. *)
Definition disp_matches (expr : string) (f : dispfilter_fields_t) : option Z :=
  match disp_compile expr with
  | Ret r => match DispFilter.ret r with
             | Some _ => match dispfilter_matches (DispFilter.ret r) f with Ret v => Some v | _ => None end
             | None => None
             end
  | _ => None
  end.
Definition disp_results (f : dispfilter_fields_t) (l : list (string * Z)) : Prop :=
  Forall (fun '(expr, v) => disp_matches expr f = Some v) l.
Definition disp_rejects (expr : string) : Prop :=
  match disp_compile expr with Ret r => DispFilter.ret r = None /\ DispFilter.err_buf r <> Some [] | _ => False end.

Definition make_fields_tcp : dispfilter_fields_t :=
  set_tcp 51234 443 (set_ip [10; 0; 0; 1] [93; 184; 216; 34]
    (set_eth [0xaa; 0xbb; 0xcc; 0xdd; 0xee; 0xff] [0x11; 0x22; 0x33; 0x44; 0x55; 0x66] zero_fields)).
Definition addr6 (n : Z) : list Z := [0x20; 0x01; 0x0d; 0xb8] ++ replicate 11 0 ++ [n].
Definition make_fields_ipv6_udp : dispfilter_fields_t := set_udp 12345 53 (set_ipv6 (addr6 1) (addr6 2) zero_fields).

Example dispfilter_null_and_empty_expressions_match_everything :
  disp_results zero_fields [("", 1)] /\ disp_results make_fields_tcp [("", 1)] /\
  match dispfilter_compile (Some 100) (Some 200) [] None None 0 with
  | Ret r => DispFilter.ret r <> None /\ dispfilter_matches (DispFilter.ret r) zero_fields = Ret 1
  | _ => False
  end.
Proof. run_tests. Qed.

Example dispfilter_ports :
  disp_results make_fields_tcp
    [("tcp.port == 443", 1); ("tcp.port == 51234", 1); ("tcp.port == 8080", 0); ("tcp.srcport == 443", 0);
     ("tcp.dstport == 443", 1); ("not tcp.port == 443", 0); ("tcp.port != 443", 0)] /\
  disp_results make_fields_ipv6_udp [("tcp.port == 53", 0)].
Proof. run_tests. Qed.

Example dispfilter_addresses :
  disp_results make_fields_tcp
    [("ip.src == 10.0.0.1", 1); ("ip.src == 93.184.216.34", 0); ("ip.addr == 93.184.216.34", 1);
     ("eth.src == aa:bb:cc:dd:ee:ff", 1)] /\
  disp_results make_fields_ipv6_udp
    [("ip.src == 10.0.0.1", 0); ("ipv6.src == 2001:db8::1", 1); ("ipv6.dst == 2001:db8::2", 1);
     ("ipv6.addr == ::1", 0)].
Proof. run_tests. Qed.

Example dispfilter_and_or_combine_with_correct_precedence :
  disp_results make_fields_tcp
    [("ip.src == 1.2.3.4 or ip.src == 10.0.0.1 and tcp.port == 443", 1);
     ("(ip.src == 1.2.3.4 or ip.src == 10.0.0.1) and tcp.port == 8080", 0)].
Proof. run_tests. Qed.

Example dispfilter_rejects :
  Forall disp_rejects ["bogus.field == 1"; "tcp.port 443"; "tcp.port == 70000"; "tcp.port == 10.0.0.1";
                       "tcp.port == 443 tcp.port == 80"].
Proof. run_tests. Qed.

(** ** test_checksum.c *)

(** The whole program, through the harness. *)
Definition gives {A} `{EqDecision A} (o : outcome A) (v : A) : bool :=
  match o with Ret x => bool_decide (x = v) | _ => false end.

Definition test_checksum : list (string * list assertion) :=
  [("partial_sums_pairs_of_bytes_big_endian",
     [(7, "sum == 0x68ACu", gives (checksum_partial [0x12; 0x34; 0x56; 0x78] 4 0) 0x68AC)]);
   ("partial_pads_trailing_odd_byte_on_the_right", [(13, "sum == 0xAB00u", gives (checksum_partial [0xAB] 1 0) 0xAB00)]);
   ("partial_accumulates_into_an_existing_sum", [(19, "sum == 0x1001u", gives (checksum_partial [0x00; 0x01] 2 0x1000) 0x1001)]);
   ("verify_accepts_a_correct_checksum",
     [(26, "checksum_verify(data, sizeof(data)) == 1", gives (checksum_verify [0x12; 0x34; 0x56; 0x78; 0x97; 0x53] 6) true)]);
   ("verify_rejects_corrupted_data",
     [(31, "checksum_verify(data, sizeof(data)) == 0", gives (checksum_verify [0x13; 0x34; 0x56; 0x78; 0x97; 0x53] 6) false)])].

Example test_checksum_passes : test_main "src/tests/test_checksum.c" test_checksum = 0.
Proof. vm_compute. reflexivity. Qed.

(** ** test_eth_parser.c, test_arp_parser.c *)

Definition eth_frame : list Z :=
  [0x11; 0x22; 0x33; 0x44; 0x55; 0x66; 0xaa; 0xbb; 0xcc; 0xdd; 0xee; 0xff; 0x08; 0x00].

Example eth_parses_valid_ipv4_frame :
  eth_parse (Some eth_frame) 14 Dest =
    Ret (Some ({| dst_mac := take 6 eth_frame; src_mac := take 6 (drop 6 eth_frame); ether_type := ETH_TYPE_IPV4;
                  has_vlan := false; vlan_tci := 0 |}, [], 0)) /\
  eth_parse (Some (replicate 13 0)) 13 Dest = Ret None /\
  eth_mac_to_str [0x01; 0x02; 0x03; 0x0a; 0x0b; 0x0c] = lit "01:02:03:0a:0b:0c".
Proof. run_tests. Qed.

Definition arp_request : list Z :=
  [0x00; 0x01; 0x08; 0x00; 0x06; 0x04; 0x00; 0x01; 0xaa; 0xbb; 0xcc; 0xdd; 0xee; 0xff; 192; 168; 1; 1;
   0; 0; 0; 0; 0; 0; 192; 168; 1; 2].

Example arp_parses_valid_request :
  arp_parse (Some arp_request) 28 Dest =
    Ret (Some {| hardware_type := ARP_HTYPE_ETHERNET; protocol_type := ARP_PTYPE_IPV4; hardware_addr_len := 6;
                 protocol_addr_len := 4; opcode := ARP_OP_REQUEST; sender_mac := take 6 (drop 8 arp_request);
                 sender_ip := take 4 (drop 14 arp_request); target_mac := take 6 (drop 18 arp_request);
                 target_ip := take 4 (drop 24 arp_request) |}) /\
  arp_parse (Some (replicate 27 0)) 27 Dest = Ret None /\
  arp_parse (Some (put 1 0x06 (take 8 arp_request ++ replicate 20 0))) 28 Dest = Ret None /\
  arp_parse (Some (put 2 0x86 (put 3 0xdd (take 8 arp_request ++ replicate 20 0)))) 28 Dest = Ret None.
Proof. run_tests. Qed.

(** ** test_ip_parser.c, test_ipv6_parser.c *)

Definition VALID_IP_HEADER : list Z :=
  [0x45; 0x00; 0x00; 0x28; 0xab; 0x12; 0x00; 0x00; 0x40; 0x06; 0xd8; 0x30; 192; 168; 1; 10; 93; 184; 216; 34].

Example ip_parses_valid_header_with_correct_checksum :
  ip_parse (Some VALID_IP_HEADER) 20 Dest =
    Ret (Some ({| IpParser.version := 4; ihl := 5; tos := 0; total_length := 40; identification := 0xab12;
                  IpParser.flags := 0; fragment_offset := 0; ttl := 64; protocol := IP_PROTO_TCP;
                  IpParser.checksum := 0xd830; IpParser.src_addr := [192; 168; 1; 10];
                  IpParser.dst_addr := [93; 184; 216; 34]; IpParser.checksum_valid := true |}, [], 0)) /\
  ip_addr_to_str [192; 168; 1; 10] = lit "192.168.1.10" /\ ip_addr_to_str [93; 184; 216; 34] = lit "93.184.216.34".
Proof. run_tests. Qed.

Example ip_checksum_valid_is_false_when_header_is_corrupted :
  match ip_parse (Some (put 8 0x41 VALID_IP_HEADER)) 20 Dest with
  | Ret (Some (h, _, _)) => IpParser.checksum_valid h = false
  | _ => False
  end.
Proof. run_tests. Qed.

Example ip_rejects :
  ip_parse (Some (take 19 VALID_IP_HEADER)) 19 Dest = Ret None /\
  ip_parse (Some (put 0 0x65 VALID_IP_HEADER)) 20 Dest = Ret None /\
  ip_parse (Some (put 0 0x44 VALID_IP_HEADER)) 20 Dest = Ret None /\
  ip_parse (Some (put 0 0x4f VALID_IP_HEADER)) 20 Dest = Ret None.
Proof. run_tests. Qed.

Example ip_clips_payload_len_to_declared_total_length :
  match ip_parse (Some ([0x45; 0x00; 0x00; 0x19; 0; 0; 0; 0; 0x40; 0x06; 0; 0; 10; 0; 0; 1; 10; 0; 0; 2] ++
                        replicate 10 0xaa)) 30 Dest with
  | Ret (Some (_, payload, n)) => payload = replicate 10 0xaa /\ n = 5
  | _ => False
  end.
Proof. run_tests. Qed.

Definition VALID_IP6_HEADER : list Z := [0x60; 0; 0; 0; 0; 0x14; 0x06; 0x40] ++ addr6 1 ++ addr6 2.

Example ipv6_parses_valid_header :
  ipv6_parse (Some VALID_IP6_HEADER) 40 Dest =
    Ret (Some ({| Ipv6Parser.version := 6; traffic_class := 0; flow_label := 0; payload_length := 20; next_header := 6;
                  hop_limit := 64; Ipv6Parser.src_addr := addr6 1; Ipv6Parser.dst_addr := addr6 2 |}, [], 0)) /\
  ipv6_parse (Some (take 39 VALID_IP6_HEADER)) 39 Dest = Ret None /\
  ipv6_parse (Some (put 0 0x40 VALID_IP6_HEADER)) 40 Dest = Ret None /\
  ipv6_addr_to_str [0x20; 0x01; 0x0d; 0xb8; 0x00; 0x01; 0x00; 0x02; 0; 0; 0; 0; 0; 0; 0; 0x01] =
    lit "2001:db8:1:2:0:0:0:1".
Proof. run_tests. Qed.

(** ** test_tcp_udp_parser.c *)

Definition SRC_IP : list Z := [10; 0; 0; 1].
Definition DST_IP : list Z := [10; 0; 0; 2].
Definition VALID_TCP : list Z :=
  [0x1f; 0x90; 0x00; 0x50; 0; 0; 0; 0x01; 0; 0; 0; 0; 0x50; 0x02; 0x20; 0x00; 0x5b; 0xff; 0; 0].
Definition VALID_UDP : list Z := [0x30; 0x39; 0x00; 0x35; 0x00; 0x0c; 0x1d; 0xc8; 0xde; 0xad; 0xbe; 0xef].
Definition VALID_TCP_IPV6 : list Z := put 16 0x14 (put 17 0x8d VALID_TCP).
Definition VALID_UDP_IPV6 : list Z := put 6 0xd6 (put 7 0x55 VALID_UDP).

Example tcp_parse_reads_a_valid_header_with_no_options :
  tcp_parse (Some VALID_TCP) 20 Dest =
    Ret (Some ({| tcp.src_port := 8080; tcp.dst_port := 80; tcp.seq_num := 1; tcp.ack_num := 0; tcp.data_offset := 5;
                  tcp.flags := TCP_FLAG_SYN; tcp.window_size := 0x2000; tcp.checksum := 0x5bff;
                  tcp.urgent_pointer := 0; tcp.checksum_valid := false |}, [], 0)) /\
  tcp_parse (Some (take 19 VALID_TCP)) 19 Dest = Ret None /\
  tcp_parse (Some (put 12 0x40 VALID_TCP)) 20 Dest = Ret None /\
  tcp_parse (Some (put 12 0xf0 VALID_TCP)) 20 Dest = Ret None.
Proof. run_tests. Qed.

Example udp_parse_reads_a_valid_header_with_payload :
  udp_parse (Some VALID_UDP) 12 Dest =
    Ret (Some ({| udp.src_port := 12345; udp.dst_port := 53; udp.length := 12; udp.checksum := 0x1dc8;
                  udp.checksum_present := true; udp.checksum_valid := false |}, [0xde; 0xad; 0xbe; 0xef], 4)) /\
  udp_parse (Some (take 7 VALID_UDP)) 7 Dest = Ret None /\
  match udp_parse (Some (put 6 0 (put 7 0 VALID_UDP))) 12 Dest with
  | Ret (Some (h, _, _)) => udp.checksum_present h = false
  | _ => False
  end.
Proof. run_tests. Qed.

Example tcp_udp_verify_checksums_ipv4 :
  tcp_verify_checksum (Some VALID_TCP) 20 (Some SRC_IP) (Some DST_IP) = Ret true /\
  tcp_verify_checksum (Some (put 14 0x30 VALID_TCP)) 20 (Some SRC_IP) (Some DST_IP) = Ret false /\
  udp_verify_checksum (Some VALID_UDP) 12 (Some SRC_IP) (Some DST_IP) = Ret true /\
  udp_verify_checksum (Some (put 6 0 (put 7 0 VALID_UDP))) 12 (Some SRC_IP) (Some DST_IP) = Ret true.
Proof. run_tests. Qed.

Example tcp_udp_verify_checksums_ipv6 :
  tcp_verify_checksum_ipv6 (Some VALID_TCP_IPV6) 20 (Some (addr6 1)) (Some (addr6 2)) = Ret true /\
  tcp_verify_checksum_ipv6 (Some VALID_TCP) 20 (Some (addr6 1)) (Some (addr6 2)) = Ret false /\
  tcp_verify_checksum_ipv6 (Some (put 14 0x30 VALID_TCP_IPV6)) 20 (Some (addr6 1)) (Some (addr6 2)) = Ret false /\
  udp_verify_checksum_ipv6 (Some VALID_UDP_IPV6) 12 (Some (addr6 1)) (Some (addr6 2)) = Ret true /\
  udp_verify_checksum_ipv6 (Some (put 6 0 (put 7 0 VALID_UDP_IPV6))) 12 (Some (addr6 1)) (Some (addr6 2)) = Ret false.
Proof. run_tests. Qed.

(** ** test_icmp_parser.c *)

Definition VALID_ICMPV4_ECHO_REQUEST : list Z := [0x08; 0x00; 0xf7; 0xfd; 0x00; 0x01; 0x00; 0x01].
Definition VALID_ICMPV6_ECHO_REQUEST : list Z := [0x80; 0x00; 0x24; 0x46; 0x00; 0x01; 0x00; 0x01].

Example icmp_parses_echo :
  icmp_parse (Some VALID_ICMPV4_ECHO_REQUEST) 8 ICMP_FAMILY_V4 Dest =
    Ret (Some {| type := 8; code := 0; IcmpParser.checksum := 0xf7fd; IcmpParser.checksum_valid := false;
                 is_echo := true; echo_id := 1; echo_seq := 1 |}) /\
  icmp_parse (Some VALID_ICMPV6_ECHO_REQUEST) 8 ICMP_FAMILY_V6 Dest =
    Ret (Some {| type := 128; code := 0; IcmpParser.checksum := 0x2446; IcmpParser.checksum_valid := false;
                 is_echo := true; echo_id := 1; echo_seq := 1 |}) /\
  match icmp_parse (Some (put 0 0 VALID_ICMPV4_ECHO_REQUEST)) 8 ICMP_FAMILY_V4 Dest with
  | Ret (Some h) => is_echo h = true
  | _ => False
  end.
Proof. run_tests. Qed.

Example icmp_not_echo_and_rejects :
  icmp_parse (Some (put 0 3 (put 1 3 VALID_ICMPV4_ECHO_REQUEST))) 8 ICMP_FAMILY_V4 Dest =
    Ret (Some {| type := 3; code := 3; IcmpParser.checksum := 0xf7fd; IcmpParser.checksum_valid := false;
                 is_echo := false; echo_id := 0; echo_seq := 0 |}) /\
  match icmp_parse (Some (put 0 128 VALID_ICMPV4_ECHO_REQUEST)) 8 ICMP_FAMILY_V4 Dest with
  | Ret (Some h) => is_echo h = false
  | _ => False
  end /\
  icmp_parse (Some (take 7 VALID_ICMPV4_ECHO_REQUEST)) 7 ICMP_FAMILY_V4 Dest = Ret None.
Proof. run_tests. Qed.

Example icmp_verify_checksums :
  icmpv4_verify_checksum (Some VALID_ICMPV4_ECHO_REQUEST) 8 = Ret true /\
  icmpv4_verify_checksum (Some (put 4 0x99 VALID_ICMPV4_ECHO_REQUEST)) 8 = Ret false /\
  icmpv6_verify_checksum (Some VALID_ICMPV6_ECHO_REQUEST) 8 (Some (addr6 1)) (Some (addr6 2)) = Ret true /\
  icmpv6_verify_checksum (Some VALID_ICMPV4_ECHO_REQUEST) 8 (Some (addr6 1)) (Some (addr6 2)) = Ret false /\
  icmpv6_verify_checksum (Some (put 4 0x99 VALID_ICMPV6_ECHO_REQUEST)) 8 (Some (addr6 1)) (Some (addr6 2)) = Ret false.
Proof. run_tests. Qed.

(** ** test_packet_queue.cpp *)

Definition frame_of (bytes : list Z) (s u : Z) : CapturedFrame := {| data := bytes; ts_seconds := s; ts_microseconds := u |}.
Definition call_push (f : CapturedFrame) : list PacketQueue.event := [E_push f; E_push_section; E_push_notify].
Definition call_pop : list PacketQueue.event := [E_pop; E_pop_section; E_pop_notify].
Definition call_close : list PacketQueue.event := [E_close; E_close_notify; E_close_notify].

(** [PacketQueue q;] *)
Abbreviation q_max := queue_max_size.

Example queue_pop_returns_frames_in_fifo_order :
  let f1 := frame_of [1; 2; 3] 100 1 in
  let f2 := frame_of [4; 5] 200 2 in
  popped <$> PacketQueue.run q_max (call_push f1 ++ call_push f2 ++ call_pop ++ call_pop) init = Some [f1; f2].
Proof. run_tests. Qed.

Example queue_pop_drains_remaining_frames_after_close_then_returns_false :
  let f := frame_of [9] 0 0 in
  (fun s => (popped s, drained s)) <$> PacketQueue.run q_max (call_push f ++ call_close ++ call_pop) init =
    Some ([f], false) /\
  (fun s => (popped s, drained s)) <$>
    PacketQueue.run q_max (call_push f ++ call_close ++ call_pop ++ [E_pop; E_pop_section]) init = Some ([f], true).
Proof. run_tests. Qed.

Example queue_pop_on_an_empty_closed_queue_returns_false_immediately :
  (fun s => (popped s, drained s)) <$> PacketQueue.run q_max (call_close ++ [E_pop; E_pop_section]) init = Some ([], true).
Proof. run_tests. Qed.

(** The consumer is asleep until the push notifies it; no step of its own is possible before. *)
Example queue_pop_blocks_until_a_concurrent_push_arrives :
  let f := frame_of [0x42] 0 0 in
  cons_ <$> PacketQueue.run q_max [E_pop; E_pop_section] init = Some C_wait /\
  PacketQueue.run q_max [E_pop; E_pop_section; E_pop_section] init = None /\
  popped <$> PacketQueue.run q_max ([E_pop; E_pop_section] ++ call_push f ++ [E_pop_section; E_pop_notify]) init = Some [f].
Proof. run_tests. Qed.

Example queue_push_blocks_when_full_and_unblocks_once_a_slot_frees_up :
  let f1 := frame_of [1] 0 0 in
  let f2 := frame_of [2] 0 0 in
  prod <$> PacketQueue.run 1 (call_push f1 ++ [E_push f2; E_push_section]) init = Some (P_wait f2) /\
  PacketQueue.run 1 (call_push f1 ++ [E_push f2; E_push_section; E_push_section]) init = None /\
  (fun s => (prod s, queue s)) <$>
    PacketQueue.run 1 (call_push f1 ++ [E_push f2; E_push_section] ++ call_pop ++ [E_push_section; E_push_notify]) init =
    Some (P_out, [f2]).
Proof. run_tests. Qed.

(** ** test_capture_pipeline.cpp *)

Definition FRAME_ARP : list Z :=
  [0xff; 0xff; 0xff; 0xff; 0xff; 0xff; 0x02; 0x00; 0x00; 0x00; 0x00; 0x01; 0x08; 0x06;
   0x00; 0x01; 0x08; 0x00; 0x06; 0x04; 0x00; 0x01; 0x02; 0x00; 0x00; 0x00; 0x00; 0x01;
   10; 0; 0; 1; 0x00; 0x00; 0x00; 0x00; 0x00; 0x00; 10; 0; 0; 2].
Definition FRAME_TCP : list Z :=
  [0x11; 0x22; 0x33; 0x44; 0x55; 0x66; 0xaa; 0xbb; 0xcc; 0xdd; 0xee; 0xff; 0x08; 0x00;
   0x45; 0x00; 0x00; 0x28; 0x00; 0x00; 0x00; 0x00; 0x40; 0x06; 0x66; 0xce; 10; 0;
   0; 1; 10; 0; 0; 2; 0x1f; 0x90; 0x00; 0x50; 0x00; 0x00; 0x00; 0x01;
   0x00; 0x00; 0x00; 0x00; 0x50; 0x02; 0x20; 0x00; 0x5b; 0xff; 0x00; 0x00].
Definition FRAME_UDP : list Z :=
  [0xde; 0xad; 0xbe; 0xef; 0x00; 0x01; 0xde; 0xad; 0xbe; 0xef; 0x00; 0x02; 0x08; 0x00; 0x45; 0x00;
   0x00; 0x20; 0x00; 0x00; 0x00; 0x00; 0x40; 0x11; 0x66; 0xcb; 10; 0; 0; 1; 10; 0;
   0; 2; 0x30; 0x39; 0x00; 0x35; 0x00; 0x0c; 0x1d; 0xc8; 0xde; 0xad; 0xbe; 0xef].
Definition FRAME_TRUNCATED : list Z := [0xaa; 0xbb; 0xcc; 0xdd; 0xee].
Definition FRAME_TCP_IPV6 : list Z :=
  [0xde; 0xad; 0xbe; 0xef; 0x00; 0x03; 0xde; 0xad; 0xbe; 0xef; 0x00; 0x04; 0x86; 0xdd; 0x60;
   0x00; 0x00; 0x00; 0x00; 0x14; 0x06; 0x40; 0x20; 0x01; 0x0d; 0xb8; 0x00; 0x00; 0x00; 0x00;
   0x00; 0x00; 0x00; 0x00; 0x00; 0x00; 0x00; 0x01; 0x20; 0x01; 0x0d; 0xb8; 0x00; 0x00; 0x00;
   0x00; 0x00; 0x00; 0x00; 0x00; 0x00; 0x00; 0x00; 0x02; 0x1f; 0x90; 0x00; 0x50; 0x00; 0x00;
   0x00; 0x01; 0x00; 0x00; 0x00; 0x00; 0x50; 0x02; 0x20; 0x00; 0x14; 0x8d; 0x00; 0x00].
Definition FRAME_ICMP : list Z :=
  [0xaa; 0xbb; 0xcc; 0xdd; 0xee; 0xff; 0x11; 0x22; 0x33; 0x44; 0x55; 0x66; 0x08; 0x00;
   0x45; 0x00; 0x00; 0x1c; 0x00; 0x00; 0x00; 0x00; 0x40; 0x01; 0x66; 0xdf; 10; 0;
   0; 1; 10; 0; 0; 2; 0x08; 0x00; 0xf7; 0xfd; 0x00; 0x01; 0x00; 0x01].

(** [output.find(s) != std::string::npos] *)
Fixpoint starts_with (s t : text) : bool :=
  match s, t with
  | [], _ => true
  | a :: s, b :: t => Ascii.eqb a b && starts_with s t
  | _ :: _, [] => false
  end.
Fixpoint contains (s t : text) : bool :=
  starts_with s t || match t with [] => false | _ :: t => contains s t end.

(** The tests' fake backend after [fake_capture_backend_set_frames], and a run of it with
    [packet_printer_callback]: the frames seen, and what was printed. *)
Definition no_fake : Fake.fake := {| Fake.g_frames := []; Fake.g_delivered := 0; Fake.g_stop_requested := false; Fake.seen := [] |}.
Definition capture (frames : list (list Z * Z * Z)) (filter : filter_ptr) : outcome (Z * Z * text) :=
  '(rc, k) ← capture_backend_run Fake.g_fake_backend (Some (lit "fake0")) (Some []) (Some []) (Fake.set_frames frames no_fake);
  ctx ← printing_loop (map captured (Fake.seen k)) {| os := []; count := 0; ctx_filter := filter |};
  Ret (rc, Fake.g_delivered k, os ctx).

Example pipeline_get_last_stats_is_unsupported_on_the_fake_backend :
  capture_backend_get_last_stats Fake.g_fake_backend Dest no_fake = (-1, None).
Proof. done. Qed.

Example pipeline_list_devices_reports_the_fake_device :
  capture_backend_list_devices Fake.g_fake_backend CAPTURE_MAX_DEVICES = (1, [lit "fake0"]).
Proof. done. Qed.

Example pipeline_decodes_and_prints_each_frame_kind :
  match capture [(FRAME_ARP, 1000, 1); (FRAME_TCP, 2000, 2); (FRAME_UDP, 3000, 3); (FRAME_TRUNCATED, 4000, 4);
                 (FRAME_TCP_IPV6, 5000, 5); (FRAME_ICMP, 6000, 6)] None with
  | Ret (rc, delivered, output) =>
    rc = 0 /\ delivered = 6 /\
    forallb (fun s => contains (lit s) output)
      ["[#1] 1000.000001 len=42 02:00:00:00:00:01 > ff:ff:ff:ff:ff:ff [ARP] who-has 10.0.0.2 tell 10.0.0.1";
       "[#2] 2000.000002 len=54 aa:bb:cc:dd:ee:ff > 11:22:33:44:55:66 [TCP] 10.0.0.1 > 10.0.0.2 ttl=64 8080 > 80 seq=1 ack=0 flags=[SYN]";
       "[#3] 3000.000003 len=46 de:ad:be:ef:00:02 > de:ad:be:ef:00:01 [UDP] 10.0.0.1 > 10.0.0.2 ttl=64 12345 > 53 len=12";
       "[#4] (truncated Ethernet frame)";
       "[#5] 5000.000005 len=74 de:ad:be:ef:00:04 > de:ad:be:ef:00:03 [TCP] 2001:db8:0:0:0:0:0:1 > 2001:db8:0:0:0:0:0:2 hop=64 8080 > 80 seq=1 ack=0 flags=[SYN]";
       "[#6] 6000.000006 len=42 11:22:33:44:55:66 > aa:bb:cc:dd:ee:ff [ICMP] 10.0.0.1 > 10.0.0.2 ttl=64 echo-request id=1 seq=1"] = true /\
    contains (lit "csum=BAD") output = false
  | _ => False
  end.
Proof. vm_compute. repeat constructor. Qed.

Example pipeline_display_filter_suppresses_non_matching_packets :
  match disp_compile "tcp.port == 80" with
  | Ret r =>
    match capture [(FRAME_TCP, 2000, 2); (FRAME_UDP, 3000, 3); (FRAME_ICMP, 6000, 6)] (DispFilter.ret r) with
    | Ret (rc, delivered, output) =>
      rc = 0 /\ delivered = 3 /\ contains (lit "[TCP]") output = true /\
      contains (lit "[UDP]") output = false /\ contains (lit "[ICMP]") output = false
    | _ => False
    end
  | _ => False
  end.
Proof. vm_compute. repeat constructor. Qed.

(** The callback of this test requests a stop at every frame. *)
Example pipeline_request_stop_cuts_the_replay_short :
  let '(rc, k) := Fake.fake_run (fun _ => true)
    (Fake.set_frames [(FRAME_ARP, 1000, 1); (FRAME_TCP, 2000, 2); (FRAME_UDP, 3000, 3)] no_fake) in
  rc = 0 /\ Fake.seen k = [(FRAME_ARP, 1000, 1)] /\ Fake.g_delivered k = 1.
Proof. vm_compute. repeat constructor. Qed.
