(* ===== verification/Fuzz.v ===== *)
(** * Fuzz targets (src/src/fuzz/*.c)

    The six fuzz targets, the driver that replays files against one of them, and the
    generator of the seed corpus.  A fuzzer samples the inputs of a target; the theorems
    here are about all of them. *)
From S2P Require Import Prelude Text Checksum EthParser ArpParser IpParser Ipv6Parser TcpUdpParser IcmpParser.
From stdpp Require Import gmap strings options.

Local Open Scope Z_scope.

(** ** The targets *)

(** [LLVMFuzzerTestOneInput] returns, or ends in [__builtin_trap]. *)
Inductive fuzz_exit := Returned | Trapped.

(** [payload < data || payload > data + size || payload_len > (uint32_t)(data + size - payload)];
    a payload is a suffix of the buffer, so its offset is the difference of the lengths. *)
Definition payload_check (data : list Z) (size : Z) (payload : list Z) (payload_len : Z) : fuzz_exit :=
  let off := zlen data - zlen payload in
  if (off <? 0) || (size <? off) || (u32 (size - off) <? payload_len) then Trapped else Returned.

Definition fuzz_eth (data : list Z) (size : Z) : outcome fuzz_exit :=
  r ← eth_parse (Some data) (u32 size) Dest;
  Ret match r with Some (_, payload, payload_len) => payload_check data size payload payload_len
                 | None => Returned end.

Definition fuzz_arp (data : list Z) (size : Z) : outcome fuzz_exit :=
  _ ← arp_parse (Some data) (u32 size) Dest; Ret Returned.

Definition fuzz_ip (data : list Z) (size : Z) : outcome fuzz_exit :=
  r ← ip_parse (Some data) (u32 size) Dest;
  Ret match r with Some (_, payload, payload_len) => payload_check data size payload payload_len
                 | None => Returned end.

Definition fuzz_ipv6 (data : list Z) (size : Z) : outcome fuzz_exit :=
  r ← ipv6_parse (Some data) (u32 size) Dest;
  Ret match r with Some (_, payload, payload_len) => payload_check data size payload payload_len
                 | None => Returned end.

Definition DUMMY_SRC_IP : list Z := [192; 168; 1; 10].
Definition DUMMY_DST_IP : list Z := [93; 184; 216; 34].

(** A trap ends the call at once. *)
Definition and_then (x : fuzz_exit) (m : outcome fuzz_exit) : outcome fuzz_exit :=
  match x with Returned => m | Trapped => Ret Trapped end.

Definition fuzz_tcp_udp (data : list Z) (size : Z) : outcome fuzz_exit :=
  r ← tcp_parse (Some data) (u32 size) Dest;
  and_then match r with Some (_, payload, n) => payload_check data size payload n | None => Returned end
    (_ ← tcp_verify_checksum (Some data) (u32 size) (Some DUMMY_SRC_IP) (Some DUMMY_DST_IP);
     r ← udp_parse (Some data) (u32 size) Dest;
     and_then match r with Some (_, payload, n) => payload_check data size payload n | None => Returned end
       (_ ← udp_verify_checksum (Some data) (u32 size) (Some DUMMY_SRC_IP) (Some DUMMY_DST_IP);
        Ret Returned)).

Definition fuzz_icmp (data : list Z) (size : Z) : outcome fuzz_exit :=
  _ ← icmp_parse (Some data) (u32 size) ICMP_FAMILY_V4 Dest;
  _ ← icmp_parse (Some data) (u32 size) ICMP_FAMILY_V6 Dest;
  Ret Returned.

(** ** The replay driver *)

(** What the calls on one file of the command line answer: [f_len] is what ftell returns, [f_block]
    the address malloc returns, [f_bytes] what the block holds after fread, [f_read] the count. *)
Record seed_file := {
  f_open : bool; f_seek_end : bool; f_len : Z; f_seek_set : bool;
  f_block : option Z; f_bytes : list Z; f_read : Z
}.

(** Open files and live blocks. *)
Record held := { n_files : nat; heap : handles }.

Definition fclose (s : held) : outcome held :=
  match n_files s with O => UB | S n => Ret {| n_files := n; heap := heap s |} end.
Definition free (a : Z) (s : held) : outcome held :=
  h ← release a (heap s); Ret {| n_files := n_files s; heap := h |}.

(** The loop over [argv]; [None] is the death of the process by a trap. *)
Fixpoint replay (target : list Z -> Z -> outcome fuzz_exit) (files : list seed_file) (s : held)
    : outcome (option Z * held) :=
  match files with
  | [] => Ret (Some 0, s)
  | f :: files =>
    if negb (f_open f) then Ret (Some 1, s)
    else
      let s := {| n_files := S (n_files s); heap := heap s |} in
      if negb (f_seek_end f) then s ← fclose s; Ret (Some 1, s)
      else if (f_len f <? 0) || negb (f_seek_set f) then s ← fclose s; Ret (Some 1, s)
      else
        match f_block f with
        | None => s ← fclose s; Ret (Some 1, s)
        | Some buf =>
          s ← fclose {| n_files := n_files s; heap := buf :: heap s |};
          if negb (f_read f =? f_len f) then s ← free buf s; Ret (Some 1, s)
          else
            x ← target (f_bytes f) (f_read f);
            match x with
            | Trapped => Ret (None, s)
            | Returned => s ← free buf s; replay target files s
            end
        end
  end.

Definition driver_main (target : list Z -> Z -> outcome fuzz_exit) (files : list seed_file) (s : held)
    : outcome (option Z * held) :=
  match files with [] => Ret (Some 1, s) | _ => replay target files s end.

(** ** The seed corpus (src/src/fuzz/corpus/generate_seed_corpus.c) *)

Module corpus.
(** The bytes written to each file. *)
Definition eth_ipv4_frame : list Z :=
  [0x11; 0x22; 0x33; 0x44; 0x55; 0x66; 0xaa; 0xbb; 0xcc; 0xdd; 0xee; 0xff; 0x08; 0x00;
   0x45; 0x00; 0x00; 0x14; 0; 0; 0; 0; 64; 6; 0; 0; 192; 168; 1; 10; 93; 184; 216; 34].
Definition eth_vlan_frame : list Z :=
  [0x11; 0x22; 0x33; 0x44; 0x55; 0x66; 0xaa; 0xbb; 0xcc; 0xdd; 0xee; 0xff; 0x81; 0x00; 0x00; 0x64; 0x08; 0x00;
   0x45; 0x00; 0x00; 0x14; 0; 0; 0; 0; 64; 6; 0; 0; 192; 168; 1; 10; 93; 184; 216; 34].
Definition eth_truncated : list Z := [0x11; 0x22; 0x33; 0x44; 0x55].
Definition arp_request : list Z :=
  [0x00; 0x01; 0x08; 0x00; 6; 4; 0x00; 0x01; 0xaa; 0xbb; 0xcc; 0xdd; 0xee; 0xff; 192; 168; 1; 1;
   0; 0; 0; 0; 0; 0; 192; 168; 1; 2].
Definition ip_basic : list Z :=
  [0x45; 0x00; 0x00; 0x28; 0xab; 0x12; 0x00; 0x00; 0x40; 0x06; 0xd8; 0x30; 192; 168; 1; 10; 93; 184; 216; 34].
Definition ip_with_options : list Z :=
  [0x46; 0x00; 0x00; 0x2c; 0xab; 0x12; 0x00; 0x00; 0x40; 0x06; 0xd8; 0x30; 192; 168; 1; 10; 93; 184; 216; 34;
   0x01; 0x01; 0x01; 0x00].
Definition ipv6_basic : list Z :=
  [0x60; 0x00; 0x00; 0x00; 0x00; 0x14; 0x06; 0x40;
   0x20; 0x01; 0x0d; 0xb8; 0; 0; 0; 0; 0; 0; 0; 0; 0; 0; 0; 0x01;
   0x20; 0x01; 0x0d; 0xb8; 0; 0; 0; 0; 0; 0; 0; 0; 0; 0; 0; 0x02].
Definition tcp_basic : list Z :=
  [0x1f; 0x90; 0x00; 0x50; 0x00; 0x00; 0x00; 0x01; 0x00; 0x00; 0x00; 0x00; 0x50; 0x02; 0xff; 0xff; 0x00; 0x00; 0x00; 0x00].
Definition udp_basic : list Z := [0x00; 0x35; 0x1f; 0x90; 0x00; 0x08; 0x00; 0x00].
Definition icmp_echo_request : list Z := [0x08; 0x00; 0xf7; 0xfd; 0x00; 0x01; 0x00; 0x01].

(** The files of one block of [main] and their bytes; [take n] is [memcpy(truncated, hdr, n)]. *)
Definition eth_seeds : list (string * list Z) :=
  [("eth/ipv4_frame.bin", eth_ipv4_frame); ("eth/vlan_frame.bin", eth_vlan_frame);
   ("eth/truncated.bin", eth_truncated); ("eth/empty.bin", [])]%string.
Definition arp_seeds : list (string * list Z) :=
  [("arp/request.bin", arp_request); ("arp/truncated.bin", take 10 arp_request); ("arp/empty.bin", [])]%string.
Definition ip_seeds : list (string * list Z) :=
  [("ip/basic.bin", ip_basic); ("ip/with_options.bin", ip_with_options);
   ("ip/truncated.bin", take 10 ip_basic); ("ip/empty.bin", [])]%string.
Definition ipv6_seeds : list (string * list Z) :=
  [("ipv6/basic.bin", ipv6_basic); ("ipv6/truncated.bin", take 15 ipv6_basic); ("ipv6/empty.bin", [])]%string.
Definition tcp_udp_seeds : list (string * list Z) :=
  [("tcp_udp/tcp_basic.bin", tcp_basic); ("tcp_udp/udp_basic.bin", udp_basic);
   ("tcp_udp/truncated.bin", take 6 tcp_basic); ("tcp_udp/empty.bin", [])]%string.
Definition icmp_seeds : list (string * list Z) :=
  [("icmp/echo_request.bin", icmp_echo_request); ("icmp/truncated.bin", take 4 icmp_echo_request);
   ("icmp/empty.bin", [])]%string.

Section Generator.
(** Whether [fopen(path, "wb")] succeeds, and how many of the bytes [fwrite] stores. *)
Context (opens : string -> bool) (stores : string -> nat).

Abbreviation disk := (gmap string (list Z)).

(** The disk and standard output after [write_file]; the message of [perror] is not modelled. *)
Definition write_file (path : string) (data : list Z) (st : disk * text) : disk * text :=
  let '(fs, out) := st in
  if opens path then
    (<[path := if 0 <? zlen data then take (stores path) data else []]> fs,
     out ++ lit "wrote " ++ lit path ++ lit " (" ++ num_text 10 (zlen data) ++ lit " bytes)" ++ ["010"%char])
  else st.

Fixpoint write_all (files : list (string * list Z)) (st : disk * text) : disk * text :=
  match files with [] => st | (path, data) :: files => write_all files (write_file path data st) end.

Definition generate (st : disk * text) : disk * text :=
  write_all icmp_seeds (write_all tcp_udp_seeds (write_all ipv6_seeds
    (write_all ip_seeds (write_all arp_seeds (write_all eth_seeds st))))).

Lemma write_all_app fs1 fs2 st : write_all (fs1 ++ fs2) st = write_all fs2 (write_all fs1 st).
Proof. revert st. induction fs1 as [|[path data] fs1 IH]; intros st; [done|apply IH]. Qed.
Lemma generate_all st :
  generate st = write_all (eth_seeds ++ arp_seeds ++ ip_seeds ++ ipv6_seeds ++ tcp_udp_seeds ++ icmp_seeds) st.
Proof. by rewrite !write_all_app. Qed.

Lemma write_all_files files : NoDup files.*1 -> forall st path,
  fst (write_all files st) !! path =
    if decide (path ∈ files.*1) then
      if opens path then (fun f => take (stores path) (snd f)) <$> find (fun f => String.eqb (fst f) path) files
      else fst st !! path
    else fst st !! path.
Proof.
  induction files as [|[p d] files IH]; intros Hnd [fs out] path; [done|]. cbn [fmap list_fmap fst] in Hnd.
  apply NoDup_cons in Hnd as [Hp Hnd]. cbn [write_all find fst]. rewrite IH by done.
  unfold write_file. destruct (String.eqb_spec p path) as [->|Hne].
  - rewrite decide_False by done. rewrite decide_True by (cbn; apply list_elem_of_here).
    destruct (opens path); [|done]. cbn [fst]. rewrite lookup_insert_eq. cbn [fmap option_fmap option_map snd].
    f_equal. destruct d; [by rewrite firstn_nil|]. rewrite zlen_cons. pose proof (zlen_nonneg d).
    by replace (0 <? 1 + zlen d) with true by (symmetry; apply Z.ltb_lt; lia).
  - assert (path ∈ ((p, d) :: files).*1 <-> path ∈ files.*1) as Hin by (cbn; rewrite elem_of_cons; split; [intros [->|?]; done|by right]).
    destruct (decide (path ∈ files.*1)) as [Hi|Hi].
    + rewrite decide_True by (by apply Hin). destruct (opens path); [done|]. destruct (opens p); [|done].
      cbn [fst]. by rewrite lookup_insert_ne.
    + rewrite decide_False by (by rewrite Hin). destruct (opens p); [|done]. cbn [fst]. by rewrite lookup_insert_ne.
Qed.
End Generator.
End corpus.

(** ** The targets never trap *)

Lemma payload_check_ok data size payload k n :
  zlen data = k + zlen payload -> 0 <= k <= size -> size < 2 ^ 32 -> n <= size - k ->
  payload_check data size payload n = Returned.
Proof.
  intros Hz Hk H32 Hn. unfold payload_check. replace (zlen data - zlen payload) with k by lia.
  rewrite u32_small by lia. destruct (Z.ltb_spec k 0); [lia|]. destruct (Z.ltb_spec size k); [lia|].
  by destruct (Z.ltb_spec (size - k) n); [lia|].
Qed.

Lemma zlen_eth_encode h : eth_header_ok h -> zlen (eth_encode h) = eth_header_len h.
Proof.
  intros (Hd & _ & Hs & _). unfold zlen, eth_encode, eth_header_len. rewrite !length_app, Hd, Hs.
  by destruct (has_vlan h).
Qed.

(** The pseudo-header verifier ends on every length, also where its sum wraps around. *)
Lemma verify_ipv4_returns segment len proto : is_bytes segment -> 0 <= len <= zlen segment -> len < 2 ^ 32 - 1 ->
  is_byte proto -> exists b, checksum_verify_ipv4_pseudo segment len DUMMY_SRC_IP DUMMY_DST_IP proto = Ret b.
Proof.
  intros Hb Hl H32 Hp. unfold checksum_verify_ipv4_pseudo. do 8 (rewrite rd_in by done; obind).
  rewrite checksum_partial_spec; [obind| |done|done|done].
  - rewrite checksum_partial_spec by (done || apply u32_range). obind.
    match goal with |- context [fold_carry fold_fuel (u32 ?x)] =>
      destruct (fold_carry_two (u32 x) (u32_range x)) as (r & -> & _) end.
    obind. by eexists.
  - unfold is_bytes. do 8 (apply Forall_cons; split; [by apply (bool_decide_unpack _)|]).
    repeat (apply Forall_cons; split; [first [exact Hp|apply u8_range|by apply (bool_decide_unpack _)]|]). apply Forall_nil. done.
Qed.

Section Targets.
Context (data : list Z) (size : Z) (Hb : is_bytes data) (Hs : 0 <= size <= zlen data) (H32 : size < 2 ^ 32 - 1).

Lemma fuzz_view : u32 size = size /\ valid_view data size.
Proof using Hb Hs H32. split; [apply u32_small; lia|split_and!; [done|lia..]]. Qed.

Lemma fuzz_eth_ok : fuzz_eth data size = Ret Returned.
Proof using Hb Hs H32.
  destruct fuzz_view as [Eu Hv]. unfold fuzz_eth. rewrite Eu.
  destruct (eth_parse_spec data size Hv) as ([[[h p] n]|] & -> & Hr); obind; [|done]. f_equal.
  destruct Hr as (Hok & Ed & -> & Hle & _). apply (payload_check_ok _ _ _ (eth_header_len h)); [|split; [|done]|lia|lia].
  - rewrite Ed at 1. by rewrite zlen_app, zlen_eth_encode.
  - unfold eth_header_len. destruct (has_vlan h); lia.
Qed.

Lemma fuzz_arp_ok : fuzz_arp data size = Ret Returned.
Proof using Hb Hs H32.
  destruct fuzz_view as [Eu Hv]. unfold fuzz_arp. rewrite Eu. by destruct (arp_parse_spec data size Hv) as (r & -> & _).
Qed.

Lemma fuzz_ip_ok : fuzz_ip data size = Ret Returned.
Proof using Hb Hs H32.
  destruct fuzz_view as [Eu Hv]. unfold fuzz_ip. rewrite Eu.
  destruct (ip_parse_spec data size Hv) as ([[[h p] n]|] & -> & Hr); obind; [|done]. f_equal.
  destruct Hr as ((_ & Hi & _) & _ & Hle & -> & -> & _). apply (payload_check_ok _ _ _ (ihl h * 4)); [|lia..|].
  - rewrite zlen_advance by lia. lia.
  - unfold ip_payload_len. zcase; lia.
Qed.

Lemma fuzz_ipv6_ok : fuzz_ipv6 data size = Ret Returned.
Proof using Hb Hs H32.
  destruct fuzz_view as [Eu Hv]. unfold fuzz_ipv6. rewrite Eu.
  destruct (ipv6_parse_spec data size Hv) as ([[[h p] n]|] & -> & Hr); obind; [|done]. f_equal.
  destruct Hr as (Hok & Ed & -> & (_ & Hn & _)). apply (payload_check_ok _ _ _ 40); [|lia..].
  rewrite Ed at 1. rewrite zlen_app. unfold zlen at 1. by rewrite length_ipv6_encode.
Qed.

Lemma fuzz_tcp_udp_ok : fuzz_tcp_udp data size = Ret Returned.
Proof using Hb Hs H32.
  destruct fuzz_view as [Eu Hv]. unfold fuzz_tcp_udp. rewrite Eu.
  assert (forall proto, is_byte proto ->
    exists b, checksum_verify_ipv4_pseudo data size DUMMY_SRC_IP DUMMY_DST_IP proto = Ret b) as Hver
    by (intros; by apply verify_ipv4_returns).
  destruct (tcp_parse_spec data size Hv) as (r & -> & Hr). obind.
  replace (match r with Some (_, payload, n) => payload_check data size payload n | None => Returned end) with Returned.
  2: { destruct r as [[[h p] n]|]; [|done]. destruct Hr as ((_ & _ & _ & _ & Ho & _) & _ & -> & -> & (_ & Hn & _)).
       symmetry. apply (payload_check_ok _ _ _ (tcp.data_offset h * 4)); [rewrite zlen_advance by lia; lia|lia..]. }
  cbn [and_then]. unfold tcp_verify_checksum.
  assert (exists b, (if size <? TCP_HEADER_MIN_LEN then Ret false
    else checksum_verify_ipv4_pseudo data size DUMMY_SRC_IP DUMMY_DST_IP IPV4_PROTO_TCP) = Ret b) as (b & ->).
  { destruct (_ <? _); [by eexists|]. apply Hver. done. }
  obind. destruct (udp_parse_spec data size Hv) as (r' & -> & Hr'). obind.
  replace (match r' with Some (_, payload, n) => payload_check data size payload n | None => Returned end) with Returned.
  2: { destruct r' as [[[h p] n]|]; [|done]. destruct Hr' as (_ & Ed & -> & (_ & Hn & _)).
       symmetry. apply (payload_check_ok _ _ _ 8); [by rewrite Ed at 1; rewrite zlen_app|lia..]. }
  cbn [and_then]. unfold udp_verify_checksum, UDP_HEADER_LEN. destruct (Z.ltb_spec size 8); [done|]. run_reads.
  destruct (_ =? 0); [done|]. destruct (Hver IPV4_PROTO_UDP) as [b' ->]; [done|]. by obind.
Qed.

Lemma fuzz_icmp_ok : fuzz_icmp data size = Ret Returned.
Proof using Hb Hs H32.
  destruct fuzz_view as [Eu Hv]. unfold fuzz_icmp. rewrite Eu.
  destruct (icmp_parse_spec ICMP_FAMILY_V4 data size Hv) as (r & -> & _).
  by destruct (icmp_parse_spec ICMP_FAMILY_V6 data size Hv) as (r' & -> & _).
Qed.
End Targets.

Definition targets : list (list Z -> Z -> outcome fuzz_exit) :=
  [fuzz_eth; fuzz_arp; fuzz_ip; fuzz_ipv6; fuzz_tcp_udp; fuzz_icmp].

Lemma targets_return target data size : target ∈ targets ->
  is_bytes data -> 0 <= size <= zlen data -> size < 2 ^ 32 - 1 -> target data size = Ret Returned.
Proof.
  intros Ht Hb Hs H32. unfold targets in Ht. repeat (apply elem_of_cons in Ht as [->|Ht]; [|]); [..|by apply elem_of_nil in Ht].
  - by apply fuzz_eth_ok.
  - by apply fuzz_arp_ok.
  - by apply fuzz_ip_ok.
  - by apply fuzz_ipv6_ok.
  - by apply fuzz_tcp_udp_ok.
  - by apply fuzz_icmp_ok.
Qed.

(** ** Properties *)

(** A file whose block is new and large enough for its bytes. *)
Definition file_ok (h : handles) (f : seed_file) : Prop :=
  (forall a, f_block f = Some a -> a ∉ h) /\ is_bytes (f_bytes f) /\ f_len f <= zlen (f_bytes f) /\
  f_len f < 2 ^ 32 - 1.
(** A file that can be opened, measured, allocated for and read whole. *)
Definition readable (f : seed_file) : bool :=
  f_open f && f_seek_end f && (0 <=? f_len f) && f_seek_set f && bool_decide (f_block f <> None) &&
  (f_read f =? f_len f).

Lemma replay_ok target files s : target ∈ targets -> Forall (file_ok (heap s)) files ->
  replay target files s = Ret (Some (if forallb readable files then 0 else 1), s).
Proof.
  intros Ht. induction 1 as [|f files (Hf & Hb & Hl & H32) Hfs IH]; [done|]. cbn [replay forallb].
  unfold readable at 1. destruct (f_open f); cbn [negb andb]; [|done].
  assert (forall h, fclose {| n_files := S (n_files s); heap := h |} = Ret {| n_files := n_files s; heap := h |}) as Hc by done.
  assert ({| n_files := n_files s; heap := heap s |} = s) as Es by by destruct s.
  destruct (f_seek_end f); cbn [negb andb]; [|rewrite Hc; obind; by rewrite Es].
  destruct (Z.ltb_spec (f_len f) 0); destruct (Z.leb_spec 0 (f_len f)); try lia; cbn [orb andb];
    [rewrite Hc; obind; by rewrite Es|].
  destruct (f_seek_set f); cbn [negb andb]; [|rewrite Hc; obind; by rewrite Es].
  destruct (f_block f) as [a|]; [|rewrite Hc; obind; by rewrite Es]. specialize (Hf a eq_refl).
  cbn [n_files heap]. rewrite Hc. obind. rewrite bool_decide_eq_true_2 by done. cbn [andb].
  assert (free a {| n_files := n_files s; heap := a :: heap s |} = Ret s) as Hfree.
  { unfold free. cbn [heap n_files]. rewrite release_fresh by done. obind. by rewrite Es. }
  destruct (Z.eqb_spec (f_read f) (f_len f)) as [->|_]; cbn [negb andb]; [|rewrite Hfree; by obind].
  rewrite (targets_return target) by (done || lia). obind. rewrite Hfree. obind. apply IH.
Qed.

(** C40: no input makes a fuzz target trap or read outside its buffer: each of the six returns on
    every buffer of less than 4 GiB; replaying files against one of them gives back every file
    and block on every path, and exits with 0 exactly when there is a file and all are read. *)
Theorem fuzz_never_traps target : target ∈ targets ->
  (forall data size, is_bytes data -> 0 <= size <= zlen data -> size < 2 ^ 32 - 1 ->
     target data size = Ret Returned) /\
  (forall files s, Forall (file_ok (heap s)) files ->
     driver_main target files s =
       Ret (Some (if bool_decide (files <> []) && forallb readable files then 0 else 1), s)).
Proof.
  intros Ht. split; [intros; by apply targets_return|]. intros [|f files] s Hf; [done|].
  unfold driver_main. rewrite replay_ok by done. by rewrite bool_decide_eq_true_2.
Qed.

Lemma fuzz_never_traps_witness :
  (forall data size, is_bytes data -> 0 <= size <= zlen data -> size < 2 ^ 32 - 1 ->
     fuzz_tcp_udp data size = Ret Returned) /\
  (forall files s, Forall (file_ok (heap s)) files ->
     driver_main fuzz_tcp_udp files s =
       Ret (Some (if bool_decide (files <> []) && forallb readable files then 0 else 1), s)).
Proof. apply fuzz_never_traps. unfold targets. do 4 right. left. Defined.

(** Whether a parser accepts a buffer. *)
Definition accepts {R} (parse : option (list Z) -> Z -> out_arg -> outcome (option R)) (data : list Z) : bool :=
  match parse (Some data) (zlen data) Dest with Ret (Some _) => true | _ => false end.
Definition icmp4_parse (data : option (list Z)) (len : Z) (out : out_arg) : outcome (option icmp_header_t) :=
  icmp_parse data len ICMP_FAMILY_V4 out.

(** The seeds are past the parsers' first checks, as the generator means them to be, the
    truncated ones are not, and the echo request carries a correct checksum. *)
Theorem seeds_as_meant :
  accepts eth_parse corpus.eth_ipv4_frame && accepts eth_parse corpus.eth_vlan_frame &&
  accepts arp_parse corpus.arp_request && accepts ip_parse corpus.ip_basic &&
  accepts ip_parse corpus.ip_with_options && accepts ipv6_parse corpus.ipv6_basic &&
  accepts tcp_parse corpus.tcp_basic && accepts udp_parse corpus.udp_basic &&
  accepts icmp4_parse corpus.icmp_echo_request = true /\
  accepts eth_parse corpus.eth_truncated || accepts arp_parse (take 10 corpus.arp_request) ||
  accepts ip_parse (take 10 corpus.ip_basic) || accepts ipv6_parse (take 15 corpus.ipv6_basic) ||
  accepts tcp_parse (take 6 corpus.tcp_basic) || accepts icmp4_parse (take 4 corpus.icmp_echo_request) = false /\
  icmpv4_verify_checksum (Some corpus.icmp_echo_request) 8 = Ret true.
Proof. by vm_compute. Qed.

(** The generator leaves the bytes meant for each file in it, when every file can be opened and
    written in full, whatever the files held before. *)
Theorem generate_writes opens stores st path data :
  (path, data) ∈ corpus.eth_seeds ++ corpus.arp_seeds ++ corpus.ip_seeds ++ corpus.ipv6_seeds ++
    corpus.tcp_udp_seeds ++ corpus.icmp_seeds ->
  opens path = true -> (length data <= stores path)%nat ->
  fst (corpus.generate opens stores st) !! path = Some data.
Proof.
  intros Hin Ho Hs. rewrite corpus.generate_all, corpus.write_all_files.
  2: { apply (bool_decide_unpack _). vm_compute. exact I. }
  rewrite decide_True, Ho by (apply list_elem_of_fmap; by exists (path, data)). clear Ho.
  apply list_elem_of_In in Hin. cbn in Hin. repeat destruct Hin as [Hin|Hin]; try done; injection Hin as <- <-;
    cbn; f_equal; by rewrite firstn_all2.
Qed.
